(** * The dataset pool of gdalproxypool.cpp, and the proxy dataset on top of it

    A shallow embedding of [GDALDatasetPool] (the LRU cache of opened
    datasets) and of the parts of [GDALProxyPoolDataset] that go through it.

    Representation choices.
    - The intrusive doubly-linked list [firstEntry .. lastEntry] is the list
      [entries] of the pool, head first: [prev]/[next] are the neighbours in
      that list.  A [GDALProxyPoolCacheEntry*] is the address [self] of the
      record; records are never freed before the pool is destroyed, so an
      address names the same slot for the whole life of the pool.  Module
      [Links] has the pointers themselves and the statements that rewrite
      them; [move_to_begin_links] and [prepend_links] relate the two.
    - [int], [GIntBig] and [int64_t] are [Z].  Signed overflow is undefined
      behaviour in C++; the model covers the executions without it.  For the
      RAM of the pool, [reachable_int64] are the states reached without it.
    - The mutex is not modelled: every function below is one critical
      section, except the open in [_RefDataset], which is cut in two at the
      place where the mutex is released ([_RefDataset_prepare] and
      [_RefDataset_complete]); [pool_step] interleaves the critical sections
      of several threads.  [_RefDataset] itself runs the two halves in a
      row: it is the request during whose open no other thread enters the
      pool, and what it says of the place of an entry in the list holds of
      such a run only.
    - The backend ([GDALDataset::Open], [GDALClose], the metadata getters of
      the underlying dataset) is an oracle that answers from the log of the
      backend calls made so far; it does not call back into the pool.
    - A result of type [option] is [None] where the C++ dereferences a null
      or dangling pointer, or where a loop runs out of fuel; the facts below
      show that neither happens in a well-formed pool. *)

From Stdlib Require Import ZArith List String Bool Lia Arith.
Import ListNotations.
Local Open Scope string_scope.
Local Open Scope list_scope.
Local Open Scope Z_scope.

Set Implicit Arguments.

(** ** Data *)

Inductive GDALAccess := GA_ReadOnly | GA_Update.

(** A dataset handle, with what [GetEstimatedRAMUsage()] answers for it. *)
Record GDALDataset := mkDS {
  ds_handle : nat;
  GetEstimatedRAMUsage : Z
}.

Record GDALProxyPoolCacheEntry := mkEntry {
  self : nat;
  responsiblePID : Z;
  pszFileNameAndOpenOptions : option string;
  pszOwner : option string;
  poDS : option GDALDataset;
  nRAMUsage : Z;
  refCount : Z
}.

Record GDALDatasetPool := mkPool {
  bInDestruction : bool;
  pool_refCount : Z;
  maxSize : Z;
  currentSize : Z;
  nMaxRAMUsage : Z;
  pool_nRAMUsage : Z;
  entries : list GDALProxyPoolCacheEntry
}.

(** What the pool and the proxy do to the outside, newest first.  [EvOpen] and [EvClose]
    carry the responsible PID of the thread and the value of
    [refCountOfDisabledRefCount] at the time of the call. *)
Inductive Event :=
| EvOpen (pszFileName : string) (nFlag : Z) (papszOpenOptions : list string)
         (pid : Z) (disabled : Z) (res : option GDALDataset)
| EvClose (ds : GDALDataset) (pid : Z) (disabled : Z)
| EvGetMetadata (ds : GDALDataset) (pszDomain : option string)
| EvGetMetadataItem (ds : GDALDataset) (pszName pszDomain : option string)
| EvCPLError (poolSize : Z)
| EvAssertFailed.

(** The thread-local state: the responsible PID of the current thread,
    [refCountOfDisabledRefCount], and the log. *)
Record Thread := mkThread {
  curResponsiblePID : Z;
  refCountOfDisabledRefCount : Z;
  log : list Event
}.

(** The backend, with the flag constants of gdal.h that the open uses. *)
Record Backend := mkBackend {
  GDAL_OF_READONLY : Z;
  GDAL_OF_UPDATE : Z;
  GDAL_OF_RASTER : Z;
  GDAL_OF_VERBOSE_ERROR : Z;
  GDALDataset_Open : list Event -> string -> Z -> list string -> option GDALDataset;
  ds_GetMetadata : list Event -> GDALDataset -> option string -> option (list string);
  ds_GetMetadataItem : list Event -> GDALDataset -> option string -> option string -> option string
}.

(** ** Thread-local primitives *)

Definition GDALGetResponsiblePIDForCurrentThread (t : Thread) : Z :=
  curResponsiblePID t.

Definition GDALSetResponsiblePIDForCurrentThread (pid : Z) (t : Thread) : Thread :=
  mkThread pid (refCountOfDisabledRefCount t) (log t).

Definition incr_disabled (t : Thread) : Thread :=
  mkThread (curResponsiblePID t) (refCountOfDisabledRefCount t + 1) (log t).

Definition decr_disabled (t : Thread) : Thread :=
  mkThread (curResponsiblePID t) (refCountOfDisabledRefCount t - 1) (log t).

Definition emit (e : Event) (t : Thread) : Thread :=
  mkThread (curResponsiblePID t) (refCountOfDisabledRefCount t) (e :: log t).

Definition GDALClose (ds : GDALDataset) (t : Thread) : Thread :=
  emit (EvClose ds (curResponsiblePID t) (refCountOfDisabledRefCount t)) t.

(** ** The list of entries *)

Definition is_entry (a : nat) (e : GDALProxyPoolCacheEntry) : bool :=
  Nat.eqb (self e) a.

(** The record that the pointer [a] designates. *)
Definition entry_at (a : nat) (l : list GDALProxyPoolCacheEntry)
  : option GDALProxyPoolCacheEntry :=
  find (is_entry a) l.

(** Assignment through the pointer [a]: the record becomes [f] of itself. *)
Definition update_at (a : nat) (f : GDALProxyPoolCacheEntry -> GDALProxyPoolCacheEntry)
  (l : list GDALProxyPoolCacheEntry) : list GDALProxyPoolCacheEntry :=
  map (fun e => if is_entry a e then f e else e) l.

(** Taking [a] out of the chain: its neighbours are linked to each other. *)
Definition unlink (a : nat) (l : list GDALProxyPoolCacheEntry)
  : list GDALProxyPoolCacheEntry :=
  filter (fun e => negb (is_entry a e)) l.

(** [a == firstEntry]. *)
Definition is_firstEntry (a : nat) (l : list GDALProxyPoolCacheEntry) : bool :=
  match l with
  | [] => false
  | e :: _ => is_entry a e
  end.

(** The "move to begin" of both the lookup and the recycling: [a] is taken
    out of the chain and linked in front of [firstEntry]. *)
Definition move_to_begin (a : nat) (l : list GDALProxyPoolCacheEntry)
  : list GDALProxyPoolCacheEntry :=
  match entry_at a l with
  | Some e => e :: unlink a l
  | None => l
  end.

(** [CPLCalloc]: an address that no record of the list has. *)
Definition CPLCalloc (l : list GDALProxyPoolCacheEntry) : nat :=
  S (fold_right Nat.max 0%nat (map self l)).

Definition set_entries (l : list GDALProxyPoolCacheEntry) (p : GDALDatasetPool)
  : GDALDatasetPool :=
  mkPool (bInDestruction p) (pool_refCount p) (maxSize p) (currentSize p)
         (nMaxRAMUsage p) (pool_nRAMUsage p) l.

Definition set_pool_nRAMUsage (r : Z) (p : GDALDatasetPool) : GDALDatasetPool :=
  mkPool (bInDestruction p) (pool_refCount p) (maxSize p) (currentSize p)
         (nMaxRAMUsage p) r (entries p).

Definition set_currentSize (n : Z) (p : GDALDatasetPool) : GDALDatasetPool :=
  mkPool (bInDestruction p) (pool_refCount p) (maxSize p) n
         (nMaxRAMUsage p) (pool_nRAMUsage p) (entries p).

(** ** GetFilenameAndOpenOptions *)

Definition GetFilenameAndOpenOptions (pszFileName : string)
  (papszOpenOptions : list string) : string :=
  fold_left (fun osFilenameAndOO o => (osFilenameAndOO ++ "||" ++ o)%string)
            papszOpenOptions pszFileName.

(** ** EvictEntryWithZeroRefCount *)

Definition evictable (evictEntryWithOpenedDataset : bool)
  (cur : GDALProxyPoolCacheEntry) : bool :=
  (refCount cur =? 0) && (negb evictEntryWithOpenedDataset || (0 <? nRAMUsage cur)).

(** The walk from [firstEntry] along [next]: [candidate] ends as the last
    record that qualifies. *)
Fixpoint find_candidate (evictEntryWithOpenedDataset : bool)
  (l : list GDALProxyPoolCacheEntry) (candidate : option GDALProxyPoolCacheEntry)
  : option GDALProxyPoolCacheEntry :=
  match l with
  | [] => candidate
  | cur :: next =>
      find_candidate evictEntryWithOpenedDataset next
        (if evictable evictEntryWithOpenedDataset cur then Some cur else candidate)
  end.

(** The candidate once emptied: no RAM, no key, no dataset, no owner. *)
Definition emptied (candidate : GDALProxyPoolCacheEntry) : GDALProxyPoolCacheEntry :=
  mkEntry (self candidate) (responsiblePID candidate) None None None 0
          (refCount candidate).

(** Closing the dataset of an entry, "by pretending we are the thread that
    GDALOpen'ed this dataset"; [responsiblePID] is the PID saved on entry of
    the enclosing function. *)
Definition close_as_opener (responsiblePID0 : Z) (opener : Z) (ds : GDALDataset)
  (t : Thread) : Thread :=
  let t := GDALSetResponsiblePIDForCurrentThread opener t in
  let t := incr_disabled t in
  let t := GDALClose ds t in
  let t := decr_disabled t in
  GDALSetResponsiblePIDForCurrentThread responsiblePID0 t.

Definition EvictEntryWithZeroRefCount (responsiblePID0 : Z)
  (evictEntryWithOpenedDataset : bool) (p : GDALDatasetPool) (t : Thread)
  : bool * GDALDatasetPool * Thread :=
  match find_candidate evictEntryWithOpenedDataset (entries p) None with
  | None => (false, p, t)
  | Some candidate =>
      let p := set_pool_nRAMUsage (pool_nRAMUsage p - nRAMUsage candidate) p in
      let t := match poDS candidate with
               | Some ds => close_as_opener responsiblePID0 (responsiblePID candidate) ds t
               | None => t
               end in
      let l := update_at (self candidate) emptied (entries p) in
      let l := if negb evictEntryWithOpenedDataset
                  && negb (is_firstEntry (self candidate) l)
               then move_to_begin (self candidate) l
               else l in
      (true, set_entries l p, t)
  end.

(** ** _RefDataset *)

Definition owner_equal (pszOwner1 pszOwner2 : option string) : bool :=
  match pszOwner1, pszOwner2 with
  | None, None => true
  | Some o1, Some o2 => String.eqb o1 o2
  | _, _ => false
  end.

(** The condition of the lookup loop. *)
Definition entry_matches (osFilenameAndOO : string) (bShared : bool)
  (responsiblePID0 : Z) (pszOwner0 : option string)
  (cur : GDALProxyPoolCacheEntry) : bool :=
  (0 <=? refCount cur)
  && match pszFileNameAndOpenOptions cur with
     | Some k => String.eqb osFilenameAndOO k
     | None => false
     end
  && ((bShared && (responsiblePID cur =? responsiblePID0)
               && owner_equal (pszOwner cur) pszOwner0)
      || (negb bShared && (refCount cur =? 0))).

Definition incr_refCount (e : GDALProxyPoolCacheEntry) : GDALProxyPoolCacheEntry :=
  mkEntry (self e) (responsiblePID e) (pszFileNameAndOpenOptions e) (pszOwner e)
          (poDS e) (nRAMUsage e) (refCount e + 1).

(** The record that [CPLCalloc] returns: all fields zero. *)
Definition calloc_entry (a : nat) : GDALProxyPoolCacheEntry :=
  mkEntry a 0 None None None 0 0.

(** Lines 399-403: the slot is taken for the request and marked as loading. *)
Definition install (osFilenameAndOO : string) (pszOwner0 : option string)
  (responsiblePID0 : Z) (cur : GDALProxyPoolCacheEntry) : GDALProxyPoolCacheEntry :=
  mkEntry (self cur) responsiblePID0 (Some osFilenameAndOO) pszOwner0
          (poDS cur) 0 (-1).

(** Where the first half of [_RefDataset] ends: with the value it returns, or
    at the release of the mutex with [cur] to be opened. *)
Inductive Prepared :=
| Return (r : option nat)
| Opening (cur : nat).

Definition _RefDataset_prepare (pszFileName : string)
  (papszOpenOptions : list string) (bShared bForceOpen : bool)
  (pszOwner0 : option string) (p : GDALDatasetPool) (t : Thread)
  : Prepared * GDALDatasetPool * Thread :=
  if bInDestruction p then (Return None, p, t)
  else
    let responsiblePID0 := GDALGetResponsiblePIDForCurrentThread t in
    let osFilenameAndOO := GetFilenameAndOpenOptions pszFileName papszOpenOptions in
    match find (entry_matches osFilenameAndOO bShared responsiblePID0 pszOwner0)
               (entries p) with
    | Some cur =>
        let l := if negb (is_firstEntry (self cur) (entries p))
                 then move_to_begin (self cur) (entries p)
                 else entries p in
        (Return (Some (self cur)),
         set_entries (update_at (self cur) incr_refCount l) p, t)
    | None =>
        if negb bForceOpen then (Return None, p, t)
        else
          let taken :=
            if currentSize p =? maxSize p then
              match EvictEntryWithZeroRefCount responsiblePID0 false p t with
              | (false, p, t) => (None, p, emit (EvCPLError (maxSize p)) t)
              | (true, p, t) =>
                  (* CPLAssert(firstEntry); cur = firstEntry; *)
                  (option_map self (hd_error (entries p)), p, t)
              end
            else
              let cur := CPLCalloc (entries p) in
              (Some cur,
               set_currentSize (currentSize p + 1)
                 (set_entries (calloc_entry cur :: entries p) p), t) in
          match taken with
          | (None, p, t) => (Return None, p, t)
          | (Some cur, p, t) =>
              (Opening cur,
               set_entries (update_at cur (install osFilenameAndOO pszOwner0 responsiblePID0)
                                      (entries p)) p,
               incr_disabled t)
          end
    end.

Definition nFlag (B : Backend) (eAccess : GDALAccess) : Z :=
  Z.lor (Z.lor (match eAccess with
                | GA_Update => GDAL_OF_UPDATE B
                | GA_ReadOnly => GDAL_OF_READONLY B
                end) (GDAL_OF_RASTER B)) (GDAL_OF_VERBOSE_ERROR B).

(** The call of [GDALDataset::Open], made with the mutex released. *)
Definition do_Open (B : Backend) (pszFileName : string) (eAccess : GDALAccess)
  (papszOpenOptions : list string) (t : Thread) : option GDALDataset * Thread :=
  let res := GDALDataset_Open B (log t) pszFileName (nFlag B eAccess) papszOpenOptions in
  (res, emit (EvOpen pszFileName (nFlag B eAccess) papszOpenOptions
                     (curResponsiblePID t) (refCountOfDisabledRefCount t) res) t).

(** Lines 417-427 on [cur]. *)
Definition opened (res : option GDALDataset) (cur : GDALProxyPoolCacheEntry)
  : GDALProxyPoolCacheEntry :=
  mkEntry (self cur) (responsiblePID cur) (pszFileNameAndOpenOptions cur)
          (pszOwner cur) res
          (match res with
           | Some ds => Z.max 0 (GetEstimatedRAMUsage ds)
           | None => nRAMUsage cur
           end) 1.

(** The loop of lines 431-435.  [None]: the fuel did not suffice, or [cur]
    is not a record of the list. *)
Fixpoint evict_for_RAM (fuel : nat) (responsiblePID0 : Z) (cur : nat)
  (p : GDALDatasetPool) (t : Thread) : option (GDALDatasetPool * Thread) :=
  match fuel with
  | O => None
  | S fuel =>
      match entry_at cur (entries p) with
      | None => None
      | Some c =>
          if (nMaxRAMUsage p <? pool_nRAMUsage p)
             && negb (pool_nRAMUsage p =? nRAMUsage c)
          then
            match EvictEntryWithZeroRefCount responsiblePID0 true p t with
            | (true, p, t) => evict_for_RAM fuel responsiblePID0 cur p t
            | (false, p, t) => Some (p, t)
            end
          else Some (p, t)
      end
  end.

(** The second half of [_RefDataset], from the mutex taken again. *)
Definition _RefDataset_complete (responsiblePID0 : Z) (cur : nat)
  (res : option GDALDataset) (p : GDALDatasetPool) (t : Thread)
  : option (GDALDatasetPool * Thread) :=
  match entry_at cur (entries p) with
  | None => None
  | Some c0 =>
      let p := set_entries (update_at cur (opened res) (entries p)) p in
      let t := decr_disabled t in
      let c := opened res c0 in
      let p := match res with
               | Some _ => set_pool_nRAMUsage (pool_nRAMUsage p + nRAMUsage c) p
               | None => p
               end in
      if (0 <? nMaxRAMUsage p) && (0 <? nRAMUsage c)
      then evict_for_RAM (S (List.length (entries p))) responsiblePID0 cur p t
      else Some (p, t)
  end.

(** The two halves and the open between them, for a request during whose
    open no other thread enters the pool.  The source releases the mutex
    around the open (lines 412-415): the critical sections of other requests
    that can run there are [during_open], further down, and
    [RefDataset_uninterleaved] places this function among the runs of
    [pool_step]. *)
Definition _RefDataset (B : Backend) (pszFileName : string) (eAccess : GDALAccess)
  (papszOpenOptions : list string) (bShared bForceOpen : bool)
  (pszOwner0 : option string) (p : GDALDatasetPool) (t : Thread)
  : option (option nat * GDALDatasetPool * Thread) :=
  let responsiblePID0 := GDALGetResponsiblePIDForCurrentThread t in
  match _RefDataset_prepare pszFileName papszOpenOptions bShared bForceOpen
                            pszOwner0 p t with
  | (Return r, p, t) => Some (r, p, t)
  | (Opening cur, p, t) =>
      let '(res, t) := do_Open B pszFileName eAccess papszOpenOptions t in
      match _RefDataset_complete responsiblePID0 cur res p t with
      | Some (p, t) => Some (Some cur, p, t)
      | None => None
      end
  end.

(** ** _CloseDatasetIfZeroRefCount, UnrefDataset *)

Definition close_matches (osFilenameAndOO : string) (pszOwner0 : option string)
  (cur : GDALProxyPoolCacheEntry) : bool :=
  (refCount cur =? 0)
  && match pszFileNameAndOpenOptions cur with
     | Some k => String.eqb osFilenameAndOO k
     | None => false
     end
  && owner_equal (pszOwner cur) pszOwner0
  && match poDS cur with Some _ => true | None => false end.

Definition _CloseDatasetIfZeroRefCount (pszFileName : string)
  (papszOpenOptions : list string) (pszOwner0 : option string)
  (p : GDALDatasetPool) (t : Thread) : GDALDatasetPool * Thread :=
  if bInDestruction p then (p, t)
  else
    let responsiblePID0 := GDALGetResponsiblePIDForCurrentThread t in
    let osFilenameAndOO := GetFilenameAndOpenOptions pszFileName papszOpenOptions in
    match find (close_matches osFilenameAndOO pszOwner0) (entries p) with
    | None => (p, t)
    | Some cur =>
        match poDS cur with
        | None => (p, t)
        | Some ds =>
            let t := GDALSetResponsiblePIDForCurrentThread (responsiblePID cur) t in
            let p := set_pool_nRAMUsage (pool_nRAMUsage p - nRAMUsage cur) p in
            let p := set_entries (update_at (self cur) emptied (entries p)) p in
            let t := incr_disabled t in
            let t := GDALClose ds t in
            let t := decr_disabled t in
            (p, GDALSetResponsiblePIDForCurrentThread responsiblePID0 t)
        end
    end.

Definition decr_refCount (e : GDALProxyPoolCacheEntry) : GDALProxyPoolCacheEntry :=
  mkEntry (self e) (responsiblePID e) (pszFileNameAndOpenOptions e) (pszOwner e)
          (poDS e) (nRAMUsage e) (refCount e - 1).

Definition UnrefDataset (cacheEntry : nat) (p : GDALDatasetPool) : GDALDatasetPool :=
  set_entries (update_at cacheEntry decr_refCount (entries p)) p.

(** ** The singleton: Ref, Unref, PreventDestroy, ForceDestroy *)

(** The process as one thread sees it: the [singleton] pointer and the
    thread's own state. *)
Record World := mkWorld {
  singleton : option GDALDatasetPool;
  thread : Thread
}.

(** What [Ref] reads from the configuration; [atoi] and [strtoll] are the
    C library's, so their results are taken as given. *)
Record Config := mkConfig {
  atoi_GDAL_MAX_DATASET_POOL_SIZE : Z;
  CPLGetUsablePhysicalRAM : Z;
  GDALGetCacheMax64 : Z;
  GDAL_MAX_DATASET_POOL_RAM_USAGE : option string;
  strtoll : string -> Z
}.

Definition GDALGetMaxDatasetPoolSize (cfg : Config) : Z :=
  let nSize := atoi_GDAL_MAX_DATASET_POOL_SIZE cfg in
  if nSize <? 2 then 2
  else if 1000 <? nSize then 1000
  else nSize.

Definition strstr (haystack needle : string) : bool :=
  match String.index 0 needle haystack with
  | Some _ => true
  | None => false
  end.

Definition l_nMaxRAMUsage (cfg : Config) : Z :=
  match GDAL_MAX_DATASET_POOL_RAM_USAGE cfg with
  | None => Z.quot (CPLGetUsablePhysicalRAM cfg - GDALGetCacheMax64 cfg) 4
  | Some pszMaxRAMUsage =>
      let v := strtoll cfg pszMaxRAMUsage in
      if strstr pszMaxRAMUsage "MB" then v * (1024 * 1024)
      else if strstr pszMaxRAMUsage "GB" then v * (1024 * 1024 * 1024)
      else v
  end.

(** [new GDALDatasetPool(maxSize, nMaxRAMUsage)]. *)
Definition new_GDALDatasetPool (maxSizeIn nMaxRAMUsageIn : Z) : GDALDatasetPool :=
  mkPool false 0 maxSizeIn 0 nMaxRAMUsageIn 0 [].

Definition set_pool_refCount (n : Z) (p : GDALDatasetPool) : GDALDatasetPool :=
  mkPool (bInDestruction p) n (maxSize p) (currentSize p)
         (nMaxRAMUsage p) (pool_nRAMUsage p) (entries p).

(** [CPLAssert(c)]: compiled in debug builds only.  The log records where
    the condition is false; the execution goes on as in a release build. *)
Definition CPLAssert (c : bool) (t : Thread) : Thread :=
  if c then t else emit EvAssertFailed t.

(** One turn of the loop of [~GDALDatasetPool]. *)
Definition destroy_entry (t : Thread) (cur : GDALProxyPoolCacheEntry) : Thread :=
  let t := CPLAssert (refCount cur =? 0) t in
  match poDS cur with
  | Some ds => GDALClose ds (GDALSetResponsiblePIDForCurrentThread (responsiblePID cur) t)
  | None => t
  end.

(** [~GDALDatasetPool]: every record is freed, so only the thread remains. *)
Definition delete_GDALDatasetPool (p : GDALDatasetPool) (t : Thread) : Thread :=
  let responsiblePID0 := GDALGetResponsiblePIDForCurrentThread t in
  let t := fold_left destroy_entry (entries p) t in
  GDALSetResponsiblePIDForCurrentThread responsiblePID0 t.

Definition Ref (cfg : Config) (w : World) : World :=
  let s := match singleton w with
           | None => new_GDALDatasetPool (GDALGetMaxDatasetPoolSize cfg) (l_nMaxRAMUsage cfg)
           | Some s => s
           end in
  let s := if refCountOfDisabledRefCount (thread w) =? 0
           then set_pool_refCount (pool_refCount s + 1) s
           else s in
  mkWorld (Some s) (thread w).

Definition PreventDestroy (w : World) : World :=
  match singleton w with
  | None => w
  | Some s => mkWorld (Some s) (incr_disabled (thread w))
  end.

Definition Unref (w : World) : World :=
  match singleton w with
  | None => mkWorld None (CPLAssert false (thread w))
  | Some s =>
      if refCountOfDisabledRefCount (thread w) =? 0 then
        let s := set_pool_refCount (pool_refCount s - 1) s in
        if pool_refCount s =? 0
        then mkWorld None (delete_GDALDatasetPool s (thread w))
        else mkWorld (Some s) (thread w)
      else w
  end.

Definition ForceDestroy (w : World) : World :=
  match singleton w with
  | None => w
  | Some s =>
      let t := decr_disabled (thread w) in
      let t := CPLAssert (refCountOfDisabledRefCount t =? 0) t in
      let s := set_pool_refCount 0 s in
      mkWorld None (delete_GDALDatasetPool s t)
  end.

(** The static wrappers.  [None]: [singleton] is null, or the cache entry is
    not a record of the pool. *)
Definition RefDataset (B : Backend) (pszFileName : string) (eAccess : GDALAccess)
  (papszOpenOptions : list string) (bShared bForceOpen : bool)
  (pszOwner0 : option string) (w : World) : option (option nat * World) :=
  match singleton w with
  | None => None
  | Some s =>
      match _RefDataset B pszFileName eAccess papszOpenOptions bShared bForceOpen
                        pszOwner0 s (thread w) with
      | Some (r, s, t) => Some (r, mkWorld (Some s) t)
      | None => None
      end
  end.

Definition UnrefDataset_static (cacheEntry : nat) (w : World) : option World :=
  match singleton w with
  | None => None
  | Some s =>
      match entry_at cacheEntry (entries s) with
      | None => None
      | Some _ => Some (mkWorld (Some (UnrefDataset cacheEntry s)) (thread w))
      end
  end.

Definition CloseDatasetIfZeroRefCount (pszFileName : string)
  (papszOpenOptions : list string) (pszOwner0 : option string) (w : World)
  : option World :=
  match singleton w with
  | None => None
  | Some s =>
      let '(s, t) := _CloseDatasetIfZeroRefCount pszFileName papszOpenOptions
                                                  pszOwner0 s (thread w) in
      Some (mkWorld (Some s) t)
  end.

(** ** GDALProxyPoolDataset *)

Record GetMetadataElt := mkGetMetadataElt {
  elt_pszDomain : option string;
  papszMetadata : option (list string)
}.

Record GetMetadataItemElt := mkGetMetadataItemElt {
  item_pszName : option string;
  item_pszDomain : option string;
  pszMetadataItem : option string
}.

(** The two operations of cpl_hash_set.h that the proxy uses on a set of
    elements of type [A].  The hash, equality and free functions that the
    source hands to [CPLHashSetNew] are fixed per set, so they are part of
    the implementation here. *)
Record CPLHashSetOps (A : Type) := mkCPLHashSetOps {
  CPLHashSet : Type;
  CPLHashSetNew : CPLHashSet;
  CPLHashSetInsert : CPLHashSet -> A -> CPLHashSet
}.

Section Proxy.

Variable B : Backend.
Variable MD : CPLHashSetOps GetMetadataElt.
Variable MDI : CPLHashSetOps GetMetadataItemElt.

Record GDALProxyPoolDataset := mkProxy {
  GetDescription : string;
  papszOpenOptions : list string;
  eAccess : GDALAccess;
  GetShared : bool;
  proxy_responsiblePID : Z;
  m_pszOwner : option string;
  metadataSet : option (CPLHashSet MD);
  metadataItemSet : option (CPLHashSet MDI);
  cacheEntry : option nat
}.

Definition set_cacheEntry (c : option nat) (d : GDALProxyPoolDataset)
  : GDALProxyPoolDataset :=
  mkProxy (GetDescription d) (papszOpenOptions d) (eAccess d) (GetShared d)
          (proxy_responsiblePID d) (m_pszOwner d) (metadataSet d)
          (metadataItemSet d) c.

Definition set_metadataSet (m : option (CPLHashSet MD)) (d : GDALProxyPoolDataset)
  : GDALProxyPoolDataset :=
  mkProxy (GetDescription d) (papszOpenOptions d) (eAccess d) (GetShared d)
          (proxy_responsiblePID d) (m_pszOwner d) m (metadataItemSet d)
          (cacheEntry d).

Definition set_metadataItemSet (m : option (CPLHashSet MDI))
  (d : GDALProxyPoolDataset) : GDALProxyPoolDataset :=
  mkProxy (GetDescription d) (papszOpenOptions d) (eAccess d) (GetShared d)
          (proxy_responsiblePID d) (m_pszOwner d) (metadataSet d) m
          (cacheEntry d).

Definition set_thread (t : Thread) (w : World) : World :=
  mkWorld (singleton w) t.

(** [cacheEntry->poDS], for a cache entry of the pool. *)
Definition cacheEntry_poDS (a : nat) (w : World) : option (option GDALDataset) :=
  match singleton w with
  | None => None
  | Some s => option_map poDS (entry_at a (entries s))
  end.

Definition RefUnderlyingDataset (bForceOpen : bool) (d : GDALProxyPoolDataset)
  (w : World) : option (option GDALDataset * GDALProxyPoolDataset * World) :=
  let curResponsiblePID0 := GDALGetResponsiblePIDForCurrentThread (thread w) in
  let w := set_thread (GDALSetResponsiblePIDForCurrentThread
                         (proxy_responsiblePID d) (thread w)) w in
  match RefDataset B (GetDescription d) (eAccess d) (papszOpenOptions d)
                   (GetShared d) bForceOpen (m_pszOwner d) w with
  | None => None
  | Some (c, w) =>
      let d := set_cacheEntry c d in
      let w := set_thread (GDALSetResponsiblePIDForCurrentThread
                             curResponsiblePID0 (thread w)) w in
      match c with
      | None => Some (None, d, w)
      | Some a =>
          match cacheEntry_poDS a w with
          | None => None
          | Some (Some ds) => Some (Some ds, d, w)
          | Some None =>
              match UnrefDataset_static a w with
              | Some w => Some (None, d, w)
              | None => None
              end
          end
      end
  end.

Definition GDALDataset_eqb (ds1 ds2 : GDALDataset) : bool :=
  Nat.eqb (ds_handle ds1) (ds_handle ds2)
  && (GetEstimatedRAMUsage ds1 =? GetEstimatedRAMUsage ds2).

Definition UnrefUnderlyingDataset (poUnderlyingDataset : GDALDataset)
  (d : GDALProxyPoolDataset) (w : World) : option World :=
  match cacheEntry d with
  | None => Some w
  | Some a =>
      match cacheEntry_poDS a w with
      | None => None
      | Some None => Some (set_thread (CPLAssert false (thread w)) w)
      | Some (Some ds) =>
          let w := set_thread (CPLAssert (GDALDataset_eqb ds poUnderlyingDataset)
                                         (thread w)) w in
          UnrefDataset_static a w
      end
  end.

Definition GetMetadata (pszDomain : option string) (d : GDALProxyPoolDataset)
  (w : World) : option (option (list string) * GDALProxyPoolDataset * World) :=
  let d := match metadataSet d with
           | None => set_metadataSet (Some (CPLHashSetNew MD)) d
           | Some _ => d
           end in
  match RefUnderlyingDataset true d w with
  | None => None
  | Some (None, d, w) => Some (None, d, w)
  | Some (Some poUnderlyingDataset, d, w) =>
      let papszUnderlyingMetadata :=
        ds_GetMetadata B (log (thread w)) poUnderlyingDataset pszDomain in
      let w := set_thread (emit (EvGetMetadata poUnderlyingDataset pszDomain)
                                (thread w)) w in
      let pElt := mkGetMetadataElt pszDomain papszUnderlyingMetadata in
      let d := set_metadataSet
                 (option_map (fun s => CPLHashSetInsert MD s pElt) (metadataSet d)) d in
      match UnrefUnderlyingDataset poUnderlyingDataset d w with
      | None => None
      | Some w => Some (papszMetadata pElt, d, w)
      end
  end.

Definition GetMetadataItem (pszName pszDomain : option string)
  (d : GDALProxyPoolDataset) (w : World)
  : option (option string * GDALProxyPoolDataset * World) :=
  let d := match metadataItemSet d with
           | None => set_metadataItemSet (Some (CPLHashSetNew MDI)) d
           | Some _ => d
           end in
  match RefUnderlyingDataset true d w with
  | None => None
  | Some (None, d, w) => Some (None, d, w)
  | Some (Some poUnderlyingDataset, d, w) =>
      let pszUnderlyingMetadataItem :=
        ds_GetMetadataItem B (log (thread w)) poUnderlyingDataset pszName pszDomain in
      let w := set_thread (emit (EvGetMetadataItem poUnderlyingDataset pszName pszDomain)
                                (thread w)) w in
      let pElt := mkGetMetadataItemElt pszName pszDomain pszUnderlyingMetadataItem in
      let d := set_metadataItemSet
                 (option_map (fun s => CPLHashSetInsert MDI s pElt) (metadataItemSet d)) d in
      match UnrefUnderlyingDataset poUnderlyingDataset d w with
      | None => None
      | Some w => Some (pszMetadataItem pElt, d, w)
      end
  end.

End Proxy.

(** ** Invariants and the words of the specification *)

Unset Implicit Arguments.

Definition addresses (l : list GDALProxyPoolCacheEntry) : list nat := map self l.

(** "Sum of [ram_estimate] over all entries". *)
Fixpoint ram_sum (l : list GDALProxyPoolCacheEntry) : Z :=
  match l with
  | [] => 0
  | e :: l => nRAMUsage e + ram_sum l
  end.

(** What holds of the pool whenever the mutex is free: the records are at
    distinct addresses, the RAM of the pool is the sum of the RAM of its
    entries, and only an entry with a dataset has RAM. *)
Record pool_ok (p : GDALDatasetPool) : Prop := mk_pool_ok {
  ok_addresses : NoDup (addresses (entries p));
  ok_ram_sum : ram_sum (entries p) = pool_nRAMUsage p;
  ok_ram_nonneg : forall e, In e (entries p) -> 0 <= nRAMUsage e;
  ok_ram_closed : forall e, In e (entries p) -> poDS e = None -> nRAMUsage e = 0
}.

(** The pool together with the opens in flight: the entries for which a
    thread is between the two halves of [_RefDataset]. *)
Record Machine := mkMachine {
  pool : GDALDatasetPool;
  opening : list nat
}.

(** One critical section of one thread, whatever its thread-local state and
    whatever the backend answers.  Evictions for capacity happen inside
    [_RefDataset_prepare], evictions for RAM inside [_RefDataset_complete]. *)
Inductive pool_step : Machine -> Machine -> Prop :=
| step_acquire_return pszFileName papszOpenOptions bShared bForceOpen pszOwner0
    p t r p' t' ops :
    _RefDataset_prepare pszFileName papszOpenOptions bShared bForceOpen pszOwner0 p t
      = (Return r, p', t') ->
    pool_step (mkMachine p ops) (mkMachine p' ops)
| step_acquire_open pszFileName papszOpenOptions bShared bForceOpen pszOwner0
    p t cur p' t' ops :
    _RefDataset_prepare pszFileName papszOpenOptions bShared bForceOpen pszOwner0 p t
      = (Opening cur, p', t') ->
    pool_step (mkMachine p ops) (mkMachine p' (cur :: ops))
| step_acquire_opened responsiblePID0 cur res p t p' t' ops :
    In cur ops ->
    _RefDataset_complete responsiblePID0 cur res p t = Some (p', t') ->
    pool_step (mkMachine p ops) (mkMachine p' (remove Nat.eq_dec cur ops))
| step_release cacheEntry p ops :
    pool_step (mkMachine p ops) (mkMachine (UnrefDataset cacheEntry p) ops)
| step_close_if_idle pszFileName papszOpenOptions pszOwner0 p t p' t' ops :
    _CloseDatasetIfZeroRefCount pszFileName papszOpenOptions pszOwner0 p t = (p', t') ->
    pool_step (mkMachine p ops) (mkMachine p' ops).

Inductive reachable : Machine -> Prop :=
| reachable_new maxSizeIn nMaxRAMUsageIn :
    reachable (mkMachine (new_GDALDatasetPool maxSizeIn nMaxRAMUsageIn) [])
| reachable_step m m' :
    reachable m -> pool_step m m' -> reachable m'.

(** An entry in flight is marked and has no RAM yet. *)
Definition in_flight (p : GDALDatasetPool) (a : nat) : Prop :=
  exists e, entry_at a (entries p) = Some e /\ refCount e < 0 /\ nRAMUsage e = 0.

Definition machine_ok (m : Machine) : Prop :=
  pool_ok (pool m) /\ forall a, In a (opening m) -> in_flight (pool m) a.

(** The matching rule in the words of the specification: the entry is not
    the one being opened, its key is the request's, and either the request
    is shared, made under the opener's identity and for the same owner, or
    it is exclusive and the entry is idle. *)
Definition matching_rule (key : string) (bShared : bool) (pid : Z)
  (pszOwner0 : option string) (e : GDALProxyPoolCacheEntry) : Prop :=
  0 <= refCount e
  /\ pszFileNameAndOpenOptions e = Some key
  /\ ((bShared = true /\ responsiblePID e = pid /\ pszOwner e = pszOwner0)
      \/ (bShared = false /\ refCount e = 0)).

(** "A refcount-zero entry with [ram_estimate > 0]". *)
Definition ram_candidate (e : GDALProxyPoolCacheEntry) : Prop :=
  refCount e = 0 /\ 0 < nRAMUsage e.

(** The RAM pressure rule in the words of the specification: while
    [ram_used > max_ram] and a candidate other than the entry [cur] just
    opened exists, the least recently used one is closed under its opener's
    identity, its slot stays where it is, and [ram_used] is updated. *)
Inductive ram_pressure (responsiblePID0 : Z) (cur : nat)
  : GDALDatasetPool * Thread -> GDALDatasetPool * Thread -> Prop :=
| ram_pressure_done p t :
    pool_nRAMUsage p <= nMaxRAMUsage p
    \/ (forall e, In e (entries p) -> self e <> cur -> ~ ram_candidate e) ->
    ram_pressure responsiblePID0 cur (p, t) (p, t)
| ram_pressure_close p t l1 c l2 ds st :
    nMaxRAMUsage p < pool_nRAMUsage p ->
    entries p = l1 ++ c :: l2 ->
    ram_candidate c ->
    self c <> cur ->
    (forall e, In e l2 -> ~ ram_candidate e) ->
    poDS c = Some ds ->
    ram_pressure responsiblePID0 cur
      (set_entries (l1 ++ emptied c :: l2)
         (set_pool_nRAMUsage (pool_nRAMUsage p - nRAMUsage c) p),
       close_as_opener responsiblePID0 (responsiblePID c) ds t) st ->
    ram_pressure responsiblePID0 cur (p, t) st.

(** What the closing of the candidate's dataset, if it has one, makes of
    the thread. *)
Definition closed_candidate (responsiblePID0 : Z) (c : GDALProxyPoolCacheEntry)
  (t : Thread) : Thread :=
  match poDS c with
  | Some ds => close_as_opener responsiblePID0 (responsiblePID c) ds t
  | None => t
  end.

(** A close in the log ran under the PID recorded in an entry of [l] that
    held the dataset. *)
Definition closed_by_opener (l : list GDALProxyPoolCacheEntry) (ev : Event) : Prop :=
  match ev with
  | EvClose ds pid _ =>
      exists e, In e l /\ poDS e = Some ds /\ responsiblePID e = pid
  | _ => True
  end.

(** An open or a close in the log ran with [refCountOfDisabledRefCount]
    raised by one from [d0]. *)
Definition guarded (d0 : Z) (ev : Event) : Prop :=
  match ev with
  | EvClose _ _ d => d = d0 + 1
  | EvOpen _ _ _ _ d _ => d = d0 + 1
  | _ => True
  end.

Definition event_ok (l : list GDALProxyPoolCacheEntry) (d0 : Z) (ev : Event) : Prop :=
  closed_by_opener l ev /\ guarded d0 ev.

(** The log of [t'] is the log of [t] and, before it, events that satisfy [P]. *)
Definition grown (P : Event -> Prop) (t t' : Thread) : Prop :=
  exists new, log t' = new ++ log t /\ Forall P new.

(** The thread after a pool operation: same responsible PID, same counter,
    and a log grown by events that are [event_ok]. *)
Definition thread_ok (l : list GDALProxyPoolCacheEntry) (t t' : Thread) : Prop :=
  curResponsiblePID t' = curResponsiblePID t
  /\ refCountOfDisabledRefCount t' = refCountOfDisabledRefCount t
  /\ grown (event_ok l (refCountOfDisabledRefCount t)) t t'.

(** The entries of [l] that have a dataset, [cur] apart, are entries of [l0]. *)
Definition kept (l0 : list GDALProxyPoolCacheEntry) (cur : nat)
  (l : list GDALProxyPoolCacheEntry) : Prop :=
  forall e, In e l -> self e <> cur -> poDS e <> None -> In e l0.

Definition is_EvOpen (ev : Event) : bool :=
  match ev with EvOpen _ _ _ _ _ _ => true | _ => false end.

Definition is_EvAssertFailed (ev : Event) : bool :=
  match ev with EvAssertFailed => true | _ => false end.

(** The ways through the first half of [_RefDataset], each with the pool
    and the thread it leaves. *)
Inductive prepare_path (key : string) (bShared bForceOpen : bool)
  (pszOwner0 : option string) (p : GDALDatasetPool) (t : Thread)
  : Prepared * GDALDatasetPool * Thread -> Prop :=
| path_in_destruction :
    bInDestruction p = true ->
    prepare_path key bShared bForceOpen pszOwner0 p t (Return None, p, t)
| path_match l1 e l2 :
    entries p = l1 ++ e :: l2 ->
    entry_matches key bShared (curResponsiblePID t) pszOwner0 e = true ->
    (forall x, In x l1 ->
       entry_matches key bShared (curResponsiblePID t) pszOwner0 x = false) ->
    prepare_path key bShared bForceOpen pszOwner0 p t
      (Return (Some (self e)), set_entries (incr_refCount e :: l1 ++ l2) p, t)
| path_miss :
    bForceOpen = false ->
    (forall x, In x (entries p) ->
       entry_matches key bShared (curResponsiblePID t) pszOwner0 x = false) ->
    prepare_path key bShared bForceOpen pszOwner0 p t (Return None, p, t)
| path_recycle l1 c l2 :
    bForceOpen = true ->
    (forall x, In x (entries p) ->
       entry_matches key bShared (curResponsiblePID t) pszOwner0 x = false) ->
    currentSize p = maxSize p ->
    entries p = l1 ++ c :: l2 ->
    evictable false c = true ->
    (forall x, In x l2 -> evictable false x = false) ->
    prepare_path key bShared bForceOpen pszOwner0 p t
      (Opening (self c),
       set_entries
         (install key pszOwner0 (curResponsiblePID t) (emptied c) :: l1 ++ l2)
         (set_pool_nRAMUsage (pool_nRAMUsage p - nRAMUsage c) p),
       incr_disabled (closed_candidate (curResponsiblePID t) c t))
| path_exhausted :
    bForceOpen = true ->
    (forall x, In x (entries p) ->
       entry_matches key bShared (curResponsiblePID t) pszOwner0 x = false) ->
    currentSize p = maxSize p ->
    (forall x, In x (entries p) -> evictable false x = false) ->
    prepare_path key bShared bForceOpen pszOwner0 p t
      (Return None, p, emit (EvCPLError (maxSize p)) t)
| path_prepend :
    bForceOpen = true ->
    (forall x, In x (entries p) ->
       entry_matches key bShared (curResponsiblePID t) pszOwner0 x = false) ->
    currentSize p <> maxSize p ->
    prepare_path key bShared bForceOpen pszOwner0 p t
      (Opening (CPLCalloc (entries p)),
       set_currentSize (currentSize p + 1)
         (set_entries
            (install key pszOwner0 (curResponsiblePID t)
                     (calloc_entry (CPLCalloc (entries p))) :: entries p) p),
       incr_disabled t).

(** How many entries the RAM pressure loop can still close. *)
Definition n_evictable (l : list GDALProxyPoolCacheEntry) : nat :=
  List.length (filter (evictable true) l).

(** The pool once the result of the open is stored in [cur]
    (lines 417-427), [c0] being the record at [cur]. *)
Definition stored (cur : nat) (res : option GDALDataset)
  (c0 : GDALProxyPoolCacheEntry) (p : GDALDatasetPool) : GDALDatasetPool :=
  let p := set_entries (update_at cur (opened res) (entries p)) p in
  match res with
  | Some _ => set_pool_nRAMUsage (pool_nRAMUsage p + nRAMUsage (opened res c0)) p
  | None => p
  end.

(** ** Concrete pools, threads and backends for the examples *)

Module Ex.

(** A backend that opens everything but "bad"; a dataset takes 60 bytes. *)
Definition backend : Backend :=
  mkBackend 0 1 2 64
    (fun _ f _ _ => if String.eqb f "bad" then None else Some (mkDS 1 60))
    (fun _ _ _ => None)
    (fun _ _ _ _ => None).

Definition dsA : GDALDataset := mkDS 1 60.
Definition dsB : GDALDataset := mkDS 2 60.

(** "A" and "B" opened by thread 7 and released; "B" is the most recent. *)
Definition eA : GDALProxyPoolCacheEntry := mkEntry 1 7 (Some "A") None (Some dsA) 60 0.
Definition eB : GDALProxyPoolCacheEntry := mkEntry 2 7 (Some "B") None (Some dsB) 60 0.

(** "A" still referenced. *)
Definition eA_busy : GDALProxyPoolCacheEntry :=
  mkEntry 1 7 (Some "A") None (Some dsA) 60 1.
Definition eB_busy : GDALProxyPoolCacheEntry :=
  mkEntry 2 7 (Some "B") None (Some dsB) 60 1.

Definition pool_BA : GDALDatasetPool := mkPool false 1 2 2 100 120 [eB; eA].
Definition pool_busy : GDALDatasetPool := mkPool false 1 2 2 100 120 [eB_busy; eA_busy].
Definition pool_empty : GDALDatasetPool := new_GDALDatasetPool 2 100.

Definition thread7 : Thread := mkThread 7 0 [].
Definition thread8 : Thread := mkThread 8 0 [].

(** Scenario S4 at the moment the open of "B" returns: "A" idle with 60
    bytes, the slot of "B" in flight at the head. *)
Definition eB_opening : GDALProxyPoolCacheEntry := mkEntry 2 7 (Some "B") None None 0 (-1).
Definition pool_S4 : GDALDatasetPool := mkPool false 1 10 2 100 60 [eB_opening; eA].
Definition thread7_opening : Thread := mkThread 7 1 [].

(** The pool after "A" was opened in a new pool, and the states on the way. *)
Definition eA_opening : GDALProxyPoolCacheEntry := mkEntry 1 7 (Some "A") None None 0 (-1).
Definition pool_A_opening : GDALDatasetPool := mkPool false 0 2 1 100 0 [eA_opening].
Definition pool_A : GDALDatasetPool := mkPool false 0 2 1 100 60 [eA_busy].

(** A configuration, and a world in which the counter is raised. *)
Definition config : Config := mkConfig 100 8000 400 None (fun _ => 0).
Definition world_suppressed : World := mkWorld None (mkThread 7 1 []).
Definition world_suppressed_BA : World := mkWorld (Some pool_BA) (mkThread 7 1 []).

(** The pool with "A" and "B" idle, as the singleton of thread 7. *)
Definition world_BA : World := mkWorld (Some pool_BA) thread7.
Definition world_empty : World := mkWorld (Some pool_empty) thread7.

(** Hash sets for the examples: the elements in the order of insertion,
    newest first.  Nothing below looks into them. *)
Definition md_set : CPLHashSetOps GetMetadataElt :=
  @mkCPLHashSetOps GetMetadataElt (list GetMetadataElt) [] (fun s e => e :: s).
Definition mdi_set : CPLHashSetOps GetMetadataItemElt :=
  @mkCPLHashSetOps GetMetadataItemElt (list GetMetadataItemElt) [] (fun s e => e :: s).

(** A proxy of thread 7 for "bad", which the backend does not open. *)
Definition proxy_bad : GDALProxyPoolDataset md_set mdi_set :=
  mkProxy md_set mdi_set "bad" [] GA_ReadOnly false 7 None None None None.

(** A backend whose first open fails and whose later opens succeed, and
    whose metadata change after the first query. *)
Definition is_EvGetMetadata (ev : Event) : bool :=
  match ev with
  | EvGetMetadata _ _ => true
  | EvGetMetadataItem _ _ _ => true
  | _ => false
  end.

Definition backend_late : Backend :=
  mkBackend 0 1 2 64
    (fun lg _ _ _ => if existsb is_EvOpen lg then Some (mkDS 5 10) else None)
    (fun lg _ _ => if existsb is_EvGetMetadata lg then Some ["V=2"] else Some ["V=1"])
    (fun lg _ _ _ => if existsb is_EvGetMetadata lg then Some "2" else Some "1").

(** Two proxies of thread 7 for "X": an exclusive one, and a shared one
    owned by "vrt". *)
Definition proxy_X : GDALProxyPoolDataset md_set mdi_set :=
  mkProxy md_set mdi_set "X" [] GA_ReadOnly false 7 None None None None.

(** A proxy for "A", which the backend opens. *)
Definition proxy_A : GDALProxyPoolDataset md_set mdi_set :=
  mkProxy md_set mdi_set "A" [] GA_ReadOnly false 7 None None None None.

(** Scripts of exclusive, forced requests and releases on a pool, for the
    scenarios of the specification; the result lists what each request
    returned, oldest first. *)
Inductive Cmd :=
| Acquire (pszFileName : string)
| Release (cacheEntry : nat).

Fixpoint run (cmds : list Cmd) (p : GDALDatasetPool) (t : Thread)
  : option (list (option nat) * GDALDatasetPool * Thread) :=
  match cmds with
  | [] => Some ([], p, t)
  | Acquire f :: cmds =>
      match _RefDataset backend f GA_ReadOnly [] false true None p t with
      | Some (r, p, t) =>
          match run cmds p t with
          | Some (rs, p, t) => Some (r :: rs, p, t)
          | None => None
          end
      | None => None
      end
  | Release a :: cmds => run cmds (UnrefDataset a p) t
  end.

(** The keys of the entries, head first, with their refcounts. *)
Definition content (p : GDALDatasetPool) : list (option string * Z) :=
  map (fun e => (pszFileNameAndOpenOptions e, refCount e)) (entries p).

Definition summary (res : option (list (option nat) * GDALDatasetPool * Thread))
  : option (list (option nat) * list (option string * Z)) :=
  option_map (fun r => (fst (fst r), content (snd (fst r)))) res.

(** A pool of two slots without a RAM budget. *)
Definition pool_2 : GDALDatasetPool := new_GDALDatasetPool 2 0.

(** Thread 7 is opening "bad" in a new pool; and the same after thread 8 has
    opened "A" in the meantime. *)
Definition e_bad_opening : GDALProxyPoolCacheEntry :=
  mkEntry 1 7 (Some "bad") None None 0 (-1).
Definition pool_bad_opening : GDALDatasetPool :=
  mkPool false 0 2 1 100 0 [e_bad_opening].
Definition pool_bad_opening_A : GDALDatasetPool :=
  mkPool false 0 2 2 100 60
    [mkEntry 2 8 (Some "A") None (Some dsA) 60 1; e_bad_opening].

(** "A" idle with 60 bytes in a pool of two slots whose budget is 100, and
    the slot of "B" in flight at the head. *)
Definition pool_B_opening : GDALDatasetPool :=
  mkPool false 0 2 2 100 60 [eB_opening; eA].


End Ex.

(** ** Four sentences of the specification as they are written *)

(** The key of a proxy: what [_RefDataset] computes for its requests. *)
Definition proxy_key (MD : CPLHashSetOps GetMetadataElt)
  (MDI : CPLHashSetOps GetMetadataItemElt) (d : GDALProxyPoolDataset MD MDI)
  : string :=
  GetFilenameAndOpenOptions (GetDescription d) (papszOpenOptions d).

Arguments proxy_key [MD MDI] d.

(** "OpenFailed: the slot allocated for the attempt is left in place with
    handle = none, refcount = 0, key = none": whenever the proxy comes back
    without a dataset from a forced open, this holds of its cache entry. *)
Definition failed_slot_cleared (B : Backend) (MD : CPLHashSetOps GetMetadataElt)
  (MDI : CPLHashSetOps GetMetadataItemElt) (d : GDALProxyPoolDataset MD MDI)
  (w : World) : Prop :=
  forall d' w' s' a slot,
    RefUnderlyingDataset B true d w = Some (None, d', w') ->
    singleton w' = Some s' ->
    cacheEntry d' = Some a ->
    entry_at a (entries s') = Some slot ->
    poDS slot = None /\ refCount slot = 0
    /\ pszFileNameAndOpenOptions slot = None.

(** "Later queries for the same domain return the stored copy". *)
Definition metadata_served_from_cache (B : Backend)
  (MD : CPLHashSetOps GetMetadataElt) (MDI : CPLHashSetOps GetMetadataItemElt)
  (pszDomain : option string) (d : GDALProxyPoolDataset MD MDI) (w : World) : Prop :=
  forall r1 d1 w1 r2 d2 w2,
    GetMetadata B pszDomain d w = Some (r1, d1, w1) ->
    GetMetadata B pszDomain d1 w1 = Some (r2, d2, w2) ->
    r2 = r1.

(** "Release called when refcount == 0: detected by assertion": a release
    either leaves the refcount at [0] or above, or logs a failed assertion. *)
Definition double_release_detected (cacheEntry : nat) (w : World) : Prop :=
  forall w',
    UnrefDataset_static cacheEntry w = Some w' ->
    (forall s' e', singleton w' = Some s' ->
                   entry_at cacheEntry (entries s') = Some e' -> 0 <= refCount e')
    \/ exists new, log (thread w') = new ++ log (thread w)
                   /\ In EvAssertFailed new.


(** ** The links of the list, as the code writes them

    The lists above stand for the chain of [prev] and [next] pointers.  Here
    are the pointers themselves: the two link fields of every record, by
    address, and the two ends kept by the pool; and the three places of
    [_RefDataset] that rewrite them, statement by statement.  A dereference
    of a null or dangling pointer gives [None]. *)

Module Links.

Record Node := mkNode {
  prev : option nat;
  next : option nat
}.

Record Chain := mkChain {
  node : nat -> option Node;
  firstEntry : option nat;
  lastEntry : option nat
}.

Definition store (a : nat) (n : Node) (h : nat -> option Node) : nat -> option Node :=
  fun x => if Nat.eqb x a then Some n else h x.

Definition bind {A B : Type} (m : option A) (f : A -> option B) : option B :=
  match m with
  | Some a => f a
  | None => None
  end.

Notation "x <- m ;; k" := (bind m (fun x => k))
  (at level 61, m at next level, right associativity).

(** [a->prev] and [a->next]. *)
Definition get_prev (a : option nat) (c : Chain) : option (option nat) :=
  a <- a ;; n <- node c a ;; Some (prev n).

Definition get_next (a : option nat) (c : Chain) : option (option nat) :=
  a <- a ;; n <- node c a ;; Some (next n).

(** [a->prev = v] and [a->next = v]. *)
Definition set_prev (a : option nat) (v : option nat) (c : Chain) : option Chain :=
  a <- a ;; n <- node c a ;;
  Some (mkChain (store a (mkNode v (next n)) (node c)) (firstEntry c) (lastEntry c)).

Definition set_next (a : option nat) (v : option nat) (c : Chain) : option Chain :=
  a <- a ;; n <- node c a ;;
  Some (mkChain (store a (mkNode (prev n) v) (node c)) (firstEntry c) (lastEntry c)).

Definition set_firstEntry (v : option nat) (c : Chain) : Chain :=
  mkChain (node c) v (lastEntry c).

Definition set_lastEntry (v : option nat) (c : Chain) : Chain :=
  mkChain (node c) (firstEntry c) v.

(** Lines 338-347, the "move to begin" of the lookup; [cur != firstEntry].
    First [cur] is taken out of the chain, then linked in front. *)
Definition lookup_unlink (cur : nat) (c : Chain) : option Chain :=
  cur_next <- get_next (Some cur) c ;;
  cur_prev <- get_prev (Some cur) c ;;
  c <- match cur_next with
       | Some _ => set_prev cur_next cur_prev c
       | None => Some (set_lastEntry cur_prev c)
       end ;;
  cur_prev <- get_prev (Some cur) c ;;
  cur_next <- get_next (Some cur) c ;;
  set_next cur_prev cur_next c.

Definition lookup_relink (cur : nat) (c : Chain) : option Chain :=
  c <- set_prev (Some cur) None c ;;
  c <- set_prev (firstEntry c) (Some cur) c ;;
  c <- set_next (Some cur) (firstEntry c) c ;;
  Some (set_firstEntry (Some cur) c).

Definition lookup_move_to_begin (cur : nat) (c : Chain) : option Chain :=
  c <- lookup_unlink cur c ;; lookup_relink cur c.

(** Lines 295-309, the recycling of [candidate]; [candidate != firstEntry]. *)
Definition recycle_unlink (candidate : nat) (c : Chain) : option Chain :=
  candidate_prev <- get_prev (Some candidate) c ;;
  candidate_next <- get_next (Some candidate) c ;;
  c <- match candidate_prev with
       | Some _ => set_next candidate_prev candidate_next c
       | None => Some c
       end ;;
  candidate_next <- get_next (Some candidate) c ;;
  candidate_prev <- get_prev (Some candidate) c ;;
  match candidate_next with
  | Some _ => set_prev candidate_next candidate_prev c
  | None =>
      last_prev <- get_prev (lastEntry c) c ;;
      c <- set_next last_prev None c ;;
      last_prev <- get_prev (lastEntry c) c ;;
      Some (set_lastEntry last_prev c)
  end.

Definition recycle_relink (candidate : nat) (c : Chain) : option Chain :=
  c <- set_prev (Some candidate) None c ;;
  c <- set_next (Some candidate) (firstEntry c) c ;;
  c <- set_prev (firstEntry c) (Some candidate) c ;;
  Some (set_firstEntry (Some candidate) c).

Definition recycle_move_to_top (candidate : nat) (c : Chain) : option Chain :=
  c <- recycle_unlink candidate c ;; recycle_relink candidate c.

(** Lines 384-392, the prepending of the record that [CPLCalloc] returned. *)
Definition prepend (cur : nat) (c : Chain) : option Chain :=
  let c := match lastEntry c with
           | None => set_lastEntry (Some cur) c
           | Some _ => c
           end in
  c <- set_prev (Some cur) None c ;;
  c <- set_next (Some cur) (firstEntry c) c ;;
  c <- match firstEntry c with
       | Some _ => set_prev (firstEntry c) (Some cur) c
       | None => Some c
       end ;;
  Some (set_firstEntry (Some cur) c).

(** The head of [l], or [q] when [l] is empty; its last element, or [p]. *)
Definition hd_or (q : option nat) (l : list nat) : option nat :=
  match l with
  | [] => q
  | b :: _ => Some b
  end.

Fixpoint last_or (p : option nat) (l : list nat) : option nat :=
  match l with
  | [] => p
  | a :: l' => last_or (Some a) l'
  end.

(** The records [l], in this order, are chained in [h] from a record whose
    [prev] is [p] to a record whose [next] is [q]. *)
Fixpoint seg (h : nat -> option Node) (p : option nat) (l : list nat)
  (q : option nat) : Prop :=
  match l with
  | [] => True
  | a :: l' => h a = Some (mkNode p (hd_or q l')) /\ seg h (Some a) l' q
  end.

(** The chain is the list [l]: what [CheckLinks] asserts, and the ends. *)
Definition repr (c : Chain) (l : list nat) : Prop :=
  NoDup l
  /\ firstEntry c = hd_or None l
  /\ lastEntry c = last_or None l
  /\ seg (node c) None l None.

(** The chain once [cur] is unlinked from between [l1] and [l2]; the state
    that both "move to begin" sequences reach before they relink [cur]. *)
Definition unlinked (c : Chain) (f : nat) (l1' : list nat) (cur : nat)
  (l2 : list nat) (cur_node : Node) : Prop :=
  firstEntry c = Some f
  /\ lastEntry c = last_or None ((f :: l1') ++ l2)
  /\ seg (node c) None (f :: l1') (hd_or None l2)
  /\ seg (node c) (last_or None (f :: l1')) l2 None
  /\ node c cur = Some cur_node.

End Links.

(** ** More of the pool: what the statements below speak of *)

(** The refcount of the record at [a], [0] where the pool has no such record. *)
Definition refCount_at (a : nat) (p : GDALDatasetPool) : Z :=
  match entry_at a (entries p) with
  | Some e => refCount e
  | None => 0
  end.

(** The condition of the loop of [_CloseDatasetIfZeroRefCount], lines 464-469. *)
Definition close_rule (key : string) (pszOwner0 : option string)
  (e : GDALProxyPoolCacheEntry) : Prop :=
  refCount e = 0
  /\ pszFileNameAndOpenOptions e = Some key
  /\ pszOwner e = pszOwner0
  /\ poDS e <> None.

Definition is_EvClose (ev : Event) : bool :=
  match ev with EvClose _ _ _ => true | _ => false end.

Definition has_dataset (e : GDALProxyPoolCacheEntry) : bool :=
  match poDS e with Some _ => true | None => false end.

(** The fields of the pool that no operation on the entries writes. *)
Definition settings_kept (p p' : GDALDatasetPool) : Prop :=
  bInDestruction p' = bInDestruction p
  /\ pool_refCount p' = pool_refCount p
  /\ maxSize p' = maxSize p
  /\ currentSize p' = currentSize p
  /\ nMaxRAMUsage p' = nMaxRAMUsage p.

(** [p'] is [p] with the datasets of some idle entries closed: the records
    are where they were, each one as it was or, if its refcount was [0],
    emptied. *)
Definition closed_idle (p p' : GDALDatasetPool) : Prop :=
  settings_kept p p'
  /\ addresses (entries p') = addresses (entries p)
  /\ forall a e, entry_at a (entries p) = Some e ->
       entry_at a (entries p') = Some e
       \/ (refCount e = 0 /\ entry_at a (entries p') = Some (emptied e)).

(** [r == a], for the pointer [r] that a request returns. *)
Definition returned (r : option nat) (a : nat) : bool :=
  match r with
  | Some b => Nat.eqb a b
  | None => false
  end.

(** [currentSize] counts the records of the list (the last assertion of
    [CheckLinks]) and does not exceed [maxSize]. *)
Definition sized (p : GDALDatasetPool) : Prop :=
  currentSize p = Z.of_nat (List.length (entries p))
  /\ currentSize p <= maxSize p.

(** What one turn of the loop of [~GDALDatasetPool] logs for [e], newest
    first, with [refCountOfDisabledRefCount] at [d]. *)
Definition destroy_events (d : Z) (e : GDALProxyPoolCacheEntry) : list Event :=
  match poDS e with
  | Some ds => [EvClose ds (responsiblePID e) d]
  | None => []
  end
  ++ (if refCount e =? 0 then [] else [EvAssertFailed]).

(** The events that the pool logs by itself: closes and the error of a full
    pool. *)
Definition pool_event (ev : Event) : Prop :=
  match ev with
  | EvClose _ _ _ | EvCPLError _ => True
  | _ => False
  end.

(** ** CheckLinks

    The debugging walk of lines 199-213 over the pointers of [Links].  A
    failed [CPLAssert] ends the walk with [false]; [None] is a dereference of
    a null or dangling pointer, or a walk longer than the fuel. *)

Module LinksCheck.
Import Links.

(** [a == b] on pointers. *)
Definition ptr_eqb (a b : option nat) : bool :=
  match a, b with
  | Some x, Some y => Nat.eqb x y
  | None, None => true
  | _, _ => false
  end.

Fixpoint CheckLinks_walk (fuel : nat) (cur : option nat) (i currentSize : Z)
  (c : Chain) : option bool :=
  match cur with
  | None => Some (i =? currentSize)
  | Some _ =>
      match fuel with
      | O => None
      | S fuel =>
          a1 <- (if ptr_eqb cur (firstEntry c) then Some true
                 else cur_prev <- get_prev cur c ;;
                      cur_prev_next <- get_next cur_prev c ;;
                      Some (ptr_eqb cur_prev_next cur)) ;;
          if negb a1 then Some false
          else
            a2 <- (if ptr_eqb cur (lastEntry c) then Some true
                   else cur_next <- get_next cur c ;;
                        cur_next_prev <- get_prev cur_next c ;;
                        Some (ptr_eqb cur_next_prev cur)) ;;
            if negb a2 then Some false
            else
              cur_next <- get_next cur c ;;
              if negb (negb (ptr_eqb cur_next None) || ptr_eqb cur (lastEntry c))
              then Some false
              else CheckLinks_walk fuel cur_next (i + 1) currentSize c
      end
  end.

Definition CheckLinks (fuel : nat) (currentSize : Z) (c : Chain) : option bool :=
  CheckLinks_walk fuel (firstEntry c) 0 currentSize c.

End LinksCheck.

(** ** More of GDALProxyPoolDataset, and the proxy bands *)

Inductive CPLErr := CE_None | CE_Debug | CE_Warning | CE_Failure | CE_Fatal.

(** A raster band of an underlying dataset, with what [GetDataset()],
    [GetBand()] and [GetBlockSize()] answer for it. *)
Record GDALRasterBand := mkBand {
  band_handle : nat;
  GetDataset : GDALDataset;
  GetBand : Z;
  GetBlockSize : Z * Z
}.

(** The methods of the underlying dataset and of its bands that the proxies
    call, besides those of [Backend]. *)
Record Underlying := mkUnderlying {
  ds_FlushCache : list Event -> GDALDataset -> bool -> CPLErr;
  ds_GetRasterBand : GDALDataset -> Z -> option GDALRasterBand;
  band_FlushCache : list Event -> GDALRasterBand -> bool -> CPLErr;
  band_GetOverview : GDALRasterBand -> Z -> option GDALRasterBand;
  band_GetMaskBand : GDALRasterBand -> option GDALRasterBand
}.

(** The fields of [GDALProxyPoolRasterBand] that the methods below read or
    write; [poDS] is passed along with the band. *)
Record GDALProxyPoolRasterBand := mkProxyBand {
  nBand : Z;
  nBlockXSize : Z;
  nBlockYSize : Z
}.

(** The fields that [GDALProxyPoolOverviewRasterBand] adds to its base
    class; [poMainBand] is passed along with it, since the main band is
    written through that pointer. *)
Record GDALProxyPoolOverviewRasterBand := mkOverviewBand {
  nOverviewBand : Z;
  ovr_poUnderlyingMainRasterBand : option GDALRasterBand;
  ovr_nRefCountUnderlyingMainRasterBand : Z
}.

Record GDALProxyPoolMaskBand := mkMaskBand {
  mask_poUnderlyingMainRasterBand : option GDALRasterBand;
  mask_nRefCountUnderlyingMainRasterBand : Z
}.

(** The overview and mask band objects that a band creates and keeps: the
    part of the base class, and the fields added. *)
Record OverviewBandObject := mkOverviewBandObject {
  ovr_base : GDALProxyPoolRasterBand;
  ovr_fields : GDALProxyPoolOverviewRasterBand
}.

Record MaskBandObject := mkMaskBandObject {
  mask_base : GDALProxyPoolRasterBand;
  mask_fields : GDALProxyPoolMaskBand
}.

(** [papoProxyOverviewRasterBand], an array of [nSizeProxyOverviewRasterBand]
    pointers (the length of the list), and [poProxyMaskBand]. *)
Record ProxyBandCaches := mkProxyBandCaches {
  papoProxyOverviewRasterBand : list (option OverviewBandObject);
  poProxyMaskBand : option MaskBandObject
}.

(** [a[n] = x], for [n] within the array. *)
Fixpoint array_set {A : Type} (n : nat) (x : A) (a : list A) : list A :=
  match a, n with
  | [], _ => []
  | _ :: a, O => x :: a
  | y :: a, S n => y :: array_set n x a
  end.

(** The constructor of [GDALProxyPoolRasterBand] from an underlying band. *)
Definition band_of_underlying (poUnderlyingRasterBand : GDALRasterBand)
  : GDALProxyPoolRasterBand :=
  mkProxyBand (GetBand poUnderlyingRasterBand)
              (fst (GetBlockSize poUnderlyingRasterBand))
              (snd (GetBlockSize poUnderlyingRasterBand)).

Definition CPL_TO_BOOL (x : Z) : bool := negb (x =? 0).

Section ProxyBands.

Variable B : Backend.
Variable MD : CPLHashSetOps GetMetadataElt.
Variable MDI : CPLHashSetOps GetMetadataItemElt.
Variable U : Underlying.

(** The constructor of lines 769-782. *)
Definition new_GDALProxyPoolDataset (cfg : Config)
  (pszSourceDatasetDescription : string) (eAccessIn : GDALAccess) (bSharedIn : Z)
  (pszOwner0 : option string) (w : World)
  : GDALProxyPoolDataset MD MDI * World :=
  let responsiblePID0 := GDALGetResponsiblePIDForCurrentThread (thread w) in
  let w := Ref cfg w in
  (mkProxy MD MDI pszSourceDatasetDescription [] eAccessIn (CPL_TO_BOOL bSharedIn)
           responsiblePID0 pszOwner0 None None None, w).

Definition SetOpenOptions (papszOpenOptionsIn : list string)
  (d : GDALProxyPoolDataset MD MDI) (w : World)
  : GDALProxyPoolDataset MD MDI * World :=
  let w := set_thread (CPLAssert (match papszOpenOptions d with
                                  | [] => true
                                  | _ => false
                                  end) (thread w)) w in
  (mkProxy MD MDI (GetDescription d) papszOpenOptionsIn (eAccess d) (GetShared d)
           (proxy_responsiblePID d) (m_pszOwner d) (metadataSet d)
           (metadataItemSet d) (cacheEntry d), w).

(** [~GDALProxyPoolDataset]: the object is gone afterwards, the world
    remains.  [None]: [singleton] is null. *)
Definition delete_GDALProxyPoolDataset (d : GDALProxyPoolDataset MD MDI)
  (w : World) : option World :=
  match CloseDatasetIfZeroRefCount (GetDescription d) (papszOpenOptions d)
                                   (m_pszOwner d) w with
  | None => None
  | Some w => Some (Unref w)
  end.

(** The flush of the underlying dataset is not an event of the log; what it
    returns is read from [U]. *)
Definition FlushCache (bAtClosing : bool) (d : GDALProxyPoolDataset MD MDI)
  (w : World)
  : option (CPLErr * GDALProxyPoolDataset MD MDI * World) :=
  match RefUnderlyingDataset B false d w with
  | None => None
  | Some (None, d, w) => Some (CE_None, d, w)
  | Some (Some poUnderlyingDataset, d, w) =>
      let eErr := ds_FlushCache U (log (thread w)) poUnderlyingDataset bAtClosing in
      match UnrefUnderlyingDataset poUnderlyingDataset d w with
      | None => None
      | Some w => Some (eErr, d, w)
      end
  end.

(** *** GDALProxyPoolRasterBand *)

Definition RefUnderlyingRasterBand (bForceOpen : bool) (b : GDALProxyPoolRasterBand)
  (d : GDALProxyPoolDataset MD MDI) (w : World)
  : option (option GDALRasterBand * GDALProxyPoolRasterBand
            * GDALProxyPoolDataset MD MDI * World) :=
  match RefUnderlyingDataset B bForceOpen d w with
  | None => None
  | Some (None, d, w) => Some (None, b, d, w)
  | Some (Some poUnderlyingDataset, d, w) =>
      match ds_GetRasterBand U poUnderlyingDataset (nBand b) with
      | None =>
          match UnrefUnderlyingDataset poUnderlyingDataset d w with
          | None => None
          | Some w => Some (None, b, d, w)
          end
      | Some poBand =>
          let b := if (nBlockXSize b <=? 0) || (nBlockYSize b <=? 0)
                   then mkProxyBand (nBand b) (fst (GetBlockSize poBand))
                                    (snd (GetBlockSize poBand))
                   else b in
          Some (Some poBand, b, d, w)
      end
  end.

Definition UnrefUnderlyingRasterBand (poUnderlyingRasterBand : option GDALRasterBand)
  (d : GDALProxyPoolDataset MD MDI) (w : World) : option World :=
  match poUnderlyingRasterBand with
  | Some band => UnrefUnderlyingDataset (GetDataset band) d w
  | None => Some w
  end.

Definition Band_FlushCache (bAtClosing : bool) (b : GDALProxyPoolRasterBand)
  (d : GDALProxyPoolDataset MD MDI) (w : World)
  : option (CPLErr * GDALProxyPoolRasterBand * GDALProxyPoolDataset MD MDI
            * World) :=
  match RefUnderlyingRasterBand false b d w with
  | None => None
  | Some (None, b, d, w) => Some (CE_None, b, d, w)
  | Some (Some poUnderlyingRasterBand, b, d, w) =>
      let eErr :=
        band_FlushCache U (log (thread w)) poUnderlyingRasterBand bAtClosing in
      match UnrefUnderlyingRasterBand (Some poUnderlyingRasterBand) d w with
      | None => None
      | Some w => Some (eErr, b, d, w)
      end
  end.

(** *** GDALProxyPoolOverviewRasterBand, GDALProxyPoolMaskBand *)

Definition Overview_RefUnderlyingRasterBand (bForceOpen : bool)
  (o : GDALProxyPoolOverviewRasterBand) (poMainBand : GDALProxyPoolRasterBand)
  (d : GDALProxyPoolDataset MD MDI) (w : World)
  : option (option GDALRasterBand * GDALProxyPoolOverviewRasterBand
            * GDALProxyPoolRasterBand * GDALProxyPoolDataset MD MDI * World) :=
  match RefUnderlyingRasterBand bForceOpen poMainBand d w with
  | None => None
  | Some (main, poMainBand, d, w) =>
      let o := mkOverviewBand (nOverviewBand o) main
                              (ovr_nRefCountUnderlyingMainRasterBand o) in
      match main with
      | None => Some (None, o, poMainBand, d, w)
      | Some poUnderlyingMainRasterBand =>
          let o := mkOverviewBand (nOverviewBand o) main
                     (ovr_nRefCountUnderlyingMainRasterBand o + 1) in
          Some (band_GetOverview U poUnderlyingMainRasterBand (nOverviewBand o),
                o, poMainBand, d, w)
      end
  end.

Definition Overview_UnrefUnderlyingRasterBand (o : GDALProxyPoolOverviewRasterBand)
  (d : GDALProxyPoolDataset MD MDI) (w : World)
  : option (GDALProxyPoolOverviewRasterBand * World) :=
  match UnrefUnderlyingRasterBand (ovr_poUnderlyingMainRasterBand o) d w with
  | None => None
  | Some w =>
      Some (mkOverviewBand (nOverviewBand o) (ovr_poUnderlyingMainRasterBand o)
                           (ovr_nRefCountUnderlyingMainRasterBand o - 1), w)
  end.

Definition Mask_RefUnderlyingRasterBand (bForceOpen : bool)
  (m : GDALProxyPoolMaskBand) (poMainBand : GDALProxyPoolRasterBand)
  (d : GDALProxyPoolDataset MD MDI) (w : World)
  : option (option GDALRasterBand * GDALProxyPoolMaskBand
            * GDALProxyPoolRasterBand * GDALProxyPoolDataset MD MDI * World) :=
  match RefUnderlyingRasterBand bForceOpen poMainBand d w with
  | None => None
  | Some (main, poMainBand, d, w) =>
      match main with
      | None =>
          Some (None, mkMaskBand main (mask_nRefCountUnderlyingMainRasterBand m),
                poMainBand, d, w)
      | Some poUnderlyingMainRasterBand =>
          Some (band_GetMaskBand U poUnderlyingMainRasterBand,
                mkMaskBand main (mask_nRefCountUnderlyingMainRasterBand m + 1),
                poMainBand, d, w)
      end
  end.

Definition Mask_UnrefUnderlyingRasterBand (m : GDALProxyPoolMaskBand)
  (d : GDALProxyPoolDataset MD MDI) (w : World)
  : option (GDALProxyPoolMaskBand * World) :=
  match UnrefUnderlyingRasterBand (mask_poUnderlyingMainRasterBand m) d w with
  | None => None
  | Some w =>
      Some (mkMaskBand (mask_poUnderlyingMainRasterBand m)
                       (mask_nRefCountUnderlyingMainRasterBand m - 1), w)
  end.

(** *** GetOverview, GetMaskBand: the proxies of the overviews and of the mask

    [None]: a null pointer is dereferenced, or the array is written outside
    its bounds. *)

Definition GetOverview (nOverviewBand0 : Z) (c : ProxyBandCaches)
  (b : GDALProxyPoolRasterBand) (d : GDALProxyPoolDataset MD MDI) (w : World)
  : option (option OverviewBandObject * ProxyBandCaches * GDALProxyPoolRasterBand
            * GDALProxyPoolDataset MD MDI * World) :=
  let nSizeProxyOverviewRasterBand :=
    Z.of_nat (List.length (papoProxyOverviewRasterBand c)) in
  let cached :=
    if (0 <=? nOverviewBand0) && (nOverviewBand0 <? nSizeProxyOverviewRasterBand)
    then match nth_error (papoProxyOverviewRasterBand c) (Z.to_nat nOverviewBand0) with
         | Some (Some o) => Some o
         | _ => None
         end
    else None in
  match cached with
  | Some o => Some (Some o, c, b, d, w)
  | None =>
      match RefUnderlyingRasterBand true b d w with
      | None => None
      | Some (None, b, d, w) => Some (None, c, b, d, w)
      | Some (Some poUnderlyingRasterBand, b, d, w) =>
          match band_GetOverview U poUnderlyingRasterBand nOverviewBand0 with
          | None =>
              match UnrefUnderlyingRasterBand (Some poUnderlyingRasterBand) d w with
              | None => None
              | Some w => Some (None, c, b, d, w)
              end
          | Some poOverviewRasterBand =>
              let a :=
                if nSizeProxyOverviewRasterBand <=? nOverviewBand0
                then papoProxyOverviewRasterBand c
                     ++ repeat None
                          (Z.to_nat (nOverviewBand0 + 1 - nSizeProxyOverviewRasterBand))
                else papoProxyOverviewRasterBand c in
              if nOverviewBand0 <? 0 then None
              else
                let o := mkOverviewBandObject
                           (band_of_underlying poOverviewRasterBand)
                           (mkOverviewBand nOverviewBand0 None 0) in
                let c := mkProxyBandCaches
                           (array_set (Z.to_nat nOverviewBand0) (Some o) a)
                           (poProxyMaskBand c) in
                match UnrefUnderlyingRasterBand (Some poUnderlyingRasterBand) d w with
                | None => None
                | Some w => Some (Some o, c, b, d, w)
                end
          end
      end
  end.

Definition GetMaskBand (c : ProxyBandCaches) (b : GDALProxyPoolRasterBand)
  (d : GDALProxyPoolDataset MD MDI) (w : World)
  : option (option MaskBandObject * ProxyBandCaches * GDALProxyPoolRasterBand
            * GDALProxyPoolDataset MD MDI * World) :=
  match poProxyMaskBand c with
  | Some m => Some (Some m, c, b, d, w)
  | None =>
      match RefUnderlyingRasterBand true b d w with
      | None => None
      | Some (None, b, d, w) => Some (None, c, b, d, w)
      | Some (Some poUnderlyingRasterBand, b, d, w) =>
          match band_GetMaskBand U poUnderlyingRasterBand with
          | None => None
          | Some poMaskBand =>
              let m := mkMaskBandObject (band_of_underlying poMaskBand)
                                        (mkMaskBand None 0) in
              let c := mkProxyBandCaches (papoProxyOverviewRasterBand c) (Some m) in
              match UnrefUnderlyingRasterBand (Some poUnderlyingRasterBand) d w with
              | None => None
              | Some w => Some (Some m, c, b, d, w)
              end
          end
      end
  end.

Definition AddSrcMaskBandDescriptionFromUnderlying (c : ProxyBandCaches)
  (b : GDALProxyPoolRasterBand) (d : GDALProxyPoolDataset MD MDI) (w : World)
  : option (ProxyBandCaches * GDALProxyPoolRasterBand
            * GDALProxyPoolDataset MD MDI * World) :=
  match poProxyMaskBand c with
  | Some _ => Some (c, b, d, w)
  | None =>
      match RefUnderlyingRasterBand true b d w with
      | None => None
      | Some (None, b, d, w) => Some (c, b, d, w)
      | Some (Some poUnderlyingBand, b, d, w) =>
          match band_GetMaskBand U poUnderlyingBand with
          | None => None
          | Some poSrcMaskBand =>
              let m := mkMaskBandObject
                         (mkProxyBand 1 (fst (GetBlockSize poSrcMaskBand))
                                      (snd (GetBlockSize poSrcMaskBand)))
                         (mkMaskBand None 0) in
              let c := mkProxyBandCaches (papoProxyOverviewRasterBand c) (Some m) in
              match UnrefUnderlyingRasterBand (Some poUnderlyingBand) d w with
              | None => None
              | Some w => Some (c, b, d, w)
              end
          end
      end
  end.

End ProxyBands.

Arguments SetOpenOptions [MD MDI] papszOpenOptionsIn d w.
Arguments delete_GDALProxyPoolDataset [MD MDI] d w.
Arguments FlushCache B [MD MDI] U bAtClosing d w.
Arguments RefUnderlyingRasterBand B [MD MDI] U bForceOpen b d w.
Arguments UnrefUnderlyingRasterBand [MD MDI] poUnderlyingRasterBand d w.
Arguments Band_FlushCache B [MD MDI] U bAtClosing b d w.
Arguments Overview_RefUnderlyingRasterBand B [MD MDI] U bForceOpen o poMainBand d w.
Arguments Overview_UnrefUnderlyingRasterBand [MD MDI] o d w.
Arguments Mask_RefUnderlyingRasterBand B [MD MDI] U bForceOpen m poMainBand d w.
Arguments Mask_UnrefUnderlyingRasterBand [MD MDI] m d w.
Arguments GetOverview B [MD MDI] U nOverviewBand0 c b d w.
Arguments GetMaskBand B [MD MDI] U c b d w.
Arguments AddSrcMaskBandDescriptionFromUnderlying B [MD MDI] U c b d w.

(** ** More examples *)

Module Ex2.

(** Underlying datasets with one band, which has one overview and a mask. *)
Definition underlying : Underlying :=
  mkUnderlying
    (fun _ _ _ => CE_None)
    (fun ds n => if n =? 1 then Some (mkBand 1 ds 1 (256, 256)) else None)
    (fun _ _ _ => CE_None)
    (fun b n => if n =? 0 then Some (mkBand 2 (GetDataset b) 1 (128, 128)) else None)
    (fun b => Some (mkBand 3 (GetDataset b) 1 (256, 256))).

(** The chain of [Ex.pool_BA]: the record at 2, then the record at 1; the
    memory at 3 is allocated and not linked. *)
Definition chain_BA : Links.Chain :=
  Links.mkChain
    (fun a => match a with
              | 1%nat => Some (Links.mkNode (Some 2%nat) None)
              | 2%nat => Some (Links.mkNode None (Some 1%nat))
              | 3%nat => Some (Links.mkNode None None)
              | _ => None
              end)
    (Some 2%nat) (Some 1%nat).

(** A world without a pool, for thread 7. *)
Definition world_none : World := mkWorld None Ex.thread7.

(** The proxy band for band 1 of a source, with its block size not known
    yet, and an overview band and a mask band of it. *)
Definition band1 : GDALProxyPoolRasterBand := mkProxyBand 1 0 0.
Definition band2 : GDALProxyPoolRasterBand := mkProxyBand 2 0 0.
Definition overview5 : GDALProxyPoolOverviewRasterBand := mkOverviewBand 5 None 0.
Definition mask : GDALProxyPoolMaskBand := mkMaskBand None 0.
Definition caches : ProxyBandCaches := mkProxyBandCaches [] None.

End Ex2.

(** ** The range of the RAM of the pool, and the closes of an eviction *)

(** [nRAMUsage] of the pool and of an entry, and what [GetEstimatedRAMUsage]
    returns, are [int64_t] and [GIntBig] in the source. *)
Definition INT64_MIN : Z := - 2 ^ 63.
Definition INT64_MAX : Z := 2 ^ 63 - 1.

(** What an [int64_t] holds when the exact result of an operation is [z]. *)
Definition int64 (z : Z) : Z := (z - INT64_MIN) mod 2 ^ 64 + INT64_MIN.

(** [nRAMUsage += cur->nRAMUsage] (line 426) does not overflow in the step
    from [m] to [m']: the RAM of the pool before the step and the RAM that an
    entry which was being opened has after it are together at most
    [INT64_MAX].  For an entry that is still being opened afterwards, that
    RAM is [0]. *)
Definition add_fits (m m' : Machine) : Prop :=
  forall cur e,
    In cur (opening m) ->
    entry_at cur (entries (pool m')) = Some e ->
    pool_nRAMUsage (pool m) + nRAMUsage e <= INT64_MAX.

(** The states that the pool reaches from its construction by steps in
    which that addition does not overflow. *)
Inductive reachable_int64 : Machine -> Prop :=
| reachable_int64_new maxSizeIn nMaxRAMUsageIn :
    reachable_int64 (mkMachine (new_GDALDatasetPool maxSizeIn nMaxRAMUsageIn) [])
| reachable_int64_step m m' :
    reachable_int64 m -> pool_step m m' -> add_fits m m' -> reachable_int64 m'.

(** The close of the dataset of [c] as the log has it, made with
    [refCountOfDisabledRefCount] at [d]; and the closes of the entries of
    [closed], the first of the list being the newest. *)
Definition close_event (d : Z) (c : GDALProxyPoolCacheEntry) : list Event :=
  match poDS c with
  | Some ds => [EvClose ds (responsiblePID c) d]
  | None => []
  end.

Definition close_events (d : Z) (closed : list GDALProxyPoolCacheEntry)
  : list Event :=
  flat_map (close_event d) closed.

(** ** What happens during an open

    [_RefDataset] above is the run of a request during whose open no other
    thread enters the pool.  The source releases the mutex around the open
    (lines 412-415): [during_open] are the critical sections of other
    requests that can run in between, and [still_opening] is what they can
    have made of the record that is being opened. *)

(** [c'] is the record [c] of an open in progress, still marked, with its
    key, its owner and its PID, without dataset and RAM as [c]. *)
Definition still_opening (c c' : GDALProxyPoolCacheEntry) : Prop :=
  self c' = self c
  /\ pszFileNameAndOpenOptions c' = pszFileNameAndOpenOptions c
  /\ pszOwner c' = pszOwner c
  /\ responsiblePID c' = responsiblePID c
  /\ poDS c' = poDS c
  /\ nRAMUsage c' = nRAMUsage c
  /\ refCount c' < 0.

(** Any number of steps of the pool, none of them the second half of the
    request that opens [cur]. *)
Inductive during_open (cur : nat) : Machine -> Machine -> Prop :=
| during_open_none m : during_open cur m m
| during_open_step m m1 m2 :
    during_open cur m m1 -> pool_step m1 m2 -> In cur (opening m2) ->
    during_open cur m m2.

(** * Facts *)

(** ** Pointers into the list *)

Lemma is_entry_self (e : GDALProxyPoolCacheEntry) : is_entry (self e) e = true.
Proof. apply Nat.eqb_refl. Qed.

Lemma is_entry_true a e : is_entry a e = true <-> self e = a.
Proof. apply Nat.eqb_eq. Qed.

Lemma is_entry_false a e : is_entry a e = false <-> self e <> a.
Proof. apply Nat.eqb_neq. Qed.

Lemma is_entry_not_in a l :
  ~ In a (addresses l) -> forall x, In x l -> is_entry a x = false.
Proof.
  intros Hn x Hx. apply is_entry_false. intros E. apply Hn.
  subst a. now apply in_map.
Qed.

Lemma NoDup_addresses_split l1 e l2 :
  NoDup (addresses (l1 ++ e :: l2)) ->
  ~ In (self e) (addresses l1) /\ ~ In (self e) (addresses l2)
  /\ NoDup (addresses (l1 ++ l2)).
Proof.
  unfold addresses. rewrite !map_app. cbn [map]. intros H.
  pose proof (NoDup_remove_1 _ _ _ H) as H1.
  pose proof (NoDup_remove_2 _ _ _ H) as H2.
  rewrite in_app_iff in H2. tauto.
Qed.

Lemma entry_at_not_in a l : ~ In a (addresses l) -> entry_at a l = None.
Proof.
  intros Hn. unfold entry_at.
  induction l as [|x l IH]; cbn; [reflexivity|].
  rewrite (is_entry_not_in _ _ Hn x (or_introl eq_refl)).
  apply IH. intros Hin. apply Hn. now right.
Qed.

Lemma update_at_not_in a f l : ~ In a (addresses l) -> update_at a f l = l.
Proof.
  intros Hn. unfold update_at.
  induction l as [|x l IH]; cbn; [reflexivity|].
  rewrite (is_entry_not_in _ _ Hn x (or_introl eq_refl)).
  f_equal. apply IH. intros Hin. apply Hn. now right.
Qed.

Lemma unlink_not_in a l : ~ In a (addresses l) -> unlink a l = l.
Proof.
  intros Hn. unfold unlink.
  induction l as [|x l IH]; cbn; [reflexivity|].
  rewrite (is_entry_not_in _ _ Hn x (or_introl eq_refl)). cbn.
  f_equal. apply IH. intros Hin. apply Hn. now right.
Qed.

Lemma entry_at_split l1 e l2 :
  ~ In (self e) (addresses l1) -> entry_at (self e) (l1 ++ e :: l2) = Some e.
Proof.
  intros Hn. unfold entry_at.
  induction l1 as [|x l1 IH]; cbn.
  - now rewrite is_entry_self.
  - rewrite (is_entry_not_in _ _ Hn x (or_introl eq_refl)).
    apply IH. intros Hin. apply Hn. now right.
Qed.

Lemma update_at_split f l1 e l2 :
  ~ In (self e) (addresses l1) -> ~ In (self e) (addresses l2) ->
  update_at (self e) f (l1 ++ e :: l2) = l1 ++ f e :: l2.
Proof.
  intros H1 H2. unfold update_at. rewrite map_app. cbn [map].
  rewrite is_entry_self.
  fold (update_at (self e) f l1). fold (update_at (self e) f l2).
  now rewrite !update_at_not_in.
Qed.

Lemma unlink_split l1 e l2 :
  ~ In (self e) (addresses l1) -> ~ In (self e) (addresses l2) ->
  unlink (self e) (l1 ++ e :: l2) = l1 ++ l2.
Proof.
  intros H1 H2. unfold unlink. rewrite filter_app. cbn [filter].
  rewrite is_entry_self. cbn.
  fold (unlink (self e) l1). fold (unlink (self e) l2).
  now rewrite !unlink_not_in.
Qed.

Lemma entry_at_Some a l e :
  entry_at a l = Some e ->
  exists l1 l2, l = l1 ++ e :: l2 /\ self e = a /\ ~ In a (addresses l1).
Proof.
  unfold entry_at. induction l as [|x l IH]; cbn; [discriminate|].
  destruct (is_entry a x) eqn:E.
  - intros [= ->]. exists [], l. apply is_entry_true in E. cbn. auto.
  - intros H. destruct (IH H) as (l1 & l2 & -> & Hs & Hn).
    exists (x :: l1), l2. repeat split; auto.
    cbn. intros [Hx|Hx]; [|tauto]. apply is_entry_false in E. auto.
Qed.

Lemma entry_at_In a l e : entry_at a l = Some e -> In e l /\ self e = a.
Proof.
  intros H. destruct (entry_at_Some _ _ _ H) as (l1 & l2 & -> & Hs & _).
  split; [|assumption]. apply in_elt.
Qed.

Lemma In_entry_at l e :
  NoDup (addresses l) -> In e l -> entry_at (self e) l = Some e.
Proof.
  intros Hnd Hin. destruct (in_split _ _ Hin) as (l1 & l2 & ->).
  apply entry_at_split. now apply NoDup_addresses_split in Hnd.
Qed.

(** The picture of "move to begin". *)
Lemma move_to_begin_split l1 e l2 :
  NoDup (addresses (l1 ++ e :: l2)) ->
  move_to_begin (self e) (l1 ++ e :: l2) = e :: l1 ++ l2.
Proof.
  intros H. apply NoDup_addresses_split in H as (H1 & H2 & _).
  unfold move_to_begin. now rewrite entry_at_split, unlink_split.
Qed.

Lemma is_firstEntry_split l1 e l2 :
  ~ In (self e) (addresses l1) ->
  is_firstEntry (self e) (l1 ++ e :: l2) = match l1 with [] => true | _ => false end.
Proof.
  destruct l1 as [|x l1]; cbn.
  - intros _. apply is_entry_self.
  - intros H. apply is_entry_false. intros E. apply H. now left.
Qed.

(** Whether or not [e] is [firstEntry], it is first afterwards. *)
Lemma promote_split l1 e l2 :
  NoDup (addresses (l1 ++ e :: l2)) ->
  (if negb (is_firstEntry (self e) (l1 ++ e :: l2))
   then move_to_begin (self e) (l1 ++ e :: l2)
   else l1 ++ e :: l2) = e :: l1 ++ l2.
Proof.
  intros H. pose proof (NoDup_addresses_split _ _ _ H) as (H1 & _ & _).
  rewrite is_firstEntry_split by assumption.
  destruct l1; cbn [negb]; [reflexivity|].
  now apply move_to_begin_split.
Qed.

Lemma addresses_update_at a f l :
  (forall e, self (f e) = self e) -> addresses (update_at a f l) = addresses l.
Proof.
  intros Hf. unfold addresses, update_at. rewrite map_map.
  apply map_ext. intros e. destruct (is_entry a e); auto.
Qed.

Lemma find_split (A : Type) (f : A -> bool) l e :
  find f l = Some e <->
  exists l1 l2, l = l1 ++ e :: l2 /\ f e = true /\ forall x, In x l1 -> f x = false.
Proof.
  split.
  - induction l as [|x l IH]; cbn; [discriminate|].
    destruct (f x) eqn:E.
    + intros [= ->]. exists [], l. cbn. intuition.
    + intros H. destruct (IH H) as (l1 & l2 & -> & He & Hl).
      exists (x :: l1), l2. repeat split; auto.
      intros y [<-|Hy]; auto.
  - intros (l1 & l2 & -> & He & Hl).
    induction l1 as [|x l1 IH]; cbn.
    + now rewrite He.
    + rewrite (Hl x (or_introl eq_refl)). apply IH.
      intros y Hy. apply Hl. now right.
Qed.

Lemma find_none_iff (A : Type) (f : A -> bool) l :
  find f l = None <-> forall x, In x l -> f x = false.
Proof.
  split.
  - apply find_none.
  - induction l as [|x l IH]; cbn; [reflexivity|].
    intros H. rewrite (H x (or_introl eq_refl)). apply IH.
    intros y Hy. apply H. now right.
Qed.

(** ** The candidate of EvictEntryWithZeroRefCount *)

(** A list either has no element that satisfies [f], or a last one. *)
Lemma last_split (A : Type) (f : A -> bool) (l : list A) :
  (forall x, In x l -> f x = false)
  \/ exists l1 c l2, l = l1 ++ c :: l2 /\ f c = true
                     /\ forall x, In x l2 -> f x = false.
Proof.
  induction l as [|x l [IH|(l1 & c & l2 & -> & Hc & Hl2)]].
  - left. intros x [].
  - destruct (f x) eqn:E.
    + right. exists [], x, l. auto.
    + left. intros y [<-|Hy]; auto.
  - right. exists (x :: l1), c, l2. auto.
Qed.

Lemma find_candidate_none b l acc :
  (forall x, In x l -> evictable b x = false) -> find_candidate b l acc = acc.
Proof.
  revert acc. induction l as [|x l IH]; intros acc H; cbn; [reflexivity|].
  rewrite (H x (or_introl eq_refl)). apply IH.
  intros y Hy. apply H. now right.
Qed.

Lemma find_candidate_last b l1 c l2 acc :
  evictable b c = true -> (forall x, In x l2 -> evictable b x = false) ->
  find_candidate b (l1 ++ c :: l2) acc = Some c.
Proof.
  intros Hc Hl2. revert acc.
  induction l1 as [|x l1 IH]; intros acc; cbn.
  - rewrite Hc. now apply find_candidate_none.
  - apply IH.
Qed.

Lemma find_candidate_Some b l c :
  find_candidate b l None = Some c ->
  exists l1 l2, l = l1 ++ c :: l2 /\ evictable b c = true
                /\ forall x, In x l2 -> evictable b x = false.
Proof.
  destruct (last_split _ (evictable b) l) as [H|(l1 & c' & l2 & -> & Hc & Hl2)].
  - rewrite find_candidate_none by assumption. discriminate.
  - rewrite (find_candidate_last b l1 c' l2 None Hc Hl2).
    intros [= <-]. eauto.
Qed.

Lemma find_candidate_None b l :
  find_candidate b l None = None -> forall x, In x l -> evictable b x = false.
Proof.
  destruct (last_split _ (evictable b) l) as [H|(l1 & c' & l2 & -> & Hc & Hl2)].
  - auto.
  - now rewrite (find_candidate_last b l1 c' l2 None Hc Hl2).
Qed.

Lemma self_emptied e : self (emptied e) = self e.
Proof. reflexivity. Qed.

(** An eviction without and with a candidate. *)
Lemma Evict_none responsiblePID0 b p t :
  (forall x, In x (entries p) -> evictable b x = false) ->
  EvictEntryWithZeroRefCount responsiblePID0 b p t = (false, p, t).
Proof.
  intros H. unfold EvictEntryWithZeroRefCount.
  now rewrite find_candidate_none.
Qed.

Lemma Evict_last responsiblePID0 b p t l1 c l2 :
  NoDup (addresses (entries p)) ->
  entries p = l1 ++ c :: l2 ->
  evictable b c = true ->
  (forall x, In x l2 -> evictable b x = false) ->
  EvictEntryWithZeroRefCount responsiblePID0 b p t =
    (true,
     set_entries (if b then l1 ++ emptied c :: l2 else emptied c :: l1 ++ l2)
       (set_pool_nRAMUsage (pool_nRAMUsage p - nRAMUsage c) p),
     closed_candidate responsiblePID0 c t).
Proof.
  intros Hnd He Hc Hl2. unfold EvictEntryWithZeroRefCount.
  rewrite He, (find_candidate_last b l1 c l2 None Hc Hl2).
  cbn [entries set_pool_nRAMUsage]. rewrite He.
  rewrite He in Hnd.
  destruct (NoDup_addresses_split _ _ _ Hnd) as (H1 & H2 & _).
  rewrite update_at_split by assumption.
  destruct b; cbn [negb andb].
  - reflexivity.
  - change (self c) with (self (emptied c)).
    rewrite promote_split; [reflexivity|].
    unfold addresses in *. rewrite map_app in *. exact Hnd.
Qed.

(** ** The invariant under an eviction *)

Lemma ram_sum_app l1 l2 : ram_sum (l1 ++ l2) = ram_sum l1 + ram_sum l2.
Proof. induction l1 as [|x l1 IH]; cbn; lia. Qed.

Lemma ram_sum_nonneg l :
  (forall e, In e l -> 0 <= nRAMUsage e) -> 0 <= ram_sum l.
Proof.
  induction l as [|x l IH]; cbn; intros H; [lia|].
  pose proof (H x (or_introl eq_refl)).
  assert (0 <= ram_sum l) by (apply IH; intros; apply H; now right). lia.
Qed.

Lemma ram_sum_zero l e :
  (forall x, In x l -> 0 <= nRAMUsage x) -> ram_sum l = 0 -> In e l ->
  nRAMUsage e = 0.
Proof.
  induction l as [|x l IH]; cbn; intros Hp Hs [].
  - subst x. assert (0 <= ram_sum l) by (apply ram_sum_nonneg; auto).
    pose proof (Hp e (or_introl eq_refl)). lia.
  - assert (0 <= ram_sum l) by (apply ram_sum_nonneg; auto).
    pose proof (Hp x (or_introl eq_refl)).
    apply IH; auto. lia.
Qed.

Lemma addresses_app l1 l2 : addresses (l1 ++ l2) = addresses l1 ++ addresses l2.
Proof. apply map_app. Qed.

Lemma NoDup_addresses_move l1 e e' l2 :
  self e' = self e ->
  NoDup (addresses (l1 ++ e :: l2)) -> NoDup (addresses (e' :: l1 ++ l2)).
Proof.
  intros Hs H. destruct (NoDup_addresses_split _ _ _ H) as (H1 & H2 & H3).
  cbn. constructor; [|exact H3].
  rewrite Hs. fold (addresses (l1 ++ l2)).
  rewrite addresses_app, in_app_iff. tauto.
Qed.

Lemma NoDup_addresses_replace l1 e e' l2 :
  self e' = self e ->
  NoDup (addresses (l1 ++ e :: l2)) -> NoDup (addresses (l1 ++ e' :: l2)).
Proof.
  intros Hs. unfold addresses. rewrite !map_app. cbn. now rewrite Hs.
Qed.

(** Replacing an entry of a pool that is [pool_ok], wherever the new record
    is put, with the RAM of the pool following. *)
Lemma pool_ok_replace p l1 e l2 e' l' r :
  pool_ok p ->
  entries p = l1 ++ e :: l2 ->
  self e' = self e ->
  0 <= nRAMUsage e' ->
  (poDS e' = None -> nRAMUsage e' = 0) ->
  (l' = l1 ++ e' :: l2 \/ l' = e' :: l1 ++ l2) ->
  r = pool_nRAMUsage p - nRAMUsage e + nRAMUsage e' ->
  pool_ok (set_entries l' (set_pool_nRAMUsage r p)).
Proof.
  intros [Hnd Hsum Hpos Hcl] He Hs Hp' Hc' Hl' ->.
  rewrite He in *.
  assert (Hin : forall x, In x l' -> x = e' \/ In x (l1 ++ e :: l2)).
  { intros x Hx. destruct Hl' as [-> | ->].
    - rewrite in_app_iff in *. cbn in *. intuition.
    - cbn in Hx. rewrite in_app_iff in *. cbn. intuition. }
  constructor; cbn [entries set_entries set_pool_nRAMUsage pool_nRAMUsage].
  - destruct Hl' as [-> | ->].
    + now apply NoDup_addresses_replace with e.
    + now apply NoDup_addresses_move with e.
  - rewrite <- Hsum. destruct Hl' as [-> | ->];
      cbn; rewrite !ram_sum_app; cbn; lia.
  - intros x Hx. destruct (Hin x Hx) as [-> | Hx']; auto.
  - intros x Hx. destruct (Hin x Hx) as [-> | Hx']; auto.
Qed.

Lemma evictable_true b c :
  evictable b c = true <-> refCount c = 0 /\ (b = true -> 0 < nRAMUsage c).
Proof.
  unfold evictable. rewrite andb_true_iff, orb_true_iff, Z.eqb_eq, Z.ltb_lt.
  destruct b; cbn; intuition discriminate.
Qed.

Lemma evictable_false b c :
  evictable b c = false <-> ~ (refCount c = 0 /\ (b = true -> 0 < nRAMUsage c)).
Proof.
  rewrite <- evictable_true. destruct (evictable b c); intuition discriminate.
Qed.

Lemma Evict_pool_ok responsiblePID0 b p t r p' t' :
  pool_ok p ->
  EvictEntryWithZeroRefCount responsiblePID0 b p t = (r, p', t') ->
  pool_ok p'.
Proof.
  intros Hok. unfold EvictEntryWithZeroRefCount.
  destruct (find_candidate b (entries p) None) as [c|] eqn:Hf.
  - destruct (find_candidate_Some _ _ _ Hf) as (l1 & l2 & He & Hc & Hl2).
    pose proof (Evict_last responsiblePID0 b p t l1 c l2
                  (ok_addresses _ Hok) He Hc Hl2) as HE.
    unfold EvictEntryWithZeroRefCount in HE. rewrite Hf in HE. rewrite HE.
    intros [= <- <- <-].
    eapply pool_ok_replace with (e := c) (e' := emptied c); eauto.
    + cbn. lia.
    + destruct b; auto.
    + cbn. lia.
  - now intros [= <- <- <-].
Qed.

(** ** The lookup *)

Lemma owner_equal_true o1 o2 : owner_equal o1 o2 = true <-> o1 = o2.
Proof.
  destruct o1 as [s1|], o2 as [s2|]; cbn; try (split; congruence).
  rewrite String.eqb_eq. split; congruence.
Qed.

Lemma key_equal_true key k :
  match k with Some k => String.eqb key k | None => false end = true
  <-> k = Some key.
Proof.
  destruct k as [k|]; [|split; discriminate].
  rewrite String.eqb_eq. split; congruence.
Qed.

Lemma entry_matches_rule key bShared pid pszOwner0 e :
  entry_matches key bShared pid pszOwner0 e = true
  <-> matching_rule key bShared pid pszOwner0 e.
Proof.
  unfold entry_matches, matching_rule.
  rewrite !andb_true_iff, orb_true_iff, !andb_true_iff.
  rewrite Z.leb_le, key_equal_true, !Z.eqb_eq, owner_equal_true, negb_true_iff.
  destruct bShared; intuition discriminate.
Qed.

Lemma entry_matches_not_rule key bShared pid pszOwner0 e :
  entry_matches key bShared pid pszOwner0 e = false
  <-> ~ matching_rule key bShared pid pszOwner0 e.
Proof.
  rewrite <- entry_matches_rule.
  destruct (entry_matches key bShared pid pszOwner0 e); intuition discriminate.
Qed.

Lemma self_incr_refCount e : self (incr_refCount e) = self e.
Proof. reflexivity. Qed.

Lemma self_install key o pid e : self (install key o pid e) = self e.
Proof. reflexivity. Qed.

(** The first half of [_RefDataset], path by path. *)
Lemma prepare_match pszFileName papszOpenOptions bShared bForceOpen pszOwner0
  p t l1 e l2 :
  bInDestruction p = false ->
  NoDup (addresses (entries p)) ->
  entries p = l1 ++ e :: l2 ->
  entry_matches (GetFilenameAndOpenOptions pszFileName papszOpenOptions) bShared
                (curResponsiblePID t) pszOwner0 e = true ->
  (forall x, In x l1 ->
     entry_matches (GetFilenameAndOpenOptions pszFileName papszOpenOptions) bShared
                   (curResponsiblePID t) pszOwner0 x = false) ->
  _RefDataset_prepare pszFileName papszOpenOptions bShared bForceOpen pszOwner0 p t
  = (Return (Some (self e)), set_entries (incr_refCount e :: l1 ++ l2) p, t).
Proof.
  intros Hd Hnd He Hm Hl1. unfold _RefDataset_prepare.
  rewrite Hd. unfold GDALGetResponsiblePIDForCurrentThread.
  assert (Hf : find (entry_matches (GetFilenameAndOpenOptions pszFileName papszOpenOptions)
                       bShared (curResponsiblePID t) pszOwner0) (entries p) = Some e).
  { apply find_split. exists l1, l2. auto. }
  rewrite Hf, He. rewrite He in Hnd.
  rewrite promote_split by assumption.
  change (incr_refCount e :: l1 ++ l2) with ([] ++ incr_refCount e :: l1 ++ l2).
  change (e :: l1 ++ l2) with ([] ++ e :: l1 ++ l2).
  rewrite update_at_split; [reflexivity|intros []|].
  destruct (NoDup_addresses_split _ _ _ Hnd) as (H1 & H2 & _).
  rewrite addresses_app, in_app_iff. tauto.
Qed.

Lemma prepare_miss pszFileName papszOpenOptions bShared pszOwner0 p t :
  (forall x, In x (entries p) ->
     entry_matches (GetFilenameAndOpenOptions pszFileName papszOpenOptions) bShared
                   (curResponsiblePID t) pszOwner0 x = false) ->
  _RefDataset_prepare pszFileName papszOpenOptions bShared false pszOwner0 p t
  = (Return None, p, t).
Proof.
  intros Hm. unfold _RefDataset_prepare.
  destruct (bInDestruction p); [reflexivity|].
  unfold GDALGetResponsiblePIDForCurrentThread.
  now rewrite (proj2 (find_none_iff _ _ _) Hm).
Qed.

Lemma prepare_recycle pszFileName papszOpenOptions bShared pszOwner0 p t l1 c l2 :
  bInDestruction p = false ->
  NoDup (addresses (entries p)) ->
  (forall x, In x (entries p) ->
     entry_matches (GetFilenameAndOpenOptions pszFileName papszOpenOptions) bShared
                   (curResponsiblePID t) pszOwner0 x = false) ->
  currentSize p = maxSize p ->
  entries p = l1 ++ c :: l2 ->
  evictable false c = true ->
  (forall x, In x l2 -> evictable false x = false) ->
  _RefDataset_prepare pszFileName papszOpenOptions bShared true pszOwner0 p t
  = (Opening (self c),
     set_entries
       (install (GetFilenameAndOpenOptions pszFileName papszOpenOptions) pszOwner0
                (curResponsiblePID t) (emptied c) :: l1 ++ l2)
       (set_pool_nRAMUsage (pool_nRAMUsage p - nRAMUsage c) p),
     incr_disabled (closed_candidate (curResponsiblePID t) c t)).
Proof.
  intros Hd Hnd Hm Hsz He Hc Hl2. unfold _RefDataset_prepare.
  rewrite Hd. unfold GDALGetResponsiblePIDForCurrentThread.
  rewrite (proj2 (find_none_iff _ _ _) Hm). cbn [negb].
  rewrite Hsz, Z.eqb_refl.
  rewrite (Evict_last (curResponsiblePID t) false p t l1 c l2 Hnd He Hc Hl2).
  cbn [entries set_entries hd_error option_map self emptied].
  change (emptied c :: l1 ++ l2) with ([] ++ emptied c :: l1 ++ l2).
  change (self c) with (self (emptied c)).
  rewrite update_at_split; [reflexivity|intros []|].
  cbn [self emptied]. rewrite He in Hnd.
  destruct (NoDup_addresses_split _ _ _ Hnd) as (H1 & H2 & _).
  rewrite addresses_app, in_app_iff. tauto.
Qed.

Lemma prepare_exhausted pszFileName papszOpenOptions bShared pszOwner0 p t :
  bInDestruction p = false ->
  (forall x, In x (entries p) ->
     entry_matches (GetFilenameAndOpenOptions pszFileName papszOpenOptions) bShared
                   (curResponsiblePID t) pszOwner0 x = false) ->
  currentSize p = maxSize p ->
  (forall x, In x (entries p) -> evictable false x = false) ->
  _RefDataset_prepare pszFileName papszOpenOptions bShared true pszOwner0 p t
  = (Return None, p, emit (EvCPLError (maxSize p)) t).
Proof.
  intros Hd Hm Hsz Hn. unfold _RefDataset_prepare.
  rewrite Hd. unfold GDALGetResponsiblePIDForCurrentThread.
  rewrite (proj2 (find_none_iff _ _ _) Hm). cbn [negb].
  rewrite Hsz, Z.eqb_refl.
  now rewrite (Evict_none (curResponsiblePID t) false p t Hn).
Qed.

Lemma CPLCalloc_fresh l : ~ In (CPLCalloc l) (addresses l).
Proof.
  assert (H : forall a, In a (addresses l) ->
                        (a <= fold_right Nat.max 0 (map self l))%nat).
  { induction l as [|x l IH]; cbn; intros a []; [subst a|]; [lia|].
    specialize (IH a H). lia. }
  intros Hin. apply H in Hin. unfold CPLCalloc in Hin. lia.
Qed.

Lemma prepare_prepend pszFileName papszOpenOptions bShared pszOwner0 p t :
  bInDestruction p = false ->
  (forall x, In x (entries p) ->
     entry_matches (GetFilenameAndOpenOptions pszFileName papszOpenOptions) bShared
                   (curResponsiblePID t) pszOwner0 x = false) ->
  currentSize p <> maxSize p ->
  _RefDataset_prepare pszFileName papszOpenOptions bShared true pszOwner0 p t
  = (Opening (CPLCalloc (entries p)),
     set_currentSize (currentSize p + 1)
       (set_entries
          (install (GetFilenameAndOpenOptions pszFileName papszOpenOptions) pszOwner0
                   (curResponsiblePID t) (calloc_entry (CPLCalloc (entries p)))
           :: entries p) p),
     incr_disabled t).
Proof.
  intros Hd Hm Hsz. unfold _RefDataset_prepare.
  rewrite Hd. unfold GDALGetResponsiblePIDForCurrentThread.
  rewrite (proj2 (find_none_iff _ _ _) Hm). cbn [negb].
  apply Z.eqb_neq in Hsz. rewrite Hsz.
  cbn [entries set_entries set_currentSize].
  set (a := CPLCalloc (entries p)).
  change (calloc_entry a :: entries p) with ([] ++ calloc_entry a :: entries p).
  change a with (self (calloc_entry a)) at 2.
  rewrite update_at_split; [reflexivity|intros []|].
  apply CPLCalloc_fresh.
Qed.

(** Every call goes one of the ways of [prepare_path]. *)
Lemma prepare_paths pszFileName papszOpenOptions bShared bForceOpen pszOwner0 p t :
  NoDup (addresses (entries p)) ->
  prepare_path (GetFilenameAndOpenOptions pszFileName papszOpenOptions)
    bShared bForceOpen pszOwner0 p t
    (_RefDataset_prepare pszFileName papszOpenOptions bShared bForceOpen pszOwner0 p t).
Proof.
  intros Hnd.
  set (key := GetFilenameAndOpenOptions pszFileName papszOpenOptions).
  destruct (bInDestruction p) eqn:Hd.
  { unfold _RefDataset_prepare. rewrite Hd. now constructor. }
  destruct (find (entry_matches key bShared (curResponsiblePID t) pszOwner0) (entries p))
    as [e|] eqn:Hf.
  { apply find_split in Hf as (l1 & l2 & He & Hm & Hl1).
    unfold key in *. erewrite prepare_match by eassumption.
    now constructor. }
  pose proof (proj1 (find_none_iff _ _ _) Hf) as Hm.
  destruct bForceOpen.
  2:{ unfold key in *. rewrite prepare_miss by assumption. now constructor. }
  destruct (Z.eq_dec (currentSize p) (maxSize p)) as [Hsz|Hsz].
  2:{ unfold key in *. rewrite prepare_prepend by assumption. now constructor. }
  destruct (last_split _ (evictable false) (entries p))
    as [Hn|(l1 & c & l2 & He & Hc & Hl2)].
  - unfold key in *. rewrite prepare_exhausted by assumption. now constructor.
  - unfold key in *. erewrite prepare_recycle by eassumption.
    now apply path_recycle.
Qed.

(** ** The RAM pressure loop *)

Lemma entry_at_replace_other a l1 e e' l2 :
  self e' = self e -> self e <> a ->
  entry_at a (l1 ++ e' :: l2) = entry_at a (l1 ++ e :: l2).
Proof.
  intros Hs Hn. unfold entry_at.
  induction l1 as [|x l1 IH]; cbn.
  - rewrite (proj2 (is_entry_false a e) Hn).
    rewrite <- Hs in Hn. now rewrite (proj2 (is_entry_false a e') Hn).
  - now rewrite IH.
Qed.

Lemma entry_at_move_other a l1 e' l2 :
  self e' <> a ->
  entry_at a (e' :: l1 ++ l2) = entry_at a (l1 ++ e' :: l2).
Proof.
  intros Hn. unfold entry_at. cbn.
  rewrite (proj2 (is_entry_false a e') Hn).
  induction l1 as [|x l1 IH]; cbn.
  - now rewrite (proj2 (is_entry_false a e') Hn).
  - now rewrite IH.
Qed.

(** Two records of a well-formed list at the same address are the same. *)
Lemma same_address l e1 e2 :
  NoDup (addresses l) -> In e1 l -> In e2 l -> self e1 = self e2 -> e1 = e2.
Proof.
  intros Hnd H1 H2 Hs.
  pose proof (In_entry_at _ _ Hnd H1) as E1.
  pose proof (In_entry_at _ _ Hnd H2) as E2.
  rewrite Hs in E1. congruence.
Qed.

Lemma n_evictable_le l : (n_evictable l <= List.length l)%nat.
Proof. apply filter_length_le. Qed.

Lemma n_evictable_emptied l1 c l2 :
  evictable true c = true ->
  S (n_evictable (l1 ++ emptied c :: l2)) = n_evictable (l1 ++ c :: l2).
Proof.
  intros Hc. unfold n_evictable. rewrite !filter_app, !length_app.
  cbn [filter]. rewrite Hc.
  replace (evictable true (emptied c)) with false.
  - cbn [List.length]. lia.
  - symmetry. apply evictable_false. cbn. intros [_ H]. specialize (H eq_refl). lia.
Qed.

Lemma ram_candidate_evictable e :
  ram_candidate e <-> evictable true e = true.
Proof. rewrite evictable_true. unfold ram_candidate. intuition. Qed.

Lemma only_cur_has_RAM p cur c :
  pool_ok p -> entry_at cur (entries p) = Some c ->
  pool_nRAMUsage p = nRAMUsage c ->
  forall e, In e (entries p) -> self e <> cur -> ~ ram_candidate e.
Proof.
  intros Hok Hc Hr e He Hne [_ Hpos].
  destruct (entry_at_Some _ _ _ Hc) as (l1 & l2 & Hl & Hs & _).
  pose proof (ok_ram_sum _ Hok) as Hsum.
  pose proof (ok_ram_nonneg _ Hok) as Hnn.
  rewrite Hl in *. rewrite ram_sum_app in Hsum. cbn in Hsum.
  assert (Hz : ram_sum (l1 ++ l2) = 0) by (rewrite ram_sum_app; lia).
  assert (He' : In e (l1 ++ l2)).
  { rewrite in_app_iff in *. cbn in He. destruct He as [?|[->|?]]; auto.
    now contradiction Hne. }
  assert (nRAMUsage e = 0); [|lia].
  apply (ram_sum_zero (l1 ++ l2)); auto.
  intros x Hx. apply Hnn. rewrite in_app_iff in *. cbn. tauto.
Qed.

Lemma evict_for_RAM_pressure fuel responsiblePID0 cur : forall p t c,
  pool_ok p ->
  entry_at cur (entries p) = Some c ->
  refCount c <> 0 ->
  (n_evictable (entries p) < fuel)%nat ->
  exists p' t',
    evict_for_RAM fuel responsiblePID0 cur p t = Some (p', t')
    /\ ram_pressure responsiblePID0 cur (p, t) (p', t').
Proof.
  induction fuel as [|fuel IH]; intros p t c Hok Hc Hrc Hn; [lia|].
  cbn [evict_for_RAM]. rewrite Hc.
  destruct ((nMaxRAMUsage p <? pool_nRAMUsage p)
            && negb (pool_nRAMUsage p =? nRAMUsage c)) eqn:Hcond.
  - apply andb_true_iff in Hcond as [Hover Hne].
    apply Z.ltb_lt in Hover.
    destruct (last_split _ (evictable true) (entries p))
      as [Hnone|(l1 & c' & l2 & He & Hc' & Hl2)].
    + rewrite Evict_none by assumption.
      exists p, t. split; [reflexivity|].
      constructor. right. intros e He _ Hcand.
      apply ram_candidate_evictable in Hcand. rewrite Hnone in Hcand by assumption.
      discriminate.
    + rewrite (Evict_last responsiblePID0 true p t l1 c' l2
                 (ok_addresses _ Hok) He Hc' Hl2).
      pose proof (proj1 (evictable_true true c') Hc') as [Hrc' Hram'].
      specialize (Hram' eq_refl).
      assert (Hin' : In c' (entries p)) by (rewrite He; apply in_elt).
      assert (Hneq : self c' <> cur).
      { intros E. destruct (entry_at_In _ _ _ Hc) as [Hin Hs].
        assert (c' = c).
        { apply (same_address (entries p)); auto; [apply ok_addresses; auto|congruence]. }
        congruence. }
      destruct (poDS c') as [ds|] eqn:Hds.
      2:{ pose proof (ok_ram_closed _ Hok c' Hin' Hds). lia. }
      set (p1 := set_entries (l1 ++ emptied c' :: l2)
                   (set_pool_nRAMUsage (pool_nRAMUsage p - nRAMUsage c') p)).
      destruct (IH p1 (closed_candidate responsiblePID0 c' t) c)
        as (p' & t' & Hrun & Hrel).
      * unfold p1. eapply pool_ok_replace with (e := c') (e' := emptied c'); eauto.
        -- cbn. lia.
        -- cbn. lia.
      * unfold p1. cbn [entries set_entries].
        rewrite (entry_at_replace_other cur l1 c' (emptied c') l2) by auto.
        now rewrite <- He.
      * assumption.
      * unfold p1. cbn [entries set_entries].
        pose proof (n_evictable_emptied l1 c' l2 Hc'). rewrite He in Hn. lia.
      * exists p', t'. split; [exact Hrun|].
        eapply ram_pressure_close with (c := c') (ds := ds); eauto.
        -- split; assumption.
        -- intros e Hin Hcand. apply ram_candidate_evictable in Hcand.
           rewrite Hl2 in Hcand by assumption. discriminate.
        -- unfold closed_candidate in Hrel. rewrite Hds in Hrel. exact Hrel.
  - exists p, t. split; [reflexivity|].
    constructor.
    apply andb_false_iff in Hcond as [H|H].
    + left. apply Z.ltb_ge in H. lia.
    + right. apply negb_false_iff, Z.eqb_eq in H.
      now apply only_cur_has_RAM with c.
Qed.

(** What the rule keeps: the invariant, the slots and their order, and
    every entry that is not idle. *)
Lemma ram_pressure_pool_ok responsiblePID0 cur st st' :
  ram_pressure responsiblePID0 cur st st' -> pool_ok (fst st) -> pool_ok (fst st').
Proof.
  induction 1 as [|p t l1 c l2 ds st Hover He [Hrc Hram] Hne Hl2 Hds _ IH];
    [auto|]. cbn [fst] in *. intros Hok. apply IH.
  eapply pool_ok_replace with (e := c) (e' := emptied c); eauto; cbn; lia.
Qed.

Lemma ram_pressure_addresses responsiblePID0 cur st st' :
  ram_pressure responsiblePID0 cur st st' ->
  addresses (entries (fst st')) = addresses (entries (fst st)).
Proof.
  induction 1 as [|p t l1 c l2 ds st Hover He _ _ _ _ _ IH]; [reflexivity|].
  rewrite IH. cbn. rewrite He, !addresses_app. reflexivity.
Qed.

Lemma ram_pressure_busy responsiblePID0 cur st st' :
  ram_pressure responsiblePID0 cur st st' ->
  pool_ok (fst st) ->
  forall a e, entry_at a (entries (fst st)) = Some e -> refCount e <> 0 ->
              entry_at a (entries (fst st')) = Some e.
Proof.
  induction 1 as [|p t l1 c l2 ds st Hover He [Hrc Hram] Hne Hl2 Hds _ IH];
    [auto|]. cbn [fst] in *. intros Hok a e Ha Hbusy. apply IH; [| |assumption].
  { eapply pool_ok_replace with (e := c) (e' := emptied c); eauto; cbn; lia. }
  cbn [entries set_entries set_pool_nRAMUsage].
  pose proof (ok_addresses _ Hok) as Hnd. rewrite He in Ha, Hnd.
  destruct (Nat.eq_dec (self c) a) as [E|E].
  - exfalso. subst a.
    destruct (NoDup_addresses_split _ _ _ Hnd) as (H1 & _ & _).
    rewrite entry_at_split in Ha by assumption. congruence.
  - rewrite (entry_at_replace_other a l1 c (emptied c) l2) by auto. exact Ha.
Qed.

(** ** The second half of _RefDataset *)

Lemma complete_unfold responsiblePID0 cur res p t c0 :
  entry_at cur (entries p) = Some c0 ->
  _RefDataset_complete responsiblePID0 cur res p t =
    if (0 <? nMaxRAMUsage p) && (0 <? nRAMUsage (opened res c0))
    then evict_for_RAM (S (List.length (entries (stored cur res c0 p))))
                       responsiblePID0 cur (stored cur res c0 p) (decr_disabled t)
    else Some (stored cur res c0 p, decr_disabled t).
Proof.
  intros Hc. unfold _RefDataset_complete, stored. rewrite Hc.
  destruct res; reflexivity.
Qed.

Lemma set_pool_nRAMUsage_same p : set_pool_nRAMUsage (pool_nRAMUsage p) p = p.
Proof. now destruct p. Qed.

Lemma stored_entries cur res c0 p l1 l2 :
  NoDup (addresses (entries p)) ->
  entries p = l1 ++ c0 :: l2 -> self c0 = cur ->
  entries (stored cur res c0 p) = l1 ++ opened res c0 :: l2.
Proof.
  intros Hnd He <-. rewrite He in Hnd.
  destruct (NoDup_addresses_split _ _ _ Hnd) as (H1 & H2 & _).
  unfold stored. destruct res; cbn [entries set_entries set_pool_nRAMUsage];
    rewrite He; now apply update_at_split.
Qed.

Lemma stored_pool_ok cur res c0 p :
  pool_ok p -> entry_at cur (entries p) = Some c0 -> nRAMUsage c0 = 0 ->
  pool_ok (stored cur res c0 p).
Proof.
  intros Hok Hc Hz.
  destruct (entry_at_Some _ _ _ Hc) as (l1 & l2 & He & Hs & _).
  pose proof (ok_addresses _ Hok) as Hnd.
  assert (Hup : update_at cur (opened res) (entries p) = l1 ++ opened res c0 :: l2).
  { rewrite He in Hnd |- *. subst cur.
    destruct (NoDup_addresses_split _ _ _ Hnd) as (H1 & H2 & _).
    now apply update_at_split. }
  unfold stored. rewrite Hup. destruct res as [ds|].
  - replace (set_pool_nRAMUsage _ _)
      with (set_entries (l1 ++ opened (Some ds) c0 :: l2)
              (set_pool_nRAMUsage
                 (pool_nRAMUsage p - nRAMUsage c0 + nRAMUsage (opened (Some ds) c0)) p)).
    + eapply pool_ok_replace with (e := c0) (e' := opened (Some ds) c0); eauto.
      * cbn. lia.
      * discriminate.
    + unfold set_pool_nRAMUsage, set_entries. cbn. f_equal. lia.
  - rewrite <- (set_pool_nRAMUsage_same p) at 1.
    eapply pool_ok_replace with (e := c0) (e' := opened None c0); eauto.
    + cbn. lia.
    + cbn. lia.
Qed.

Lemma stored_cur cur res c0 p :
  pool_ok p -> entry_at cur (entries p) = Some c0 ->
  entry_at cur (entries (stored cur res c0 p)) = Some (opened res c0).
Proof.
  intros Hok Hc.
  destruct (entry_at_Some _ _ _ Hc) as (l1 & l2 & He & Hs & Hn).
  rewrite (stored_entries cur res c0 p l1 l2 (ok_addresses _ Hok) He Hs).
  subst cur. change (self c0) with (self (opened res c0)).
  now apply entry_at_split.
Qed.

Lemma stored_other cur res c0 p a :
  pool_ok p -> entry_at cur (entries p) = Some c0 -> a <> cur ->
  entry_at a (entries (stored cur res c0 p)) = entry_at a (entries p).
Proof.
  intros Hok Hc Hne.
  destruct (entry_at_Some _ _ _ Hc) as (l1 & l2 & He & Hs & Hn).
  rewrite (stored_entries cur res c0 p l1 l2 (ok_addresses _ Hok) He Hs), He.
  apply entry_at_replace_other; [reflexivity|congruence].
Qed.

Lemma stored_addresses cur res c0 p :
  addresses (entries (stored cur res c0 p)) = addresses (entries p).
Proof.
  unfold stored. destruct res; cbn [entries set_entries set_pool_nRAMUsage];
    now apply addresses_update_at.
Qed.

(** The second half always ends, and keeps the invariant, the slots and the
    busy entries. *)
Lemma complete_total responsiblePID0 cur res p t c0 :
  pool_ok p -> entry_at cur (entries p) = Some c0 -> nRAMUsage c0 = 0 ->
  exists p' t',
    _RefDataset_complete responsiblePID0 cur res p t = Some (p', t')
    /\ pool_ok p'
    /\ addresses (entries p') = addresses (entries p)
    /\ entry_at cur (entries p') = Some (opened res c0)
    /\ (forall a e, a <> cur -> entry_at a (entries p) = Some e ->
                    refCount e <> 0 -> entry_at a (entries p') = Some e).
Proof.
  intros Hok Hc Hz. rewrite (complete_unfold _ _ _ _ _ _ Hc).
  pose proof (stored_pool_ok cur res c0 p Hok Hc Hz) as Hok1.
  pose proof (stored_cur cur res c0 p Hok Hc) as Hc1.
  destruct ((0 <? nMaxRAMUsage p) && (0 <? nRAMUsage (opened res c0))).
  - destruct (evict_for_RAM_pressure
                (S (List.length (entries (stored cur res c0 p))))
                responsiblePID0 cur (stored cur res c0 p) (decr_disabled t)
                (opened res c0) Hok1 Hc1)
      as (p' & t' & Hrun & Hrel).
    + cbn. lia.
    + pose proof (n_evictable_le (entries (stored cur res c0 p))). lia.
    + exists p', t'. split; [exact Hrun|].
      split; [exact (ram_pressure_pool_ok _ _ _ _ Hrel Hok1)|].
      split.
      { pose proof (ram_pressure_addresses _ _ _ _ Hrel) as Ha. cbn [fst] in Ha.
        rewrite Ha. apply stored_addresses. }
      split.
      { apply (ram_pressure_busy _ _ _ _ Hrel Hok1); [exact Hc1|cbn; lia]. }
      intros a e Hne Ha Hbusy.
      apply (ram_pressure_busy _ _ _ _ Hrel Hok1); [|exact Hbusy].
      cbn [fst]. now rewrite stored_other.
  - exists (stored cur res c0 p), (decr_disabled t).
    split; [reflexivity|]. split; [exact Hok1|].
    split; [apply stored_addresses|]. split; [exact Hc1|].
    intros a e Hne Ha _. now rewrite stored_other.
Qed.

(** ** The invariant along the steps of the pool *)

Lemma entry_at_None a l : entry_at a l = None -> ~ In a (addresses l).
Proof.
  intros H Hin. unfold addresses in Hin. apply in_map_iff in Hin as (x & Hs & Hx).
  pose proof (find_none _ _ H x Hx) as Hf. apply is_entry_false in Hf. auto.
Qed.

Lemma pool_ok_ext p p' :
  entries p' = entries p -> pool_nRAMUsage p' = pool_nRAMUsage p ->
  pool_ok p -> pool_ok p'.
Proof.
  intros He Hr [H1 H2 H3 H4]. constructor; rewrite ?He, ?Hr; assumption.
Qed.

Lemma pool_ok_replace_same p l1 e l2 e' l' :
  pool_ok p ->
  entries p = l1 ++ e :: l2 ->
  self e' = self e -> nRAMUsage e' = nRAMUsage e -> poDS e' = poDS e ->
  (l' = l1 ++ e' :: l2 \/ l' = e' :: l1 ++ l2) ->
  pool_ok (set_entries l' p).
Proof.
  intros Hok He Hs Hr Hd Hl'.
  assert (Hin : In e (entries p)) by (rewrite He; apply in_elt).
  rewrite <- (set_pool_nRAMUsage_same p) at 1.
  eapply pool_ok_replace with (e := e) (e' := e'); eauto.
  - rewrite Hr. now apply (ok_ram_nonneg _ Hok).
  - rewrite Hr, Hd. now apply (ok_ram_closed _ Hok).
  - lia.
Qed.

Lemma entry_at_cons_other a e l :
  self e <> a -> entry_at a (e :: l) = entry_at a l.
Proof.
  intros Hne. unfold entry_at. cbn. now rewrite (proj2 (is_entry_false a e) Hne).
Qed.

Lemma prepare_pool_ok pszFileName papszOpenOptions bShared bForceOpen pszOwner0
  p t r p' t' :
  pool_ok p ->
  _RefDataset_prepare pszFileName papszOpenOptions bShared bForceOpen pszOwner0 p t
    = (r, p', t') ->
  pool_ok p'.
Proof.
  intros Hok Hrun.
  pose proof (prepare_paths pszFileName papszOpenOptions bShared bForceOpen
                pszOwner0 p t (ok_addresses _ Hok)) as Hpath.
  rewrite Hrun in Hpath.
  inversion Hpath; subst; try assumption.
  - eapply pool_ok_replace_same with (e := e) (e' := incr_refCount e); eauto.
  - eapply pool_ok_replace with (e := c)
      (e' := install (GetFilenameAndOpenOptions pszFileName papszOpenOptions)
                     pszOwner0 (curResponsiblePID t) (emptied c));
      eauto; cbn; intros; lia.
  - constructor; cbn [entries set_entries set_currentSize pool_nRAMUsage].
    + cbn. constructor; [apply CPLCalloc_fresh|apply (ok_addresses _ Hok)].
    + cbn. apply (ok_ram_sum _ Hok).
    + intros x [<-|Hx]; [cbn; lia|now apply (ok_ram_nonneg _ Hok)].
    + intros x [<-|Hx]; [reflexivity|now apply (ok_ram_closed _ Hok)].
Qed.

(** Replacing an entry that is not in flight does not touch those that are. *)
Lemma in_flight_replace p p' l1 e l2 e' a :
  pool_ok p ->
  entries p = l1 ++ e :: l2 ->
  self e' = self e ->
  0 <= refCount e ->
  (entries p' = l1 ++ e' :: l2 \/ entries p' = e' :: l1 ++ l2) ->
  in_flight p a -> in_flight p' a.
Proof.
  intros Hok He Hs Hrc Hl' (x & Hx & Hneg & Hz).
  exists x. split; [|auto].
  pose proof (ok_addresses _ Hok) as Hnd. rewrite He in Hnd, Hx.
  destruct (NoDup_addresses_split _ _ _ Hnd) as (H1 & _ & _).
  assert (Hne : self e <> a).
  { intros <-. rewrite entry_at_split in Hx by assumption.
    injection Hx as <-. lia. }
  destruct Hl' as [-> | ->].
  - now rewrite (entry_at_replace_other a l1 e e' l2).
  - rewrite entry_at_move_other by congruence.
    now rewrite (entry_at_replace_other a l1 e e' l2).
Qed.

Lemma prepare_in_flight pszFileName papszOpenOptions bShared bForceOpen pszOwner0
  p t r p' t' a :
  pool_ok p ->
  _RefDataset_prepare pszFileName papszOpenOptions bShared bForceOpen pszOwner0 p t
    = (r, p', t') ->
  in_flight p a -> in_flight p' a.
Proof.
  intros Hok Hrun Ha.
  pose proof (prepare_paths pszFileName papszOpenOptions bShared bForceOpen
                pszOwner0 p t (ok_addresses _ Hok)) as Hpath.
  rewrite Hrun in Hpath.
  inversion Hpath; subst; try assumption.
  - eapply in_flight_replace with (e := e) (e' := incr_refCount e); eauto.
    match goal with H : entry_matches _ _ _ _ e = true |- _ =>
      apply entry_matches_rule in H; apply H end.
  - eapply in_flight_replace with (e := c)
      (e' := install (GetFilenameAndOpenOptions pszFileName papszOpenOptions)
                     pszOwner0 (curResponsiblePID t) (emptied c)); eauto.
    match goal with H : evictable false c = true |- _ =>
      apply evictable_true in H; destruct H as [-> _] end. lia.
  - destruct Ha as (x & Hx & Hneg & Hz). exists x. split; [|auto].
    destruct (entry_at_In _ _ _ Hx) as [Hin <-].
    cbn [entries set_entries set_currentSize].
    rewrite entry_at_cons_other; [assumption|].
    cbn [self install calloc_entry].
    intros E. apply (CPLCalloc_fresh (entries p)). rewrite E.
    unfold addresses. now apply in_map.
Qed.

(** The entry that the first half leaves to be opened is in flight. *)
Lemma prepare_opening pszFileName papszOpenOptions bShared bForceOpen pszOwner0
  p t cur p' t' :
  pool_ok p ->
  _RefDataset_prepare pszFileName papszOpenOptions bShared bForceOpen pszOwner0 p t
    = (Opening cur, p', t') ->
  exists c, entries p' = c :: tl (entries p')
            /\ self c = cur /\ refCount c = -1 /\ nRAMUsage c = 0
            /\ pszFileNameAndOpenOptions c
               = Some (GetFilenameAndOpenOptions pszFileName papszOpenOptions)
            /\ pszOwner c = pszOwner0
            /\ responsiblePID c = curResponsiblePID t
            /\ poDS c = None
            /\ bInDestruction p' = false.
Proof.
  intros Hok Hrun.
  pose proof (prepare_paths pszFileName papszOpenOptions bShared bForceOpen
                pszOwner0 p t (ok_addresses _ Hok)) as Hpath.
  rewrite Hrun in Hpath.
  destruct (bInDestruction p) eqn:Hd.
  { unfold _RefDataset_prepare in Hrun. rewrite Hd in Hrun. discriminate. }
  inversion Hpath; subst; eexists; cbn; repeat split; auto.
Qed.

Lemma head_entry_at c l : entry_at (self c) (c :: l) = Some c.
Proof. unfold entry_at. cbn. now rewrite is_entry_self. Qed.

Lemma prepare_opening_in_flight pszFileName papszOpenOptions bShared bForceOpen
  pszOwner0 p t cur p' t' :
  pool_ok p ->
  _RefDataset_prepare pszFileName papszOpenOptions bShared bForceOpen pszOwner0 p t
    = (Opening cur, p', t') ->
  in_flight p' cur.
Proof.
  intros Hok Hrun.
  destruct (prepare_opening _ _ _ _ _ _ _ _ _ _ Hok Hrun)
    as (c & He & Hs & Hrc & Hz & _).
  exists c. rewrite He, <- Hs. split; [apply head_entry_at|]. split; lia.
Qed.

Lemma self_decr_refCount e : self (decr_refCount e) = self e.
Proof. reflexivity. Qed.

(** A release: one refcount goes down by one, nothing else moves. *)
Lemma UnrefDataset_entries cacheEntry p l1 e l2 :
  NoDup (addresses (entries p)) ->
  entries p = l1 ++ e :: l2 -> self e = cacheEntry ->
  UnrefDataset cacheEntry p = set_entries (l1 ++ decr_refCount e :: l2) p.
Proof.
  intros Hnd He <-. unfold UnrefDataset. rewrite He in Hnd |- *.
  destruct (NoDup_addresses_split _ _ _ Hnd) as (H1 & H2 & _).
  now rewrite update_at_split.
Qed.

Lemma UnrefDataset_dangling cacheEntry p :
  entry_at cacheEntry (entries p) = None -> UnrefDataset cacheEntry p = p.
Proof.
  intros H. unfold UnrefDataset.
  rewrite update_at_not_in by now apply entry_at_None.
  now destruct p.
Qed.

Lemma UnrefDataset_pool_ok cacheEntry p :
  pool_ok p -> pool_ok (UnrefDataset cacheEntry p).
Proof.
  intros Hok. destruct (entry_at cacheEntry (entries p)) as [e|] eqn:Ha.
  - destruct (entry_at_Some _ _ _ Ha) as (l1 & l2 & He & Hs & _).
    rewrite (UnrefDataset_entries _ _ l1 e l2 (ok_addresses _ Hok) He Hs).
    eapply pool_ok_replace_same with (e := e) (e' := decr_refCount e); eauto.
  - now rewrite UnrefDataset_dangling.
Qed.

Lemma UnrefDataset_in_flight cacheEntry p a :
  pool_ok p -> in_flight p a -> in_flight (UnrefDataset cacheEntry p) a.
Proof.
  intros Hok (x & Hx & Hneg & Hz).
  destruct (entry_at cacheEntry (entries p)) as [e|] eqn:Ha.
  2:{ rewrite UnrefDataset_dangling by assumption. exists x. auto. }
  destruct (entry_at_Some _ _ _ Ha) as (l1 & l2 & He & Hs & Hn1).
  rewrite (UnrefDataset_entries _ _ l1 e l2 (ok_addresses _ Hok) He Hs).
  cbn [in_flight]. unfold in_flight. cbn [entries set_entries].
  destruct (Nat.eq_dec cacheEntry a) as [E|E].
  - subst a. assert (x = e) by congruence. subst x.
    exists (decr_refCount e). subst cacheEntry.
    change (self e) with (self (decr_refCount e)).
    rewrite entry_at_split by assumption. cbn. repeat split; lia.
  - exists x. rewrite (entry_at_replace_other a l1 e (decr_refCount e) l2);
      [|reflexivity|congruence].
    rewrite <- He. auto.
Qed.

(** CloseIfIdle: nothing, or the first idle entry with this key, this owner
    and a dataset is emptied where it is. *)
Lemma close_paths pszFileName papszOpenOptions pszOwner0 p t :
  NoDup (addresses (entries p)) ->
  _CloseDatasetIfZeroRefCount pszFileName papszOpenOptions pszOwner0 p t = (p, t)
  \/ exists l1 c l2 ds,
       bInDestruction p = false
       /\ entries p = l1 ++ c :: l2
       /\ close_matches (GetFilenameAndOpenOptions pszFileName papszOpenOptions)
                        pszOwner0 c = true
       /\ (forall x, In x l1 ->
             close_matches (GetFilenameAndOpenOptions pszFileName papszOpenOptions)
                           pszOwner0 x = false)
       /\ poDS c = Some ds
       /\ _CloseDatasetIfZeroRefCount pszFileName papszOpenOptions pszOwner0 p t
          = (set_entries (l1 ++ emptied c :: l2)
               (set_pool_nRAMUsage (pool_nRAMUsage p - nRAMUsage c) p),
             close_as_opener (curResponsiblePID t) (responsiblePID c) ds t).
Proof.
  intros Hnd. unfold _CloseDatasetIfZeroRefCount.
  destruct (bInDestruction p); [now left|].
  destruct (find _ (entries p)) as [c|] eqn:Hf; [|now left].
  destruct (poDS c) as [ds|] eqn:Hds; [|now left].
  right. apply find_split in Hf as (l1 & l2 & He & Hm & Hl1).
  exists l1, c, l2, ds. repeat split; auto.
  cbn [entries set_pool_nRAMUsage]. rewrite He. rewrite He in Hnd.
  destruct (NoDup_addresses_split _ _ _ Hnd) as (H1 & H2 & _).
  now rewrite update_at_split.
Qed.

Lemma close_matches_idle key o c :
  close_matches key o c = true -> refCount c = 0.
Proof.
  unfold close_matches. rewrite !andb_true_iff, Z.eqb_eq. tauto.
Qed.

Lemma close_pool_ok pszFileName papszOpenOptions pszOwner0 p t p' t' :
  pool_ok p ->
  _CloseDatasetIfZeroRefCount pszFileName papszOpenOptions pszOwner0 p t = (p', t') ->
  pool_ok p'.
Proof.
  intros Hok Hrun.
  destruct (close_paths pszFileName papszOpenOptions pszOwner0 p t
              (ok_addresses _ Hok))
    as [H|(l1 & c & l2 & ds & _ & He & Hm & _ & Hds & H)];
    rewrite H in Hrun; injection Hrun as <- <-; [assumption|].
  eapply pool_ok_replace with (e := c) (e' := emptied c); eauto; cbn; lia.
Qed.

Lemma close_in_flight pszFileName papszOpenOptions pszOwner0 p t p' t' a :
  pool_ok p ->
  _CloseDatasetIfZeroRefCount pszFileName papszOpenOptions pszOwner0 p t = (p', t') ->
  in_flight p a -> in_flight p' a.
Proof.
  intros Hok Hrun Ha.
  destruct (close_paths pszFileName papszOpenOptions pszOwner0 p t
              (ok_addresses _ Hok))
    as [H|(l1 & c & l2 & ds & _ & He & Hm & _ & Hds & H)];
    rewrite H in Hrun; injection Hrun as <- <-; [assumption|].
  eapply in_flight_replace with (e := c) (e' := emptied c); eauto.
  rewrite (close_matches_idle _ _ _ Hm). lia.
Qed.

Lemma machine_ok_step m m' : machine_ok m -> pool_step m m' -> machine_ok m'.
Proof.
  intros [Hok Hfl] Hstep.
  destruct Hstep as
    [f o sh fo ow p t r p' t' ops Hrun
    |f o sh fo ow p t cur p' t' ops Hrun
    |pid cur res p t p' t' ops Hcur Hrun
    |a p ops
    |f o ow p t p' t' ops Hrun]; cbn [pool opening] in *.
  - split; [eapply prepare_pool_ok; eauto|].
    intros a Ha. eapply prepare_in_flight; eauto.
  - split; [eapply prepare_pool_ok; eauto|].
    intros a [<-|Ha].
    + eapply prepare_opening_in_flight; eauto.
    + eapply prepare_in_flight; eauto.
  - destruct (Hfl cur Hcur) as (c0 & Hc0 & Hneg & Hz).
    destruct (complete_total pid cur res p t c0 Hok Hc0 Hz)
      as (p1 & t1 & Hrun1 & Hok1 & _ & _ & Hkeep).
    rewrite Hrun in Hrun1. injection Hrun1 as <- <-.
    split; [assumption|].
    intros a Ha. apply in_remove in Ha as [Ha Hne].
    destruct (Hfl a Ha) as (x & Hx & Hxneg & Hxz).
    exists x. split; [|auto]. apply Hkeep; auto. lia.
  - split; [now apply UnrefDataset_pool_ok|].
    intros b Hb. now apply UnrefDataset_in_flight; auto.
  - split; [eapply close_pool_ok; eauto|].
    intros a Ha. eapply close_in_flight; eauto.
Qed.

Lemma new_pool_ok maxSizeIn nMaxRAMUsageIn :
  pool_ok (new_GDALDatasetPool maxSizeIn nMaxRAMUsageIn).
Proof. constructor; cbn; [constructor|reflexivity|intros ? []|intros ? []]. Qed.

Lemma reachable_ok m : reachable m -> machine_ok m.
Proof.
  induction 1 as [a b|m m' _ IH Hstep].
  - split; [apply new_pool_ok|intros ? []].
  - eapply machine_ok_step; eauto.
Qed.

(** While its open is in flight, the entry matches no request at all. *)
Lemma opening_never_matches pszFileName papszOpenOptions bShared bForceOpen
  pszOwner0 p t cur p' t' :
  pool_ok p ->
  _RefDataset_prepare pszFileName papszOpenOptions bShared bForceOpen pszOwner0 p t
    = (Opening cur, p', t') ->
  exists c, entry_at cur (entries p') = Some c
            /\ forall key sh pid o, entry_matches key sh pid o c = false.
Proof.
  intros Hok Hrun.
  destruct (prepare_opening _ _ _ _ _ _ _ _ _ _ Hok Hrun)
    as (c & He & Hs & Hrc & _).
  exists c. split; [rewrite He, <- Hs; apply head_entry_at|].
  intros key sh pid o. apply entry_matches_not_rule. intros [H _]. lia.
Qed.

(** ** The thread: responsible PID, counter and log *)

Lemma grown_refl P t : grown P t t.
Proof. exists []. split; [reflexivity|constructor]. Qed.

Lemma grown_trans P t1 t2 t3 : grown P t1 t2 -> grown P t2 t3 -> grown P t1 t3.
Proof.
  intros (n1 & H1 & F1) (n2 & H2 & F2). exists (n2 ++ n1). split.
  - rewrite H2, H1. apply app_assoc.
  - apply Forall_app. auto.
Qed.

Lemma grown_weaken (P Q : Event -> Prop) t t' :
  (forall ev, P ev -> Q ev) -> grown P t t' -> grown Q t t'.
Proof.
  intros HPQ (n & H & F). exists n. split; [assumption|].
  eapply Forall_impl; eauto.
Qed.

Lemma grown_emit (P : Event -> Prop) ev t : P ev -> grown P t (emit ev t).
Proof. intros H. exists [ev]. split; [reflexivity|]. constructor; auto. Qed.

Lemma grown_same_log P t t' : log t' = log t -> grown P t t'.
Proof. intros H. exists []. split; [assumption|constructor]. Qed.

(** The thread after the closing of a dataset as its opener. *)
Lemma close_as_opener_thread responsiblePID0 opener ds t :
  curResponsiblePID (close_as_opener responsiblePID0 opener ds t) = responsiblePID0
  /\ refCountOfDisabledRefCount (close_as_opener responsiblePID0 opener ds t)
     = refCountOfDisabledRefCount t
  /\ log (close_as_opener responsiblePID0 opener ds t)
     = EvClose ds opener (refCountOfDisabledRefCount t + 1) :: log t.
Proof. cbn. repeat split. lia. Qed.

Lemma closed_candidate_thread l d0 responsiblePID0 c t :
  In c l ->
  curResponsiblePID t = responsiblePID0 ->
  refCountOfDisabledRefCount t = d0 ->
  curResponsiblePID (closed_candidate responsiblePID0 c t) = responsiblePID0
  /\ refCountOfDisabledRefCount (closed_candidate responsiblePID0 c t) = d0
  /\ grown (event_ok l d0) t (closed_candidate responsiblePID0 c t).
Proof.
  intros Hin Hpid Hd. unfold closed_candidate.
  destruct (poDS c) as [ds|] eqn:Hds.
  - destruct (close_as_opener_thread responsiblePID0 (responsiblePID c) ds t)
      as (H1 & H2 & H3).
    split; [assumption|]. split; [congruence|].
    exists [EvClose ds (responsiblePID c) (refCountOfDisabledRefCount t + 1)].
    split; [assumption|]. constructor; [|constructor].
    split; cbn; [|congruence]. exists c. auto.
  - split; [assumption|]. split; [assumption|]. apply grown_refl.
Qed.

Lemma ram_pressure_thread l0 d0 responsiblePID0 cur st st' :
  ram_pressure responsiblePID0 cur st st' ->
  kept l0 cur (entries (fst st)) ->
  curResponsiblePID (snd st) = responsiblePID0 ->
  refCountOfDisabledRefCount (snd st) = d0 ->
  curResponsiblePID (snd st') = responsiblePID0
  /\ refCountOfDisabledRefCount (snd st') = d0
  /\ grown (event_ok l0 d0) (snd st) (snd st').
Proof.
  induction 1 as [p t _|p t l1 c l2 ds st Hover He [Hrc Hram] Hne Hl2 Hds _ IH];
    cbn [fst snd] in *; intros Hkept Hpid Hd.
  - split; [assumption|]. split; [assumption|]. apply grown_refl.
  - destruct (close_as_opener_thread responsiblePID0 (responsiblePID c) ds t)
      as (H1 & H2 & H3).
    destruct IH as (I1 & I2 & I3).
    + intros e Hin Hs Hp. cbn [entries set_entries set_pool_nRAMUsage] in Hin.
      apply Hkept; auto.
      rewrite He. apply in_app_iff. apply in_app_iff in Hin. cbn in *.
      destruct Hin as [?|[<-|?]]; auto. exfalso. now apply Hp.
    + assumption.
    + congruence.
    + split; [assumption|]. split; [assumption|].
      eapply grown_trans; [|exact I3].
      exists [EvClose ds (responsiblePID c) (refCountOfDisabledRefCount t + 1)].
      split; [assumption|]. constructor; [|constructor].
      split; cbn; [|congruence]. exists c. repeat split; auto.
      apply Hkept; [rewrite He; apply in_elt|assumption|congruence].
Qed.

Lemma kept_stored l0 cur res c0 p :
  pool_ok p -> entry_at cur (entries p) = Some c0 ->
  (forall e, In e (entries p) -> self e <> cur -> poDS e <> None -> In e l0) ->
  kept l0 cur (entries (stored cur res c0 p)).
Proof.
  intros Hok Hc Hl0.
  destruct (entry_at_Some _ _ _ Hc) as (l1 & l2 & He & Hs & _).
  rewrite (stored_entries cur res c0 p l1 l2 (ok_addresses _ Hok) He Hs).
  intros e Hin Hne Hp. apply Hl0; auto. rewrite He.
  rewrite in_app_iff in *. cbn in *. destruct Hin as [?|[<-|?]]; auto.
  exfalso. now apply Hne.
Qed.

(** The second half of [_RefDataset] on the thread. *)
Lemma complete_thread l0 responsiblePID0 cur res p t c0 :
  pool_ok p -> entry_at cur (entries p) = Some c0 -> nRAMUsage c0 = 0 ->
  kept l0 cur (entries p) ->
  curResponsiblePID t = responsiblePID0 ->
  exists p' t',
    _RefDataset_complete responsiblePID0 cur res p t = Some (p', t')
    /\ curResponsiblePID t' = responsiblePID0
    /\ refCountOfDisabledRefCount t' = refCountOfDisabledRefCount t - 1
    /\ grown (event_ok l0 (refCountOfDisabledRefCount t - 1)) t t'.
Proof.
  intros Hok Hc Hz Hkept Hpid. rewrite (complete_unfold _ _ _ _ _ _ Hc).
  pose proof (stored_pool_ok cur res c0 p Hok Hc Hz) as Hok1.
  pose proof (stored_cur cur res c0 p Hok Hc) as Hc1.
  destruct ((0 <? nMaxRAMUsage p) && (0 <? nRAMUsage (opened res c0))).
  - destruct (evict_for_RAM_pressure
                (S (List.length (entries (stored cur res c0 p))))
                responsiblePID0 cur (stored cur res c0 p) (decr_disabled t)
                (opened res c0) Hok1 Hc1)
      as (p' & t' & Hrun & Hrel).
    + cbn. lia.
    + pose proof (n_evictable_le (entries (stored cur res c0 p))). lia.
    + exists p', t'. split; [exact Hrun|].
      destruct (ram_pressure_thread l0 (refCountOfDisabledRefCount t - 1)
                  responsiblePID0 cur _ _ Hrel) as (H1 & H2 & H3); auto.
      now apply kept_stored.
  - exists (stored cur res c0 p), (decr_disabled t).
    split; [reflexivity|]. cbn. repeat split; auto. now apply grown_same_log.
Qed.

(** ** _RefDataset as a whole *)

(** The first half on the thread: the responsible PID is the one of before;
    the counter is raised by one exactly when an open is to follow. *)
Lemma prepare_thread pszFileName papszOpenOptions bShared bForceOpen pszOwner0
  p t r p1 t1 :
  pool_ok p ->
  _RefDataset_prepare pszFileName papszOpenOptions bShared bForceOpen pszOwner0 p t
    = (r, p1, t1) ->
  curResponsiblePID t1 = curResponsiblePID t
  /\ grown (event_ok (entries p) (refCountOfDisabledRefCount t)) t t1
  /\ match r with
     | Return _ => refCountOfDisabledRefCount t1 = refCountOfDisabledRefCount t
     | Opening cur =>
         refCountOfDisabledRefCount t1 = refCountOfDisabledRefCount t + 1
         /\ kept (entries p) cur (entries p1)
     end.
Proof.
  intros Hok Hrun.
  pose proof (prepare_paths pszFileName papszOpenOptions bShared bForceOpen
                pszOwner0 p t (ok_addresses _ Hok)) as Hpath.
  rewrite Hrun in Hpath.
  inversion Hpath; subst; cbn [curResponsiblePID refCountOfDisabledRefCount
                                 emit incr_disabled log].
  - split; [reflexivity|]. split; [apply grown_refl|reflexivity].
  - split; [reflexivity|]. split; [apply grown_refl|reflexivity].
  - split; [reflexivity|]. split; [apply grown_refl|reflexivity].
  - match goal with H : entries p = _ ++ c :: _ |- _ => rename H into He end.
    assert (Hin : In c (entries p)) by (rewrite He; apply in_elt).
    destruct (closed_candidate_thread (entries p) (refCountOfDisabledRefCount t)
                (curResponsiblePID t) c t Hin eq_refl eq_refl) as (Ht1 & Ht2 & Ht3).
    split; [assumption|]. split; [assumption|]. split; [lia|].
    intros e Hin' Hne Hp. cbn [entries set_entries set_pool_nRAMUsage] in Hin'.
    destruct Hin' as [<-|Hin']; [exfalso; now apply Hne|].
    rewrite He. rewrite in_app_iff in *. cbn. tauto.
  - split; [reflexivity|]. split; [|reflexivity].
    apply grown_emit. split; exact I.
  - split; [reflexivity|]. split; [now apply grown_same_log|]. split; [reflexivity|].
    intros e Hin' Hne Hp. cbn [entries set_entries set_currentSize] in Hin'.
    destruct Hin' as [<-|Hin']; [exfalso; now apply Hne|assumption].
Qed.

(** [_RefDataset] always returns, and leaves the thread as [thread_ok] says. *)
Lemma RefDataset_thread B pszFileName eAccess papszOpenOptions bShared bForceOpen
  pszOwner0 p t :
  pool_ok p ->
  exists r p' t',
    _RefDataset B pszFileName eAccess papszOpenOptions bShared bForceOpen
                pszOwner0 p t = Some (r, p', t')
    /\ pool_ok p'
    /\ thread_ok (entries p) t t'.
Proof.
  intros Hok. unfold _RefDataset.
  destruct (_RefDataset_prepare pszFileName papszOpenOptions bShared bForceOpen
              pszOwner0 p t) as [[r p1] t1] eqn:Hprep.
  pose proof (prepare_pool_ok _ _ _ _ _ _ _ _ _ _ Hok Hprep) as Hok1.
  destruct (prepare_thread _ _ _ _ _ _ _ _ _ _ Hok Hprep) as (Hpid & Hgr & Hr).
  destruct r as [r|cur].
  - exists r, p1, t1. split; [reflexivity|]. split; [assumption|].
    repeat split; assumption.
  - destruct Hr as [Hd Hkept].
    destruct (prepare_opening _ _ _ _ _ _ _ _ _ _ Hok Hprep)
      as (c & He & Hs & _ & Hz & _).
    assert (Hc : entry_at cur (entries p1) = Some c).
    { rewrite He, <- Hs. apply head_entry_at. }
    unfold do_Open.
    set (res := GDALDataset_Open B (log t1) pszFileName (nFlag B eAccess) papszOpenOptions).
    set (ev := EvOpen pszFileName (nFlag B eAccess) papszOpenOptions
                      (curResponsiblePID t1) (refCountOfDisabledRefCount t1) res).
    destruct (complete_thread (entries p)
                (GDALGetResponsiblePIDForCurrentThread t) cur res p1 (emit ev t1) c
                Hok1 Hc Hz Hkept Hpid)
      as (p' & t' & Hrun & H1 & H2 & H3).
    destruct (complete_total (GDALGetResponsiblePIDForCurrentThread t) cur res p1
                (emit ev t1) c Hok1 Hc Hz) as (p'' & t'' & Hrun' & Hok' & _).
    rewrite Hrun in Hrun'. injection Hrun' as <- <-.
    rewrite Hrun. exists (Some cur), p', t'. split; [reflexivity|].
    split; [assumption|].
    cbn [emit refCountOfDisabledRefCount] in H2, H3.
    replace (refCountOfDisabledRefCount t1 - 1)
      with (refCountOfDisabledRefCount t) in * by lia.
    split; [assumption|]. split; [assumption|].
    eapply grown_trans; [exact Hgr|].
    eapply grown_trans; [|exact H3].
    apply grown_emit. split; cbn; [exact I|assumption].
Qed.

Lemma close_thread pszFileName papszOpenOptions pszOwner0 p t p' t' :
  NoDup (addresses (entries p)) ->
  _CloseDatasetIfZeroRefCount pszFileName papszOpenOptions pszOwner0 p t = (p', t') ->
  thread_ok (entries p) t t'.
Proof.
  intros Hnd Hrun.
  destruct (close_paths pszFileName papszOpenOptions pszOwner0 p t Hnd)
    as [H|(l1 & c & l2 & ds & _ & He & _ & _ & Hds & H)];
    rewrite H in Hrun; injection Hrun as <- <-.
  - repeat split; auto using grown_refl.
  - assert (Hin : In c (entries p)) by (rewrite He; apply in_elt).
    pose proof (closed_candidate_thread (entries p) (refCountOfDisabledRefCount t)
                  (curResponsiblePID t) c t Hin eq_refl eq_refl) as Hc.
    unfold closed_candidate in Hc. rewrite Hds in Hc. exact Hc.
Qed.

(** The destructor closes what is left, each dataset under its opener's PID,
    and restores the PID of the caller. *)
Lemma destroy_entries_grown l0 l : forall t,
  (forall e, In e l -> In e l0) ->
  grown (closed_by_opener l0) t (fold_left destroy_entry l t).
Proof.
  induction l as [|cur l IH]; intros t Hl; cbn [fold_left]; [apply grown_refl|].
  eapply grown_trans; [|apply IH; intros e He; apply Hl; now right].
  unfold destroy_entry, CPLAssert.
  assert (Ha : grown (closed_by_opener l0) t
                 (if refCount cur =? 0 then t else emit EvAssertFailed t)).
  { destruct (refCount cur =? 0); [apply grown_refl|now apply grown_emit]. }
  destruct (poDS cur) as [ds|] eqn:Hds; [|exact Ha].
  eapply grown_trans; [exact Ha|].
  exists [EvClose ds (responsiblePID cur)
            (refCountOfDisabledRefCount
               (if refCount cur =? 0 then t else emit EvAssertFailed t))].
  split; [reflexivity|]. constructor; [|constructor].
  exists cur. repeat split; auto. apply Hl. now left.
Qed.

Lemma delete_thread p t :
  curResponsiblePID (delete_GDALDatasetPool p t) = curResponsiblePID t
  /\ grown (closed_by_opener (entries p)) t (delete_GDALDatasetPool p t).
Proof.
  split; [reflexivity|].
  unfold delete_GDALDatasetPool.
  destruct (destroy_entries_grown (entries p) (entries p) t (fun _ H => H))
    as (new & Hlog & Hall).
  exists new. split; assumption.
Qed.

(** The destructor does not raise [refCountOfDisabledRefCount] around its
    closes: they are logged with the counter as the caller left it. *)
Lemma destroy_entries_counter l : forall t,
  refCountOfDisabledRefCount (fold_left destroy_entry l t)
  = refCountOfDisabledRefCount t
  /\ grown (fun ev => match ev with
                      | EvClose _ _ d => d = refCountOfDisabledRefCount t
                      | _ => True
                      end) t (fold_left destroy_entry l t).
Proof.
  induction l as [|cur l IH]; intros t; cbn [fold_left].
  - split; [reflexivity|apply grown_refl].
  - destruct (IH (destroy_entry t cur)) as [Hc Hg].
    assert (Hd : refCountOfDisabledRefCount (destroy_entry t cur)
                 = refCountOfDisabledRefCount t).
    { unfold destroy_entry, CPLAssert.
      destruct (refCount cur =? 0), (poDS cur); reflexivity. }
    rewrite Hd in Hc, Hg. split; [exact Hc|].
    eapply grown_trans; [|exact Hg].
    unfold destroy_entry, CPLAssert.
    destruct (refCount cur =? 0), (poDS cur) as [ds|].
    + exists [EvClose ds (responsiblePID cur) (refCountOfDisabledRefCount t)].
      split; [reflexivity|]. repeat constructor.
    + apply grown_refl.
    + exists [EvClose ds (responsiblePID cur) (refCountOfDisabledRefCount t);
              EvAssertFailed].
      split; [reflexivity|]. repeat constructor.
    + exists [EvAssertFailed]. split; [reflexivity|]. repeat constructor.
Qed.

(** ** The proxy dataset *)

Section ProxyFacts.

Variable B : Backend.
Variable MD : CPLHashSetOps GetMetadataElt.
Variable MDI : CPLHashSetOps GetMetadataItemElt.

Implicit Types d : GDALProxyPoolDataset MD MDI.

(** [RefUnderlyingDataset] in terms of what [_RefDataset] returns. *)
Lemma RefUnderlying_unfold bForceOpen d w p r p' t' :
  singleton w = Some p ->
  _RefDataset B (GetDescription d) (eAccess d) (papszOpenOptions d) (GetShared d)
              bForceOpen (m_pszOwner d) p
              (GDALSetResponsiblePIDForCurrentThread (proxy_responsiblePID d) (thread w))
    = Some (r, p', t') ->
  RefUnderlyingDataset B bForceOpen d w =
    let t'' := GDALSetResponsiblePIDForCurrentThread (curResponsiblePID (thread w)) t' in
    match r with
    | None => Some (None, set_cacheEntry None d, mkWorld (Some p') t'')
    | Some a =>
        match entry_at a (entries p') with
        | None => None
        | Some e =>
            match poDS e with
            | Some ds => Some (Some ds, set_cacheEntry (Some a) d, mkWorld (Some p') t'')
            | None => Some (None, set_cacheEntry (Some a) d,
                            mkWorld (Some (UnrefDataset a p')) t'')
            end
        end
    end.
Proof.
  intros Hs Hrun. unfold RefUnderlyingDataset, RefDataset.
  unfold cacheEntry_poDS, UnrefDataset_static, set_thread.
  cbn [singleton thread]. rewrite Hs.
  unfold GDALGetResponsiblePIDForCurrentThread. rewrite Hrun.
  cbn [singleton thread].
  destruct r as [a|]; [|reflexivity].
  destruct (entry_at a (entries p')) as [e|]; [|reflexivity].
  cbn [option_map]. destruct (poDS e); reflexivity.
Qed.

(** A forced [_RefDataset] whose open fails: the slot stays at the head,
    with the key of the request, no dataset, no RAM, and refcount [1]. *)
Lemma RefDataset_open_failed pszFileName eAccess papszOpenOptions bShared
  pszOwner0 p t cur p1 t1 :
  pool_ok p ->
  _RefDataset_prepare pszFileName papszOpenOptions bShared true pszOwner0 p t
    = (Opening cur, p1, t1) ->
  GDALDataset_Open B (log t1) pszFileName (nFlag B eAccess) papszOpenOptions = None ->
  exists c rest,
    entries p1 = c :: rest
    /\ self c = cur
    /\ ~ In cur (addresses rest)
    /\ pszFileNameAndOpenOptions c
       = Some (GetFilenameAndOpenOptions pszFileName papszOpenOptions)
    /\ nRAMUsage c = 0
    /\ bInDestruction p1 = false
    /\ pool_ok (set_entries (opened None c :: rest) p1)
    /\ _RefDataset B pszFileName eAccess papszOpenOptions bShared true pszOwner0 p t
       = Some (Some cur, set_entries (opened None c :: rest) p1,
               decr_disabled
                 (emit (EvOpen pszFileName (nFlag B eAccess) papszOpenOptions
                               (curResponsiblePID t1)
                               (refCountOfDisabledRefCount t1) None) t1)).
Proof.
  intros Hok Hprep Hopen.
  pose proof (prepare_pool_ok _ _ _ _ _ _ _ _ _ _ Hok Hprep) as Hok1.
  destruct (prepare_opening _ _ _ _ _ _ _ _ _ _ Hok Hprep)
    as (c & He & Hs & _ & Hz & Hk & _ & _ & _ & Hd).
  set (rest := tl (entries p1)) in *.
  pose proof (ok_addresses _ Hok1) as Hnd. rewrite He in Hnd.
  assert (Hfresh : ~ In cur (addresses rest)).
  { cbn in Hnd. inversion Hnd; subst. assumption. }
  assert (Hc : entry_at cur (entries p1) = Some c).
  { rewrite He, <- Hs. apply head_entry_at. }
  assert (Hst : stored cur None c p1 = set_entries (opened None c :: rest) p1).
  { unfold stored. f_equal. rewrite He.
    change (c :: rest) with ([] ++ c :: rest). rewrite <- Hs.
    rewrite update_at_split; [reflexivity|intros []|now rewrite Hs]. }
  exists c, rest. repeat (split; [assumption|]).
  split.
  { rewrite <- Hst. now apply stored_pool_ok. }
  unfold _RefDataset, do_Open. rewrite Hprep, Hopen.
  rewrite (complete_unfold _ _ _ _ _ _ Hc).
  replace (0 <? nRAMUsage (opened None c)) with false
    by (cbn; rewrite Hz; reflexivity).
  rewrite andb_false_r, Hst. reflexivity.
Qed.

(** The same through the proxy, which releases the slot at once. *)
Lemma RefUnderlying_open_failed d w p cur p1 t1 :
  singleton w = Some p ->
  pool_ok p ->
  _RefDataset_prepare (GetDescription d) (papszOpenOptions d) (GetShared d) true
    (m_pszOwner d) p
    (GDALSetResponsiblePIDForCurrentThread (proxy_responsiblePID d) (thread w))
    = (Opening cur, p1, t1) ->
  GDALDataset_Open B (log t1) (GetDescription d) (nFlag B (eAccess d))
                   (papszOpenOptions d) = None ->
  exists c rest,
    entries p1 = c :: rest
    /\ self c = cur
    /\ ~ In cur (addresses rest)
    /\ pszFileNameAndOpenOptions c = Some (proxy_key d)
    /\ bInDestruction p1 = false
    /\ pool_ok (set_entries (decr_refCount (opened None c) :: rest) p1)
    /\ RefUnderlyingDataset B true d w
       = Some (None, set_cacheEntry (Some cur) d,
               mkWorld (Some (set_entries (decr_refCount (opened None c) :: rest) p1))
                 (GDALSetResponsiblePIDForCurrentThread
                    (curResponsiblePID (thread w))
                    (decr_disabled
                       (emit (EvOpen (GetDescription d) (nFlag B (eAccess d))
                                     (papszOpenOptions d) (curResponsiblePID t1)
                                     (refCountOfDisabledRefCount t1) None) t1)))).
Proof.
  intros Hs Hok Hprep Hopen.
  destruct (RefDataset_open_failed (GetDescription d) (eAccess d)
              (papszOpenOptions d) (GetShared d) (m_pszOwner d) p _ cur p1 t1
              Hok Hprep Hopen)
    as (c & rest & He & Hc & Hfresh & Hk & Hz & Hd & Hok' & Hrun).
  exists c, rest. repeat (split; [assumption|]).
  assert (HU : UnrefDataset cur (set_entries (opened None c :: rest) p1)
               = set_entries (decr_refCount (opened None c) :: rest) p1).
  { unfold UnrefDataset. cbn [entries set_entries].
    change (opened None c :: rest) with ([] ++ opened None c :: rest).
    rewrite <- Hc. change (self c) with (self (opened None c)).
    rewrite update_at_split; [reflexivity|intros []|cbn; now rewrite Hc]. }
  split.
  { rewrite <- HU. now apply UnrefDataset_pool_ok. }
  assert (Hat : entry_at cur (opened None c :: rest) = Some (opened None c)).
  { rewrite <- Hc. apply (head_entry_at (opened None c)). }
  rewrite (RefUnderlying_unfold true d w p _ _ _ Hs Hrun).
  cbn [entries set_entries]. rewrite Hat.
  cbn [poDS opened]. rewrite HU. reflexivity.
Qed.

End ProxyFacts.

(** ** Release and teardown *)

Lemma grown_In P t t' ev : grown P t t' -> In ev (log t) -> In ev (log t').
Proof. intros (new & -> & _) H. apply in_or_app. now right. Qed.

(** The assertion of the destructor fails for an entry that is not idle. *)
Lemma destroy_flags e l : forall t,
  In e l -> refCount e <> 0 ->
  In EvAssertFailed (log (fold_left destroy_entry l t)).
Proof.
  induction l as [|x l IH]; intros t Hin Hrc; [destruct Hin|].
  cbn [fold_left]. destruct Hin as [->|Hin].
  - apply grown_In with (P := closed_by_opener l) (t := destroy_entry t e).
    + apply destroy_entries_grown. auto.
    + unfold destroy_entry, CPLAssert.
      apply Z.eqb_neq in Hrc. rewrite Hrc.
      destruct (poDS e); cbn; auto.
  - now apply IH.
Qed.

(** [RefUnderlyingDataset] writes nothing but [cacheEntry] in the proxy. *)
Lemma RefUnderlying_proxy B MD MDI bForceOpen (d : GDALProxyPoolDataset MD MDI)
  w r d1 w1 :
  RefUnderlyingDataset B bForceOpen d w = Some (r, d1, w1) ->
  exists c, d1 = set_cacheEntry c d.
Proof.
  unfold RefUnderlyingDataset.
  destruct (RefDataset _ _ _ _ _ _ _ _) as [[c w']|]; [|discriminate].
  destruct c as [a|]; [|intros [= <- <- <-]; eauto].
  destruct (cacheEntry_poDS _ _) as [[ds|]|]; [| |discriminate].
  - intros [= <- <- <-]. eauto.
  - destruct (UnrefDataset_static _ _); [|discriminate].
    intros [= <- <- <-]. eauto.
Qed.

(** ** The links: the pointer code does what the lists say *)

Module LinksFacts.
Import Links.

Lemma store_eq a n h : store a n h a = Some n.
Proof. unfold store. now rewrite Nat.eqb_refl. Qed.

Lemma store_neq a n h x : x <> a -> store a n h x = h x.
Proof. intros H. unfold store. apply Nat.eqb_neq in H. now rewrite H. Qed.

Lemma seg_frame a n h l : forall p q,
  ~ In a l -> seg h p l q -> seg (store a n h) p l q.
Proof.
  induction l as [|x l IH]; intros p q Hn; cbn; [auto|].
  intros [Hx Hl]. split.
  - rewrite store_neq; [assumption|]. intros ->. apply Hn. now left.
  - apply IH; [|assumption]. intros Hin. apply Hn. now right.
Qed.

Lemma seg_cons h p a l q :
  seg h p (a :: l) q
  <-> h a = Some (mkNode p (hd_or q l)) /\ seg h (Some a) l q.
Proof. reflexivity. Qed.

Lemma seg_app h l1 l2 : forall p q,
  seg h p (l1 ++ l2) q
  <-> seg h p l1 (hd_or q l2) /\ seg h (last_or p l1) l2 q.
Proof.
  induction l1 as [|a l1 IH]; intros p q; cbn [app seg last_or].
  - tauto.
  - rewrite IH. destruct l1; cbn [app hd_or]; [destruct l2|]; tauto.
Qed.

Lemma last_or_app p l a : last_or p (l ++ [a]) = Some a.
Proof. revert p. induction l as [|x l IH]; intros p; cbn; auto. Qed.

Lemma last_or_cons p a l : last_or p (a :: l) = last_or None (a :: l).
Proof. reflexivity. Qed.

(** A non-empty list ends with some record. *)
Lemma last_or_In p a l :
  exists x l0, a :: l = l0 ++ [x] /\ last_or p (a :: l) = Some x.
Proof.
  destruct (exists_last (l := a :: l)) as (l0 & x & E); [discriminate|].
  exists x, l0. split; [assumption|]. rewrite E. apply last_or_app.
Qed.

(** Writing the [prev] of the first record of a segment, and the [next] of
    its last record. *)
Lemma seg_head_prev h p p' a l q :
  ~ In a l -> seg h p (a :: l) q ->
  seg (store a (mkNode p' (hd_or q l)) h) p' (a :: l) q.
Proof.
  intros Hn [Ha Hl]. split; [apply store_eq|]. now apply seg_frame.
Qed.

Lemma seg_last_next h p l a q q' :
  ~ In a l -> seg h p (l ++ [a]) q ->
  seg (store a (mkNode (last_or p l) q') h) p (l ++ [a]) q'.
Proof.
  intros Hn H. apply seg_app in H as [H1 [H2 _]]. apply seg_app. split.
  - now apply seg_frame.
  - split; [apply store_eq|exact I].
Qed.

Lemma seg_node h p l q a :
  seg h p l q -> In a l -> exists n, h a = Some n.
Proof.
  revert p. induction l as [|x l IH]; intros p H []; cbn in H.
  - subst x. destruct H as [H _]. eauto.
  - destruct H as [_ H]. eapply IH; eauto.
Qed.

Lemma set_prev_at a v c n :
  node c a = Some n ->
  set_prev (Some a) v c
  = Some (mkChain (store a (mkNode v (next n)) (node c)) (firstEntry c) (lastEntry c)).
Proof. intros H. unfold set_prev. cbn. now rewrite H. Qed.

Lemma set_next_at a v c n :
  node c a = Some n ->
  set_next (Some a) v c
  = Some (mkChain (store a (mkNode (prev n) v) (node c)) (firstEntry c) (lastEntry c)).
Proof. intros H. unfold set_next. cbn. now rewrite H. Qed.

Lemma get_prev_at a c n : node c a = Some n -> get_prev (Some a) c = Some (prev n).
Proof. intros H. unfold get_prev. cbn. now rewrite H. Qed.

Lemma get_next_at a c n : node c a = Some n -> get_next (Some a) c = Some (next n).
Proof. intros H. unfold get_next. cbn. now rewrite H. Qed.

Lemma remove_split (l1 l2 : list nat) a :
  ~ In a l1 -> ~ In a l2 -> remove Nat.eq_dec a (l1 ++ a :: l2) = l1 ++ l2.
Proof.
  intros H1 H2. rewrite remove_app. cbn.
  destruct (Nat.eq_dec a a) as [_|E]; [|now contradiction E].
  now rewrite !notin_remove.
Qed.

(** Relinking [cur] in front, in either order of the three writes. *)
Lemma relink_lookup c f l1' cur l2 n :
  NoDup ((f :: l1') ++ cur :: l2) ->
  unlinked c f l1' cur l2 n ->
  exists c', lookup_relink cur c = Some c' /\ repr c' (cur :: (f :: l1') ++ l2).
Proof.
  intros Hnd (Hf & Hl & S1 & S2 & Hc). unfold lookup_relink.
  assert (Hcur1 : ~ In cur (f :: l1')).
  { intros Hin. apply NoDup_remove_2 in Hnd. apply Hnd, in_or_app. now left. }
  assert (Hcur2 : ~ In cur l2).
  { intros Hin. apply NoDup_remove_2 in Hnd. apply Hnd, in_or_app. now right. }
  assert (Hnd' : NoDup ((f :: l1') ++ l2)) by now apply NoDup_remove_1 in Hnd.
  assert (Hf1 : ~ In f l1').
  { cbn in Hnd'. inversion Hnd' as [|? ? Hx _]; subst.
    intros Hin. apply Hx, in_or_app. now left. }
  assert (Hf2 : ~ In f l2).
  { cbn in Hnd'. inversion Hnd' as [|? ? Hx _]; subst.
    intros Hin. apply Hx, in_or_app. now right. }
  assert (Hfc : f <> cur) by (intros ->; apply Hcur1; now left).
  rewrite (set_prev_at cur None c n Hc). cbn [bind firstEntry].
  rewrite Hf.
  destruct S1 as [Hfn S1'].
  erewrite set_prev_at
    by (cbn [node]; rewrite store_neq by exact Hfc; exact Hfn).
  cbn [bind firstEntry node next lastEntry].
  erewrite set_next_at
    by (cbn [node]; rewrite store_neq by congruence; apply store_eq).
  cbn [bind prev next].
  eexists. split; [reflexivity|].
  unfold repr. cbn [firstEntry lastEntry node set_firstEntry hd_or].
  split; [constructor; [|exact Hnd']; intros Hin; apply in_app_or in Hin; tauto|].
  split; [reflexivity|]. split; [exact Hl|].
  apply seg_cons. split; [apply store_eq|].
  apply seg_frame; [intros Hin; apply in_app_or in Hin; tauto|].
  apply seg_app. split.
  - apply (seg_head_prev _ None); [assumption|].
    split; [rewrite store_neq by exact Hfc; exact Hfn|].
    apply seg_frame; [|exact S1']. intros Hin. apply Hcur1. now right.
  - apply seg_frame; [assumption|]. now apply seg_frame.
Qed.

Lemma relink_recycle c f l1' cur l2 n :
  NoDup ((f :: l1') ++ cur :: l2) ->
  unlinked c f l1' cur l2 n ->
  exists c', recycle_relink cur c = Some c' /\ repr c' (cur :: (f :: l1') ++ l2).
Proof.
  intros Hnd (Hf & Hl & S1 & S2 & Hc). unfold recycle_relink.
  assert (Hcur1 : ~ In cur (f :: l1')).
  { intros Hin. apply NoDup_remove_2 in Hnd. apply Hnd, in_or_app. now left. }
  assert (Hcur2 : ~ In cur l2).
  { intros Hin. apply NoDup_remove_2 in Hnd. apply Hnd, in_or_app. now right. }
  assert (Hnd' : NoDup ((f :: l1') ++ l2)) by now apply NoDup_remove_1 in Hnd.
  assert (Hf1 : ~ In f l1').
  { cbn in Hnd'. inversion Hnd' as [|? ? Hx _]; subst.
    intros Hin. apply Hx, in_or_app. now left. }
  assert (Hfc : f <> cur) by (intros ->; apply Hcur1; now left).
  rewrite (set_prev_at cur None c n Hc). cbn [bind firstEntry].
  rewrite Hf.
  erewrite set_next_at by (cbn [node]; apply store_eq).
  cbn [bind firstEntry node prev next lastEntry].
  destruct S1 as [Hfn S1'].
  erewrite set_prev_at
    by (cbn [node]; rewrite !store_neq by exact Hfc; exact Hfn).
  cbn [bind prev next].
  eexists. split; [reflexivity|].
  unfold repr. cbn [firstEntry lastEntry node set_firstEntry hd_or].
  split; [constructor; [|exact Hnd']; intros Hin; apply in_app_or in Hin; tauto|].
  split; [reflexivity|]. split; [exact Hl|].
  apply seg_cons. split.
  { rewrite store_neq by congruence. apply store_eq. }
  apply seg_app. split.
  - apply (seg_head_prev _ None); [assumption|].
    split; [rewrite !store_neq by exact Hfc; exact Hfn|].
    apply seg_frame; [intros Hin; apply Hcur1; now right|].
    apply seg_frame; [intros Hin; apply Hcur1; now right|exact S1'].
  - assert (Hf2 : ~ In f l2).
    { cbn in Hnd'. inversion Hnd' as [|? ? Hx _]; subst.
      intros Hin. apply Hx, in_or_app. now right. }
    apply seg_frame; [assumption|].
    apply seg_frame; [assumption|]. now apply seg_frame.
Qed.

Lemma last_or_append p l1 l2 : last_or p (l1 ++ l2) = last_or (last_or p l1) l2.
Proof. revert p. induction l1 as [|a l1 IH]; intros p; cbn; auto. Qed.

Lemma last_or_nonempty p p' a l : last_or p (a :: l) = last_or p' (a :: l).
Proof. reflexivity. Qed.

Lemma NoDup_app_apart (l1 l2 : list nat) x :
  NoDup (l1 ++ l2) -> In x l1 -> In x l2 -> False.
Proof.
  induction l1 as [|a l1 IH]; cbn; intros Hnd H1 H2; [destruct H1|].
  inversion Hnd as [|? ? Ha Hnd']; subst. destruct H1 as [->|H1].
  - apply Ha, in_or_app. now right.
  - now apply IH.
Qed.

(** What the chain [l1 ++ cur :: l2] gives to start with, [l1] not empty. *)
Lemma repr_split c f l1' cur l2 :
  repr c ((f :: l1') ++ cur :: l2) ->
  exists pa l0,
    f :: l1' = l0 ++ [pa]
    /\ last_or None (f :: l1') = Some pa
    /\ ~ In pa l0 /\ pa <> cur /\ ~ In pa l2
    /\ ~ In cur (f :: l1') /\ ~ In cur l2
    /\ firstEntry c = Some f
    /\ lastEntry c = last_or (Some cur) l2
    /\ seg (node c) None (l0 ++ [pa]) (Some cur)
    /\ node c cur = Some (mkNode (Some pa) (hd_or None l2))
    /\ seg (node c) (Some cur) l2 None
    /\ (forall x, In x l2 -> ~ In x (f :: l1'))
    /\ NoDup l2.
Proof.
  intros (Hnd & Hf & Hl & S).
  destruct (last_or_In None f l1') as (pa & l0 & El1 & Hlast).
  apply seg_app in S as [S1 S2]. rewrite Hlast in S2.
  destruct S2 as [Hc S2]. cbn [hd_or] in S1.
  exists pa, l0. split; [exact El1|]. split; [exact Hlast|].
  pose proof (NoDup_remove_2 _ _ _ Hnd) as Hcur.
  assert (Hnd1 : NoDup (l0 ++ [pa] ++ cur :: l2)).
  { rewrite app_assoc, <- El1. exact Hnd. }
  pose proof (NoDup_remove_2 _ _ _ Hnd1) as Hpa.
  split; [intros Hin; apply Hpa, in_or_app; now left|].
  split; [intros ->; apply Hpa, in_or_app; right; now left|].
  split; [intros Hin; apply Hpa, in_or_app; right; now right|].
  split; [intros Hin; apply Hcur, in_or_app; now left|].
  split; [intros Hin; apply Hcur, in_or_app; now right|].
  split; [exact Hf|].
  split; [rewrite Hl, last_or_append; reflexivity|].
  split; [rewrite <- El1; exact S1|]. split; [assumption|].
  split; [assumption|].
  pose proof (NoDup_remove_1 _ _ _ Hnd) as Hnd'.
  split.
  - intros x H2 H1. exact (NoDup_app_apart _ _ x Hnd' H1 H2).
  - now apply NoDup_app_remove_l in Hnd'.
Qed.

Lemma unlink_lookup c f l1' cur l2 :
  repr c ((f :: l1') ++ cur :: l2) ->
  exists c' n, lookup_unlink cur c = Some c' /\ unlinked c' f l1' cur l2 n.
Proof.
  intros Hrepr.
  destruct (repr_split c f l1' cur l2 Hrepr)
    as (pa & l0 & El1 & Hlast & Hpa0 & Hpac & Hpa2 & Hcur1 & Hcur2
        & Hf & Hl & S1 & Hc & S2 & Hdisj & Hnd2).
  assert (Hpan : node c pa = Some (mkNode (last_or None l0) (Some cur))).
  { apply seg_app in S1 as [_ [H _]]. exact H. }
  unfold lookup_unlink.
  rewrite (get_next_at cur c _ Hc), (get_prev_at cur c _ Hc).
  cbn [bind next prev].
  destruct l2 as [|nx l2'].
  - cbn [hd_or bind].
    rewrite (get_prev_at cur (set_lastEntry (Some pa) c) _ Hc).
    rewrite (get_next_at cur (set_lastEntry (Some pa) c) _ Hc).
    cbn [bind next prev hd_or].
    rewrite (set_next_at pa None (set_lastEntry (Some pa) c) _ Hpan).
    eexists _, _. split; [reflexivity|].
    unfold unlinked. cbn [firstEntry lastEntry node set_lastEntry prev hd_or].
    split; [exact Hf|].
    split; [now rewrite last_or_append, Hlast|].
    split; [rewrite El1; apply (seg_last_next _ _ _ _ (Some cur)); assumption|].
    split; [exact I|].
    rewrite store_neq by congruence. exact Hc.
  - destruct S2 as [Hnx S2']. cbn [hd_or bind].
    assert (Hnxc : nx <> cur) by (intros ->; apply Hcur2; now left).
    assert (Hnxpa : nx <> pa) by (intros ->; apply Hpa2; now left).
    rewrite (set_prev_at nx (Some pa) c _ Hnx). cbn [bind next].
    erewrite get_prev_at
      by (cbn [node]; rewrite store_neq by congruence; exact Hc).
    erewrite get_next_at
      by (cbn [node]; rewrite store_neq by congruence; exact Hc).
    cbn [bind next prev hd_or].
    erewrite set_next_at
      by (cbn [node]; rewrite store_neq by congruence; exact Hpan).
    eexists _, _. split; [reflexivity|].
    unfold unlinked. cbn [firstEntry lastEntry node prev hd_or].
    split; [exact Hf|].
    split; [rewrite Hl, last_or_append; reflexivity|].
    split.
    { rewrite El1. apply (seg_last_next _ _ _ _ (Some cur)); [assumption|].
      apply seg_frame; [|exact S1].
      rewrite <- El1. apply Hdisj. now left. }
    split.
    { rewrite Hlast. apply seg_frame; [assumption|].
      apply (seg_head_prev _ (Some cur)); [now inversion Hnd2|].
      split; assumption. }
    rewrite !store_neq by congruence. exact Hc.
Qed.

(** The "move to begin" of the lookup takes [cur] from its place to the head. *)
Lemma lookup_move_to_begin_repr c l cur :
  repr c l -> In cur l -> firstEntry c <> Some cur ->
  exists c', lookup_move_to_begin cur c = Some c'
             /\ repr c' (cur :: remove Nat.eq_dec cur l).
Proof.
  intros Hrepr Hin Hnf.
  destruct (in_split _ _ Hin) as (l1 & l2 & ->).
  pose proof Hrepr as (Hnd & Hf & _).
  pose proof (NoDup_remove_2 _ _ _ Hnd) as Hcur.
  destruct l1 as [|f l1'].
  { exfalso. apply Hnf. exact Hf. }
  rewrite remove_split by (intros H; apply Hcur, in_or_app; tauto).
  destruct (unlink_lookup c f l1' cur l2 Hrepr) as (c1 & n & Hun & Hst).
  destruct (relink_lookup c1 f l1' cur l2 n Hnd Hst) as (c' & Hre & Hrepr').
  exists c'. split; [|exact Hrepr'].
  unfold lookup_move_to_begin. rewrite Hun. exact Hre.
Qed.

Lemma unlink_recycle c f l1' cur l2 :
  repr c ((f :: l1') ++ cur :: l2) ->
  exists c' n, recycle_unlink cur c = Some c' /\ unlinked c' f l1' cur l2 n.
Proof.
  intros Hrepr.
  destruct (repr_split c f l1' cur l2 Hrepr)
    as (pa & l0 & El1 & Hlast & Hpa0 & Hpac & Hpa2 & Hcur1 & Hcur2
        & Hf & Hl & S1 & Hc & S2 & Hdisj & Hnd2).
  assert (Hpan : node c pa = Some (mkNode (last_or None l0) (Some cur))).
  { apply seg_app in S1 as [_ [H _]]. exact H. }
  unfold recycle_unlink.
  rewrite (get_prev_at cur c _ Hc), (get_next_at cur c _ Hc).
  cbn [bind next prev].
  rewrite (set_next_at pa _ c _ Hpan). cbn [bind prev].
  erewrite get_next_at
    by (cbn [node]; rewrite store_neq by congruence; exact Hc).
  erewrite get_prev_at
    by (cbn [node]; rewrite store_neq by congruence; exact Hc).
  cbn [bind next prev].
  assert (S1' : seg (store pa (mkNode (last_or None l0) (hd_or None l2)) (node c))
                    None (f :: l1') (hd_or None l2)).
  { rewrite El1. apply (seg_last_next _ _ _ _ (Some cur)); assumption. }
  destruct l2 as [|nx l2'].
  - cbn [hd_or lastEntry] in *. rewrite Hl. cbn [last_or].
    erewrite get_prev_at
      by (cbn [node]; rewrite store_neq by congruence; exact Hc).
    cbn [bind prev].
    erewrite set_next_at by (cbn [node]; apply store_eq).
    cbn [bind prev lastEntry last_or].
    erewrite get_prev_at
      by (cbn [node]; rewrite !store_neq by congruence; exact Hc).
    cbn [bind prev].
    eexists _, _. split; [reflexivity|].
    unfold unlinked. cbn [firstEntry lastEntry node set_lastEntry hd_or].
    split; [exact Hf|].
    split; [now rewrite last_or_append, Hlast|].
    split.
    { rewrite El1. apply (seg_last_next _ _ _ _ None); [assumption|].
      rewrite <- El1. exact S1'. }
    split; [exact I|].
    rewrite !store_neq by congruence. exact Hc.
  - destruct S2 as [Hnx S2']. cbn [hd_or] in *.
    assert (Hnxc : nx <> cur) by (intros ->; apply Hcur2; now left).
    assert (Hnxpa : nx <> pa) by (intros ->; apply Hpa2; now left).
    erewrite set_prev_at
      by (cbn [node]; rewrite store_neq by congruence; exact Hnx).
    eexists _, _. split; [reflexivity|].
    unfold unlinked. cbn [firstEntry lastEntry node next hd_or].
    split; [exact Hf|].
    split; [rewrite Hl, last_or_append; reflexivity|].
    split.
    { apply seg_frame; [|exact S1']. apply Hdisj. now left. }
    split.
    { rewrite Hlast. apply (seg_head_prev _ (Some cur)); [now inversion Hnd2|].
      split; [rewrite store_neq by congruence; exact Hnx|].
      apply seg_frame; [|exact S2']. intros Hin. apply Hpa2. now right. }
    rewrite !store_neq by congruence. exact Hc.
Qed.

(** The recycling takes [candidate] from its place to the head. *)
Lemma recycle_move_to_top_repr c l candidate :
  repr c l -> In candidate l -> firstEntry c <> Some candidate ->
  exists c', recycle_move_to_top candidate c = Some c'
             /\ repr c' (candidate :: remove Nat.eq_dec candidate l).
Proof.
  intros Hrepr Hin Hnf.
  destruct (in_split _ _ Hin) as (l1 & l2 & ->).
  pose proof Hrepr as (Hnd & Hf & _).
  pose proof (NoDup_remove_2 _ _ _ Hnd) as Hcur.
  destruct l1 as [|f l1'].
  { exfalso. apply Hnf. exact Hf. }
  rewrite remove_split by (intros H; apply Hcur, in_or_app; tauto).
  destruct (unlink_recycle c f l1' candidate l2 Hrepr) as (c1 & n & Hun & Hst).
  destruct (relink_recycle c1 f l1' candidate l2 n Hnd Hst) as (c' & Hre & Hrepr').
  exists c'. split; [|exact Hrepr'].
  unfold recycle_move_to_top. rewrite Hun. exact Hre.
Qed.

(** The new record goes in front. *)
Lemma prepend_repr c l cur n :
  repr c l -> ~ In cur l -> node c cur = Some n ->
  exists c', prepend cur c = Some c' /\ repr c' (cur :: l).
Proof.
  intros (Hnd & Hf & Hl & S) Hfresh Hn. unfold prepend.
  destruct l as [|f l'].
  - cbn [hd_or last_or] in Hf, Hl. rewrite Hl.
    erewrite set_prev_at by (cbn [node set_lastEntry]; exact Hn).
    cbn [bind firstEntry set_lastEntry]. rewrite Hf.
    erewrite set_next_at by (cbn [node]; apply store_eq).
    cbn [bind firstEntry prev].
    eexists. split; [reflexivity|].
    unfold repr. cbn [firstEntry lastEntry node set_firstEntry hd_or last_or seg].
    split; [constructor; [exact Hfresh|exact Hnd]|].
    repeat split. apply store_eq.
  - destruct (last_or_In None f l') as (x & l0 & _ & Hlast).
    rewrite Hl, Hlast.
    rewrite (set_prev_at cur None c n Hn). cbn [bind firstEntry]. rewrite Hf.
    cbn [hd_or].
    erewrite set_next_at by (cbn [node]; apply store_eq).
    cbn [bind firstEntry prev].
    assert (Hfc : f <> cur) by (intros ->; apply Hfresh; now left).
    destruct S as [Hfn S'].
    erewrite set_prev_at
      by (cbn [node]; rewrite !store_neq by exact Hfc; exact Hfn).
    cbn [bind next].
    eexists. split; [reflexivity|].
    unfold repr. cbn [firstEntry lastEntry node set_firstEntry hd_or].
    split; [constructor; [exact Hfresh|exact Hnd]|].
    split; [reflexivity|]. split; [rewrite Hl; reflexivity|].
    apply seg_cons. split.
    { rewrite store_neq by congruence. apply store_eq. }
    apply (seg_head_prev _ None); [now inversion Hnd|].
    split; [rewrite !store_neq by exact Hfc; exact Hfn|].
    apply seg_frame; [intros Hin; apply Hfresh; now right|].
    apply seg_frame; [intros Hin; apply Hfresh; now right|exact S'].
Qed.

End LinksFacts.

(** The list operations of the model are these pointer operations: on a
    chain that is the list of the addresses of the entries, the pointer code
    succeeds and leaves the chain of the entries of the model. *)
Lemma addresses_move_to_begin a l :
  NoDup (addresses l) -> In a (addresses l) ->
  addresses (move_to_begin a l) = a :: remove Nat.eq_dec a (addresses l).
Proof.
  intros Hnd Hin. unfold addresses in Hin.
  apply in_map_iff in Hin as (e & <- & Hin).
  destruct (in_split _ _ Hin) as (l1 & l2 & ->).
  rewrite move_to_begin_split by assumption.
  destruct (NoDup_addresses_split _ _ _ Hnd) as (H1 & H2 & _).
  cbn. rewrite !addresses_app. cbn.
  now rewrite LinksFacts.remove_split.
Qed.

Lemma move_to_begin_links c l a :
  NoDup (addresses l) ->
  Links.repr c (addresses l) ->
  In a (addresses l) ->
  is_firstEntry a l = false ->
  (exists c', Links.lookup_move_to_begin a c = Some c'
              /\ Links.repr c' (addresses (move_to_begin a l)))
  /\ (exists c', Links.recycle_move_to_top a c = Some c'
                 /\ Links.repr c' (addresses (move_to_begin a l))).
Proof.
  intros Hnd Hrepr Hin Hnf.
  assert (Hfirst : Links.firstEntry c <> Some a).
  { destruct Hrepr as (_ & Hf & _). rewrite Hf.
    destruct l as [|e l]; cbn in *; [discriminate|].
    intros [= E]. apply is_entry_false in Hnf. auto. }
  rewrite addresses_move_to_begin by assumption. split.
  - now apply LinksFacts.lookup_move_to_begin_repr.
  - now apply LinksFacts.recycle_move_to_top_repr.
Qed.

Lemma prepend_links c l n :
  Links.repr c (addresses l) ->
  Links.node c (CPLCalloc l) = Some n ->
  exists c', Links.prepend (CPLCalloc l) c = Some c'
             /\ Links.repr c' (addresses (calloc_entry (CPLCalloc l) :: l)).
Proof.
  intros Hrepr Hn. apply LinksFacts.prepend_repr with n; auto.
  apply CPLCalloc_fresh.
Qed.

(** ** GetFilenameAndOpenOptions *)

Lemma append_assoc (s1 s2 s3 : string) :
  ((s1 ++ s2) ++ s3 = s1 ++ (s2 ++ s3))%string.
Proof. induction s1 as [|c s1 IH]; cbn; [reflexivity | now rewrite IH]. Qed.

Lemma append_empty (s : string) : (s ++ EmptyString)%string = s.
Proof. induction s as [|c s IH]; cbn; [reflexivity | now rewrite IH]. Qed.

Lemma length_append (s1 s2 : string) :
  String.length (s1 ++ s2) = (String.length s1 + String.length s2)%nat.
Proof. induction s1 as [|c s1 IH]; cbn; [reflexivity | now rewrite IH]. Qed.

(** The options of the key, as one string. *)
Lemma key_closed_form papszOpenOptions : forall pszFileName,
  GetFilenameAndOpenOptions pszFileName papszOpenOptions
  = (pszFileName
     ++ fold_right (fun o s => "||" ++ o ++ s) EmptyString papszOpenOptions)%string.
Proof.
  unfold GetFilenameAndOpenOptions.
  induction papszOpenOptions as [|o os IH]; intros f; cbn [fold_left fold_right].
  - now rewrite append_empty.
  - rewrite IH. rewrite !append_assoc. reflexivity.
Qed.

(** Same suffix, same length: same prefix. *)
Lemma append_cancel_r (s1 s2 s : string) :
  (s1 ++ s = s2 ++ s)%string -> s1 = s2.
Proof.
  revert s2. induction s1 as [|c s1 IH]; intros [|c2 s2] H; cbn in H.
  - reflexivity.
  - exfalso. apply (f_equal String.length) in H. cbn in H.
    rewrite length_append in H. lia.
  - exfalso. apply (f_equal String.length) in H. cbn in H.
    rewrite length_append in H. lia.
  - injection H as -> H. f_equal. now apply IH.
Qed.

Lemma append_cancel_l (s s1 s2 : string) :
  (s ++ s1 = s ++ s2)%string -> s1 = s2.
Proof. induction s as [|c s IH]; cbn; intros H; [exact H | injection H as H; auto]. Qed.

Lemma key_same_options f1 f2 papszOpenOptions :
  GetFilenameAndOpenOptions f1 papszOpenOptions
  = GetFilenameAndOpenOptions f2 papszOpenOptions
  <-> f1 = f2.
Proof.
  split; [|now intros ->].
  rewrite !key_closed_form. apply append_cancel_r.
Qed.

Lemma key_alias pszFileName o papszOpenOptions :
  GetFilenameAndOpenOptions pszFileName (o :: papszOpenOptions)
  = GetFilenameAndOpenOptions (pszFileName ++ "||" ++ o) papszOpenOptions.
Proof. reflexivity. Qed.

(** ** The pool after an eviction for RAM *)

Lemma settings_kept_refl p : settings_kept p p.
Proof. repeat split. Qed.

Lemma settings_kept_trans p1 p2 p3 :
  settings_kept p1 p2 -> settings_kept p2 p3 -> settings_kept p1 p3.
Proof.
  intros (A1 & A2 & A3 & A4 & A5) (B1 & B2 & B3 & B4 & B5).
  repeat split; congruence.
Qed.

Lemma closed_idle_refl p : closed_idle p p.
Proof.
  split; [apply settings_kept_refl|]. split; [reflexivity|]. intros a e H. now left.
Qed.

Lemma closed_idle_trans p1 p2 p3 :
  closed_idle p1 p2 -> closed_idle p2 p3 -> closed_idle p1 p3.
Proof.
  intros (S1 & A1 & E1) (S2 & A2 & E2).
  split; [eapply settings_kept_trans; eauto|]. split; [congruence|].
  intros a e H. destruct (E1 a e H) as [H1|[Hz H1]].
  - exact (E2 a e H1).
  - right. split; [exact Hz|].
    destruct (E2 a _ H1) as [H2|[_ H2]]; exact H2.
Qed.

Lemma closed_idle_one p l1 c l2 r :
  NoDup (addresses (entries p)) ->
  entries p = l1 ++ c :: l2 ->
  refCount c = 0 ->
  closed_idle p (set_entries (l1 ++ emptied c :: l2) (set_pool_nRAMUsage r p)).
Proof.
  intros Hnd He Hz.
  split; [repeat split|]. split.
  - cbn [entries set_entries]. rewrite He, !addresses_app. reflexivity.
  - intros a e Ha. cbn [entries set_entries]. rewrite He in Ha, Hnd.
    destruct (NoDup_addresses_split _ _ _ Hnd) as (H1 & H2 & _).
    destruct (Nat.eq_dec (self c) a) as [<-|Hne].
    + rewrite entry_at_split in Ha by exact H1. injection Ha as <-.
      right. split; [exact Hz|].
      rewrite <- (self_emptied c). apply entry_at_split.
      now rewrite self_emptied.
    + left. rewrite <- Ha. apply entry_at_replace_other; [apply self_emptied|exact Hne].
Qed.

Lemma ram_pressure_closed_idle responsiblePID0 cur st st' :
  ram_pressure responsiblePID0 cur st st' ->
  pool_ok (fst st) -> closed_idle (fst st) (fst st').
Proof.
  induction 1 as [p t _|p t l1 c l2 ds st Hover He Hcand Hne Hl2 Hds Hrel IH];
    cbn [fst] in *; intros Hok.
  - apply closed_idle_refl.
  - destruct Hcand as [Hz Hram].
    eapply closed_idle_trans.
    + apply (closed_idle_one p l1 c l2); eauto. apply ok_addresses, Hok.
    + apply IH.
      eapply pool_ok_replace with (e := c) (e' := emptied c); eauto.
      * cbn. lia.
      * cbn. lia.
Qed.

(** ** What a request makes of the entries *)

Lemma entry_at_moved a l1 e e' l2 l' :
  NoDup (addresses (l1 ++ e :: l2)) ->
  self e' = self e ->
  l' = e' :: l1 ++ l2 \/ l' = l1 ++ e' :: l2 ->
  entry_at a l' = if Nat.eqb a (self e) then Some e' else entry_at a (l1 ++ e :: l2).
Proof.
  intros Hnd Hs Hl'.
  destruct (NoDup_addresses_split _ _ _ Hnd) as (H1 & H2 & _).
  destruct (Nat.eqb_spec a (self e)) as [->|Hne].
  - rewrite <- Hs. destruct Hl' as [->| ->].
    + apply head_entry_at.
    + apply entry_at_split. now rewrite Hs.
  - assert (Hne' : self e' <> a) by congruence.
    destruct Hl' as [->| ->].
    + rewrite entry_at_move_other by exact Hne'.
      apply entry_at_replace_other; congruence.
    + apply entry_at_replace_other; congruence.
Qed.

Lemma refCount_at_ext a p p' :
  entries p' = entries p -> refCount_at a p' = refCount_at a p.
Proof. unfold refCount_at. now intros ->. Qed.

Lemma closed_idle_refCount_at p p' a :
  closed_idle p p' -> refCount_at a p' = refCount_at a p.
Proof.
  intros (_ & Ha & He). unfold refCount_at.
  destruct (entry_at a (entries p)) as [e|] eqn:E.
  - destruct (He a e E) as [-> | [_ ->]]; reflexivity.
  - apply entry_at_None in E. rewrite <- Ha in E.
    now rewrite (entry_at_not_in _ _ E).
Qed.

Lemma closed_idle_busy p p' a e :
  closed_idle p p' -> entry_at a (entries p) = Some e -> refCount e <> 0 ->
  entry_at a (entries p') = Some e.
Proof.
  intros (_ & _ & He) E Hrc. destruct (He a e E) as [H|[Hz _]]; [exact H|contradiction].
Qed.

Lemma closed_idle_length p p' :
  closed_idle p p' -> List.length (entries p') = List.length (entries p).
Proof.
  intros (_ & Ha & _). unfold addresses in Ha.
  rewrite <- (length_map self (entries p')), Ha. apply length_map.
Qed.

Lemma closed_idle_head p p' c rest :
  closed_idle p p' -> NoDup (addresses (entries p)) ->
  entries p = c :: rest ->
  exists c' rest', entries p' = c' :: rest' /\ self c' = self c
                   /\ entry_at (self c) (entries p') = Some c'.
Proof.
  intros (_ & Ha & _) Hnd He. rewrite He in Ha.
  destruct (entries p') as [|c' rest'] eqn:E'; [discriminate|].
  cbn in Ha. injection Ha as Hs Hr. exists c', rest'.
  split; [reflexivity|]. split; [exact Hs|].
  rewrite <- Hs. apply head_entry_at.
Qed.

(** The second half of [_RefDataset] stores the result of the open in [cur]
    and closes datasets of idle entries, nothing else. *)
Lemma complete_closed_idle responsiblePID0 cur res p t c0 :
  pool_ok p -> entry_at cur (entries p) = Some c0 -> nRAMUsage c0 = 0 ->
  exists p' t',
    _RefDataset_complete responsiblePID0 cur res p t = Some (p', t')
    /\ pool_ok p'
    /\ closed_idle (stored cur res c0 p) p'
    /\ entry_at cur (entries p') = Some (opened res c0).
Proof.
  intros Hok Hc Hz. rewrite (complete_unfold _ _ _ _ _ _ Hc).
  pose proof (stored_pool_ok cur res c0 p Hok Hc Hz) as Hok1.
  pose proof (stored_cur cur res c0 p Hok Hc) as Hc1.
  destruct ((0 <? nMaxRAMUsage p) && (0 <? nRAMUsage (opened res c0))).
  - destruct (evict_for_RAM_pressure
                (S (List.length (entries (stored cur res c0 p))))
                responsiblePID0 cur (stored cur res c0 p) (decr_disabled t)
                (opened res c0) Hok1 Hc1)
      as (p' & t' & Hrun & Hrel).
    + cbn. lia.
    + pose proof (n_evictable_le (entries (stored cur res c0 p))). lia.
    + exists p', t'. split; [exact Hrun|].
      split; [exact (ram_pressure_pool_ok _ _ _ _ Hrel Hok1)|].
      split; [exact (ram_pressure_closed_idle _ _ _ _ Hrel Hok1)|].
      apply (ram_pressure_busy _ _ _ _ Hrel Hok1); [exact Hc1|cbn; lia].
  - exists (stored cur res c0 p), (decr_disabled t).
    split; [reflexivity|]. split; [exact Hok1|].
    split; [apply closed_idle_refl|exact Hc1].
Qed.

Lemma stored_settings cur res c0 p : settings_kept p (stored cur res c0 p).
Proof. unfold stored. destruct res; repeat split. Qed.

Lemma stored_refCount_at cur res c0 p a :
  pool_ok p -> entry_at cur (entries p) = Some c0 ->
  refCount_at a (stored cur res c0 p)
  = if Nat.eqb a cur then 1 else refCount_at a p.
Proof.
  intros Hok Hc. unfold refCount_at.
  destruct (Nat.eqb_spec a cur) as [->|Hne].
  - now rewrite (stored_cur _ _ _ _ Hok Hc).
  - now rewrite (stored_other _ _ _ _ _ Hok Hc Hne).
Qed.

Lemma refCount_at_moved a p l1 e e' l2 l' :
  NoDup (addresses (entries p)) ->
  entries p = l1 ++ e :: l2 ->
  self e' = self e ->
  l' = e' :: l1 ++ l2 \/ l' = l1 ++ e' :: l2 ->
  forall p', entries p' = l' ->
  refCount_at a p' = if Nat.eqb a (self e) then refCount e' else refCount_at a p.
Proof.
  intros Hnd He Hs Hl' p' Hp'. unfold refCount_at. rewrite Hp', He.
  rewrite He in Hnd.
  rewrite (entry_at_moved a l1 e e' l2 l' Hnd Hs Hl').
  now destruct (Nat.eqb a (self e)).
Qed.

Lemma refCount_at_In p e :
  NoDup (addresses (entries p)) -> In e (entries p) ->
  refCount_at (self e) p = refCount e.
Proof. intros Hnd Hin. unfold refCount_at. now rewrite In_entry_at. Qed.

Lemma refCount_at_fresh a p :
  ~ In a (addresses (entries p)) -> refCount_at a p = 0.
Proof. intros H. unfold refCount_at. now rewrite entry_at_not_in. Qed.

Lemma length_moved (l1 l2 : list GDALProxyPoolCacheEntry) e e' :
  List.length (e' :: l1 ++ l2) = List.length (l1 ++ e :: l2).
Proof. cbn. rewrite !length_app. cbn. lia. Qed.

(** The first half of [_RefDataset], entry by entry. *)
Lemma prepare_effect pszFileName papszOpenOptions bShared bForceOpen pszOwner0
  p t pr p1 t1 :
  pool_ok p ->
  _RefDataset_prepare pszFileName papszOpenOptions bShared bForceOpen pszOwner0 p t
    = (pr, p1, t1) ->
  (bInDestruction p1 = bInDestruction p /\ pool_refCount p1 = pool_refCount p
   /\ maxSize p1 = maxSize p /\ nMaxRAMUsage p1 = nMaxRAMUsage p)
  /\ (forall a, refCount_at a p1
                = refCount_at a p
                  + match pr with
                    | Return r => if returned r a then 1 else 0
                    | Opening cur => if Nat.eqb a cur then -1 else 0
                    end)
  /\ (forall a e, entry_at a (entries p) = Some e -> refCount e <> 0 ->
        entry_at a (entries p1)
        = Some (match pr with
                | Return r => if returned r a then incr_refCount e else e
                | Opening _ => e
                end))
  /\ (forall b, pr = Return (Some b) ->
        exists e rest, entries p1 = e :: rest /\ self e = b /\ 1 <= refCount e)
  /\ (sized p -> sized p1).
Proof.
  intros Hok Hrun.
  pose proof (ok_addresses _ Hok) as Hnd.
  pose proof (prepare_paths pszFileName papszOpenOptions bShared bForceOpen
                pszOwner0 p t Hnd) as Hpath.
  rewrite Hrun in Hpath.
  inversion Hpath as [Hd|l1 e l2 He Hm Hl1|Hf Hnone|l1 c l2 Hf Hnone Hfull He Hc Hl2
                      |Hf Hnone Hfull Hidle|Hf Hnone Hfree]; subst.
  - (* in destruction *)
    split; [repeat split|]. split; [intros a; cbn; lia|].
    split; [intros a e Ha _; exact Ha|]. split; [discriminate|auto].
  - (* a hit *)
    apply entry_matches_rule in Hm. destruct Hm as (Hrc & _).
    split; [repeat split|]. split.
    { intros a. cbn [returned].
      rewrite (refCount_at_moved a p l1 e (incr_refCount e) l2 _ Hnd He
                 (self_incr_refCount e) (or_introl eq_refl)) by reflexivity.
      destruct (Nat.eqb_spec a (self e)) as [->|Hne].
      - rewrite refCount_at_In; [cbn; lia|exact Hnd|rewrite He; apply in_elt].
      - lia. }
    split.
    { intros a x Ha _. cbn [entries set_entries returned]. rewrite He in Ha, Hnd.
      rewrite (entry_at_moved a l1 e (incr_refCount e) l2 _ Hnd
                 (self_incr_refCount e) (or_introl eq_refl)).
      destruct (Nat.eqb_spec a (self e)) as [->|Hne]; [|exact Ha].
      destruct (NoDup_addresses_split _ _ _ Hnd) as (H1 & _ & _).
      rewrite entry_at_split in Ha by exact H1. now injection Ha as <-. }
    split.
    { intros b Hb. injection Hb as <-. exists (incr_refCount e), (l1 ++ l2).
      split; [reflexivity|]. split; [apply self_incr_refCount|cbn; lia]. }
    intros [Hs Hle]. split; [|exact Hle].
    cbn [entries set_entries currentSize]. rewrite Hs, He.
    now rewrite (length_moved l1 l2 e (incr_refCount e)).
  - (* a miss, not forced *)
    split; [repeat split|]. split; [intros a; cbn; lia|].
    split; [intros a e Ha _; exact Ha|]. split; [discriminate|auto].
  - (* recycling *)
    apply evictable_true in Hc. destruct Hc as (Hz & _).
    set (c0 := install (GetFilenameAndOpenOptions pszFileName papszOpenOptions)
                       pszOwner0 (curResponsiblePID t) (emptied c)).
    assert (Hs0 : self c0 = self c) by reflexivity.
    split; [repeat split|]. split.
    { intros a.
      rewrite (refCount_at_moved a p l1 c c0 l2 _ Hnd He Hs0 (or_introl eq_refl))
        by reflexivity.
      destruct (Nat.eqb_spec a (self c)) as [->|Hne].
      - rewrite refCount_at_In; [cbn; lia|exact Hnd|rewrite He; apply in_elt].
      - lia. }
    split.
    { intros a x Ha Hbusy. cbn [entries set_entries set_pool_nRAMUsage].
      rewrite He in Ha, Hnd.
      rewrite (entry_at_moved a l1 c c0 l2 _ Hnd Hs0 (or_introl eq_refl)).
      destruct (Nat.eqb_spec a (self c)) as [->|Hne]; [|exact Ha].
      destruct (NoDup_addresses_split _ _ _ Hnd) as (H1 & _ & _).
      rewrite entry_at_split in Ha by exact H1. injection Ha as <-. contradiction. }
    split; [discriminate|].
    intros [Hs Hle]. split; [|exact Hle].
    cbn [entries set_entries set_pool_nRAMUsage currentSize]. rewrite Hs, He.
    now rewrite (length_moved l1 l2 c c0).
  - (* no slot left *)
    split; [repeat split|]. split; [intros a; cbn; lia|].
    split; [intros a e Ha _; exact Ha|]. split; [discriminate|auto].
  - (* a new record *)
    pose proof (CPLCalloc_fresh (entries p)) as Hfresh.
    split; [repeat split|]. split.
    { intros a. unfold refCount_at at 1.
      cbn [entries set_entries set_currentSize].
      destruct (Nat.eqb_spec a (CPLCalloc (entries p))) as [->|Hne].
      - rewrite refCount_at_fresh by exact Hfresh.
        match goal with |- context [entry_at ?a (?c :: ?l)] =>
          change (entry_at a (c :: l)) with (entry_at (self c) (c :: l)) end.
        rewrite head_entry_at. reflexivity.
      - rewrite entry_at_cons_other by (cbn; congruence).
        unfold refCount_at. lia. }
    split.
    { intros a x Ha _. cbn [entries set_entries set_currentSize].
      rewrite entry_at_cons_other; [exact Ha|].
      cbn. intros <-. apply Hfresh. destruct (entry_at_In _ _ _ Ha) as [Hin <-].
      now apply in_map. }
    split; [discriminate|].
    intros [Hs Hle]. unfold sized.
    cbn [entries set_entries set_currentSize currentSize maxSize List.length].
    split; lia.
Qed.

(** The second half, entry by entry. *)
Lemma complete_effect responsiblePID0 cur res p t c0 :
  pool_ok p -> entry_at cur (entries p) = Some c0 -> nRAMUsage c0 = 0 ->
  exists p' t',
    _RefDataset_complete responsiblePID0 cur res p t = Some (p', t')
    /\ pool_ok p'
    /\ settings_kept p p'
    /\ (forall a, refCount_at a p' = if Nat.eqb a cur then 1 else refCount_at a p)
    /\ (forall a e, a <> cur -> entry_at a (entries p) = Some e -> refCount e <> 0 ->
          entry_at a (entries p') = Some e)
    /\ List.length (entries p') = List.length (entries p)
    /\ entry_at cur (entries p') = Some (opened res c0)
    /\ (forall rest, entries p = c0 :: rest ->
          exists rest', entries p' = opened res c0 :: rest').
Proof.
  intros Hok Hc Hz.
  destruct (complete_closed_idle responsiblePID0 cur res p t c0 Hok Hc Hz)
    as (p' & t' & Hrun & Hok' & Hci & Hcur).
  exists p', t'. split; [exact Hrun|]. split; [exact Hok'|].
  split.
  { eapply settings_kept_trans; [apply stored_settings|apply Hci]. }
  split.
  { intros a. rewrite (closed_idle_refCount_at _ _ a Hci).
    now apply stored_refCount_at. }
  split.
  { intros a e Hne Ha Hbusy. apply (closed_idle_busy _ _ _ _ Hci); [|exact Hbusy].
    now rewrite stored_other. }
  split.
  { rewrite (closed_idle_length _ _ Hci).
    pose proof (stored_addresses cur res c0 p) as Ha. unfold addresses in Ha.
    rewrite <- (length_map self (entries (stored cur res c0 p))), Ha.
    apply length_map. }
  split; [exact Hcur|].
  intros rest Hrest.
  destruct (entry_at_In _ _ _ Hc) as [_ Hs].
  assert (Hst : entries (stored cur res c0 p) = opened res c0 :: rest).
  { apply (stored_entries cur res c0 p [] rest); auto. apply ok_addresses, Hok. }
  destruct (closed_idle_head _ _ _ _ Hci
              (ok_addresses _ (stored_pool_ok cur res c0 p Hok Hc Hz)) Hst)
    as (c' & rest' & He' & _ & Hat).
  exists rest'. rewrite He'. f_equal.
  change (self (opened res c0)) with (self c0) in Hat. rewrite Hs in Hat.
  congruence.
Qed.

(** [_RefDataset], entry by entry: it always returns; the entry returned
    has one reference more, is at the head and is not idle; the refcount of
    no other entry changes, and an entry that is not idle is left as it is. *)
Lemma RefDataset_effect B pszFileName eAccess papszOpenOptions bShared bForceOpen
  pszOwner0 p t :
  pool_ok p ->
  exists r p' t',
    _RefDataset B pszFileName eAccess papszOpenOptions bShared bForceOpen
                pszOwner0 p t = Some (r, p', t')
    /\ pool_ok p'
    /\ (bInDestruction p' = bInDestruction p /\ pool_refCount p' = pool_refCount p
        /\ maxSize p' = maxSize p /\ nMaxRAMUsage p' = nMaxRAMUsage p)
    /\ (forall a, refCount_at a p'
                  = refCount_at a p + if returned r a then 1 else 0)
    /\ (forall a e, entry_at a (entries p) = Some e -> refCount e <> 0 ->
          entry_at a (entries p')
          = Some (if returned r a then incr_refCount e else e))
    /\ (forall b, r = Some b ->
          exists e rest, entries p' = e :: rest /\ self e = b /\ 1 <= refCount e)
    /\ (sized p -> sized p').
Proof.
  intros Hok. unfold _RefDataset.
  destruct (_RefDataset_prepare pszFileName papszOpenOptions bShared bForceOpen
              pszOwner0 p t) as [[pr p1] t1] eqn:Hprep.
  pose proof (prepare_pool_ok _ _ _ _ _ _ _ _ _ _ Hok Hprep) as Hok1.
  destruct (prepare_effect _ _ _ _ _ _ _ _ _ _ Hok Hprep)
    as (Hset & Hrc & Hbusy & Hhead & Hsized).
  destruct pr as [r|cur].
  - exists r, p1, t1. split; [reflexivity|]. split; [exact Hok1|].
    split; [exact Hset|]. split; [exact Hrc|]. split; [exact Hbusy|].
    split; [|exact Hsized].
    intros b ->. now apply Hhead.
  - destruct (prepare_opening _ _ _ _ _ _ _ _ _ _ Hok Hprep)
      as (c & He & Hs & _ & Hz & _).
    assert (Hc : entry_at cur (entries p1) = Some c).
    { rewrite He, <- Hs. apply head_entry_at. }
    unfold do_Open.
    set (res := GDALDataset_Open B (log t1) pszFileName (nFlag B eAccess) papszOpenOptions).
    set (ev := EvOpen pszFileName (nFlag B eAccess) papszOpenOptions
                      (curResponsiblePID t1) (refCountOfDisabledRefCount t1) res).
    destruct (complete_effect (GDALGetResponsiblePIDForCurrentThread t) cur res p1
                (emit ev t1) c Hok1 Hc Hz)
      as (p' & t' & Hrun & Hok' & Hset' & Hrc' & Hbusy' & Hlen & Hcur & Hhd).
    rewrite Hrun. exists (Some cur), p', t'. split; [reflexivity|].
    split; [exact Hok'|].
    destruct Hset as (A1 & A2 & A3 & A4). destruct Hset' as (B1 & B2 & B3 & B4 & B5).
    split; [repeat split; congruence|].
    split.
    { intros a. rewrite Hrc', Hrc. cbn [returned].
      destruct (Nat.eqb_spec a cur) as [->|Hne]; [|lia].
      specialize (Hrc cur). rewrite Nat.eqb_refl in Hrc.
      unfold refCount_at in Hrc at 1. rewrite Hc in Hrc.
      destruct (prepare_opening _ _ _ _ _ _ _ _ _ _ Hok Hprep)
        as (c' & He' & _ & Hm1 & _).
      rewrite He in He'. injection He' as <-. lia. }
    split.
    { intros a e Ha Hne. cbn [returned].
      pose proof (Hbusy a e Ha Hne) as H1.
      destruct (Nat.eqb_spec a cur) as [->|Hac].
      - exfalso. specialize (Hrc cur). rewrite Nat.eqb_refl in Hrc.
        unfold refCount_at in Hrc. rewrite Hc, Ha in Hrc.
        rewrite H1 in Hc. injection Hc as <-. lia.
      - now apply Hbusy'. }
    split.
    { intros b Hb. injection Hb as <-.
      destruct (Hhd (tl (entries p1)) He) as (rest' & Hp').
      exists (opened res c), rest'. split; [exact Hp'|]. split; [exact Hs|cbn; lia]. }
    intros Hsz. destruct (Hsized Hsz) as [S1 S2]. split; [|congruence].
    rewrite B4, S1. now rewrite Hlen.
Qed.

(** A request that does not force the open, and the release after it. *)
Lemma RefDataset_lookup B pszFileName eAccess papszOpenOptions bShared
  pszOwner0 p t r p' t' :
  NoDup (addresses (entries p)) ->
  _RefDataset B pszFileName eAccess papszOpenOptions bShared false pszOwner0 p t
  = Some (r, p', t') ->
  t' = t
  /\ match r with
     | None => p' = p
     | Some a =>
         exists l1 e l2,
           entries p = l1 ++ e :: l2
           /\ self e = a
           /\ entry_matches (GetFilenameAndOpenOptions pszFileName papszOpenOptions)
                            bShared (curResponsiblePID t) pszOwner0 e = true
           /\ p' = set_entries (incr_refCount e :: l1 ++ l2) p
           /\ UnrefDataset a p' = set_entries (e :: l1 ++ l2) p
     end.
Proof.
  intros Hnd. unfold _RefDataset.
  pose proof (prepare_paths pszFileName papszOpenOptions bShared false
                pszOwner0 p t Hnd) as Hpath.
  destruct (_RefDataset_prepare pszFileName papszOpenOptions bShared false
              pszOwner0 p t) as [[pr p1] t1].
  inversion Hpath as [Hd|l1 e l2 He Hm Hl1|Hf Hnone| | |]; subst; try discriminate;
    intros E; injection E as <- <- <-; split; try reflexivity.
  exists l1, e, l2. split; [exact He|]. split; [reflexivity|].
  split; [exact Hm|]. split; [reflexivity|].
  rewrite He in Hnd. destruct (NoDup_addresses_split _ _ _ Hnd) as (H1 & H2 & _).
  unfold UnrefDataset. cbn [entries set_entries].
  rewrite <- (self_incr_refCount e).
  pose proof (update_at_split decr_refCount [] (incr_refCount e) (l1 ++ l2)) as Hu.
  cbn [app] in Hu. rewrite Hu.
  - unfold set_entries. cbn. f_equal. f_equal.
    destruct e; unfold decr_refCount, incr_refCount; cbn. f_equal. lia.
  - cbn. tauto.
  - rewrite self_incr_refCount, addresses_app, in_app_iff. tauto.
Qed.

(** ** The size of the pool *)

Lemma UnrefDataset_length cacheEntry p :
  List.length (entries (UnrefDataset cacheEntry p)) = List.length (entries p).
Proof. unfold UnrefDataset, update_at. cbn [entries set_entries]. apply length_map. Qed.

Lemma pool_step_sized m m' :
  machine_ok m -> pool_step m m' ->
  maxSize (pool m') = maxSize (pool m)
  /\ (sized (pool m) -> sized (pool m')).
Proof.
  intros [Hok Hfl] Hstep.
  destruct Hstep as [f oo sh fo own p t r p' t' ops Hrun
                    |f oo sh fo own p t cur p' t' ops Hrun
                    |pid cur res p t p' t' ops Hin Hrun
                    |a p ops
                    |f oo own p t p' t' ops Hrun]; cbn [pool opening] in *.
  - destruct (prepare_effect _ _ _ _ _ _ _ _ _ _ Hok Hrun) as ((_ & _ & Hm & _) & _ & _ & _ & Hs).
    split; assumption.
  - destruct (prepare_effect _ _ _ _ _ _ _ _ _ _ Hok Hrun) as ((_ & _ & Hm & _) & _ & _ & _ & Hs).
    split; assumption.
  - destruct (Hfl cur Hin) as (e & He & _ & Hz).
    destruct (complete_effect pid cur res p t e Hok He Hz)
      as (p2 & t2 & Hrun2 & _ & (_ & _ & Hm & Hc & _) & _ & _ & Hlen & _).
    rewrite Hrun in Hrun2. injection Hrun2 as <- <-.
    split; [exact Hm|]. intros [S1 S2]. split; [|congruence].
    now rewrite Hc, Hlen.
  - split; [reflexivity|]. intros [S1 S2]. split; [|exact S2].
    rewrite UnrefDataset_length. exact S1.
  - destruct (close_paths f oo own p t (ok_addresses _ Hok))
      as [Hsame|(l1 & c & l2 & ds & _ & He & _ & _ & _ & Hrun2)].
    + rewrite Hrun in Hsame. injection Hsame as -> ->. auto.
    + rewrite Hrun in Hrun2. injection Hrun2 as -> _.
      split; [reflexivity|]. intros [S1 S2]. split; [|exact S2].
      cbn [entries set_entries set_pool_nRAMUsage currentSize].
      rewrite S1, He, !length_app. reflexivity.
Qed.

Lemma pool_step_maxSize m m' :
  machine_ok m -> pool_step m m' -> maxSize (pool m') = maxSize (pool m).
Proof. intros H1 H2. apply (pool_step_sized m m' H1 H2). Qed.

Lemma reachable_sized m :
  reachable m -> 0 <= maxSize (pool m) -> sized (pool m).
Proof.
  induction 1 as [maxSizeIn nMax|m m' Hr IH Hstep]; intros Hpos.
  - cbn in *. split; cbn; lia.
  - pose proof (reachable_ok m Hr) as Hok.
    destruct (pool_step_sized m m' Hok Hstep) as [Hm Hs].
    apply Hs, IH. now rewrite <- Hm.
Qed.

Lemma filter_length_le (A : Type) (f : A -> bool) (l : list A) :
  (List.length (filter f l) <= List.length l)%nat.
Proof. induction l as [|x l IH]; cbn; [lia|destruct (f x); cbn; lia]. Qed.

Lemma length_move_to_begin a l :
  NoDup (addresses l) -> In a (addresses l) ->
  List.length (addresses (move_to_begin a l)) = List.length l.
Proof.
  intros Hnd Hin. rewrite (addresses_move_to_begin a l Hnd Hin). cbn [List.length].
  pose proof (in_split _ _ Hin) as (l1 & l2 & Hl). unfold addresses in *.
  rewrite <- (length_map self l), Hl. rewrite Hl in Hnd.
  apply NoDup_remove_2 in Hnd. rewrite in_app_iff in Hnd.
  rewrite LinksFacts.remove_split by tauto.
  rewrite !length_app. cbn. lia.
Qed.

(** ** _CloseDatasetIfZeroRefCount *)

Lemma close_matches_rule key o e :
  close_matches key o e = true <-> close_rule key o e.
Proof.
  unfold close_matches, close_rule. rewrite !andb_true_iff, Z.eqb_eq.
  rewrite key_equal_true, owner_equal_true.
  destruct (poDS e); split; intros H; repeat split; try tauto; try easy.
Qed.

Lemma close_matches_not_rule key o e :
  close_matches key o e = false <-> ~ close_rule key o e.
Proof.
  rewrite <- close_matches_rule. destruct (close_matches key o e); split; congruence.
Qed.

Lemma close_as_opener_log pid0 opener ds t :
  log (close_as_opener pid0 opener ds t)
  = EvClose ds opener (refCountOfDisabledRefCount t + 1) :: log t.
Proof. reflexivity. Qed.

Lemma close_nothing_iff pszFileName papszOpenOptions pszOwner0 p t :
  _CloseDatasetIfZeroRefCount pszFileName papszOpenOptions pszOwner0 p t = (p, t)
  <-> (bInDestruction p = true
       \/ forall e, In e (entries p) ->
            ~ close_rule (GetFilenameAndOpenOptions pszFileName papszOpenOptions)
                         pszOwner0 e).
Proof.
  unfold _CloseDatasetIfZeroRefCount.
  destruct (bInDestruction p); [split; auto|].
  destruct (find _ (entries p)) as [cur|] eqn:Hfind.
  - apply find_some in Hfind. destruct Hfind as [Hin Hm].
    pose proof (proj1 (close_matches_rule _ _ _) Hm) as Hrule.
    split.
    + destruct (poDS cur) as [ds|] eqn:Hds.
      * intros H. apply (f_equal (fun r => List.length (log (snd r)))) in H.
        cbn in H. lia.
      * destruct Hrule as (_ & _ & _ & H). now contradiction H.
    + intros [H|H]; [discriminate|]. now contradiction (H cur Hin).
  - split; [|reflexivity]. intros _. right. intros e Hin.
    apply close_matches_not_rule. exact (find_none _ _ Hfind e Hin).
Qed.

Lemma emptied_never_matches c key bShared pid o :
  entry_matches key bShared pid o (emptied c) = false.
Proof. unfold entry_matches. cbn. now rewrite andb_false_r. Qed.

Lemma emptied_never_closed c key o : close_matches key o (emptied c) = false.
Proof. unfold close_matches. cbn. now rewrite andb_false_r. Qed.

Lemma close_first pszFileName papszOpenOptions pszOwner0 p t l1 c l2 ds :
  bInDestruction p = false ->
  NoDup (addresses (entries p)) ->
  entries p = l1 ++ c :: l2 ->
  close_rule (GetFilenameAndOpenOptions pszFileName papszOpenOptions) pszOwner0 c ->
  (forall x, In x l1 ->
     ~ close_rule (GetFilenameAndOpenOptions pszFileName papszOpenOptions)
                  pszOwner0 x) ->
  poDS c = Some ds ->
  _CloseDatasetIfZeroRefCount pszFileName papszOpenOptions pszOwner0 p t
  = (set_entries (l1 ++ emptied c :: l2)
       (set_pool_nRAMUsage (pool_nRAMUsage p - nRAMUsage c) p),
     close_as_opener (curResponsiblePID t) (responsiblePID c) ds t).
Proof.
  intros Hd Hnd He Hc Hl1 Hds.
  unfold _CloseDatasetIfZeroRefCount. rewrite Hd.
  assert (Hfind : find (close_matches (GetFilenameAndOpenOptions pszFileName papszOpenOptions)
                          pszOwner0) (entries p) = Some c).
  { apply find_split. exists l1, l2. split; [exact He|].
    split; [now apply close_matches_rule|].
    intros x Hx. apply close_matches_not_rule. auto. }
  rewrite Hfind, Hds. cbn [entries set_entries set_pool_nRAMUsage].
  rewrite He in Hnd |- *.
  destruct (NoDup_addresses_split _ _ _ Hnd) as (H1 & H2 & _).
  rewrite update_at_split by assumption. reflexivity.
Qed.

(** ** ~GDALDatasetPool *)

Lemma destroy_entry_thread t e :
  curResponsiblePID (destroy_entry t e)
  = match poDS e with Some _ => responsiblePID e | None => curResponsiblePID t end
  /\ refCountOfDisabledRefCount (destroy_entry t e) = refCountOfDisabledRefCount t
  /\ log (destroy_entry t e)
     = destroy_events (refCountOfDisabledRefCount t) e ++ log t.
Proof.
  unfold destroy_entry, destroy_events, CPLAssert.
  destruct (refCount e =? 0), (poDS e); cbn; auto.
Qed.

Lemma destroy_entries_log l : forall t,
  refCountOfDisabledRefCount (fold_left destroy_entry l t)
  = refCountOfDisabledRefCount t
  /\ log (fold_left destroy_entry l t)
     = List.concat (rev (map (destroy_events (refCountOfDisabledRefCount t)) l)) ++ log t.
Proof.
  induction l as [|e l IH]; intros t; cbn [fold_left map rev].
  - split; reflexivity.
  - destruct (destroy_entry_thread t e) as (_ & Hd & Hl).
    destruct (IH (destroy_entry t e)) as [IH1 IH2].
    split; [congruence|].
    rewrite IH2, Hd, Hl, concat_app. cbn [List.concat].
    rewrite app_nil_r, <- app_assoc. reflexivity.
Qed.

Lemma delete_log p t :
  log (delete_GDALDatasetPool p t)
  = List.concat (rev (map (destroy_events (refCountOfDisabledRefCount t)) (entries p)))
    ++ log t.
Proof.
  unfold delete_GDALDatasetPool. cbn [GDALSetResponsiblePIDForCurrentThread log].
  apply destroy_entries_log.
Qed.

Lemma delete_counter p t :
  refCountOfDisabledRefCount (delete_GDALDatasetPool p t)
  = refCountOfDisabledRefCount t.
Proof.
  unfold delete_GDALDatasetPool.
  cbn [GDALSetResponsiblePIDForCurrentThread refCountOfDisabledRefCount].
  apply destroy_entries_log.
Qed.

Lemma In_destroy_events ev d l :
  In ev (List.concat (rev (map (destroy_events d) l)))
  <-> exists e, In e l /\ In ev (destroy_events d e).
Proof.
  rewrite in_concat. split.
  - intros (evs & Hin & Hev). apply in_rev in Hin. rewrite in_map_iff in Hin.
    destruct Hin as (e & <- & He). eauto.
  - intros (e & He & Hev). exists (destroy_events d e). split; [|exact Hev].
    apply -> in_rev. now apply in_map.
Qed.

Lemma closes_destroy_events d l :
  List.length (filter is_EvClose (List.concat (rev (map (destroy_events d) l))))
  = List.length (filter has_dataset l).
Proof.
  induction l as [|e l IH]; [reflexivity|].
  cbn [map rev]. rewrite concat_app, filter_app, length_app, IH.
  cbn [List.concat filter]. rewrite app_nil_r.
  unfold destroy_events, has_dataset.
  destruct (poDS e), (refCount e =? 0); cbn; lia.
Qed.

Lemma close_as_opener_eq pid0 opener ds t :
  close_as_opener pid0 opener ds t
  = mkThread pid0 (refCountOfDisabledRefCount t)
             (EvClose ds opener (refCountOfDisabledRefCount t + 1) :: log t).
Proof.
  unfold close_as_opener, GDALSetResponsiblePIDForCurrentThread, decr_disabled,
    GDALClose, emit, incr_disabled. cbn. f_equal. lia.
Qed.

Lemma delete_closes_all p t e ds :
  In e (entries p) -> poDS e = Some ds ->
  In (EvClose ds (responsiblePID e) (refCountOfDisabledRefCount t))
     (log (delete_GDALDatasetPool p t)).
Proof.
  intros Hin Hds. rewrite delete_log. apply in_app_iff. left.
  apply In_destroy_events. exists e. split; [exact Hin|].
  unfold destroy_events. rewrite Hds. now left.
Qed.

Lemma delete_assert_iff p t :
  In EvAssertFailed (log (delete_GDALDatasetPool p t))
  <-> In EvAssertFailed (log t)
      \/ exists e, In e (entries p) /\ refCount e <> 0.
Proof.
  rewrite delete_log, in_app_iff, In_destroy_events. split.
  - intros [(e & Hin & Hev)|H]; [right|now left].
    exists e. split; [exact Hin|].
    unfold destroy_events in Hev. apply in_app_iff in Hev.
    destruct Hev as [Hev|Hev].
    + destruct (poDS e); [destruct Hev as [Hev|[]]; discriminate|destruct Hev].
    + destruct (refCount e =? 0) eqn:E; [destruct Hev|]. now apply Z.eqb_neq.
  - intros [H|(e & Hin & Hne)]; [now right|left].
    exists e. split; [exact Hin|].
    unfold destroy_events. apply in_app_iff. right.
    apply Z.eqb_neq in Hne. rewrite Hne. now left.
Qed.

(** ** CheckLinks on a well-formed chain *)

Module LinksCheckFacts.
Import Links LinksFacts LinksCheck.

Lemma ptr_eqb_refl a : ptr_eqb a a = true.
Proof. destruct a; cbn; [apply Nat.eqb_refl|reflexivity]. Qed.

Lemma ptr_eqb_eq a b : ptr_eqb a b = true <-> a = b.
Proof.
  destruct a, b; cbn; try (split; congruence).
  rewrite Nat.eqb_eq. split; congruence.
Qed.

Lemma CheckLinks_walk_seg c n : forall l p i fuel,
  seg (node c) p l None ->
  (p = None -> firstEntry c = hd_or None l) ->
  (forall pa, p = Some pa ->
     exists q, node c pa = Some (mkNode q (hd_or None l))) ->
  (l <> [] -> lastEntry c = last_or None l) ->
  (List.length l <= fuel)%nat ->
  CheckLinks_walk fuel (hd_or None l) i n c
  = Some (i + Z.of_nat (List.length l) =? n).
Proof.
  induction l as [|a l IH]; intros p i fuel Hseg Hfirst Hprev Hlast Hfuel.
  - cbn. destruct fuel; cbn; now rewrite Z.add_0_r.
  - destruct fuel as [|fuel]; [cbn in Hfuel; lia|].
    apply seg_cons in Hseg. destruct Hseg as [Ha Hseg].
    specialize (Hlast ltac:(discriminate)).
    cbn [hd_or CheckLinks_walk].
    assert (H1 : (if ptr_eqb (Some a) (firstEntry c) then Some true
                  else cur_prev <- get_prev (Some a) c ;;
                       cur_prev_next <- get_next cur_prev c ;;
                       Some (ptr_eqb cur_prev_next (Some a))) = Some true).
    { destruct (ptr_eqb (Some a) (firstEntry c)) eqn:E; [reflexivity|].
      rewrite (get_prev_at _ _ _ Ha). cbn [bind prev].
      destruct p as [pa|].
      - destruct (Hprev pa eq_refl) as (q & Hq).
        rewrite (get_next_at _ _ _ Hq). cbn [bind next hd_or].
        now rewrite ptr_eqb_refl.
      - rewrite (Hfirst eq_refl) in E. cbn [hd_or] in E.
        now rewrite ptr_eqb_refl in E. }
    rewrite H1. cbn [bind negb].
    assert (H2 : (if ptr_eqb (Some a) (lastEntry c) then Some true
                  else cur_next <- get_next (Some a) c ;;
                       cur_next_prev <- get_prev cur_next c ;;
                       Some (ptr_eqb cur_next_prev (Some a))) = Some true).
    { destruct (ptr_eqb (Some a) (lastEntry c)) eqn:E; [reflexivity|].
      rewrite (get_next_at _ _ _ Ha). cbn [bind next].
      destruct l as [|b l].
      - rewrite Hlast in E. cbn in E. now rewrite Nat.eqb_refl in E.
      - apply seg_cons in Hseg. destruct Hseg as [Hb _].
        cbn [hd_or]. rewrite (get_prev_at _ _ _ Hb). cbn [bind prev].
        now rewrite ptr_eqb_refl. }
    rewrite H2. cbn [bind negb].
    rewrite (get_next_at _ _ _ Ha). cbn [bind next].
    assert (H3 : negb (ptr_eqb (hd_or None l) None) || ptr_eqb (Some a) (lastEntry c)
                 = true).
    { destruct l as [|b l]; [|reflexivity].
      rewrite Hlast. cbn. now rewrite Nat.eqb_refl. }
    rewrite H3. cbn [negb].
    rewrite (IH (Some a) (i + 1) fuel Hseg).
    + f_equal. f_equal. cbn [List.length]. lia.
    + discriminate.
    + intros pa E. injection E as <-. eauto.
    + intros Hne. rewrite Hlast. destruct l as [|b l]; [contradiction|].
      change (last_or None (a :: b :: l)) with (last_or (Some a) (b :: l)).
      apply last_or_nonempty.
    + cbn in Hfuel. lia.
Qed.

Lemma CheckLinks_repr c l fuel n :
  repr c l -> (List.length l <= fuel)%nat ->
  CheckLinks fuel n c = Some (Z.of_nat (List.length l) =? n).
Proof.
  intros (_ & Hf & Hl & Hseg) Hfuel. unfold CheckLinks. rewrite Hf.
  rewrite (CheckLinks_walk_seg c n l None 0 fuel Hseg); auto.
  discriminate.
Qed.

End LinksCheckFacts.

(** ** The log of a request *)

Lemma closed_candidate_log pid c t :
  grown pool_event t (closed_candidate pid c t).
Proof.
  unfold closed_candidate. destruct (poDS c) as [ds|]; [|apply grown_refl].
  exists [EvClose ds (responsiblePID c) (refCountOfDisabledRefCount t + 1)].
  split; [reflexivity|]. repeat constructor.
Qed.

Lemma prepare_log pszFileName papszOpenOptions bShared bForceOpen pszOwner0
  p t pr p1 t1 :
  pool_ok p ->
  _RefDataset_prepare pszFileName papszOpenOptions bShared bForceOpen pszOwner0 p t
    = (pr, p1, t1) ->
  grown pool_event t t1
  /\ (forall b, pr = Return (Some b) -> t1 = t)
  /\ (bForceOpen = false -> t1 = t /\ exists r, pr = Return r).
Proof.
  intros Hok Hrun.
  pose proof (prepare_paths pszFileName papszOpenOptions bShared bForceOpen
                pszOwner0 p t (ok_addresses _ Hok)) as Hpath.
  rewrite Hrun in Hpath.
  inversion Hpath; subst.
  - split; [apply grown_refl|]. split; eauto.
  - split; [apply grown_refl|]. split; eauto.
  - split; [apply grown_refl|]. split; eauto.
  - split; [|split; [discriminate|discriminate]].
    eapply grown_trans; [apply closed_candidate_log|].
    now apply grown_same_log.
  - split; [|split; [discriminate|discriminate]].
    apply grown_emit. exact I.
  - split; [|split; [discriminate|discriminate]].
    now apply grown_same_log.
Qed.

Lemma ram_pressure_log responsiblePID0 cur st st' :
  ram_pressure responsiblePID0 cur st st' -> grown pool_event (snd st) (snd st').
Proof.
  induction 1 as [p t _|p t l1 c l2 ds st Hover He Hcand Hne Hl2 Hds _ IH];
    cbn [fst snd] in *.
  - apply grown_refl.
  - eapply grown_trans; [|exact IH].
    exists [EvClose ds (responsiblePID c) (refCountOfDisabledRefCount t + 1)].
    split; [reflexivity|]. repeat constructor.
Qed.

Lemma complete_log responsiblePID0 cur res p t c0 p' t' :
  pool_ok p -> entry_at cur (entries p) = Some c0 -> nRAMUsage c0 = 0 ->
  _RefDataset_complete responsiblePID0 cur res p t = Some (p', t') ->
  grown pool_event t t'.
Proof.
  intros Hok Hc Hz. rewrite (complete_unfold _ _ _ _ _ _ Hc).
  pose proof (stored_pool_ok cur res c0 p Hok Hc Hz) as Hok1.
  pose proof (stored_cur cur res c0 p Hok Hc) as Hc1.
  destruct ((0 <? nMaxRAMUsage p) && (0 <? nRAMUsage (opened res c0))).
  - destruct (evict_for_RAM_pressure
                (S (List.length (entries (stored cur res c0 p))))
                responsiblePID0 cur (stored cur res c0 p) (decr_disabled t)
                (opened res c0) Hok1 Hc1)
      as (p2 & t2 & Hrun & Hrel).
    + cbn. lia.
    + pose proof (n_evictable_le (entries (stored cur res c0 p))). lia.
    + rewrite Hrun. intros E. injection E as <- <-.
      eapply grown_trans; [|exact (ram_pressure_log _ _ _ _ Hrel)].
      now apply grown_same_log.
  - intros E. injection E as <- <-. now apply grown_same_log.
Qed.

(** The log of [_RefDataset]: closes, at most one open, closes. *)
Lemma RefDataset_log B pszFileName eAccess papszOpenOptions bShared bForceOpen
  pszOwner0 p t r p' t' :
  pool_ok p ->
  _RefDataset B pszFileName eAccess papszOpenOptions bShared bForceOpen
              pszOwner0 p t = Some (r, p', t') ->
  exists after opens before,
    log t' = after ++ opens ++ before ++ log t
    /\ Forall pool_event after
    /\ Forall pool_event before
    /\ (opens = []
        \/ exists res,
             bForceOpen = true
             /\ opens = [EvOpen pszFileName (nFlag B eAccess) papszOpenOptions
                                (curResponsiblePID t)
                                (refCountOfDisabledRefCount t + 1) res]).
Proof.
  intros Hok. unfold _RefDataset.
  destruct (_RefDataset_prepare pszFileName papszOpenOptions bShared bForceOpen
              pszOwner0 p t) as [[pr p1] t1] eqn:Hprep.
  pose proof (prepare_pool_ok _ _ _ _ _ _ _ _ _ _ Hok Hprep) as Hok1.
  destruct (prepare_log _ _ _ _ _ _ _ _ _ _ Hok Hprep) as ((before & Hb & HPb) & _ & Hnf).
  destruct (prepare_thread _ _ _ _ _ _ _ _ _ _ Hok Hprep) as (Hpid & _ & Hr).
  destruct pr as [r0|cur].
  - intros E. injection E as <- <- <-.
    exists [], [], before. cbn [app]. repeat split; auto.
  - destruct Hr as [Hd _].
    destruct (prepare_opening _ _ _ _ _ _ _ _ _ _ Hok Hprep)
      as (c & He & Hs & _ & Hz & _).
    assert (Hc : entry_at cur (entries p1) = Some c).
    { rewrite He, <- Hs. apply head_entry_at. }
    unfold do_Open.
    set (res := GDALDataset_Open B (log t1) pszFileName (nFlag B eAccess) papszOpenOptions).
    set (ev := EvOpen pszFileName (nFlag B eAccess) papszOpenOptions
                      (curResponsiblePID t1) (refCountOfDisabledRefCount t1) res).
    destruct (_RefDataset_complete _ cur res p1 (emit ev t1)) as [[p2 t2]|] eqn:Hrun;
      [|discriminate].
    intros E. injection E as <- <- <-.
    destruct (complete_log _ _ _ _ _ _ _ _ Hok1 Hc Hz Hrun) as (after & Ha & HPa).
    exists after, [ev], before. split.
    { rewrite Ha. cbn [emit log]. rewrite Hb. reflexivity. }
    split; [exact HPa|]. split; [exact HPb|]. right. exists res.
    split.
    { destruct bForceOpen; [reflexivity|].
      destruct (Hnf eq_refl) as (_ & r0 & Hr0). discriminate. }
    unfold ev. now rewrite Hpid, Hd.
Qed.

Lemma pool_event_not_assert l :
  Forall pool_event l -> ~ In EvAssertFailed l.
Proof.
  intros HF Hin. rewrite Forall_forall in HF. exact (HF _ Hin).
Qed.

Lemma request_log_no_assert after opens before l :
  Forall pool_event after -> Forall pool_event before ->
  (opens = [] \/ exists f fl oo pid d res, opens = [EvOpen f fl oo pid d res]) ->
  In EvAssertFailed (after ++ opens ++ before ++ l) -> In EvAssertFailed l.
Proof.
  intros Ha Hb Ho Hin. rewrite !in_app_iff in Hin.
  destruct Hin as [H|[H|[H|H]]]; [| | |exact H].
  - now apply pool_event_not_assert in H.
  - destruct Ho as [->|(f & fl & oo & pid & d & res & ->)]; [destruct H|].
    destruct H as [H|[]]. discriminate.
  - now apply pool_event_not_assert in H.
Qed.

(** ** The references that the proxy takes and gives back *)

Lemma UnrefDataset_refCount_at cacheEntry p e a :
  NoDup (addresses (entries p)) ->
  entry_at cacheEntry (entries p) = Some e ->
  refCount_at a (UnrefDataset cacheEntry p)
  = refCount_at a p - if Nat.eqb a cacheEntry then 1 else 0.
Proof.
  intros Hnd He.
  destruct (entry_at_Some _ _ _ He) as (l1 & l2 & Hl & Hs & _).
  rewrite (UnrefDataset_entries cacheEntry p l1 e l2 Hnd Hl Hs).
  rewrite (refCount_at_moved a p l1 e (decr_refCount e) l2 _ Hnd Hl
             (self_decr_refCount e) (or_intror eq_refl)) by reflexivity.
  rewrite Hs. destruct (Nat.eqb_spec a cacheEntry) as [->|Hne]; [|lia].
  unfold refCount_at. rewrite He. reflexivity.
Qed.

Lemma UnrefDataset_settings cacheEntry p :
  bInDestruction (UnrefDataset cacheEntry p) = bInDestruction p
  /\ pool_refCount (UnrefDataset cacheEntry p) = pool_refCount p
  /\ maxSize (UnrefDataset cacheEntry p) = maxSize p
  /\ nMaxRAMUsage (UnrefDataset cacheEntry p) = nMaxRAMUsage p.
Proof. repeat split. Qed.

Lemma set_PID_back t : 
  GDALSetResponsiblePIDForCurrentThread (curResponsiblePID t) t = t.
Proof. now destruct t. Qed.

Section ProxyBalance.

Variable B : Backend.
Variable MD : CPLHashSetOps GetMetadataElt.
Variable MDI : CPLHashSetOps GetMetadataItemElt.

(** [RefUnderlyingDataset] always returns in a well-formed pool.  With a
    dataset, the entry of the proxy is at the head, holds that dataset and has
    one reference more; with null, no refcount has changed.  The thread has
    its responsible PID back, and what was opened was opened under the PID of
    the proxy. *)
Lemma RefUnderlying_effect bForceOpen (d : GDALProxyPoolDataset MD MDI) w p :
  singleton w = Some p -> pool_ok p ->
  exists r c p' t',
    RefUnderlyingDataset B bForceOpen d w
    = Some (r, set_cacheEntry c d, mkWorld (Some p') t')
    /\ pool_ok p'
    /\ (bInDestruction p' = bInDestruction p /\ pool_refCount p' = pool_refCount p
        /\ maxSize p' = maxSize p /\ nMaxRAMUsage p' = nMaxRAMUsage p)
    /\ curResponsiblePID t' = curResponsiblePID (thread w)
    /\ refCountOfDisabledRefCount t' = refCountOfDisabledRefCount (thread w)
    /\ match r with
       | Some ds =>
           exists a e rest,
             c = Some a /\ entries p' = e :: rest /\ self e = a
             /\ poDS e = Some ds /\ 1 <= refCount e
             /\ forall x, refCount_at x p'
                          = refCount_at x p + if Nat.eqb x a then 1 else 0
       | None => forall x, refCount_at x p' = refCount_at x p
       end
    /\ (forall a e, entry_at a (entries p) = Some e -> refCount e <> 0 ->
          exists e', entry_at a (entries p') = Some e'
                     /\ poDS e' = poDS e
                     /\ pszFileNameAndOpenOptions e' = pszFileNameAndOpenOptions e)
    /\ exists after opens before,
         log t' = after ++ opens ++ before ++ log (thread w)
         /\ Forall pool_event after
         /\ Forall pool_event before
         /\ (opens = []
             \/ exists res,
                  bForceOpen = true
                  /\ opens = [EvOpen (GetDescription d) (nFlag B (eAccess d))
                                     (papszOpenOptions d) (proxy_responsiblePID d)
                                     (refCountOfDisabledRefCount (thread w) + 1)
                                     res]).
Proof.
  intros Hw Hok.
  set (t0 := GDALSetResponsiblePIDForCurrentThread (proxy_responsiblePID d) (thread w)).
  destruct (RefDataset_effect B (GetDescription d) (eAccess d) (papszOpenOptions d)
              (GetShared d) bForceOpen (m_pszOwner d) p t0 Hok)
    as (r0 & p1 & t1 & Hrun & Hok1 & Hset & Hrc & Hbusy & Hhead & _).
  destruct (RefDataset_thread B (GetDescription d) (eAccess d) (papszOpenOptions d)
              (GetShared d) bForceOpen (m_pszOwner d) p t0 Hok)
    as (r0' & p1' & t1' & Hrun' & _ & (_ & Hcnt & _)).
  rewrite Hrun in Hrun'. injection Hrun' as <- <- <-.
  pose proof (RefDataset_log B _ _ _ _ _ _ _ _ _ _ _ Hok Hrun) as Hlog.
  rewrite (RefUnderlying_unfold B MD MDI bForceOpen d w p r0 p1 t1 Hw Hrun).
  cbn zeta.
  set (t2 := GDALSetResponsiblePIDForCurrentThread (curResponsiblePID (thread w)) t1).
  assert (Hbusy' : forall p2, (forall x, entry_at x (entries p2) = entry_at x (entries p1)
                                \/ exists e1, entry_at x (entries p1) = Some e1
                                     /\ entry_at x (entries p2) = Some (decr_refCount e1)) ->
            forall a e, entry_at a (entries p) = Some e -> refCount e <> 0 ->
            exists e', entry_at a (entries p2) = Some e'
                       /\ poDS e' = poDS e
                       /\ pszFileNameAndOpenOptions e' = pszFileNameAndOpenOptions e).
  { intros p2 Hp2 a e Ha Hne. pose proof (Hbusy a e Ha Hne) as H1.
    destruct (Hp2 a) as [E|(e1 & E1 & E2)].
    - rewrite E, H1. destruct (returned r0 a); eexists; split; eauto.
    - rewrite E2. rewrite H1 in E1. injection E1 as <-.
      destruct (returned r0 a); eexists; split; eauto. }
  assert (Hlog' : exists after opens before,
         log t2 = after ++ opens ++ before ++ log (thread w)
         /\ Forall pool_event after
         /\ Forall pool_event before
         /\ (opens = []
             \/ exists res,
                  bForceOpen = true
                  /\ opens = [EvOpen (GetDescription d) (nFlag B (eAccess d))
                                     (papszOpenOptions d) (proxy_responsiblePID d)
                                     (refCountOfDisabledRefCount (thread w) + 1)
                                     res])).
  { destruct Hlog as (after & opens & before & H1 & H2 & H3 & H4).
    exists after, opens, before. repeat split; auto. }
  destruct r0 as [a|].
  - destruct (Hhead a eq_refl) as (e & rest & He & Hs & Hge).
    assert (Hat : entry_at a (entries p1) = Some e).
    { rewrite He, <- Hs. apply head_entry_at. }
    rewrite Hat. destruct (poDS e) as [ds|] eqn:Hds.
    + exists (Some ds), (Some a), p1, t2.
      split; [reflexivity|]. split; [exact Hok1|]. split; [exact Hset|].
      split; [reflexivity|]. split; [exact Hcnt|].
      split.
      { exists a, e, rest. repeat split; auto. }
      split; [|exact Hlog'].
      apply Hbusy'. intros x. now left.
    + exists None, (Some a), (UnrefDataset a p1), t2.
      split; [reflexivity|]. split; [now apply UnrefDataset_pool_ok|].
      split; [exact Hset|].
      split; [reflexivity|]. split; [exact Hcnt|].
      split.
      { intros x.
        rewrite (UnrefDataset_refCount_at a p1 e x (ok_addresses _ Hok1) Hat).
        rewrite Hrc. cbn [returned]. destruct (Nat.eqb x a); lia. }
      split; [|exact Hlog'].
      apply Hbusy'. intros x.
      destruct (Nat.eq_dec x a) as [->|Hne].
      * right. exists e. split; [exact Hat|].
        destruct (entry_at_Some _ _ _ Hat) as (l1 & l2 & Hl & Hs' & _).
        rewrite (UnrefDataset_entries a p1 l1 e l2 (ok_addresses _ Hok1) Hl Hs').
        cbn [entries set_entries]. rewrite <- Hs', <- (self_decr_refCount e).
        apply entry_at_split. rewrite self_decr_refCount.
        pose proof (ok_addresses _ Hok1) as Hnd. rewrite Hl in Hnd.
        now destruct (NoDup_addresses_split _ _ _ Hnd).
      * left. destruct (entry_at_Some _ _ _ Hat) as (l1 & l2 & Hl & Hs' & _).
        rewrite (UnrefDataset_entries a p1 l1 e l2 (ok_addresses _ Hok1) Hl Hs').
        cbn [entries set_entries]. rewrite Hl.
        apply entry_at_replace_other; [apply self_decr_refCount|congruence].
  - exists None, None, p1, t2.
    split; [reflexivity|]. split; [exact Hok1|]. split; [exact Hset|].
    split; [reflexivity|]. split; [exact Hcnt|].
    split.
    { intros x. rewrite Hrc. cbn. lia. }
    split; [|exact Hlog'].
    apply Hbusy'. intros x. now left.
Qed.

End ProxyBalance.

Lemma GDALDataset_eqb_refl ds : GDALDataset_eqb ds ds = true.
Proof. unfold GDALDataset_eqb. now rewrite Nat.eqb_refl, Z.eqb_refl. Qed.

Section ProxyRelease.

Variable MD : CPLHashSetOps GetMetadataElt.
Variable MDI : CPLHashSetOps GetMetadataItemElt.

(** [UnrefUnderlyingDataset] on the entry that [RefUnderlyingDataset] left at
    the head. *)
Lemma UnrefUnderlying_head (d : GDALProxyPoolDataset MD MDI) ds' p t a e rest ds :
  cacheEntry d = Some a ->
  entries p = e :: rest -> self e = a -> poDS e = Some ds ->
  UnrefUnderlyingDataset ds' d (mkWorld (Some p) t)
  = Some (mkWorld (Some (UnrefDataset a p))
                  (CPLAssert (GDALDataset_eqb ds ds') t)).
Proof.
  intros Hc He Hs Hds. unfold UnrefUnderlyingDataset, cacheEntry_poDS.
  rewrite Hc. cbn [singleton]. 
  assert (Hat : entry_at a (entries p) = Some e).
  { rewrite He, <- Hs. apply head_entry_at. }
  rewrite Hat. cbn [option_map]. rewrite Hds.
  unfold UnrefDataset_static, set_thread. cbn [singleton thread]. now rewrite Hat.
Qed.

Lemma release_balance p p' a e rest :
  pool_ok p' ->
  entries p' = e :: rest -> self e = a ->
  (forall x, refCount_at x p' = refCount_at x p + if Nat.eqb x a then 1 else 0) ->
  pool_ok (UnrefDataset a p')
  /\ forall x, refCount_at x (UnrefDataset a p') = refCount_at x p.
Proof.
  intros Hok He Hs Hrc. split; [now apply UnrefDataset_pool_ok|].
  intros x.
  assert (Hat : entry_at a (entries p') = Some e).
  { rewrite He, <- Hs. apply head_entry_at. }
  rewrite (UnrefDataset_refCount_at a p' e x (ok_addresses _ Hok) Hat), Hrc.
  destruct (Nat.eqb x a); lia.
Qed.

End ProxyRelease.

(** ** PreventDestroy, ForceDestroy *)

Lemma iter_Unref_prevented n w s :
  singleton w = Some s -> refCountOfDisabledRefCount (thread w) <> 0 ->
  Nat.iter n Unref w = w.
Proof.
  intros Hs Hd. induction n as [|n IH]; [reflexivity|].
  rewrite Nat.iter_succ, IH. unfold Unref. rewrite Hs.
  apply Z.eqb_neq in Hd. now rewrite Hd.
Qed.

Lemma CPLAssert_log c t :
  log (CPLAssert c t) = (if c then [] else [EvAssertFailed]) ++ log t.
Proof. now destruct c. Qed.

Lemma CPLAssert_thread c t :
  curResponsiblePID (CPLAssert c t) = curResponsiblePID t
  /\ refCountOfDisabledRefCount (CPLAssert c t) = refCountOfDisabledRefCount t.
Proof. now destruct c. Qed.

Lemma ForceDestroy_prevented w s :
  singleton w = Some s ->
  ForceDestroy (PreventDestroy w)
  = mkWorld None
      (delete_GDALDatasetPool (set_pool_refCount 0 s)
         (CPLAssert (refCountOfDisabledRefCount (thread w) =? 0) (thread w))).
Proof.
  intros Hs. unfold PreventDestroy. rewrite Hs. unfold ForceDestroy.
  cbn [singleton thread].
  assert (E : decr_disabled (incr_disabled (thread w)) = thread w).
  { destruct (thread w). unfold decr_disabled, incr_disabled. cbn. f_equal. lia. }
  now rewrite E.
Qed.

(** ** Proxy operations that take a reference and give it back *)

Section ProxyOps.

Variable B : Backend.
Variable MD : CPLHashSetOps GetMetadataElt.
Variable MDI : CPLHashSetOps GetMetadataItemElt.

(** What [RefUnderlying_effect] says of a given run. *)
Lemma RefUnderlying_run bForceOpen (d : GDALProxyPoolDataset MD MDI) w p r d' w' :
  singleton w = Some p -> pool_ok p ->
  RefUnderlyingDataset B bForceOpen d w = Some (r, d', w') ->
  exists c p' t',
    d' = set_cacheEntry c d /\ w' = mkWorld (Some p') t'
    /\ pool_ok p'
    /\ (bInDestruction p' = bInDestruction p /\ pool_refCount p' = pool_refCount p
        /\ maxSize p' = maxSize p /\ nMaxRAMUsage p' = nMaxRAMUsage p)
    /\ curResponsiblePID t' = curResponsiblePID (thread w)
    /\ refCountOfDisabledRefCount t' = refCountOfDisabledRefCount (thread w)
    /\ match r with
       | Some ds =>
           exists a e rest,
             c = Some a /\ entries p' = e :: rest /\ self e = a
             /\ poDS e = Some ds /\ 1 <= refCount e
             /\ forall x, refCount_at x p'
                          = refCount_at x p + if Nat.eqb x a then 1 else 0
       | None => forall x, refCount_at x p' = refCount_at x p
       end
    /\ exists after opens before,
         log t' = after ++ opens ++ before ++ log (thread w)
         /\ Forall pool_event after
         /\ Forall pool_event before
         /\ (opens = []
             \/ exists res,
                  bForceOpen = true
                  /\ opens = [EvOpen (GetDescription d) (nFlag B (eAccess d))
                                     (papszOpenOptions d) (proxy_responsiblePID d)
                                     (refCountOfDisabledRefCount (thread w) + 1)
                                     res]).
Proof.
  intros Hw Hok Hrun.
  destruct (RefUnderlying_effect B MD MDI bForceOpen d w p Hw Hok)
    as (r2 & c & p' & t' & Hrun2 & Hok' & Hset & Hpid & Hcnt & Hr & _ & Hlog).
  rewrite Hrun in Hrun2. injection Hrun2 as -> -> ->.
  exists c, p', t'. split; [reflexivity|]. split; [reflexivity|].
  split; [exact Hok'|]. split; [exact Hset|]. split; [exact Hpid|].
  split; [exact Hcnt|]. split; [exact Hr|exact Hlog].
Qed.

(** Without forcing the open, the thread is left as it was, and so is
    every record of the pool once the reference is given back. *)
Lemma RefUnderlying_lookup (d : GDALProxyPoolDataset MD MDI) w p r d' w' :
  singleton w = Some p -> pool_ok p ->
  RefUnderlyingDataset B false d w = Some (r, d', w') ->
  thread w' = thread w
  /\ exists p',
       singleton w' = Some p'
       /\ match r with
          | None => forall x, entry_at x (entries p') = entry_at x (entries p)
          | Some ds =>
              exists a e rest,
                cacheEntry d' = Some a /\ entries p' = e :: rest /\ self e = a
                /\ poDS e = Some ds
                /\ (forall x, entry_at x (entries (UnrefDataset a p'))
                              = entry_at x (entries p))
                /\ exists e0,
                     In e0 (entries p)
                     /\ entry_matches
                          (GetFilenameAndOpenOptions (GetDescription d)
                                                     (papszOpenOptions d))
                          (GetShared d) (proxy_responsiblePID d) (m_pszOwner d) e0
                        = true
                     /\ poDS e0 = Some ds
          end.
Proof.
  intros Hw Hok Hrun.
  pose proof (ok_addresses _ Hok) as Hnd.
  set (t0 := GDALSetResponsiblePIDForCurrentThread (proxy_responsiblePID d) (thread w)).
  destruct (RefDataset_effect B (GetDescription d) (eAccess d) (papszOpenOptions d)
              (GetShared d) false (m_pszOwner d) p t0 Hok)
    as (r0 & p1 & t1 & Hrun0 & Hok1 & _ & _ & _ & Hhead & _).
  destruct (RefDataset_lookup B _ _ _ _ _ _ _ _ _ _ Hnd Hrun0) as [-> Hr0].
  rewrite (RefUnderlying_unfold B MD MDI false d w p r0 p1 t0 Hw Hrun0) in Hrun.
  cbn zeta in Hrun. unfold t0 in Hrun.
  assert (Et : GDALSetResponsiblePIDForCurrentThread (curResponsiblePID (thread w))
                 (GDALSetResponsiblePIDForCurrentThread (proxy_responsiblePID d)
                    (thread w)) = thread w).
  { now destruct (thread w). }
  rewrite Et in Hrun.
  destruct r0 as [a|].
  - destruct (Hhead a eq_refl) as (e & rest & He & Hs & Hge).
    assert (Hat : entry_at a (entries p1) = Some e).
    { rewrite He, <- Hs. apply head_entry_at. }
    rewrite Hat in Hrun.
    destruct Hr0 as (l1 & e0 & l2 & Hl & Hs0 & Hm0 & Hp1 & Hun).
    assert (Hsame : forall x, entry_at x (entries (UnrefDataset a p1))
                              = entry_at x (entries p)).
    { intros x. rewrite Hun. cbn [entries set_entries]. rewrite Hl.
      rewrite Hl in Hnd.
      rewrite (entry_at_moved x l1 e0 e0 l2 _ Hnd eq_refl (or_introl eq_refl)).
      destruct (Nat.eqb_spec x (self e0)) as [->|Hne]; [|reflexivity].
      symmetry. apply entry_at_split.
      now destruct (NoDup_addresses_split _ _ _ Hnd). }
    destruct (poDS e) as [ds|] eqn:Hds; injection Hrun as <- <- <-.
    + split; [reflexivity|]. exists p1. split; [reflexivity|].
      exists a, e, rest. split; [reflexivity|]. split; [exact He|].
      split; [exact Hs|]. split; [exact Hds|]. split; [exact Hsame|].
      exists e0. split; [rewrite Hl; apply in_elt|]. split; [exact Hm0|].
      rewrite Hp1 in He. cbn [entries set_entries] in He.
      injection He as <- _. exact Hds.
    + split; [reflexivity|]. exists (UnrefDataset a p1). split; [reflexivity|].
      exact Hsame.
  - subst p1. injection Hrun as <- <- <-. split; [reflexivity|].
    exists p. split; [reflexivity|]. reflexivity.
Qed.

Lemma request_no_assert bForceOpen (d : GDALProxyPoolDataset MD MDI) t t0
  after opens before :
  log t = after ++ opens ++ before ++ log t0 ->
  Forall pool_event after -> Forall pool_event before ->
  (opens = []
   \/ exists res,
        bForceOpen = true
        /\ opens = [EvOpen (GetDescription d) (nFlag B (eAccess d))
                           (papszOpenOptions d) (proxy_responsiblePID d)
                           (refCountOfDisabledRefCount t0 + 1) res]) ->
  In EvAssertFailed (log t) -> In EvAssertFailed (log t0).
Proof.
  intros -> Ha Hb Ho. apply request_log_no_assert; auto.
  destruct Ho as [->|(res & _ & ->)]; [now left|right]. repeat eexists.
Qed.

(** [GetMetadata] and [GetMetadataItem] return in a well-formed pool and
    leave every refcount as it was. *)
Lemma GetMetadata_effect pszDomain (d : GDALProxyPoolDataset MD MDI) w p :
  singleton w = Some p -> pool_ok p ->
  exists r d' p' t',
    GetMetadata B pszDomain d w = Some (r, d', mkWorld (Some p') t')
    /\ pool_ok p'
    /\ (forall x, refCount_at x p' = refCount_at x p)
    /\ curResponsiblePID t' = curResponsiblePID (thread w)
    /\ refCountOfDisabledRefCount t' = refCountOfDisabledRefCount (thread w)
    /\ (In EvAssertFailed (log t') -> In EvAssertFailed (log (thread w))).
Proof.
  intros Hw Hok. unfold GetMetadata.
  set (d0 := match metadataSet d with
             | None => set_metadataSet (Some (CPLHashSetNew MD)) d
             | Some _ => d
             end).
  destruct (RefUnderlying_effect B MD MDI true d0 w p Hw Hok)
    as (r & c & p' & t' & Hrun & Hok' & _ & Hpid & Hcnt & Hr & _ & Hlog).
  destruct Hlog as (after & opens & before & Hl & Ha & Hb & Ho).
  pose proof (request_no_assert true d0 t' (thread w) after opens before Hl Ha Hb Ho)
    as Hna.
  rewrite Hrun. destruct r as [ds|].
  - destruct Hr as (a & e & rest & -> & He & Hs & Hds & Hge & Hrc).
    unfold set_thread. cbn [singleton thread].
    erewrite UnrefUnderlying_head; [|reflexivity|exact He|exact Hs|exact Hds].
    rewrite GDALDataset_eqb_refl. cbn [CPLAssert].
    destruct (release_balance p p' a e rest Hok' He Hs Hrc) as [Hok2 Hrc2].
    eexists _, _, _, _. split; [reflexivity|]. split; [exact Hok2|].
    split; [exact Hrc2|]. split; [exact Hpid|]. split; [exact Hcnt|].
    cbn [emit log]. intros [H|H]; [discriminate|auto].
  - eexists _, _, _, _. split; [reflexivity|]. split; [exact Hok'|].
    split; [exact Hr|]. split; [exact Hpid|]. split; [exact Hcnt|exact Hna].
Qed.

Lemma GetMetadataItem_effect pszName pszDomain (d : GDALProxyPoolDataset MD MDI) w p :
  singleton w = Some p -> pool_ok p ->
  exists r d' p' t',
    GetMetadataItem B pszName pszDomain d w = Some (r, d', mkWorld (Some p') t')
    /\ pool_ok p'
    /\ (forall x, refCount_at x p' = refCount_at x p)
    /\ curResponsiblePID t' = curResponsiblePID (thread w)
    /\ refCountOfDisabledRefCount t' = refCountOfDisabledRefCount (thread w)
    /\ (In EvAssertFailed (log t') -> In EvAssertFailed (log (thread w))).
Proof.
  intros Hw Hok. unfold GetMetadataItem.
  set (d0 := match metadataItemSet d with
             | None => set_metadataItemSet (Some (CPLHashSetNew MDI)) d
             | Some _ => d
             end).
  destruct (RefUnderlying_effect B MD MDI true d0 w p Hw Hok)
    as (r & c & p' & t' & Hrun & Hok' & _ & Hpid & Hcnt & Hr & _ & Hlog).
  destruct Hlog as (after & opens & before & Hl & Ha & Hb & Ho).
  pose proof (request_no_assert true d0 t' (thread w) after opens before Hl Ha Hb Ho)
    as Hna.
  rewrite Hrun. destruct r as [ds|].
  - destruct Hr as (a & e & rest & -> & He & Hs & Hds & Hge & Hrc).
    unfold set_thread. cbn [singleton thread].
    erewrite UnrefUnderlying_head; [|reflexivity|exact He|exact Hs|exact Hds].
    rewrite GDALDataset_eqb_refl. cbn [CPLAssert].
    destruct (release_balance p p' a e rest Hok' He Hs Hrc) as [Hok2 Hrc2].
    eexists _, _, _, _. split; [reflexivity|]. split; [exact Hok2|].
    split; [exact Hrc2|]. split; [exact Hpid|]. split; [exact Hcnt|].
    cbn [emit log]. intros [H|H]; [discriminate|auto].
  - eexists _, _, _, _. split; [reflexivity|]. split; [exact Hok'|].
    split; [exact Hr|]. split; [exact Hpid|]. split; [exact Hcnt|exact Hna].
Qed.

Variable U : Underlying.

(** [FlushCache] returns, never opens the dataset, and leaves the thread and
    every record of the pool as they were; the underlying dataset is flushed
    only if an entry that matches the request holds it. *)
Lemma FlushCache_effect bAtClosing (d : GDALProxyPoolDataset MD MDI) w p :
  singleton w = Some p -> pool_ok p ->
  exists eErr d' p',
    FlushCache B U bAtClosing d w = Some (eErr, d', mkWorld (Some p') (thread w))
    /\ (forall x, entry_at x (entries p') = entry_at x (entries p))
    /\ (eErr = CE_None
        \/ exists e0 ds,
             In e0 (entries p)
             /\ entry_matches
                  (GetFilenameAndOpenOptions (GetDescription d) (papszOpenOptions d))
                  (GetShared d) (proxy_responsiblePID d) (m_pszOwner d) e0 = true
             /\ poDS e0 = Some ds
             /\ eErr = ds_FlushCache U (log (thread w)) ds bAtClosing).
Proof.
  intros Hw Hok. unfold FlushCache.
  destruct (RefUnderlying_effect B MD MDI false d w p Hw Hok)
    as (r & c & p' & t' & Hrun & Hok' & _).
  destruct (RefUnderlying_lookup d w p r _ _ Hw Hok Hrun) as (Ht & p2 & Hp2 & Hr).
  cbn [singleton thread] in Ht, Hp2. injection Hp2 as <-. subst t'.
  rewrite Hrun. destruct r as [ds|].
  - destruct Hr as (a & e & rest & Hc & He & Hs & Hds & Hsame & e0 & Hin & Hm & Hds0).
    erewrite UnrefUnderlying_head; [|exact Hc|exact He|exact Hs|exact Hds].
    rewrite GDALDataset_eqb_refl. cbn [CPLAssert thread].
    eexists _, _, _. split; [reflexivity|]. split; [exact Hsame|].
    right. exists e0, ds. auto.
  - eexists _, _, _. split; [reflexivity|]. split; [exact Hr|]. now left.
Qed.

(** [RefUnderlyingRasterBand] returns; with a band, the proxy holds one
    reference on its entry, and with null none, also when the dataset is there
    and the band is not. *)
Lemma RefUnderlyingRasterBand_effect bForceOpen b (d : GDALProxyPoolDataset MD MDI)
  w p :
  singleton w = Some p -> pool_ok p ->
  exists r b' d' p' t',
    RefUnderlyingRasterBand B U bForceOpen b d w
    = Some (r, b', d', mkWorld (Some p') t')
    /\ pool_ok p'
    /\ curResponsiblePID t' = curResponsiblePID (thread w)
    /\ match r with
       | None => b' = b /\ forall x, refCount_at x p' = refCount_at x p
       | Some poBand =>
           exists ds a e rest,
             ds_GetRasterBand U ds (nBand b) = Some poBand
             /\ cacheEntry d' = Some a
             /\ entries p' = e :: rest /\ self e = a /\ poDS e = Some ds
             /\ (forall x, refCount_at x p'
                           = refCount_at x p + if Nat.eqb x a then 1 else 0)
             /\ b' = (if (nBlockXSize b <=? 0) || (nBlockYSize b <=? 0)
                      then mkProxyBand (nBand b) (fst (GetBlockSize poBand))
                                       (snd (GetBlockSize poBand))
                      else b)
             /\ (forall poUnderlyingRasterBand,
                   UnrefUnderlyingRasterBand (Some poUnderlyingRasterBand) d'
                     (mkWorld (Some p') t')
                   = Some (mkWorld (Some (UnrefDataset a p'))
                             (CPLAssert
                                (GDALDataset_eqb ds (GetDataset poUnderlyingRasterBand))
                                t')))
             /\ pool_ok (UnrefDataset a p')
             /\ forall x, refCount_at x (UnrefDataset a p') = refCount_at x p
       end.
Proof.
  intros Hw Hok. unfold RefUnderlyingRasterBand.
  destruct (RefUnderlying_effect B MD MDI bForceOpen d w p Hw Hok)
    as (r & c & p' & t' & Hrun & Hok' & _ & Hpid & _ & Hr & _).
  rewrite Hrun. destruct r as [ds|].
  - destruct Hr as (a & e & rest & -> & He & Hs & Hds & Hge & Hrc).
    destruct (release_balance p p' a e rest Hok' He Hs Hrc) as [Hok2 Hrc2].
    destruct (ds_GetRasterBand U ds (nBand b)) as [poBand|] eqn:Hband.
    + eexists _, _, _, _, _. split; [reflexivity|]. split; [exact Hok'|].
      split; [exact Hpid|].
      exists ds, a, e, rest. split; [exact Hband|]. split; [reflexivity|].
      split; [exact He|]. split; [exact Hs|]. split; [exact Hds|].
      split; [exact Hrc|]. split; [reflexivity|].
      split; [|split; [exact Hok2|exact Hrc2]].
      intros band. unfold UnrefUnderlyingRasterBand.
      erewrite UnrefUnderlying_head; [reflexivity|reflexivity|exact He|exact Hs|exact Hds].
    + erewrite UnrefUnderlying_head; [|reflexivity|exact He|exact Hs|exact Hds].
      rewrite GDALDataset_eqb_refl. cbn [CPLAssert].
      eexists _, _, _, _, _. split; [reflexivity|]. split; [exact Hok2|].
      split; [exact Hpid|]. split; [reflexivity|exact Hrc2].
  - eexists _, _, _, _, _. split; [reflexivity|]. split; [exact Hok'|].
    split; [exact Hpid|]. split; [reflexivity|exact Hr].
Qed.

(** The same for the band, when the bands that the underlying dataset hands
    out say that they belong to it. *)
Lemma Band_FlushCache_effect bAtClosing b (d : GDALProxyPoolDataset MD MDI) w p :
  singleton w = Some p -> pool_ok p ->
  (forall ds n poBand, ds_GetRasterBand U ds n = Some poBand -> GetDataset poBand = ds) ->
  exists eErr b' d' p',
    Band_FlushCache B U bAtClosing b d w
    = Some (eErr, b', d', mkWorld (Some p') (thread w))
    /\ (forall x, entry_at x (entries p') = entry_at x (entries p))
    /\ (eErr = CE_None
        \/ exists e0 ds poBand,
             In e0 (entries p)
             /\ entry_matches
                  (GetFilenameAndOpenOptions (GetDescription d) (papszOpenOptions d))
                  (GetShared d) (proxy_responsiblePID d) (m_pszOwner d) e0 = true
             /\ poDS e0 = Some ds
             /\ ds_GetRasterBand U ds (nBand b) = Some poBand
             /\ eErr = band_FlushCache U (log (thread w)) poBand bAtClosing).
Proof.
  intros Hw Hok Hcons. unfold Band_FlushCache, RefUnderlyingRasterBand.
  destruct (RefUnderlying_effect B MD MDI false d w p Hw Hok)
    as (r & c & p' & t' & Hrun & Hok' & _).
  destruct (RefUnderlying_lookup d w p r _ _ Hw Hok Hrun) as (Ht & p2 & Hp2 & Hr).
  cbn [singleton thread] in Ht, Hp2. injection Hp2 as <-. subst t'.
  rewrite Hrun. destruct r as [ds|].
  - destruct Hr as (a & e & rest & Hc & He & Hs & Hds & Hsame & e0 & Hin & Hm & Hds0).
    destruct (ds_GetRasterBand U ds (nBand b)) as [poBand|] eqn:Hband.
    + unfold UnrefUnderlyingRasterBand.
      erewrite UnrefUnderlying_head; [|exact Hc|exact He|exact Hs|exact Hds].
      rewrite (Hcons _ _ _ Hband), GDALDataset_eqb_refl. cbn [CPLAssert thread].
      eexists _, _, _, _. split; [reflexivity|]. split; [exact Hsame|].
      right. exists e0, ds, poBand. auto.
    + erewrite UnrefUnderlying_head; [|exact Hc|exact He|exact Hs|exact Hds].
      rewrite GDALDataset_eqb_refl. cbn [CPLAssert thread].
      eexists _, _, _, _. split; [reflexivity|]. split; [exact Hsame|]. now left.
  - eexists _, _, _, _. split; [reflexivity|]. split; [exact Hr|]. now left.
Qed.

End ProxyOps.

(** ** The first request on a new pool *)

Lemma first_open B pszFileName eAccess papszOpenOptions bShared pszOwner0
  maxSizeIn nMaxRAMUsageIn rc t :
  0 < maxSizeIn ->
  let p := set_pool_refCount rc (new_GDALDatasetPool maxSizeIn nMaxRAMUsageIn) in
  let key := GetFilenameAndOpenOptions pszFileName papszOpenOptions in
  let res := GDALDataset_Open B (log t) pszFileName (nFlag B eAccess) papszOpenOptions in
  _RefDataset B pszFileName eAccess papszOpenOptions bShared true pszOwner0 p t
  = Some (Some 1%nat,
          mkPool false rc maxSizeIn 1 nMaxRAMUsageIn
            (match res with Some ds => Z.max 0 (GetEstimatedRAMUsage ds) | None => 0 end)
            [mkEntry 1 (curResponsiblePID t) (Some key) pszOwner0 res
               (match res with Some ds => Z.max 0 (GetEstimatedRAMUsage ds) | None => 0 end)
               1],
          mkThread (curResponsiblePID t) (refCountOfDisabledRefCount t)
            (EvOpen pszFileName (nFlag B eAccess) papszOpenOptions (curResponsiblePID t)
                    (refCountOfDisabledRefCount t + 1) res :: log t)).
Proof.
  intros Hpos p key res.
  unfold _RefDataset.
  rewrite (prepare_prepend pszFileName papszOpenOptions bShared pszOwner0 p t).
  2:{ reflexivity. }
  2:{ intros x []. }
  2:{ cbn. lia. }
  unfold do_Open. cbn [log incr_disabled]. fold res. clearbody res.
  unfold _RefDataset_complete, p.
  assert (Ht : forall ev, decr_disabled (emit ev (incr_disabled t))
                          = mkThread (curResponsiblePID t)
                                     (refCountOfDisabledRefCount t) (ev :: log t)).
  { intros ev. unfold decr_disabled, emit, incr_disabled. cbn. f_equal. lia. }
  destruct res as [ds|]; cbn.
  - destruct (0 <? nMaxRAMUsageIn); cbn.
    + destruct (0 <? Z.max 0 (GetEstimatedRAMUsage ds)); cbn.
      * rewrite Z.eqb_refl, andb_false_r. cbn. now rewrite Ht.
      * now rewrite Ht.
    + now rewrite Ht.
  - rewrite andb_false_r. now rewrite Ht.
Qed.

(** ** When a request returns null *)

Lemma prepare_null_iff pszFileName papszOpenOptions bShared bForceOpen pszOwner0
  p t pr p1 t1 :
  NoDup (addresses (entries p)) ->
  _RefDataset_prepare pszFileName papszOpenOptions bShared bForceOpen pszOwner0 p t
    = (pr, p1, t1) ->
  let key := GetFilenameAndOpenOptions pszFileName papszOpenOptions in
  let pid := curResponsiblePID t in
  (pr = Return None
   <-> bInDestruction p = true
       \/ ((forall x, In x (entries p) -> ~ matching_rule key bShared pid pszOwner0 x)
           /\ (bForceOpen = false
               \/ (currentSize p = maxSize p
                   /\ forall x, In x (entries p) -> refCount x <> 0))))
  /\ (pr = Return None -> p1 = p).
Proof.
  intros Hnd Hrun key pid.
  pose proof (prepare_paths pszFileName papszOpenOptions bShared bForceOpen
                pszOwner0 p t Hnd) as Hpath.
  rewrite Hrun in Hpath. fold key in Hpath.
  assert (Hrule : forall P : GDALProxyPoolCacheEntry -> Prop,
            (forall x, P x -> entry_matches key bShared pid pszOwner0 x = false) ->
            forall x, P x -> ~ matching_rule key bShared pid pszOwner0 x).
  { intros P H x Hx. apply entry_matches_not_rule. now apply H. }
  assert (Hbusy : forall l : list GDALProxyPoolCacheEntry,
            (forall x, In x l -> evictable false x = false) ->
            forall x, In x l -> refCount x <> 0).
  { intros l H x Hx Hz. specialize (H x Hx). apply evictable_false in H.
    apply H. split; [exact Hz|discriminate]. }
  inversion Hpath as [Hd|l1 e l2 He Hm Hl1|Hf Hnone|l1 c l2 Hf Hnone Hfull He Hc Hl2
                      |Hf Hnone Hfull Hidle|Hf Hnone Hfree]; subst.
  - split; [|reflexivity]. split; auto.
  - split; [|discriminate]. split; [discriminate|].
    assert (Hin : In e (entries p)) by (rewrite He; apply in_elt).
    apply entry_matches_rule in Hm.
    intros [Hd|[Hno _]].
    + exfalso. unfold _RefDataset_prepare in Hrun. rewrite Hd in Hrun. discriminate.
    + exfalso. exact (Hno e Hin Hm).
  - split; [|reflexivity]. split; [|reflexivity]. intros _. right.
    split; [|now left]. intros x Hx. apply entry_matches_not_rule. auto.
  - split; [|discriminate]. split; [discriminate|].
    assert (Hin : In c (entries p)) by (rewrite He; apply in_elt).
    intros [Hd|[_ [Hf|[_ Hb]]]].
    + exfalso. unfold _RefDataset_prepare in Hrun. rewrite Hd in Hrun. discriminate.
    + discriminate.
    + exfalso. apply evictable_true in Hc. destruct Hc as [Hz _].
      exact (Hb c Hin Hz).
  - split; [|reflexivity]. split; [|reflexivity]. intros _. right.
    split; [intros x Hx; apply entry_matches_not_rule; auto|].
    right. split; [exact Hfull|]. now apply Hbusy.
  - split; [|discriminate]. split; [discriminate|].
    intros [Hd|[_ [Hf|[Hfull _]]]].
    + exfalso. unfold _RefDataset_prepare in Hrun. rewrite Hd in Hrun. discriminate.
    + discriminate.
    + contradiction.
Qed.

(** ** The examples are well formed *)

Lemma pool_busy_ok : pool_ok Ex.pool_busy.
Proof.
  constructor.
  - cbn. repeat constructor; cbn; intuition congruence.
  - reflexivity.
  - intros e [<-|[<-|[]]]; cbn; lia.
  - intros e [<-|[<-|[]]]; cbn; discriminate.
Defined.

Lemma chain_BA_repr : Links.repr Ex2.chain_BA (addresses (entries Ex.pool_BA)).
Proof.
  split; [cbn; repeat constructor; cbn; intuition congruence|].
  split; [reflexivity|]. split; [reflexivity|].
  cbn. auto.
Defined.

(** ** The proxies of the overviews and of the mask *)

Lemma array_set_length (A : Type) (x : A) : forall a n,
  List.length (array_set n x a) = List.length a.
Proof.
  induction a as [|y a IH]; intros [|n]; cbn; auto.
Qed.

Lemma array_set_same (A : Type) (x : A) : forall a n,
  (n < List.length a)%nat -> nth_error (array_set n x a) n = Some x.
Proof.
  induction a as [|y a IH]; intros [|n] H; cbn in *; try lia; auto.
  apply IH. lia.
Qed.

Lemma array_set_other (A : Type) (x : A) : forall a n i,
  i <> n -> nth_error (array_set n x a) i = nth_error a i.
Proof.
  induction a as [|y a IH]; intros [|n] [|i] H; cbn; auto; try contradiction.
Qed.

Section ProxyCaches.

Variable B : Backend.
Variable MD : CPLHashSetOps GetMetadataElt.
Variable MDI : CPLHashSetOps GetMetadataItemElt.
Variable U : Underlying.

Lemma GetOverview_cached nOverviewBand0 c b (d : GDALProxyPoolDataset MD MDI) w o :
  0 <= nOverviewBand0 ->
  nth_error (papoProxyOverviewRasterBand c) (Z.to_nat nOverviewBand0) = Some (Some o) ->
  GetOverview B U nOverviewBand0 c b d w = Some (Some o, c, b, d, w).
Proof.
  intros Hpos Hnth. unfold GetOverview.
  assert (Hlt : (Z.to_nat nOverviewBand0 < List.length (papoProxyOverviewRasterBand c))%nat).
  { apply nth_error_Some. congruence. }
  replace (0 <=? nOverviewBand0) with true by (symmetry; apply Z.leb_le; lia).
  replace (nOverviewBand0 <? Z.of_nat (List.length (papoProxyOverviewRasterBand c)))
    with true by (symmetry; apply Z.ltb_lt; lia).
  cbn [andb]. now rewrite Hnth.
Qed.

Lemma GetOverview_effect nOverviewBand0 c b (d : GDALProxyPoolDataset MD MDI) w p :
  singleton w = Some p -> pool_ok p ->
  0 <= nOverviewBand0 ->
  exists r c' b' d' p' t',
    GetOverview B U nOverviewBand0 c b d w
    = Some (r, c', b', d', mkWorld (Some p') t')
    /\ pool_ok p'
    /\ (forall x, refCount_at x p' = refCount_at x p)
    /\ match r with
       | None => c' = c
       | Some o =>
           nth_error (papoProxyOverviewRasterBand c') (Z.to_nat nOverviewBand0)
           = Some (Some o)
           /\ poProxyMaskBand c' = poProxyMaskBand c
           /\ List.length (papoProxyOverviewRasterBand c')
              = Nat.max (List.length (papoProxyOverviewRasterBand c))
                        (S (Z.to_nat nOverviewBand0))
           /\ (forall i x, i <> Z.to_nat nOverviewBand0 ->
                 nth_error (papoProxyOverviewRasterBand c) i = Some x ->
                 nth_error (papoProxyOverviewRasterBand c') i = Some x)
       end.
Proof.
  intros Hw Hok Hpos.
  destruct w as [s t]. cbn [singleton] in Hw. subst s.
  unfold GetOverview.
  set (size := Z.of_nat (List.length (papoProxyOverviewRasterBand c))).
  set (cached := if (0 <=? nOverviewBand0) && (nOverviewBand0 <? size)
                 then match nth_error (papoProxyOverviewRasterBand c)
                              (Z.to_nat nOverviewBand0) with
                      | Some (Some o) => Some o
                      | _ => None
                      end
                 else None).
  destruct cached as [o|] eqn:Hcached.
  - assert (Hnth : nth_error (papoProxyOverviewRasterBand c) (Z.to_nat nOverviewBand0)
                   = Some (Some o)).
    { unfold cached in Hcached.
      destruct ((0 <=? nOverviewBand0) && (nOverviewBand0 <? size)); [|discriminate].
      destruct (nth_error _ _) as [[o'|]|]; congruence. }
    exists (Some o), c, b, d, p, t. split; [reflexivity|]. split; [exact Hok|].
    split; [reflexivity|]. split; [exact Hnth|]. split; [reflexivity|].
    split; [|auto].
    assert ((Z.to_nat nOverviewBand0 < List.length (papoProxyOverviewRasterBand c))%nat).
    { apply nth_error_Some. congruence. }
    lia.
  - destruct (RefUnderlyingRasterBand_effect B MD MDI U true b d (mkWorld (Some p) t) p
                eq_refl Hok)
      as (r & b' & d' & p' & t' & Hrun & Hok' & _ & Hr).
    rewrite Hrun. destruct r as [poBand|].
    + destruct Hr as (ds & a & e & rest & _ & _ & _ & _ & _ & _ & _ & Hun & Hok2 & Hbal).
      rewrite !Hun.
      destruct (band_GetOverview U poBand nOverviewBand0) as [poOvr|].
      * replace (nOverviewBand0 <? 0) with false by (symmetry; apply Z.ltb_ge; lia).
        eexists _, _, _, _, _, _. split; [reflexivity|]. split; [exact Hok2|].
        split; [exact Hbal|].
        cbn [papoProxyOverviewRasterBand poProxyMaskBand].
        set (arr := if size <=? nOverviewBand0
                    then papoProxyOverviewRasterBand c
                         ++ repeat None (Z.to_nat (nOverviewBand0 + 1 - size))
                    else papoProxyOverviewRasterBand c).
        assert (Hlen : List.length arr
                       = Nat.max (List.length (papoProxyOverviewRasterBand c))
                                 (S (Z.to_nat nOverviewBand0))).
        { unfold arr. destruct (Z.leb_spec size nOverviewBand0).
          - rewrite length_app, repeat_length. unfold size in *. lia.
          - unfold size in *. lia. }
        split; [apply array_set_same; lia|]. split; [reflexivity|].
        split; [now rewrite array_set_length|].
        intros i x Hne Hx. rewrite array_set_other by exact Hne.
        unfold arr. destruct (size <=? nOverviewBand0); [|exact Hx].
        rewrite nth_error_app1; [exact Hx|]. apply nth_error_Some. congruence.
      * eexists _, _, _, _, _, _. split; [reflexivity|]. split; [exact Hok2|].
        split; [exact Hbal|reflexivity].
    + destruct Hr as [_ Hrc].
      eexists _, _, _, _, _, _. split; [reflexivity|]. split; [exact Hok'|].
      split; [exact Hrc|reflexivity].
Qed.

Lemma GetMaskBand_effect c b (d : GDALProxyPoolDataset MD MDI) w p :
  singleton w = Some p -> pool_ok p ->
  poProxyMaskBand c = None ->
  (forall poBand, band_GetMaskBand U poBand <> None) ->
  (exists r c' b' d' p' t',
     GetMaskBand B U c b d w = Some (r, c', b', d', mkWorld (Some p') t')
     /\ pool_ok p'
     /\ (forall x, refCount_at x p' = refCount_at x p)
     /\ match r with
        | None => c' = c
        | Some m =>
            poProxyMaskBand c' = Some m
            /\ papoProxyOverviewRasterBand c' = papoProxyOverviewRasterBand c
            /\ exists poBand poMaskBand,
                 band_GetMaskBand U poBand = Some poMaskBand
                 /\ mask_base m = band_of_underlying poMaskBand
        end)
  /\ (exists c' b' d' p' t',
        AddSrcMaskBandDescriptionFromUnderlying B U c b d w
        = Some (c', b', d', mkWorld (Some p') t')
        /\ pool_ok p'
        /\ (forall x, refCount_at x p' = refCount_at x p)
        /\ papoProxyOverviewRasterBand c' = papoProxyOverviewRasterBand c
        /\ (c' = c
            \/ exists poBand poSrcMaskBand,
                 band_GetMaskBand U poBand = Some poSrcMaskBand
                 /\ poProxyMaskBand c'
                    = Some (mkMaskBandObject
                              (mkProxyBand 1 (fst (GetBlockSize poSrcMaskBand))
                                           (snd (GetBlockSize poSrcMaskBand)))
                              (mkMaskBand None 0)))).
Proof.
  intros Hw Hok Hnone Hmask.
  destruct w as [s t]. cbn [singleton] in Hw. subst s.
  destruct (RefUnderlyingRasterBand_effect B MD MDI U true b d (mkWorld (Some p) t) p
              eq_refl Hok)
    as (r & b' & d' & p' & t' & Hrun & Hok' & _ & Hr).
  split.
  - unfold GetMaskBand. rewrite Hnone, Hrun. destruct r as [poBand|].
    + destruct Hr as (ds & a & e & rest & _ & _ & _ & _ & _ & _ & _ & Hun & Hok2 & Hbal).
      destruct (band_GetMaskBand U poBand) as [poMaskBand|] eqn:Hm;
        [|now contradiction (Hmask poBand)].
      rewrite Hun.
      eexists _, _, _, _, _, _. split; [reflexivity|]. split; [exact Hok2|].
      split; [exact Hbal|]. split; [reflexivity|]. split; [reflexivity|].
      exists poBand, poMaskBand. split; [exact Hm|reflexivity].
    + destruct Hr as [_ Hrc].
      eexists _, _, _, _, _, _. split; [reflexivity|]. split; [exact Hok'|].
      split; [exact Hrc|reflexivity].
  - unfold AddSrcMaskBandDescriptionFromUnderlying. rewrite Hnone, Hrun.
    destruct r as [poBand|].
    + destruct Hr as (ds & a & e & rest & _ & _ & _ & _ & _ & _ & _ & Hun & Hok2 & Hbal).
      destruct (band_GetMaskBand U poBand) as [poMaskBand|] eqn:Hm;
        [|now contradiction (Hmask poBand)].
      rewrite Hun.
      eexists _, _, _, _, _. split; [reflexivity|]. split; [exact Hok2|].
      split; [exact Hbal|]. split; [reflexivity|]. right.
      exists poBand, poMaskBand. split; [exact Hm|reflexivity].
    + destruct Hr as [_ Hrc].
      eexists _, _, _, _, _. split; [reflexivity|]. split; [exact Hok'|].
      split; [exact Hrc|]. split; [reflexivity|]. now left.
Qed.

End ProxyCaches.


(** ** The closes of the eviction for RAM *)

Lemma close_events_app d l1 l2 :
  close_events d (l1 ++ l2) = close_events d l1 ++ close_events d l2.
Proof. unfold close_events. apply flat_map_app. Qed.

Lemma close_as_opener_counter pid0 opener ds t :
  refCountOfDisabledRefCount (close_as_opener pid0 opener ds t)
  = refCountOfDisabledRefCount t.
Proof. cbn. lia. Qed.

(** What the rule leaves: the entries closed, in the order of their closes,
    each one an idle entry with RAM and a dataset, other than [cur], now
    emptied where it was; the other entries as they were; one close in the
    log for each; the RAM of the pool less theirs; and the reason of the
    end. *)
Lemma ram_pressure_closed responsiblePID0 cur st st' :
  ram_pressure responsiblePID0 cur st st' ->
  NoDup (addresses (entries (fst st))) ->
  exists closed,
    log (snd st')
    = close_events (refCountOfDisabledRefCount (snd st) + 1) (rev closed)
      ++ log (snd st)
    /\ refCountOfDisabledRefCount (snd st') = refCountOfDisabledRefCount (snd st)
    /\ (forall c, In c closed ->
          In c (entries (fst st)) /\ self c <> cur /\ ram_candidate c
          /\ poDS c <> None)
    /\ (forall a e, entry_at a (entries (fst st)) = Some e ->
          (In e closed -> entry_at a (entries (fst st')) = Some (emptied e))
          /\ (~ In e closed -> entry_at a (entries (fst st')) = Some e))
    /\ pool_nRAMUsage (fst st') = pool_nRAMUsage (fst st) - ram_sum closed
    /\ nMaxRAMUsage (fst st') = nMaxRAMUsage (fst st)
    /\ (pool_nRAMUsage (fst st') <= nMaxRAMUsage (fst st')
        \/ forall e, In e (entries (fst st')) -> self e <> cur -> ~ ram_candidate e).
Proof.
  induction 1 as [p t Hend|p t l1 c l2 ds st Hover He Hcand Hne Hl2 Hds Hrel IH];
    cbn [fst snd] in *; intros Hnd.
  - exists []. cbn [rev close_events flat_map app ram_sum In].
    split; [reflexivity|]. split; [reflexivity|]. split; [intros c []|].
    split; [intros a e Ha; split; [intros []|auto]|].
    split; [lia|]. split; [reflexivity|]. exact Hend.
  - assert (Hnd1 : NoDup (addresses (l1 ++ emptied c :: l2))).
    { rewrite He in Hnd. eapply NoDup_addresses_replace; [|exact Hnd].
      apply self_emptied. }
    destruct (IH Hnd1) as (closed & Hlog & Hcnt & Hin & Hat & Hram & Hmax & Hend).
    rewrite close_as_opener_counter in Hlog, Hcnt.
    rewrite close_as_opener_log in Hlog.
    cbn [set_entries set_pool_nRAMUsage entries pool_nRAMUsage nMaxRAMUsage] in *.
    pose proof Hnd as Hnd0. rewrite He in Hnd0.
    destruct (NoDup_addresses_split _ _ _ Hnd0) as (Hc1 & Hc2 & _).
    assert (Hnc : ~ In (emptied c) closed).
    { intros Hx. destruct (Hin _ Hx) as (_ & _ & [_ Hpos] & _). cbn in Hpos. lia. }
    exists (c :: closed).
    split.
    { rewrite Hlog. cbn [rev]. rewrite close_events_app, <- app_assoc.
      f_equal. unfold close_events, close_event. cbn [flat_map].
      now rewrite Hds. }
    split; [exact Hcnt|].
    split.
    { intros x [<-|Hx].
      - split; [rewrite He; apply in_elt|]. split; [exact Hne|].
        split; [exact Hcand|]. rewrite Hds. discriminate.
      - destruct (Hin x Hx) as (Hx1 & Hx2 & Hx3 & Hx4).
        split; [|auto]. rewrite He.
        apply in_app_iff in Hx1. apply in_app_iff.
        destruct Hx1 as [Hx1|[Hx1|Hx1]]; [now left| |right; now right].
        exfalso. apply Hnc. now rewrite Hx1. }
    split.
    { intros a e Ha. rewrite He in Ha.
      destruct (Nat.eq_dec (self c) a) as [<-|Hna].
      - rewrite entry_at_split in Ha by exact Hc1. injection Ha as <-.
        assert (H1 : entry_at (self c) (l1 ++ emptied c :: l2) = Some (emptied c)).
        { rewrite <- (self_emptied c). apply entry_at_split.
          now rewrite self_emptied. }
        destruct (Hat _ _ H1) as [_ Hkeep].
        split; [intros _; now apply Hkeep|].
        intros Hx. exfalso. apply Hx. now left.
      - assert (H1 : entry_at a (l1 ++ emptied c :: l2) = Some e).
        { rewrite <- Ha. apply entry_at_replace_other; [apply self_emptied|exact Hna]. }
        destruct (Hat _ _ H1) as [Hyes Hno].
        assert (Hse : self e = a).
        { apply entry_at_In in H1. tauto. }
        split.
        + intros [Hx|Hx]; [|now apply Hyes]. exfalso. apply Hna. now rewrite Hx.
        + intros Hx. apply Hno. intros Hy. apply Hx. now right. }
    split; [cbn [ram_sum]; lia|]. split; [exact Hmax|]. exact Hend.
Qed.


(** ** The record of an open in progress, during the open *)

Lemma still_opening_refl c : refCount c < 0 -> still_opening c c.
Proof. intros H. repeat split; auto. Qed.

Lemma still_opening_trans c1 c2 c3 :
  still_opening c1 c2 -> still_opening c2 c3 -> still_opening c1 c3.
Proof.
  intros (A1 & A2 & A3 & A4 & A5 & A6 & A7) (B1 & B2 & B3 & B4 & B5 & B6 & B7).
  repeat split; congruence.
Qed.

Lemma entry_at_self a l e : entry_at a l = Some e -> self e = a.
Proof. intros H. now apply entry_at_In in H. Qed.

(** A record with a refcount other than [0] is left alone by every step but
    a release of it and the second half of its own request. *)
Lemma pool_step_other m m' a e :
  machine_ok m -> pool_step m m' ->
  entry_at a (entries (pool m)) = Some e -> refCount e < 0 ->
  In a (opening m') ->
  entry_at a (entries (pool m')) = Some e
  \/ entry_at a (entries (pool m')) = Some (decr_refCount e).
Proof.
  intros [Hok Hfl] Hstep Ha Hneg Hin.
  destruct Hstep as [f oo sh fo o p t r p' t' ops Hrun
                    |f oo sh fo o p t cur p' t' ops Hrun
                    |pid cur res p t p' t' ops Hcur Hrun
                    |b p ops
                    |f oo o p t p' t' ops Hrun];
    cbn [pool opening] in *.
  - destruct (prepare_effect _ _ _ _ _ _ _ _ _ _ Hok Hrun)
      as (_ & _ & Hbusy & Hhead & _).
    left. rewrite (Hbusy a e Ha) by lia.
    destruct r as [b|]; [|reflexivity]. cbn [returned].
    destruct (Nat.eqb_spec a b) as [->|Hne]; [|reflexivity].
    exfalso. destruct (Hhead b eq_refl) as (e1 & rest & He1 & Hs1 & Hge).
    pose proof (Hbusy b e Ha ltac:(lia)) as E. cbn [returned] in E.
    rewrite Nat.eqb_refl, He1, <- Hs1, head_entry_at in E.
    injection E as ->. cbn in Hge. lia.
  - destruct (prepare_effect _ _ _ _ _ _ _ _ _ _ Hok Hrun) as (_ & _ & Hbusy & _).
    left. apply (Hbusy a e Ha). lia.
  - assert (Hne : a <> cur).
    { intros ->. now apply remove_In in Hin. }
    destruct (Hfl cur Hcur) as (c2 & Hc2 & _ & Hz).
    destruct (complete_total pid cur res p t c2 Hok Hc2 Hz)
      as (p2 & t2 & Hrun2 & _ & _ & _ & Hkeep).
    rewrite Hrun in Hrun2. injection Hrun2 as <- <-.
    left. apply Hkeep; auto. lia.
  - destruct (entry_at b (entries p)) as [e2|] eqn:Hb.
    + destruct (entry_at_Some _ _ _ Hb) as (l1 & l2 & He & Hs & _).
      rewrite (UnrefDataset_entries b p l1 e2 l2 (ok_addresses _ Hok) He Hs).
      cbn [entries set_entries].
      pose proof (ok_addresses _ Hok) as Hnd. rewrite He in Hnd.
      rewrite (entry_at_moved a l1 e2 (decr_refCount e2) l2 _ Hnd
                 (self_decr_refCount e2) (or_intror eq_refl)).
      rewrite He in Ha.
      destruct (Nat.eqb_spec a (self e2)) as [->|Hne]; [|now left].
      right. f_equal. f_equal.
      destruct (NoDup_addresses_split _ _ _ Hnd) as (H1 & _).
      rewrite entry_at_split in Ha by exact H1. now injection Ha.
    + rewrite UnrefDataset_dangling by exact Hb. now left.
  - destruct (close_paths f oo o p t (ok_addresses _ Hok))
      as [E|(l1 & c & l2 & ds & _ & He & Hm & _ & _ & E)];
      rewrite E in Hrun; injection Hrun as <- <-; [now left|].
    left. cbn [entries set_entries]. rewrite He in Ha. rewrite <- Ha.
    apply entry_at_replace_other; [apply self_emptied|].
    intros Hs. subst a.
    pose proof (ok_addresses _ Hok) as Hnd. rewrite He in Hnd.
    destruct (NoDup_addresses_split _ _ _ Hnd) as (H1 & _).
    rewrite entry_at_split in Ha by exact H1. injection Ha as <-.
    apply close_matches_idle in Hm. lia.
Qed.

Lemma during_open_kept cur m m' c :
  during_open cur m m' ->
  machine_ok m ->
  entry_at cur (entries (pool m)) = Some c -> refCount c < 0 ->
  machine_ok m'
  /\ exists c', entry_at cur (entries (pool m')) = Some c' /\ still_opening c c'.
Proof.
  induction 1 as [m|m m1 m2 _ IH Hstep Hin]; intros Hok Hc Hneg.
  - split; [exact Hok|]. exists c. split; [exact Hc|now apply still_opening_refl].
  - destruct (IH Hok Hc Hneg) as (Hok1 & c1 & Hc1 & Hs1).
    split; [now apply (machine_ok_step m1)|].
    pose proof Hs1 as (_ & _ & _ & _ & _ & _ & Hn1).
    destruct (pool_step_other m1 m2 cur c1 Hok1 Hstep Hc1 Hn1 Hin) as [E|E].
    + exists c1. split; assumption.
    + exists (decr_refCount c1). split; [exact E|].
      apply (still_opening_trans c c1); [exact Hs1|].
      repeat split; cbn; lia.
Qed.

(** The second half of a request whose open failed, and the release that
    [RefUnderlyingDataset] makes after it. *)
Lemma complete_failed responsiblePID0 cur p t c :
  entry_at cur (entries p) = Some c -> nRAMUsage c = 0 ->
  _RefDataset_complete responsiblePID0 cur None p t
  = Some (stored cur None c p, decr_disabled t).
Proof.
  intros Hc Hz. rewrite (complete_unfold _ _ _ _ _ _ Hc).
  replace (0 <? nRAMUsage (opened None c)) with false.
  - now rewrite andb_false_r.
  - symmetry. apply Z.ltb_ge. cbn. lia.
Qed.

Lemma failed_slot_entries cur p c :
  NoDup (addresses (entries p)) ->
  entry_at cur (entries p) = Some c ->
  exists l1 l2,
    entries p = l1 ++ c :: l2
    /\ UnrefDataset cur (stored cur None c p)
       = set_entries (l1 ++ decr_refCount (opened None c) :: l2) p.
Proof.
  intros Hnd Hc.
  destruct (entry_at_Some _ _ _ Hc) as (l1 & l2 & He & Hs & _).
  exists l1, l2. split; [exact He|].
  pose proof (stored_entries cur None c p l1 l2 Hnd He Hs) as Hst.
  rewrite (UnrefDataset_entries cur (stored cur None c p) l1 (opened None c) l2).
  - reflexivity.
  - rewrite Hst. rewrite He in Hnd.
    eapply NoDup_addresses_replace; [|exact Hnd]. reflexivity.
  - exact Hst.
  - exact Hs.
Qed.

Lemma failed_slot_at cur p c :
  pool_ok p ->
  entry_at cur (entries p) = Some c -> nRAMUsage c = 0 ->
  let p3 := UnrefDataset cur (stored cur None c p) in
  entry_at cur (entries p3) = Some (decr_refCount (opened None c))
  /\ addresses (entries p3) = addresses (entries p)
  /\ (forall a, a <> cur -> entry_at a (entries p3) = entry_at a (entries p))
  /\ pool_ok p3.
Proof.
  intros Hok Hc Hz p3.
  destruct (failed_slot_entries cur p c (ok_addresses _ Hok) Hc)
    as (l1 & l2 & He & Hp3).
  fold p3 in Hp3. rewrite Hp3. cbn [entries set_entries].
  pose proof (ok_addresses _ Hok) as Hnd. rewrite He in Hnd.
  destruct (NoDup_addresses_split _ _ _ Hnd) as (H1 & _).
  pose proof (entry_at_self _ _ _ Hc) as Hs.
  split.
  { rewrite <- Hs. change (self c) with (self (decr_refCount (opened None c))).
    now apply entry_at_split. }
  split.
  { rewrite He, !addresses_app. reflexivity. }
  split.
  { intros a Hne. rewrite He.
    apply entry_at_replace_other; [reflexivity|congruence]. }
  rewrite <- (set_pool_nRAMUsage_same p) at 1.
  eapply pool_ok_replace with (e := c) (e' := decr_refCount (opened None c)); eauto.
  - cbn. lia.
  - cbn. lia.
Qed.


(** The open of [cur] fails after other requests have run during it: the
    slot is where they left it, with the key it was given. *)
Lemma failed_open_during cur m m' c responsiblePID0 t :
  machine_ok m ->
  entry_at cur (entries (pool m)) = Some c ->
  refCount c < 0 -> nRAMUsage c = 0 ->
  during_open cur m m' ->
  exists c',
    entry_at cur (entries (pool m')) = Some c'
    /\ still_opening c c'
    /\ _RefDataset_complete responsiblePID0 cur None (pool m') t
       = Some (stored cur None c' (pool m'), decr_disabled t)
    /\ entry_at cur (entries (UnrefDataset cur (stored cur None c' (pool m'))))
       = Some (decr_refCount (opened None c'))
    /\ addresses (entries (UnrefDataset cur (stored cur None c' (pool m'))))
       = addresses (entries (pool m'))
    /\ (forall a, a <> cur ->
          entry_at a (entries (UnrefDataset cur (stored cur None c' (pool m'))))
          = entry_at a (entries (pool m')))
    /\ pool_ok (UnrefDataset cur (stored cur None c' (pool m'))).
Proof.
  intros Hok Hc Hneg Hz Hd.
  destruct (during_open_kept cur m m' c Hd Hok Hc Hneg) as ([Hok' _] & c' & Hc' & Hs).
  pose proof Hs as (_ & _ & _ & _ & _ & Hram & _).
  assert (Hz' : nRAMUsage c' = 0) by lia.
  exists c'. split; [exact Hc'|]. split; [exact Hs|].
  split; [now apply complete_failed|].
  now apply failed_slot_at.
Qed.

Lemma prepared_machine_ok pszFileName papszOpenOptions bShared bForceOpen pszOwner0
  p t cur p1 t1 ops :
  pool_ok p -> (forall a, In a ops -> in_flight p a) ->
  _RefDataset_prepare pszFileName papszOpenOptions bShared bForceOpen pszOwner0 p t
    = (Opening cur, p1, t1) ->
  machine_ok (mkMachine p1 (cur :: ops)).
Proof.
  intros Hok Hfl Hrun.
  apply (machine_ok_step (mkMachine p ops)).
  - split; assumption.
  - eapply step_acquire_open; eassumption.
Qed.

(** [_RefDataset] is the run of [pool_step] in which the second half
    follows the first with no critical section of another request between
    them. *)
Lemma RefDataset_uninterleaved B pszFileName eAccess papszOpenOptions bShared
  bForceOpen pszOwner0 p t cur p1 t1 r p' t' ops :
  _RefDataset_prepare pszFileName papszOpenOptions bShared bForceOpen pszOwner0 p t
    = (Opening cur, p1, t1) ->
  _RefDataset B pszFileName eAccess papszOpenOptions bShared bForceOpen
              pszOwner0 p t = Some (r, p', t') ->
  r = Some cur
  /\ pool_step (mkMachine p ops) (mkMachine p1 (cur :: ops))
  /\ during_open cur (mkMachine p1 (cur :: ops)) (mkMachine p1 (cur :: ops))
  /\ pool_step (mkMachine p1 (cur :: ops))
               (mkMachine p' (remove Nat.eq_dec cur (cur :: ops))).
Proof.
  intros Hprep Hrun. unfold _RefDataset in Hrun. rewrite Hprep in Hrun.
  destruct (do_Open B pszFileName eAccess papszOpenOptions t1) as [res t2].
  destruct (_RefDataset_complete (GDALGetResponsiblePIDForCurrentThread t) cur res
              p1 t2) as [[p2 t3]|] eqn:Hc; [|discriminate].
  injection Hrun as <- <- <-.
  split; [reflexivity|]. split.
  - eapply step_acquire_open. exact Hprep.
  - split; [apply during_open_none|].
    eapply step_acquire_opened; [now left|exact Hc].
Qed.


(** ** An exclusive request and the idle entries with its key *)





Section ProxyExclusive.

Variable B : Backend.
Variable MD : CPLHashSetOps GetMetadataElt.
Variable MDI : CPLHashSetOps GetMetadataItemElt.


End ProxyExclusive.



(** ** What RefUnderlyingDataset leaves when it returns a dataset *)

Section ProxyHeld.

Variable B : Backend.
Variable MD : CPLHashSetOps GetMetadataElt.
Variable MDI : CPLHashSetOps GetMetadataItemElt.

Lemma RefUnderlying_held bForceOpen (d : GDALProxyPoolDataset MD MDI) w ds d1 w1 :
  RefUnderlyingDataset B bForceOpen d w = Some (Some ds, d1, w1) ->
  exists a s e,
    d1 = set_cacheEntry (Some a) d
    /\ singleton w1 = Some s
    /\ entry_at a (entries s) = Some e
    /\ poDS e = Some ds.
Proof.
  unfold RefUnderlyingDataset, RefDataset. cbn [singleton set_thread thread].
  destruct (singleton w) as [s0|]; [|discriminate].
  destruct (_RefDataset _ _ _ _ _ _ _ _ _) as [[[r s] t]|]; [|discriminate].
  cbn [singleton set_thread thread].
  destruct r as [a|]; [|discriminate].
  unfold cacheEntry_poDS, UnrefDataset_static. cbn [singleton set_thread thread].
  destruct (entry_at a (entries s)) as [e|] eqn:He; cbn [option_map].
  2:{ discriminate. }
  destruct (poDS e) as [ds'|] eqn:Hds.
  2:{ intros E. discriminate E. }
  intros E. injection E as <- <- <-.
  exists a, s, e. cbn [singleton]. auto.
Qed.

(** The release of a dataset that the entry of the proxy holds. *)
Lemma UnrefUnderlying_held (d : GDALProxyPoolDataset MD MDI) ds' s t a e ds :
  cacheEntry d = Some a ->
  entry_at a (entries s) = Some e -> poDS e = Some ds ->
  UnrefUnderlyingDataset ds' d (mkWorld (Some s) t)
  = Some (mkWorld (Some (UnrefDataset a s))
                  (CPLAssert (GDALDataset_eqb ds ds') t)).
Proof.
  intros Hc He Hds. unfold UnrefUnderlyingDataset, cacheEntry_poDS, UnrefDataset_static.
  rewrite Hc. cbn [singleton set_thread thread]. rewrite He. cbn [option_map].
  rewrite Hds. reflexivity.
Qed.

End ProxyHeld.


(** ** The RAM of the pool within int64_t *)

Lemma int64_small z : INT64_MIN <= z <= INT64_MAX -> int64 z = z.
Proof.
  unfold int64, INT64_MIN, INT64_MAX. intros H.
  rewrite Z.mod_small; lia.
Qed.

Lemma ram_sum_In l e :
  (forall x, In x l -> 0 <= nRAMUsage x) -> In e l -> nRAMUsage e <= ram_sum l.
Proof.
  induction l as [|x l IH]; intros Hnn Hin; [destruct Hin|].
  destruct Hin as [<-|Hin]; cbn [ram_sum].
  - pose proof (ram_sum_nonneg l (fun y Hy => Hnn y (or_intror Hy))). lia.
  - pose proof (Hnn x (or_introl eq_refl)).
    specialize (IH (fun y Hy => Hnn y (or_intror Hy)) Hin). lia.
Qed.

Lemma pool_ok_range p :
  pool_ok p ->
  0 <= pool_nRAMUsage p
  /\ forall e, In e (entries p) -> 0 <= nRAMUsage e <= pool_nRAMUsage p.
Proof.
  intros Hok. rewrite <- (ok_ram_sum _ Hok). split.
  - apply ram_sum_nonneg, (ok_ram_nonneg _ Hok).
  - intros e He. split; [now apply (ok_ram_nonneg _ Hok)|].
    apply ram_sum_In; [apply (ok_ram_nonneg _ Hok)|exact He].
Qed.

(** The first half of a request adds nothing to the RAM of the pool. *)
Lemma prepare_RAM_le pszFileName papszOpenOptions bShared bForceOpen pszOwner0
  p t pr p1 t1 :
  pool_ok p ->
  _RefDataset_prepare pszFileName papszOpenOptions bShared bForceOpen pszOwner0 p t
    = (pr, p1, t1) ->
  pool_nRAMUsage p1 <= pool_nRAMUsage p.
Proof.
  intros Hok Hrun.
  pose proof (prepare_paths pszFileName papszOpenOptions bShared bForceOpen
                pszOwner0 p t (ok_addresses _ Hok)) as Hpath.
  rewrite Hrun in Hpath.
  inversion Hpath; subst; cbn [pool_nRAMUsage set_entries set_pool_nRAMUsage
                                set_currentSize]; try lia.
  assert (Hin : In c (entries p)).
  { match goal with H : entries p = _ |- _ => rewrite H end. apply in_elt. }
  pose proof (ok_ram_nonneg _ Hok c Hin). lia.
Qed.

Lemma close_RAM_le pszFileName papszOpenOptions pszOwner0 p t p' t' :
  pool_ok p ->
  _CloseDatasetIfZeroRefCount pszFileName papszOpenOptions pszOwner0 p t = (p', t') ->
  pool_nRAMUsage p' <= pool_nRAMUsage p.
Proof.
  intros Hok Hrun.
  destruct (close_paths pszFileName papszOpenOptions pszOwner0 p t
              (ok_addresses _ Hok))
    as [E|(l1 & c & l2 & ds & _ & He & _ & _ & _ & E)];
    rewrite E in Hrun; injection Hrun as <- <-; [lia|].
  cbn [pool_nRAMUsage set_entries set_pool_nRAMUsage].
  assert (Hin : In c (entries p)) by (rewrite He; apply in_elt).
  pose proof (ok_ram_nonneg _ Hok c Hin). lia.
Qed.

(** The second half: the estimate is added, and the RAM of the entries that
    the eviction for RAM closes is taken off. *)
Lemma complete_accounting responsiblePID0 cur res p t c0 :
  pool_ok p -> entry_at cur (entries p) = Some c0 -> nRAMUsage c0 = 0 ->
  exists p' t' closed,
    _RefDataset_complete responsiblePID0 cur res p t = Some (p', t')
    /\ pool_ok p'
    /\ entry_at cur (entries p') = Some (opened res c0)
    /\ pool_nRAMUsage p'
       = pool_nRAMUsage p + nRAMUsage (opened res c0) - ram_sum closed
    /\ 0 <= ram_sum closed
    /\ (forall c, In c closed ->
          In c (entries p) /\ self c <> cur /\ refCount c = 0
          /\ entry_at (self c) (entries p') = Some (emptied c))
    /\ (forall a e, a <> cur -> entry_at a (entries p) = Some e -> ~ In e closed ->
          entry_at a (entries p') = Some e).
Proof.
  intros Hok Hc Hz. rewrite (complete_unfold _ _ _ _ _ _ Hc).
  pose proof (stored_pool_ok cur res c0 p Hok Hc Hz) as Hok1.
  pose proof (stored_cur cur res c0 p Hok Hc) as Hc1.
  assert (Hacc : pool_nRAMUsage (stored cur res c0 p)
                 = pool_nRAMUsage p + nRAMUsage (opened res c0)).
  { unfold stored. destruct res; cbn; lia. }
  destruct ((0 <? nMaxRAMUsage p) && (0 <? nRAMUsage (opened res c0))).
  - destruct (evict_for_RAM_pressure
                (S (List.length (entries (stored cur res c0 p))))
                responsiblePID0 cur (stored cur res c0 p) (decr_disabled t)
                (opened res c0) Hok1 Hc1)
      as (p' & t' & Hrun & Hrel).
    + cbn. lia.
    + pose proof (n_evictable_le (entries (stored cur res c0 p))). lia.
    + destruct (ram_pressure_closed _ _ _ _ Hrel (ok_addresses _ Hok1))
        as (closed & _ & _ & Hin & Hat & Hram & _).
      cbn [fst snd] in *.
      exists p', t', closed. split; [exact Hrun|].
      split; [exact (ram_pressure_pool_ok _ _ _ _ Hrel Hok1)|].
      split.
      { apply (ram_pressure_busy _ _ _ _ Hrel Hok1); [exact Hc1|cbn; lia]. }
      split; [lia|].
      split.
      { apply ram_sum_nonneg. intros e He.
        destruct (Hin e He) as (_ & _ & [_ Hpos] & _). lia. }
      split.
      { intros c Hx. destruct (Hin c Hx) as (H1 & H2 & [H3 _] & _).
        pose proof (In_entry_at _ _ (ok_addresses _ Hok1) H1) as E.
        split.
        { rewrite stored_other in E by auto. now apply entry_at_In in E. }
        split; [exact H2|]. split; [exact H3|].
        now apply (Hat _ _ E). }
      intros a e Hne Ha Hx. apply (Hat a e); [|exact Hx].
      now rewrite stored_other.
  - exists (stored cur res c0 p), (decr_disabled t), [].
    split; [reflexivity|]. split; [exact Hok1|]. split; [exact Hc1|].
    split; [cbn [ram_sum]; lia|]. split; [cbn; lia|].
    split; [intros c []|].
    intros a e Hne Ha _. now rewrite stored_other.
Qed.

(** A step in which the addition fits leaves the RAM of the pool within
    [INT64_MAX]. *)
Lemma pool_step_fits m m' :
  machine_ok m -> pool_step m m' -> add_fits m m' ->
  pool_nRAMUsage (pool m) <= INT64_MAX ->
  pool_nRAMUsage (pool m') <= INT64_MAX.
Proof.
  intros [Hok Hfl] Hstep Hfit Hle.
  destruct Hstep as [f oo sh fo o p t r p' t' ops Hrun
                    |f oo sh fo o p t cur p' t' ops Hrun
                    |pid cur res p t p' t' ops Hcur Hrun
                    |b p ops
                    |f oo o p t p' t' ops Hrun];
    cbn [pool opening] in *.
  - pose proof (prepare_RAM_le _ _ _ _ _ _ _ _ _ _ Hok Hrun). lia.
  - pose proof (prepare_RAM_le _ _ _ _ _ _ _ _ _ _ Hok Hrun). lia.
  - destruct (Hfl cur Hcur) as (c0 & Hc0 & _ & Hz).
    destruct (complete_accounting pid cur res p t c0 Hok Hc0 Hz)
      as (p2 & t2 & closed & Hrun2 & _ & Hat & Hacc & Hnn & _).
    rewrite Hrun in Hrun2. injection Hrun2 as <- <-.
    pose proof (Hfit cur _ Hcur Hat). cbn [pool] in *. lia.
  - unfold UnrefDataset. cbn [pool_nRAMUsage set_entries]. lia.
  - pose proof (close_RAM_le _ _ _ _ _ _ _ Hok Hrun). lia.
Qed.

Lemma reachable_int64_reachable m : reachable_int64 m -> reachable m.
Proof.
  induction 1 as [a b|m m' _ IH Hstep _]; [apply reachable_new|].
  now apply reachable_step with m.
Qed.

Lemma reachable_int64_ok m :
  reachable_int64 m ->
  machine_ok m /\ pool_nRAMUsage (pool m) <= INT64_MAX.
Proof.
  induction 1 as [a b|m m' _ [Hok Hle] Hstep Hfit].
  - split; [split; [apply new_pool_ok|intros x []]|]. cbn. unfold INT64_MAX. lia.
  - split; [now apply (machine_ok_step m)|].
    now apply (pool_step_fits m).
Qed.


(** * The properties of the specification *)

Lemma RefDataset_return B pszFileName eAccess papszOpenOptions bShared bForceOpen
  pszOwner0 p t r p' t' :
  _RefDataset_prepare pszFileName papszOpenOptions bShared bForceOpen pszOwner0 p t
    = (Return r, p', t') ->
  _RefDataset B pszFileName eAccess papszOpenOptions bShared bForceOpen pszOwner0 p t
    = Some (r, p', t').
Proof. intros H. unfold _RefDataset. now rewrite H. Qed.

(** The pools of the examples are well formed. *)
Lemma pool_S4_ok : pool_ok Ex.pool_S4.
Proof.
  constructor; cbn.
  - repeat constructor; cbn; intuition discriminate.
  - reflexivity.
  - intros e [<-|[<-|[]]]; cbn; lia.
  - intros e [<-|[<-|[]]]; cbn; [reflexivity|discriminate].
Defined.

Lemma pool_BA_ok : pool_ok Ex.pool_BA.
Proof.
  constructor; cbn.
  - repeat constructor; cbn; intuition discriminate.
  - reflexivity.
  - intros e [<-|[<-|[]]]; cbn; lia.
  - intros e [<-|[<-|[]]]; cbn; discriminate.
Defined.

Lemma pool_empty_ok : pool_ok Ex.pool_empty.
Proof. apply new_pool_ok. Defined.





(** C3.  After a successful open of the entry at [cur], with a RAM budget
    [nMaxRAMUsage > 0] and an estimate [> 0] for the new dataset, the second
    half of [_RefDataset] ends, and it does what the RAM pressure rule says:
    as long as the RAM of the pool exceeds the budget and an idle entry with
    RAM other than [cur] exists, the least recently used of them has its
    dataset closed and its RAM taken off the RAM of the pool, its slot staying
    where it is.  The slots and their order are those of before, and the
    entry just opened is still there, opened.  The entries closed are idle
    entries with RAM and a dataset, other than [cur]; the log has one
    [EvClose] for each of them, of its dataset and under its PID, and nothing
    else is added to it; each is left emptied at its address and every other
    entry is left as it was; the RAM of the pool is what it was, plus the
    estimate, less the RAM of the entries closed; and at the end the RAM of
    the pool is within the budget or no idle entry with RAM other than [cur]
    is left. *)
Theorem C3_ram_pressure_after_open responsiblePID0 cur ds p t c0 :
  pool_ok p ->
  entry_at cur (entries p) = Some c0 ->
  nRAMUsage c0 = 0 ->
  0 < nMaxRAMUsage p ->
  0 < GetEstimatedRAMUsage ds ->
  exists p' t',
    _RefDataset_complete responsiblePID0 cur (Some ds) p t = Some (p', t')
    /\ ram_pressure responsiblePID0 cur
         (stored cur (Some ds) c0 p, decr_disabled t) (p', t')
    /\ addresses (entries p') = addresses (entries p)
    /\ entry_at cur (entries p') = Some (opened (Some ds) c0)
    /\ exists closed,
         log t' = close_events (refCountOfDisabledRefCount t) (rev closed) ++ log t
         /\ (forall c, In c closed ->
               In c (entries p) /\ self c <> cur /\ ram_candidate c
               /\ exists dsc, poDS c = Some dsc
                    /\ In (EvClose dsc (responsiblePID c)
                                   (refCountOfDisabledRefCount t)) (log t'))
         /\ (forall a e, a <> cur -> entry_at a (entries p) = Some e ->
               (In e closed -> entry_at a (entries p') = Some (emptied e))
               /\ (~ In e closed -> entry_at a (entries p') = Some e))
         /\ pool_nRAMUsage p'
            = pool_nRAMUsage p + GetEstimatedRAMUsage ds - ram_sum closed
         /\ (pool_nRAMUsage p' <= nMaxRAMUsage p
             \/ forall e, In e (entries p') -> self e <> cur -> ~ ram_candidate e).
Proof.
  intros Hok Hc Hz Hmax Hest.
  rewrite (complete_unfold _ _ _ _ _ _ Hc).
  pose proof (stored_pool_ok cur (Some ds) c0 p Hok Hc Hz) as Hok1.
  pose proof (stored_cur cur (Some ds) c0 p Hok Hc) as Hc1.
  replace ((0 <? nMaxRAMUsage p) && (0 <? nRAMUsage (opened (Some ds) c0)))
    with true.
  2:{ symmetry. apply andb_true_iff. split; apply Z.ltb_lt; [assumption|cbn; lia]. }
  destruct (evict_for_RAM_pressure
              (S (List.length (entries (stored cur (Some ds) c0 p))))
              responsiblePID0 cur (stored cur (Some ds) c0 p) (decr_disabled t)
              (opened (Some ds) c0) Hok1 Hc1)
    as (p' & t' & Hrun & Hrel).
  - cbn. lia.
  - pose proof (n_evictable_le (entries (stored cur (Some ds) c0 p))). lia.
  - exists p', t'. split; [exact Hrun|]. split; [exact Hrel|]. split.
    { pose proof (ram_pressure_addresses _ _ _ _ Hrel) as Ha. cbn [fst] in Ha.
      rewrite Ha. apply stored_addresses. }
    split.
    { apply (ram_pressure_busy _ _ _ _ Hrel Hok1); [exact Hc1|cbn; lia]. }
    destruct (ram_pressure_closed _ _ _ _ Hrel (ok_addresses _ Hok1))
      as (closed & Hlog & _ & Hin & Hat & Hram & Hbud & Hend).
    cbn [fst snd decr_disabled refCountOfDisabledRefCount log] in *.
    replace (refCountOfDisabledRefCount t - 1 + 1)
      with (refCountOfDisabledRefCount t) in Hlog by lia.
    exists closed. split; [exact Hlog|]. split.
    { intros c Hx. destruct (Hin c Hx) as (H1 & H2 & H3 & H4).
      split.
      { pose proof (In_entry_at _ _ (ok_addresses _ Hok1) H1) as E.
        rewrite stored_other in E by auto. now apply entry_at_In in E. }
      split; [exact H2|]. split; [exact H3|].
      destruct (poDS c) as [dsc|] eqn:Hds; [|now contradiction H4].
      exists dsc. split; [reflexivity|].
      rewrite Hlog. apply in_or_app. left.
      unfold close_events. apply in_flat_map. exists c.
      split; [now apply in_rev in Hx|]. unfold close_event. rewrite Hds. now left. }
    split.
    { intros a e Hne Ha. apply Hat. now rewrite stored_other. }
    split.
    { rewrite Hram. unfold stored. cbn. lia. }
    rewrite Hbud in Hend. unfold stored in Hend. cbn in Hend. exact Hend.
Qed.

Lemma C3_witness :
  exists p' t',
    _RefDataset_complete 7 2 (Some Ex.dsB) Ex.pool_S4 Ex.thread7_opening
    = Some (p', t')
    /\ ram_pressure 7 2
         (stored 2 (Some Ex.dsB) Ex.eB_opening Ex.pool_S4,
          decr_disabled Ex.thread7_opening) (p', t')
    /\ addresses (entries p') = addresses (entries Ex.pool_S4)
    /\ entry_at 2 (entries p') = Some (opened (Some Ex.dsB) Ex.eB_opening)
    /\ exists closed,
         log t'
         = close_events (refCountOfDisabledRefCount Ex.thread7_opening) (rev closed)
           ++ log Ex.thread7_opening
         /\ (forall c, In c closed ->
               In c (entries Ex.pool_S4) /\ self c <> 2%nat /\ ram_candidate c
               /\ exists dsc, poDS c = Some dsc
                    /\ In (EvClose dsc (responsiblePID c)
                                   (refCountOfDisabledRefCount Ex.thread7_opening))
                          (log t'))
         /\ (forall a e, a <> 2%nat -> entry_at a (entries Ex.pool_S4) = Some e ->
               (In e closed -> entry_at a (entries p') = Some (emptied e))
               /\ (~ In e closed -> entry_at a (entries p') = Some e))
         /\ pool_nRAMUsage p'
            = pool_nRAMUsage Ex.pool_S4 + GetEstimatedRAMUsage Ex.dsB
              - ram_sum closed
         /\ (pool_nRAMUsage p' <= nMaxRAMUsage Ex.pool_S4
             \/ forall e, In e (entries p') -> self e <> 2%nat -> ~ ram_candidate e).
Proof.
  apply C3_ram_pressure_after_open.
  - exact pool_S4_ok.
  - reflexivity.
  - reflexivity.
  - cbn. lia.
  - cbn. lia.
Defined.

(** Scenario S4: the open of "B" brings the pool to 120 bytes for a budget
    of 100; the dataset of "A" is closed, its slot stays, 60 bytes remain. *)
Example S4_ram_pressure :
  _RefDataset_complete 7 2 (Some Ex.dsB) Ex.pool_S4 Ex.thread7_opening
  = Some (mkPool false 1 10 2 100 60 [Ex.eB_busy; emptied Ex.eA],
          mkThread 7 0 [EvClose Ex.dsA 7 1]).
Proof. reflexivity. Qed.

(** In a reachable state, the hypotheses of C3 hold of every open in flight. *)
Lemma ram_pressure_reachable m responsiblePID0 cur ds t :
  reachable m -> In cur (opening m) ->
  0 < nMaxRAMUsage (pool m) -> 0 < GetEstimatedRAMUsage ds ->
  exists c0 p' t',
    entry_at cur (entries (pool m)) = Some c0
    /\ _RefDataset_complete responsiblePID0 cur (Some ds) (pool m) t = Some (p', t')
    /\ ram_pressure responsiblePID0 cur
         (stored cur (Some ds) c0 (pool m), decr_disabled t) (p', t').
Proof.
  intros Hm Hcur Hmax Hest.
  destruct (reachable_ok m Hm) as [Hok Hfl].
  destruct (Hfl cur Hcur) as (c0 & Hc0 & _ & Hz).
  destruct (evict_for_RAM_pressure
              (S (List.length (entries (stored cur (Some ds) c0 (pool m)))))
              responsiblePID0 cur (stored cur (Some ds) c0 (pool m))
              (decr_disabled t) (opened (Some ds) c0))
    as (p' & t' & Hrun & Hrel).
  - now apply stored_pool_ok.
  - now apply stored_cur.
  - cbn. lia.
  - pose proof (n_evictable_le (entries (stored cur (Some ds) c0 (pool m)))). lia.
  - exists c0, p', t'. split; [exact Hc0|]. split; [|exact Hrel].
    rewrite (complete_unfold _ _ _ _ _ _ Hc0).
    replace ((0 <? nMaxRAMUsage (pool m)) && (0 <? nRAMUsage (opened (Some ds) c0)))
      with true; [exact Hrun|].
    symmetry. apply andb_true_iff. split; apply Z.ltb_lt; [assumption|cbn; lia].
Qed.

(** C4.  When the open fails in a forced [_RefDataset] made through a
    proxy, the slot taken for the attempt stays in the list, with no dataset
    and no RAM and, once [RefUnderlyingDataset] has released it, refcount
    [0].  Its key is not cleared, as the specification has it: it is still
    the descriptor-plus-options string of the request.  The slot can be used
    again: it qualifies for recycling.  This holds when no other request runs
    during the open, and also after any critical sections of other requests
    during the open: the second half of [_RefDataset] and the release then
    leave the slot where those have left it, every other record untouched. *)
Theorem C4_failed_open_slot B MD MDI (d : GDALProxyPoolDataset MD MDI) w p cur p1 t1 :
  singleton w = Some p ->
  pool_ok p ->
  _RefDataset_prepare (GetDescription d) (papszOpenOptions d) (GetShared d) true
    (m_pszOwner d) p
    (GDALSetResponsiblePIDForCurrentThread (proxy_responsiblePID d) (thread w))
    = (Opening cur, p1, t1) ->
  GDALDataset_Open B (log t1) (GetDescription d) (nFlag B (eAccess d))
                   (papszOpenOptions d) = None ->
  (exists d' p' t' slot,
     RefUnderlyingDataset B true d w = Some (None, d', mkWorld (Some p') t')
     /\ cacheEntry d' = Some cur
     /\ entry_at cur (entries p') = Some slot
     /\ poDS slot = None
     /\ refCount slot = 0
     /\ nRAMUsage slot = 0
     /\ pszFileNameAndOpenOptions slot = Some (proxy_key d)
     /\ evictable false slot = true
     /\ pool_ok p'
     /\ curResponsiblePID t' = curResponsiblePID (thread w))
  /\ (forall ops m' responsiblePID0 t2,
        (forall a, In a ops -> in_flight p a) ->
        during_open cur (mkMachine p1 (cur :: ops)) m' ->
        exists c',
          entry_at cur (entries (pool m')) = Some c'
          /\ _RefDataset_complete responsiblePID0 cur None (pool m') t2
             = Some (stored cur None c' (pool m'), decr_disabled t2)
          /\ let p3 := UnrefDataset cur (stored cur None c' (pool m')) in
             let slot := decr_refCount (opened None c') in
             entry_at cur (entries p3) = Some slot
             /\ addresses (entries p3) = addresses (entries (pool m'))
             /\ (forall a, a <> cur ->
                   entry_at a (entries p3) = entry_at a (entries (pool m')))
             /\ poDS slot = None
             /\ refCount slot = 0
             /\ nRAMUsage slot = 0
             /\ pszFileNameAndOpenOptions slot = Some (proxy_key d)
             /\ evictable false slot = true
             /\ pool_ok p3).
Proof.
  intros Hs Hok Hprep Hopen.
  destruct (prepare_opening _ _ _ _ _ _ _ _ _ _ Hok Hprep)
    as (c & He & Hself & Hrc & Hz & Hkey & _).
  assert (Hc : entry_at cur (entries p1) = Some c).
  { rewrite He, <- Hself. apply head_entry_at. }
  split.
  - destruct (RefUnderlying_open_failed B MD MDI d w p cur p1 t1 Hs Hok Hprep Hopen)
      as (c1 & rest & He1 & Hc1 & Hfresh & Hk & Hd & Hok' & Hrun).
    assert (c1 = c) by (rewrite He in He1; now injection He1 as <-). subst c1.
    eexists _, _, _, (decr_refCount (opened None c)).
    split; [exact Hrun|].
    split; [reflexivity|]. split.
    { cbn [entries set_entries]. rewrite <- Hself.
      apply (head_entry_at (decr_refCount (opened None c))). }
    split; [reflexivity|]. split; [reflexivity|]. split; [exact Hz|].
    split; [exact Hk|]. split; [reflexivity|]. split; [exact Hok'|reflexivity].
  - intros ops m' pid t2 Hfl Hd.
    pose proof (prepared_machine_ok _ _ _ _ _ _ _ _ _ _ ops Hok Hfl Hprep) as Hm.
    destruct (failed_open_during cur _ m' c pid t2 Hm Hc ltac:(lia) Hz Hd)
      as (c' & Hc' & Hst & Hrun & Hat & Haddr & Hoth & Hok3).
    destruct Hst as (_ & Hk' & _ & _ & _ & Hram & _).
    exists c'. split; [exact Hc'|]. split; [exact Hrun|].
    cbn zeta. split; [exact Hat|]. split; [exact Haddr|]. split; [exact Hoth|].
    split; [reflexivity|]. split; [reflexivity|]. split; [cbn; lia|].
    split; [cbn; unfold proxy_key; congruence|]. split; [reflexivity|exact Hok3].
Qed.

Lemma C4_witness :
  (exists d' p' t' slot,
     RefUnderlyingDataset Ex.backend true Ex.proxy_bad Ex.world_empty
     = Some (None, d', mkWorld (Some p') t')
     /\ cacheEntry d' = Some 1%nat
     /\ entry_at 1 (entries p') = Some slot
     /\ poDS slot = None
     /\ refCount slot = 0
     /\ nRAMUsage slot = 0
     /\ pszFileNameAndOpenOptions slot = Some (proxy_key Ex.proxy_bad)
     /\ evictable false slot = true
     /\ pool_ok p'
     /\ curResponsiblePID t' = curResponsiblePID (thread Ex.world_empty))
  /\ (forall ops m' responsiblePID0 t2,
        (forall a, In a ops -> in_flight Ex.pool_empty a) ->
        during_open 1 (mkMachine Ex.pool_bad_opening (1%nat :: ops)) m' ->
        exists c',
          entry_at 1 (entries (pool m')) = Some c'
          /\ _RefDataset_complete responsiblePID0 1 None (pool m') t2
             = Some (stored 1 None c' (pool m'), decr_disabled t2)
          /\ let p3 := UnrefDataset 1 (stored 1 None c' (pool m')) in
             let slot := decr_refCount (opened None c') in
             entry_at 1 (entries p3) = Some slot
             /\ addresses (entries p3) = addresses (entries (pool m'))
             /\ (forall a, a <> 1%nat ->
                   entry_at a (entries p3) = entry_at a (entries (pool m')))
             /\ poDS slot = None
             /\ refCount slot = 0
             /\ nRAMUsage slot = 0
             /\ pszFileNameAndOpenOptions slot = Some (proxy_key Ex.proxy_bad)
             /\ evictable false slot = true
             /\ pool_ok p3).
Proof.
  apply (C4_failed_open_slot Ex.backend Ex.md_set Ex.mdi_set Ex.proxy_bad
           Ex.world_empty Ex.pool_empty 1%nat Ex.pool_bad_opening
           (mkThread 7 1 [])).
  - reflexivity.
  - exact pool_empty_ok.
  - reflexivity.
  - reflexivity.
Defined.

(** The sentence of the specification fails on "bad": the slot keeps its key. *)
Lemma C4_counterexample :
  ~ failed_slot_cleared Ex.backend Ex.md_set Ex.mdi_set Ex.proxy_bad Ex.world_empty.
Proof.
  intros H.
  destruct (H _ _ _ 1%nat (mkEntry 1 7 (Some "bad") None None 0 0)
              eq_refl eq_refl eq_refl eq_refl) as (_ & _ & Hk).
  discriminate Hk.
Qed.

(** The open of "bad" by thread 7 fails after thread 8 has opened "A"
    during it: the failed slot is the second of the list, with its key. *)
Example failed_open_interleaved :
  during_open 1 (mkMachine Ex.pool_bad_opening [1%nat])
    (mkMachine Ex.pool_bad_opening_A [1%nat])
  /\ _RefDataset_complete 7 1 None Ex.pool_bad_opening_A (mkThread 7 1 [])
     = Some (stored 1 None Ex.e_bad_opening Ex.pool_bad_opening_A, mkThread 7 0 [])
  /\ entries (UnrefDataset 1 (stored 1 None Ex.e_bad_opening Ex.pool_bad_opening_A))
     = [mkEntry 2 8 (Some "A") None (Some Ex.dsA) 60 1;
        mkEntry 1 7 (Some "bad") None None 0 0].
Proof.
  split; [|split; reflexivity].
  eapply during_open_step with (m1 := mkMachine _ [2%nat; 1%nat]).
  - eapply during_open_step; [apply during_open_none| |right; now left].
    apply (step_acquire_open "A" [] false true None Ex.pool_bad_opening
             Ex.thread8 2%nat _ (incr_disabled Ex.thread8) [1%nat]).
    reflexivity.
  - apply (step_acquire_opened 8 2%nat (Some Ex.dsA) _ (incr_disabled Ex.thread8)
             Ex.pool_bad_opening_A Ex.thread8 [2%nat; 1%nat]).
    + now left.
    + reflexivity.
  - now left.
Qed.

(** C5.  [GetMetadata] first gets the underlying dataset with a forced
    open.  When that gives no dataset, it returns null: the backend is not
    asked and nothing is put into the set of the proxy (which is created
    empty if the proxy had none).  When it gives a
    dataset, the backend is asked, whatever the set already holds for the
    domain: what it answers now is put into the set with [CPLHashSetInsert],
    under the domain, and that copy is returned; the query is in the log.
    [GetMetadataItem] does the same with its set, under the name and the
    domain.  In a well-formed pool the forced request returns, and so do
    both getters. *)
Theorem C5_metadata_copied_per_call B MD MDI (d : GDALProxyPoolDataset MD MDI)
  w pszName pszDomain :
  (let set0 := match metadataSet d with
               | Some s => s
               | None => CPLHashSetNew MD
               end in
   forall c d1 w1,
     RefUnderlyingDataset B true (set_metadataSet (Some set0) d) w
     = Some (c, d1, w1) ->
     match c with
     | None =>
         GetMetadata B pszDomain d w = Some (None, d1, w1)
         /\ metadataSet d1 = Some set0
     | Some ds =>
         let r := ds_GetMetadata B (log (thread w1)) ds pszDomain in
         exists w2,
           GetMetadata B pszDomain d w
           = Some (r,
                   set_metadataSet
                     (Some (CPLHashSetInsert MD set0 (mkGetMetadataElt pszDomain r)))
                     d1,
                   w2)
           /\ log (thread w2) = EvGetMetadata ds pszDomain :: log (thread w1)
     end)
  /\ (let set0 := match metadataItemSet d with
                  | Some s => s
                  | None => CPLHashSetNew MDI
                  end in
      forall c d1 w1,
        RefUnderlyingDataset B true (set_metadataItemSet (Some set0) d) w
        = Some (c, d1, w1) ->
        match c with
        | None =>
            GetMetadataItem B pszName pszDomain d w = Some (None, d1, w1)
            /\ metadataItemSet d1 = Some set0
        | Some ds =>
            let r := ds_GetMetadataItem B (log (thread w1)) ds pszName pszDomain in
            exists w2,
              GetMetadataItem B pszName pszDomain d w
              = Some (r,
                      set_metadataItemSet
                        (Some (CPLHashSetInsert MDI set0
                                 (mkGetMetadataItemElt pszName pszDomain r)))
                        d1,
                      w2)
              /\ log (thread w2)
                 = EvGetMetadataItem ds pszName pszDomain :: log (thread w1)
        end)
  /\ (forall p, singleton w = Some p -> pool_ok p ->
        (forall d0 : GDALProxyPoolDataset MD MDI,
           exists c d1 w1, RefUnderlyingDataset B true d0 w = Some (c, d1, w1))
        /\ (exists r d' w', GetMetadata B pszDomain d w = Some (r, d', w'))
        /\ (exists r d' w', GetMetadataItem B pszName pszDomain d w = Some (r, d', w'))).
Proof.
  split; [|split].
  - intros set0 c d1 w1 Href. unfold GetMetadata.
    assert (Hd0 : match metadataSet d with
                  | Some _ => d
                  | None => set_metadataSet (Some (CPLHashSetNew MD)) d
                  end = set_metadataSet (Some set0) d).
    { unfold set0. destruct d as [? ? ? ? ? ? [s|] ? ?]; reflexivity. }
    rewrite Hd0, Href. destruct c as [ds|].
    + destruct (RefUnderlying_held B MD MDI true _ w ds d1 w1 Href)
        as (a & s & e & -> & Hs & He & Hds).
      destruct w1 as [s1 t1]. cbn [singleton] in Hs. subst s1.
      cbn [metadataSet set_cacheEntry set_metadataSet option_map set_thread
           singleton thread].
      unfold set_thread. cbn [singleton].
      erewrite UnrefUnderlying_held; [|reflexivity|exact He|exact Hds].
      rewrite GDALDataset_eqb_refl. cbn [CPLAssert].
      eexists. split; reflexivity.
    + destruct (RefUnderlying_proxy _ _ _ _ _ _ _ _ _ Href) as (c & ->).
      split; reflexivity.
  - intros set0 c d1 w1 Href. unfold GetMetadataItem.
    assert (Hd0 : match metadataItemSet d with
                  | Some _ => d
                  | None => set_metadataItemSet (Some (CPLHashSetNew MDI)) d
                  end = set_metadataItemSet (Some set0) d).
    { unfold set0. destruct d as [? ? ? ? ? ? ? [s|] ?]; reflexivity. }
    rewrite Hd0, Href. destruct c as [ds|].
    + destruct (RefUnderlying_held B MD MDI true _ w ds d1 w1 Href)
        as (a & s & e & -> & Hs & He & Hds).
      destruct w1 as [s1 t1]. cbn [singleton] in Hs. subst s1.
      cbn [metadataItemSet set_cacheEntry set_metadataItemSet option_map set_thread
           singleton thread].
      unfold set_thread. cbn [singleton].
      erewrite UnrefUnderlying_held; [|reflexivity|exact He|exact Hds].
      rewrite GDALDataset_eqb_refl. cbn [CPLAssert].
      eexists. split; reflexivity.
    + destruct (RefUnderlying_proxy _ _ _ _ _ _ _ _ _ Href) as (c & ->).
      split; reflexivity.
  - intros p Hs Hok. split; [|split].
    + intros d0.
      destruct (RefUnderlying_effect B MD MDI true d0 w p Hs Hok)
        as (r & c & p' & t' & H & _). eauto.
    + destruct (GetMetadata_effect B MD MDI pszDomain d w p Hs Hok)
        as (r & d' & p' & t' & H & _). eauto.
    + destruct (GetMetadataItem_effect B MD MDI pszName pszDomain d w p Hs Hok)
        as (r & d' & p' & t' & H & _). eauto.
Qed.

(** The sentence of the specification fails when the backend changes its
    answer: two calls in a row for the same domain return "V=1", then "V=2",
    with both copies in the set of the proxy. *)
Lemma C5_counterexample :
  ~ metadata_served_from_cache Ex.backend_late Ex.md_set Ex.mdi_set None
      Ex.proxy_A Ex.world_BA.
Proof.
  intros H.
  destruct (GetMetadata Ex.backend_late None Ex.proxy_A Ex.world_BA)
    as [[[r1 d1] w1]|] eqn:H1; [|vm_compute in H1; discriminate H1].
  destruct (GetMetadata Ex.backend_late None d1 w1) as [[[r2 d2] w2]|] eqn:H2.
  - pose proof (H _ _ _ _ _ _ H1 H2) as E.
    vm_compute in H1. injection H1 as <- <- <-.
    vm_compute in H2. injection H2 as <- <- <-.
    discriminate E.
  - vm_compute in H1. injection H1 as <- <- <-. vm_compute in H2. discriminate H2.
Qed.

(** The two calls of the counterexample, evaluated. *)
Example GetMetadata_twice :
  match GetMetadata Ex.backend_late None Ex.proxy_A Ex.world_BA with
  | Some (r1, d1, w1) =>
      Some (r1, option_map (fun x => fst (fst x))
                  (GetMetadata Ex.backend_late None d1 w1))
  | None => None
  end = Some (Some ["V=1"], Some (Some ["V=2"])).
Proof. reflexivity. Qed.

(** C6.  In every state that the pool reaches from its construction by
    critical sections of [_RefDataset] (either half, with the evictions for
    capacity and for RAM that they do), [UnrefDataset] and
    [_CloseDatasetIfZeroRefCount], in any order and from any threads, as long
    as the addition of line 426 has not overflowed [int64_t]: the sum of
    [nRAMUsage] over the entries is the [nRAMUsage] of the pool, which lies
    in [0 .. INT64_MAX], and it is so again after any further such step.  In
    such a state a successful open adds the estimate of the new dataset
    ([0] for a negative one) to the RAM of the pool and records it in the
    entry, the RAM of the entries that the eviction for RAM then closes being
    taken off; recycling, the eviction for RAM and
    [_CloseDatasetIfZeroRefCount] take the RAM of the entry they close off
    the RAM of the pool and set it to [0] in the entry; [UnrefDataset]
    changes neither.  None of the subtractions leaves the range of
    [int64_t]. *)
Theorem C6_ram_accounting m :
  reachable_int64 m ->
  (ram_sum (entries (pool m)) = pool_nRAMUsage (pool m)
   /\ 0 <= pool_nRAMUsage (pool m) <= INT64_MAX
   /\ int64 (pool_nRAMUsage (pool m)) = pool_nRAMUsage (pool m)
   /\ forall e, In e (entries (pool m)) ->
                0 <= nRAMUsage e <= pool_nRAMUsage (pool m))
  /\ (forall m', pool_step m m' -> add_fits m m' ->
        ram_sum (entries (pool m')) = pool_nRAMUsage (pool m')
        /\ 0 <= pool_nRAMUsage (pool m') <= INT64_MAX)
  /\ (forall responsiblePID0 cur ds t,
        In cur (opening m) ->
        exists c0 p' t' closed,
          entry_at cur (entries (pool m)) = Some c0
          /\ _RefDataset_complete responsiblePID0 cur (Some ds) (pool m) t
             = Some (p', t')
          /\ entry_at cur (entries p') = Some (opened (Some ds) c0)
          /\ nRAMUsage (opened (Some ds) c0) = Z.max 0 (GetEstimatedRAMUsage ds)
          /\ pool_nRAMUsage p'
             = pool_nRAMUsage (pool m) + Z.max 0 (GetEstimatedRAMUsage ds)
               - ram_sum closed
          /\ (forall c, In c closed ->
                In c (entries (pool m)) /\ self c <> cur /\ refCount c = 0
                /\ entry_at (self c) (entries p') = Some (emptied c))
          /\ (forall a e, a <> cur -> entry_at a (entries (pool m)) = Some e ->
                ~ In e closed -> entry_at a (entries p') = Some e)
          /\ ram_sum (entries p') = pool_nRAMUsage p'
          /\ (pool_nRAMUsage (pool m) + Z.max 0 (GetEstimatedRAMUsage ds)
              <= INT64_MAX ->
              int64 (pool_nRAMUsage (pool m) + Z.max 0 (GetEstimatedRAMUsage ds))
              = pool_nRAMUsage (pool m) + Z.max 0 (GetEstimatedRAMUsage ds)))
  /\ (forall responsiblePID0 evictEntryWithOpenedDataset t l1 c l2,
        entries (pool m) = l1 ++ c :: l2 ->
        evictable evictEntryWithOpenedDataset c = true ->
        (forall x, In x l2 -> evictable evictEntryWithOpenedDataset x = false) ->
        exists p' t',
          EvictEntryWithZeroRefCount responsiblePID0 evictEntryWithOpenedDataset
                                     (pool m) t = (true, p', t')
          /\ pool_nRAMUsage p' = pool_nRAMUsage (pool m) - nRAMUsage c
          /\ int64 (pool_nRAMUsage (pool m) - nRAMUsage c)
             = pool_nRAMUsage (pool m) - nRAMUsage c
          /\ entry_at (self c) (entries p') = Some (emptied c)
          /\ nRAMUsage (emptied c) = 0
          /\ (forall a, a <> self c ->
                entry_at a (entries p') = entry_at a (entries (pool m)))
          /\ ram_sum (entries p') = pool_nRAMUsage p')
  /\ (forall pszFileName papszOpenOptions pszOwner0 t l1 c l2,
        bInDestruction (pool m) = false ->
        entries (pool m) = l1 ++ c :: l2 ->
        close_rule (GetFilenameAndOpenOptions pszFileName papszOpenOptions)
                   pszOwner0 c ->
        (forall x, In x l1 ->
           ~ close_rule (GetFilenameAndOpenOptions pszFileName papszOpenOptions)
                        pszOwner0 x) ->
        exists p' t',
          _CloseDatasetIfZeroRefCount pszFileName papszOpenOptions pszOwner0
                                      (pool m) t = (p', t')
          /\ pool_nRAMUsage p' = pool_nRAMUsage (pool m) - nRAMUsage c
          /\ int64 (pool_nRAMUsage (pool m) - nRAMUsage c)
             = pool_nRAMUsage (pool m) - nRAMUsage c
          /\ entry_at (self c) (entries p') = Some (emptied c)
          /\ nRAMUsage (emptied c) = 0
          /\ (forall a, a <> self c ->
                entry_at a (entries p') = entry_at a (entries (pool m)))
          /\ ram_sum (entries p') = pool_nRAMUsage p')
  /\ (forall cacheEntry,
        pool_nRAMUsage (UnrefDataset cacheEntry (pool m)) = pool_nRAMUsage (pool m)
        /\ ram_sum (entries (UnrefDataset cacheEntry (pool m)))
           = ram_sum (entries (pool m))).
Proof.
  intros Hm.
  destruct (reachable_int64_ok m Hm) as [[Hok Hfl] Hle].
  destruct (pool_ok_range _ Hok) as [Hge Hent].
  pose proof (ok_addresses _ Hok) as Hnd.
  assert (Hsub : forall c, In c (entries (pool m)) ->
            int64 (pool_nRAMUsage (pool m) - nRAMUsage c)
            = pool_nRAMUsage (pool m) - nRAMUsage c).
  { intros c Hc. specialize (Hent c Hc). apply int64_small.
    unfold INT64_MIN, INT64_MAX in *. lia. }
  assert (Hat : forall l1 c l2 l',
            entries (pool m) = l1 ++ c :: l2 ->
            l' = emptied c :: l1 ++ l2 \/ l' = l1 ++ emptied c :: l2 ->
            entry_at (self c) l' = Some (emptied c)
            /\ forall a, a <> self c -> entry_at a l' = entry_at a (entries (pool m))).
  { intros l1 c l2 l' He Hl'. rewrite He in Hnd |- *. split.
    - rewrite (entry_at_moved (self c) l1 c (emptied c) l2 l' Hnd
                 (self_emptied c) Hl').
      now rewrite Nat.eqb_refl.
    - intros a Ha.
      rewrite (entry_at_moved a l1 c (emptied c) l2 l' Hnd (self_emptied c) Hl').
      destruct (Nat.eqb_spec a (self c)); [contradiction|reflexivity]. }
  split; [|split; [|split; [|split; [|split]]]].
  - split; [apply (ok_ram_sum _ Hok)|]. split; [lia|]. split; [|exact Hent].
    apply int64_small. unfold INT64_MIN. lia.
  - intros m' Hstep Hfit.
    pose proof (machine_ok_step m m' (conj Hok Hfl) Hstep) as [Hok' _].
    split; [apply (ok_ram_sum _ Hok')|].
    split; [apply (pool_ok_range _ Hok')|].
    apply (pool_step_fits m); auto. now split.
  - intros pid cur ds t Hcur.
    destruct (Hfl cur Hcur) as (c0 & Hc0 & _ & Hz).
    destruct (complete_accounting pid cur (Some ds) (pool m) t c0 Hok Hc0 Hz)
      as (p' & t' & closed & Hrun & Hok' & Hcur' & Hacc & _ & Hclosed & Hkeep).
    exists c0, p', t', closed.
    split; [exact Hc0|]. split; [exact Hrun|]. split; [exact Hcur'|].
    split; [reflexivity|]. split; [exact Hacc|]. split; [exact Hclosed|].
    split; [exact Hkeep|]. split; [apply (ok_ram_sum _ Hok')|].
    intros Hfit. apply int64_small. unfold INT64_MIN. lia.
  - intros pid b t l1 c l2 He Hc Hl2.
    rewrite (Evict_last pid b (pool m) t l1 c l2 Hnd He Hc Hl2).
    eexists _, _. split; [reflexivity|].
    cbn [pool_nRAMUsage set_entries set_pool_nRAMUsage entries].
    assert (Hin : In c (entries (pool m))) by (rewrite He; apply in_elt).
    split; [reflexivity|]. split; [now apply Hsub|].
    destruct (Hat l1 c l2 (if b then l1 ++ emptied c :: l2 else emptied c :: l1 ++ l2)
                He) as [H1 H2]; [destruct b; auto|].
    split; [exact H1|]. split; [reflexivity|]. split; [exact H2|].
    assert (Hok' : pool_ok
              (set_entries (if b then l1 ++ emptied c :: l2 else emptied c :: l1 ++ l2)
                 (set_pool_nRAMUsage (pool_nRAMUsage (pool m) - nRAMUsage c) (pool m)))).
    { eapply (Evict_pool_ok pid b (pool m) t); [exact Hok|].
      apply (Evict_last pid b (pool m) t l1 c l2 Hnd He Hc Hl2). }
    apply (ok_ram_sum _ Hok').
  - intros f oo o t l1 c l2 Hd He Hc Hl1.
    assert (Hin : In c (entries (pool m))) by (rewrite He; apply in_elt).
    destruct (poDS c) as [ds|] eqn:Hds.
    2:{ destruct Hc as (_ & _ & _ & Hx). now contradiction Hx. }
    pose proof (close_first f oo o (pool m) t l1 c l2 ds Hd Hnd He Hc Hl1 Hds) as Hrun.
    rewrite Hrun. eexists _, _. split; [reflexivity|].
    cbn [pool_nRAMUsage set_entries set_pool_nRAMUsage entries].
    split; [reflexivity|]. split; [now apply Hsub|].
    destruct (Hat l1 c l2 (l1 ++ emptied c :: l2) He (or_intror eq_refl)) as [H1 H2].
    split; [exact H1|]. split; [reflexivity|]. split; [exact H2|].
    pose proof (close_pool_ok f oo o (pool m) t _ _ Hok Hrun) as Hok'.
    apply (ok_ram_sum _ Hok').
  - intros a. split; [reflexivity|].
    pose proof (UnrefDataset_pool_ok a (pool m) Hok) as Hok'.
    rewrite (ok_ram_sum _ Hok'), (ok_ram_sum _ Hok). reflexivity.
Qed.

(** Scenario S4 in a pool of two slots, at the moment the open of "B"
    returns: the open adds 60 and the eviction for RAM takes the 60 of "A"
    off; recycling "A" or closing it with [_CloseDatasetIfZeroRefCount]
    would take them off as well. *)
Lemma C6_witness :
  reachable_int64 (mkMachine Ex.pool_B_opening [2%nat])
  /\ ram_sum (entries Ex.pool_B_opening) = pool_nRAMUsage Ex.pool_B_opening
  /\ 0 <= pool_nRAMUsage Ex.pool_B_opening <= INT64_MAX
  /\ (forall m', pool_step (mkMachine Ex.pool_B_opening [2%nat]) m' ->
                 add_fits (mkMachine Ex.pool_B_opening [2%nat]) m' ->
                 ram_sum (entries (pool m')) = pool_nRAMUsage (pool m')
                 /\ 0 <= pool_nRAMUsage (pool m') <= INT64_MAX)
  /\ (exists p' t' closed,
        _RefDataset_complete 7 2 (Some Ex.dsB) Ex.pool_B_opening Ex.thread7_opening
        = Some (p', t')
        /\ entry_at 2 (entries p') = Some (opened (Some Ex.dsB) Ex.eB_opening)
        /\ pool_nRAMUsage p' = 60 + Z.max 0 60 - ram_sum closed
        /\ ram_sum (entries p') = pool_nRAMUsage p')
  /\ _RefDataset_complete 7 2 (Some Ex.dsB) Ex.pool_B_opening Ex.thread7_opening
     = Some (mkPool false 0 2 2 100 60 [Ex.eB_busy; emptied Ex.eA],
             mkThread 7 0 [EvClose Ex.dsA 7 1])
  /\ (exists p' t',
        EvictEntryWithZeroRefCount 7 false Ex.pool_B_opening Ex.thread7
        = (true, p', t')
        /\ pool_nRAMUsage p' = 60 - 60
        /\ entry_at 1 (entries p') = Some (emptied Ex.eA)
        /\ nRAMUsage (emptied Ex.eA) = 0
        /\ ram_sum (entries p') = pool_nRAMUsage p')
  /\ (exists p' t',
        _CloseDatasetIfZeroRefCount "A" [] None Ex.pool_B_opening Ex.thread7
        = (p', t')
        /\ pool_nRAMUsage p' = 60 - 60
        /\ entry_at 1 (entries p') = Some (emptied Ex.eA)
        /\ nRAMUsage (emptied Ex.eA) = 0
        /\ ram_sum (entries p') = pool_nRAMUsage p').
Proof.
  assert (Hr : reachable_int64 (mkMachine Ex.pool_B_opening [2%nat])).
  { apply reachable_int64_step
      with (mkMachine (mkPool false 0 2 1 100 60 [Ex.eA]) []).
    - apply reachable_int64_step with (mkMachine Ex.pool_A []).
      + apply reachable_int64_step with (mkMachine Ex.pool_A_opening [1%nat]).
        * apply reachable_int64_step with (mkMachine (new_GDALDatasetPool 2 100) []).
          -- apply reachable_int64_new.
          -- apply (step_acquire_open "A" [] false true None
                      (new_GDALDatasetPool 2 100) Ex.thread7 1%nat
                      Ex.pool_A_opening (incr_disabled Ex.thread7) []).
             reflexivity.
          -- intros cur e [].
        * apply (step_acquire_opened 7 1%nat (Some Ex.dsA) Ex.pool_A_opening
                   (incr_disabled Ex.thread7) Ex.pool_A Ex.thread7 [1%nat]).
          -- now left.
          -- reflexivity.
        * intros cur e [<-|[]] E. cbn in E. injection E as <-. cbn.
          unfold INT64_MAX. lia.
      + apply (step_release 1%nat Ex.pool_A []).
      + intros cur e [].
    - apply (step_acquire_open "B" [] false true None
               (mkPool false 0 2 1 100 60 [Ex.eA]) Ex.thread7 2%nat
               Ex.pool_B_opening (incr_disabled Ex.thread7) []).
      reflexivity.
    - intros cur e []. }
  split; [exact Hr|].
  destruct (C6_ram_accounting (mkMachine Ex.pool_B_opening [2%nat]) Hr)
    as ((H1 & H2 & _) & H3 & H4 & H5 & H6 & _).
  split; [exact H1|]. split; [exact H2|]. split; [exact H3|].
  split; [|split; [reflexivity|split]].
  - destruct (H4 7 2%nat Ex.dsB Ex.thread7_opening (or_introl eq_refl))
      as (c0 & p' & t' & closed & Hc0 & Hrun & Hat & _ & Hacc & _ & _ & Hsum & _).
    cbn in Hc0. injection Hc0 as <-.
    exists p', t', closed. auto.
  - destruct (H5 7 false Ex.thread7 [Ex.eB_opening] Ex.eA [] eq_refl eq_refl)
      as (p' & t' & Hrun & Hacc & _ & Hat & Hz & _ & Hsum).
    { intros x []. }
    exists p', t'. auto.
  - destruct (H6 "A" [] None Ex.thread7 [Ex.eB_opening] Ex.eA [] eq_refl eq_refl)
      as (p' & t' & Hrun & Hacc & _ & Hat & Hz & _ & Hsum).
    { cbv. intuition discriminate. }
    { intros x [<-|[]]. cbv. intuition discriminate. }
    exists p', t'. auto.
Defined.

(** C7.  Whenever the pool closes a dataset: in [_RefDataset] (recycling
    for capacity, eviction for RAM) and in [_CloseDatasetIfZeroRefCount], the
    close is logged under the responsible PID recorded in the entry that held
    the dataset, with [refCountOfDisabledRefCount] raised by one, and the
    thread ends with the responsible PID and the counter it came with;
    [_RefDataset] always returns.  The destructor of the pool closes under
    the recorded PIDs too, and restores the PID of the caller. *)
Theorem C7_close_under_opener B pszFileName eAccess papszOpenOptions bShared
  bForceOpen pszOwner0 p t :
  pool_ok p ->
  (exists r p' t',
     _RefDataset B pszFileName eAccess papszOpenOptions bShared bForceOpen
                 pszOwner0 p t = Some (r, p', t')
     /\ thread_ok (entries p) t t')
  /\ (forall p' t',
        _CloseDatasetIfZeroRefCount pszFileName papszOpenOptions pszOwner0 p t
          = (p', t') ->
        thread_ok (entries p) t t')
  /\ curResponsiblePID (delete_GDALDatasetPool p t) = curResponsiblePID t
  /\ grown (closed_by_opener (entries p)) t (delete_GDALDatasetPool p t).
Proof.
  intros Hok. split; [|split].
  - destruct (RefDataset_thread B pszFileName eAccess papszOpenOptions bShared
                bForceOpen pszOwner0 p t Hok) as (r & p' & t' & H1 & _ & H2).
    eauto.
  - intros p' t'. apply close_thread. now apply ok_addresses.
  - apply delete_thread.
Qed.

Lemma C7_witness :
  (exists r p' t',
     _RefDataset Ex.backend "C" GA_ReadOnly [] false true None Ex.pool_BA Ex.thread8
     = Some (r, p', t')
     /\ thread_ok (entries Ex.pool_BA) Ex.thread8 t')
  /\ (forall p' t',
        _CloseDatasetIfZeroRefCount "C" [] None Ex.pool_BA Ex.thread8 = (p', t') ->
        thread_ok (entries Ex.pool_BA) Ex.thread8 t')
  /\ curResponsiblePID (delete_GDALDatasetPool Ex.pool_BA Ex.thread8)
     = curResponsiblePID Ex.thread8
  /\ grown (closed_by_opener (entries Ex.pool_BA)) Ex.thread8
           (delete_GDALDatasetPool Ex.pool_BA Ex.thread8).
Proof.
  apply C7_close_under_opener. exact pool_BA_ok.
Defined.

(** Scenario S6: thread 7 opened "A" and "B"; thread 8 asks for "C" in the
    full pool.  "A" is closed under PID 7, then "B" for RAM, and the thread
    is thread 8 again afterwards. *)
Example S6_thread_affinity :
  option_map (fun r => log (snd r))
    (_RefDataset Ex.backend "C" GA_ReadOnly [] false true None Ex.pool_BA Ex.thread8)
  = Some [EvClose Ex.dsB 7 1; EvOpen "C" 66 [] 8 1 (Some (mkDS 1 60));
          EvClose Ex.dsA 7 1]
  /\ option_map (fun r => curResponsiblePID (snd r))
       (_RefDataset Ex.backend "C" GA_ReadOnly [] false true None Ex.pool_BA Ex.thread8)
     = Some 8.
Proof. split; reflexivity. Qed.

(** C8.  [UnrefDataset] takes one off the refcount of the entry
    and does nothing else: the dataset stays, the other entries, the order
    and the RAM of the pool stay, the thread and its log stay, so nothing is
    closed and no assertion is evaluated.  Released at refcount [0], the
    entry is left at [-1]; the one assertion on the refcount of an entry is
    in the destructor of the pool, which fails for such an entry. *)
Theorem C8_release_only_decrements cacheEntry w s e :
  singleton w = Some s ->
  NoDup (addresses (entries s)) ->
  entry_at cacheEntry (entries s) = Some e ->
  exists s',
    UnrefDataset_static cacheEntry w = Some (mkWorld (Some s') (thread w))
    /\ entry_at cacheEntry (entries s') = Some (decr_refCount e)
    /\ refCount (decr_refCount e) = refCount e - 1
    /\ poDS (decr_refCount e) = poDS e
    /\ (forall a, a <> cacheEntry ->
                  entry_at a (entries s') = entry_at a (entries s))
    /\ addresses (entries s') = addresses (entries s)
    /\ pool_nRAMUsage s' = pool_nRAMUsage s
    /\ (refCount e = 0 ->
        refCount (decr_refCount e) = -1
        /\ forall t, In EvAssertFailed (log (delete_GDALDatasetPool s' t))).
Proof.
  intros Hs Hnd He.
  destruct (entry_at_Some _ _ _ He) as (l1 & l2 & Hl & Hself & Hn1).
  pose proof (UnrefDataset_entries cacheEntry s l1 e l2 Hnd Hl Hself) as HU.
  exists (UnrefDataset cacheEntry s).
  split.
  { unfold UnrefDataset_static. now rewrite Hs, He. }
  rewrite HU. cbn [entries set_entries pool_nRAMUsage].
  split.
  { subst cacheEntry. change (self e) with (self (decr_refCount e)).
    now apply entry_at_split. }
  split; [reflexivity|]. split; [reflexivity|]. split.
  { intros a Ha. rewrite Hl.
    apply entry_at_replace_other; [reflexivity|congruence]. }
  split.
  { rewrite Hl, !addresses_app. reflexivity. }
  split; [reflexivity|].
  intros Hz. split; [cbn; lia|].
  intros t. unfold delete_GDALDatasetPool. cbn [log GDALSetResponsiblePIDForCurrentThread].
  apply destroy_flags with (e := decr_refCount e).
  - cbn [entries set_entries]. apply in_elt.
  - cbn. lia.
Qed.

Lemma C8_witness :
  exists s',
    UnrefDataset_static 1 Ex.world_BA = Some (mkWorld (Some s') Ex.thread7)
    /\ entry_at 1 (entries s') = Some (decr_refCount Ex.eA)
    /\ refCount (decr_refCount Ex.eA) = refCount Ex.eA - 1
    /\ poDS (decr_refCount Ex.eA) = poDS Ex.eA
    /\ (forall a, a <> 1%nat ->
                  entry_at a (entries s') = entry_at a (entries Ex.pool_BA))
    /\ addresses (entries s') = addresses (entries Ex.pool_BA)
    /\ pool_nRAMUsage s' = pool_nRAMUsage Ex.pool_BA
    /\ (refCount Ex.eA = 0 ->
        refCount (decr_refCount Ex.eA) = -1
        /\ forall t, In EvAssertFailed (log (delete_GDALDatasetPool s' t))).
Proof.
  apply (C8_release_only_decrements 1%nat Ex.world_BA Ex.pool_BA Ex.eA).
  - reflexivity.
  - exact (ok_addresses _ pool_BA_ok).
  - reflexivity.
Defined.

(** The sentence of the specification fails on an idle entry: released once
    more, "A" is left at refcount [-1] and no assertion has failed. *)
Lemma C8_counterexample : ~ double_release_detected 1 Ex.world_BA.
Proof.
  intros H. destruct (H _ eq_refl) as [Hge|(new & Hlog & Hin)].
  - specialize (Hge _ (decr_refCount Ex.eA) eq_refl eq_refl). cbn in Hge. lia.
  - cbn in Hlog. destruct new; [destruct Hin|discriminate Hlog].
Qed.

(** C9.  With [refCountOfDisabledRefCount] non-zero, [Ref] leaves the
    refcount of the singleton as it is and still constructs the singleton if
    there is none; [Unref] changes nothing at all when there is a singleton
    (it is neither decremented nor destroyed). *)
Theorem C9_suppressed_Ref_Unref cfg w :
  refCountOfDisabledRefCount (thread w) <> 0 ->
  Ref cfg w
  = mkWorld
      (Some (match singleton w with
             | Some s => s
             | None => new_GDALDatasetPool (GDALGetMaxDatasetPoolSize cfg)
                                           (l_nMaxRAMUsage cfg)
             end))
      (thread w)
  /\ (forall s, singleton w = Some s ->
                option_map pool_refCount (singleton (Ref cfg w)) = Some (pool_refCount s))
  /\ (singleton w = None ->
      option_map pool_refCount (singleton (Ref cfg w)) = Some 0)
  /\ (forall s, singleton w = Some s -> Unref w = w).
Proof.
  intros Hd. apply Z.eqb_neq in Hd.
  assert (HR : Ref cfg w
               = mkWorld
                   (Some (match singleton w with
                          | Some s => s
                          | None => new_GDALDatasetPool (GDALGetMaxDatasetPoolSize cfg)
                                                        (l_nMaxRAMUsage cfg)
                          end))
                   (thread w)).
  { unfold Ref. now rewrite Hd. }
  split; [exact HR|]. split; [|split].
  - intros s Hs. rewrite HR, Hs. reflexivity.
  - intros Hs. rewrite HR, Hs. reflexivity.
  - intros s Hs. unfold Unref. now rewrite Hs, Hd.
Qed.

Lemma C9_witness :
  Ref Ex.config Ex.world_suppressed
  = mkWorld (Some (new_GDALDatasetPool 100 1900)) (thread Ex.world_suppressed)
  /\ Unref Ex.world_suppressed_BA = Ex.world_suppressed_BA.
Proof.
  split.
  - destruct (C9_suppressed_Ref_Unref Ex.config Ex.world_suppressed) as (H & _).
    + cbn. lia.
    + exact H.
  - destruct (C9_suppressed_Ref_Unref Ex.config Ex.world_suppressed_BA)
      as (_ & _ & _ & H).
    + cbn. lia.
    + apply (H Ex.pool_BA). reflexivity.
Defined.

(** With the counter at zero, [Ref] and [Unref] do count. *)
Lemma Ref_Unref_counted cfg w s :
  refCountOfDisabledRefCount (thread w) = 0 ->
  singleton w = Some s ->
  Ref cfg w = mkWorld (Some (set_pool_refCount (pool_refCount s + 1) s)) (thread w)
  /\ (pool_refCount s - 1 <> 0 ->
      Unref w = mkWorld (Some (set_pool_refCount (pool_refCount s - 1) s)) (thread w))
  /\ (pool_refCount s - 1 = 0 ->
      singleton (Unref w) = None).
Proof.
  intros Hd Hs. unfold Ref, Unref. rewrite Hs, Hd. cbn [Z.eqb].
  split; [reflexivity|]. cbn [pool_refCount set_pool_refCount]. split.
  - intros Hn. apply Z.eqb_neq in Hn. now rewrite Hn.
  - intros Hz. now rewrite Hz.
Qed.




(** * The scenarios of the specification, evaluated *)

(** S1: "A" and "B" opened and released, then "C": the slot of "A", least
    recently used and idle, is recycled; "C" is at the head. *)
Example S1_lru_eviction :
  Ex.summary (Ex.run [Ex.Acquire "A"; Ex.Release 1; Ex.Acquire "B"; Ex.Release 2;
                      Ex.Acquire "C"] Ex.pool_2 Ex.thread7)
  = Some ([Some 1%nat; Some 2%nat; Some 1%nat], [(Some "C", 1); (Some "B", 0)]).
Proof. reflexivity. Qed.

(** S2: "A" stays referenced; "C" takes the slot of "B", then "D" the slot
    of "C". *)
Example S2_pinned_entry :
  Ex.summary (Ex.run [Ex.Acquire "A"; Ex.Acquire "B"; Ex.Release 2; Ex.Acquire "C";
                      Ex.Release 2; Ex.Acquire "D"] Ex.pool_2 Ex.thread7)
  = Some ([Some 1%nat; Some 2%nat; Some 2%nat; Some 2%nat],
          [(Some "D", 1); (Some "A", 1)]).
Proof. reflexivity. Qed.

(** S3: with "A" and "B" both referenced, "C" gets nothing and the error is
    reported. *)
Example S3_pool_exhausted :
  Ex.summary (Ex.run [Ex.Acquire "A"; Ex.Acquire "B"; Ex.Acquire "C"]
                     Ex.pool_2 Ex.thread7)
  = Some ([Some 1%nat; Some 2%nat; None], [(Some "B", 1); (Some "A", 1)])
  /\ option_map (fun r => hd_error (log (snd r)))
       (Ex.run [Ex.Acquire "A"; Ex.Acquire "B"; Ex.Acquire "C"] Ex.pool_2 Ex.thread7)
     = Some (Some (EvCPLError 2)).
Proof. split; reflexivity. Qed.

(** S5: the open of "X" is in flight when the same thread opens "Y": "Y"
    gets a second slot, and "X" is completed where it is, both at refcount 1. *)
Example S5_reentrant_open :
  match _RefDataset_prepare "X" [] false true None Ex.pool_2 Ex.thread7 with
  | (Opening x, p, t) =>
      match _RefDataset Ex.backend "Y" GA_ReadOnly [] false true None p t with
      | Some (y, p, t) =>
          option_map (fun r => (x, y, Ex.content (fst r)))
            (_RefDataset_complete 7 x (Some Ex.dsA) p t)
      | None => None
      end
  | _ => None
  end = Some (1%nat, Some 2%nat, [(Some "Y", 1); (Some "X", 1)]).
Proof. reflexivity. Qed.

(** S4 from the empty pool: ten slots, a budget of 100 bytes, 60 bytes per
    dataset.  After "A" is released, the open of "B" closes "A". *)
Example S4_from_empty :
  option_map (fun r => (Ex.content (snd (fst r)), pool_nRAMUsage (snd (fst r)),
                        hd_error (log (snd r))))
    (Ex.run [Ex.Acquire "A"; Ex.Release 1; Ex.Acquire "B"]
            (new_GDALDatasetPool 10 100) Ex.thread7)
  = Some ([(Some "B", 1); (None, 0)], 60, Some (EvClose (mkDS 1 60) 7 1)).
Proof. reflexivity. Qed.

(** * More properties of the code *)

(** X1.  The key of [GetFilenameAndOpenOptions] is the file name followed,
    for each open option in order, by "||" and the option; without options
    it is the file name.  So the file name "f||o" with options [os] has the
    key of the file name "f" with options [o :: os], and the first half of
    [_RefDataset] (the lookup, the recycling, the key given to the slot) does
    not tell the two requests apart; when it ends the request, on a match or
    without a slot, [_RefDataset] returns the same for both.  Only the open,
    when there is one, is made with the file name and the options of the
    request. *)
Theorem X1_key_is_name_and_options pszFileName o papszOpenOptions bShared
  bForceOpen pszOwner0 p t :
  GetFilenameAndOpenOptions pszFileName papszOpenOptions
  = (pszFileName
     ++ fold_right (fun o s => "||" ++ o ++ s) EmptyString papszOpenOptions)%string
  /\ GetFilenameAndOpenOptions pszFileName [] = pszFileName
  /\ GetFilenameAndOpenOptions (pszFileName ++ "||" ++ o) papszOpenOptions
     = GetFilenameAndOpenOptions pszFileName (o :: papszOpenOptions)
  /\ _RefDataset_prepare (pszFileName ++ "||" ++ o) papszOpenOptions bShared
                         bForceOpen pszOwner0 p t
     = _RefDataset_prepare pszFileName (o :: papszOpenOptions) bShared
                           bForceOpen pszOwner0 p t
  /\ (forall B eAccess r p' t',
        _RefDataset_prepare (pszFileName ++ "||" ++ o) papszOpenOptions bShared
                            bForceOpen pszOwner0 p t = (Return r, p', t') ->
        _RefDataset B (pszFileName ++ "||" ++ o) eAccess papszOpenOptions bShared
                    bForceOpen pszOwner0 p t = Some (r, p', t')
        /\ _RefDataset B pszFileName eAccess (o :: papszOpenOptions) bShared
                       bForceOpen pszOwner0 p t = Some (r, p', t'))
  /\ (forall B eAccess cur p1 t1,
        _RefDataset_prepare (pszFileName ++ "||" ++ o) papszOpenOptions bShared
                            bForceOpen pszOwner0 p t = (Opening cur, p1, t1) ->
        log (snd (do_Open B (pszFileName ++ "||" ++ o) eAccess papszOpenOptions t1))
        = EvOpen (pszFileName ++ "||" ++ o) (nFlag B eAccess) papszOpenOptions
                 (curResponsiblePID t1) (refCountOfDisabledRefCount t1)
                 (GDALDataset_Open B (log t1) (pszFileName ++ "||" ++ o)
                                   (nFlag B eAccess) papszOpenOptions)
          :: log t1
        /\ log (snd (do_Open B pszFileName eAccess (o :: papszOpenOptions) t1))
           = EvOpen pszFileName (nFlag B eAccess) (o :: papszOpenOptions)
                    (curResponsiblePID t1) (refCountOfDisabledRefCount t1)
                    (GDALDataset_Open B (log t1) pszFileName (nFlag B eAccess)
                                      (o :: papszOpenOptions))
             :: log t1).
Proof.
  split; [apply key_closed_form|]. split; [reflexivity|].
  split; [reflexivity|]. split; [reflexivity|]. split.
  - intros B eAccess r p' t' Hrun. split.
    + now apply RefDataset_return.
    + apply RefDataset_return. exact Hrun.
  - intros B eAccess cur p1 t1 _. split; reflexivity.
Qed.

(** X2.  With the same open options, two file names have the same key only
    if they are the same; so an entry opened for one file name never matches
    a request for another file name with the same options, whatever the
    sharing, the thread and the owner. *)
Theorem X2_key_separates_file_names f1 f2 papszOpenOptions bShared pid
  pszOwner0 e :
  f1 <> f2 ->
  pszFileNameAndOpenOptions e
  = Some (GetFilenameAndOpenOptions f1 papszOpenOptions) ->
  GetFilenameAndOpenOptions f1 papszOpenOptions
  <> GetFilenameAndOpenOptions f2 papszOpenOptions
  /\ entry_matches (GetFilenameAndOpenOptions f2 papszOpenOptions) bShared pid
                   pszOwner0 e = false.
Proof.
  intros Hne Hk.
  assert (Hkeys : GetFilenameAndOpenOptions f1 papszOpenOptions
                  <> GetFilenameAndOpenOptions f2 papszOpenOptions).
  { intros E. apply Hne. now apply (key_same_options f1 f2 papszOpenOptions). }
  split; [exact Hkeys|].
  apply entry_matches_not_rule. intros (_ & Hk' & _). congruence.
Qed.

Lemma X2_witness :
  "A" <> "B"
  /\ GetFilenameAndOpenOptions "A" ["OVERVIEW_LEVEL=0"]
     <> GetFilenameAndOpenOptions "B" ["OVERVIEW_LEVEL=0"]
  /\ entry_matches (GetFilenameAndOpenOptions "B" ["OVERVIEW_LEVEL=0"]) false 7 None
       (mkEntry 1 7 (Some "A||OVERVIEW_LEVEL=0") None (Some Ex.dsA) 60 0) = false.
Proof.
  split; [discriminate|].
  apply (X2_key_separates_file_names "A" "B" ["OVERVIEW_LEVEL=0"] false 7 None
           (mkEntry 1 7 (Some "A||OVERVIEW_LEVEL=0") None (Some Ex.dsA) 60 0)).
  - discriminate.
  - reflexivity.
Defined.

(** X3.  [_RefDataset] on a well-formed pool always returns, and it takes
    exactly one reference: the refcount of the entry it returns is one more
    than that address had before ([0] for a new or recycled record), and the
    refcount of every other address is what it was; returning null, it
    changes no refcount. *)
Theorem X3_RefDataset_takes_one_reference B pszFileName eAccess papszOpenOptions
  bShared bForceOpen pszOwner0 p t :
  pool_ok p ->
  exists r p' t',
    _RefDataset B pszFileName eAccess papszOpenOptions bShared bForceOpen
                pszOwner0 p t = Some (r, p', t')
    /\ pool_ok p'
    /\ forall a, refCount_at a p'
                 = refCount_at a p + if returned r a then 1 else 0.
Proof.
  intros Hok.
  destruct (RefDataset_effect B pszFileName eAccess papszOpenOptions bShared
              bForceOpen pszOwner0 p t Hok)
    as (r & p' & t' & Hrun & Hok' & _ & Hrc & _).
  exists r, p', t'. auto.
Qed.

Lemma X3_witness :
  pool_ok Ex.pool_BA
  /\ exists r p' t',
       _RefDataset Ex.backend "C" GA_ReadOnly [] false true None Ex.pool_BA Ex.thread8
       = Some (r, p', t')
       /\ pool_ok p'
       /\ forall a, refCount_at a p'
                    = refCount_at a Ex.pool_BA + if returned r a then 1 else 0.
Proof.
  split; [exact pool_BA_ok|].
  exact (X3_RefDataset_takes_one_reference Ex.backend "C" GA_ReadOnly [] false true
           None Ex.pool_BA Ex.thread8 pool_BA_ok).
Defined.

(** X4.  The entry that [_RefDataset] returns has a refcount of at least
    [1]: as long as it is held it is not a candidate for recycling nor for
    the eviction for RAM, [_CloseDatasetIfZeroRefCount] does not close it,
    and no exclusive request matches it.  On a match, the entry is also the
    first of the list when the critical section ends.  After an open, it is
    where the requests that ran during the open have left it: whatever they
    were, the second half of [_RefDataset] finds the record still marked,
    stores the result of the open in it and sets its refcount to [1], without
    moving any record. *)
Theorem X4_returned_entry_held B pszFileName eAccess papszOpenOptions
  bShared bForceOpen pszOwner0 p t :
  pool_ok p ->
  (forall b p' t',
     _RefDataset B pszFileName eAccess papszOpenOptions bShared bForceOpen
                 pszOwner0 p t = Some (Some b, p', t') ->
     exists e,
       entry_at b (entries p') = Some e
       /\ 1 <= refCount e
       /\ (forall evictEntryWithOpenedDataset,
             evictable evictEntryWithOpenedDataset e = false)
       /\ (forall key o, close_matches key o e = false)
       /\ (forall key pid o, entry_matches key false pid o e = false))
  /\ (forall b p' t',
        _RefDataset_prepare pszFileName papszOpenOptions bShared bForceOpen
                            pszOwner0 p t = (Return (Some b), p', t') ->
        exists e rest, entries p' = e :: rest /\ self e = b /\ 1 <= refCount e)
  /\ (forall cur p1 t1 ops m' res responsiblePID0 t2,
        _RefDataset_prepare pszFileName papszOpenOptions bShared bForceOpen
                            pszOwner0 p t = (Opening cur, p1, t1) ->
        (forall a, In a ops -> in_flight p a) ->
        during_open cur (mkMachine p1 (cur :: ops)) m' ->
        exists c' p' t',
          entry_at cur (entries (pool m')) = Some c'
          /\ _RefDataset_complete responsiblePID0 cur res (pool m') t2
             = Some (p', t')
          /\ entry_at cur (entries p') = Some (opened res c')
          /\ refCount (opened res c') = 1
          /\ poDS (opened res c') = res
          /\ addresses (entries p') = addresses (entries (pool m'))).
Proof.
  intros Hok. split; [|split].
  - intros b p' t' Hrun.
    destruct (RefDataset_effect B pszFileName eAccess papszOpenOptions bShared
                bForceOpen pszOwner0 p t Hok)
      as (r & p2 & t2 & Hrun2 & _ & _ & _ & _ & Hhead & _).
    rewrite Hrun in Hrun2. injection Hrun2 as <- <- <-.
    destruct (Hhead b eq_refl) as (e & rest & He & Hs & Hge).
    exists e. split; [rewrite He, <- Hs; apply head_entry_at|].
    split; [exact Hge|]. split; [|split].
    + intros m. apply evictable_false. intros [Hz _]. lia.
    + intros key o. apply close_matches_not_rule. intros (Hz & _). lia.
    + intros key pid o. apply entry_matches_not_rule.
      intros (_ & _ & [[Hf _]|[_ Hz]]); [discriminate|lia].
  - intros b p' t' Hrun.
    destruct (prepare_effect _ _ _ _ _ _ _ _ _ _ Hok Hrun) as (_ & _ & _ & Hhead & _).
    now apply Hhead.
  - intros cur p1 t1 ops m' res pid t2 Hprep Hfl Hd.
    destruct (prepare_opening _ _ _ _ _ _ _ _ _ _ Hok Hprep)
      as (c & He & Hself & Hrc & Hz & _).
    assert (Hc : entry_at cur (entries p1) = Some c).
    { rewrite He, <- Hself. apply head_entry_at. }
    pose proof (prepared_machine_ok _ _ _ _ _ _ _ _ _ _ ops Hok Hfl Hprep) as Hm.
    destruct (during_open_kept cur _ m' c Hd Hm Hc ltac:(lia))
      as ([Hok' _] & c' & Hc' & Hst).
    destruct Hst as (_ & _ & _ & _ & _ & Hram & _).
    destruct (complete_total pid cur res (pool m') t2 c' Hok' Hc' ltac:(lia))
      as (p' & t' & Hrun & _ & Haddr & Hat & _).
    exists c', p', t'. split; [exact Hc'|]. split; [exact Hrun|].
    split; [exact Hat|]. split; [reflexivity|]. split; [reflexivity|exact Haddr].
Qed.

Lemma X4_witness :
  pool_ok Ex.pool_empty
  /\ exists c' p' t',
       entry_at 1 (entries Ex.pool_bad_opening_A) = Some c'
       /\ _RefDataset_complete 7 1 (Some Ex.dsB) Ex.pool_bad_opening_A
            (mkThread 7 1 []) = Some (p', t')
       /\ entry_at 1 (entries p') = Some (opened (Some Ex.dsB) c')
       /\ refCount (opened (Some Ex.dsB) c') = 1
       /\ poDS (opened (Some Ex.dsB) c') = Some Ex.dsB
       /\ addresses (entries p') = addresses (entries Ex.pool_bad_opening_A).
Proof.
  split; [exact pool_empty_ok|].
  destruct (X4_returned_entry_held Ex.backend "bad" GA_ReadOnly [] false true None
              Ex.pool_empty Ex.thread7 pool_empty_ok) as (_ & _ & H).
  apply (H 1%nat Ex.pool_bad_opening (incr_disabled Ex.thread7) []
           (mkMachine Ex.pool_bad_opening_A [1%nat]) (Some Ex.dsB) 7
           (mkThread 7 1 [])).
  - reflexivity.
  - intros a [].
  - eapply during_open_step with (m1 := mkMachine _ [2%nat; 1%nat]).
    + eapply during_open_step; [apply during_open_none| |right; now left].
      apply (step_acquire_open "A" [] false true None Ex.pool_bad_opening
               Ex.thread8 2%nat _ (incr_disabled Ex.thread8) [1%nat]).
      reflexivity.
    + apply (step_acquire_opened 8 2%nat (Some Ex.dsA) _ (incr_disabled Ex.thread8)
               Ex.pool_bad_opening_A Ex.thread8 [2%nat; 1%nat]).
      * now left.
      * reflexivity.
    + now left.
Defined.



(** X6.  A request that does not force the open never calls the backend and
    never evicts: the thread and its log are untouched; without a match the
    pool is untouched too.  With a match, releasing the entry afterwards
    gives back the pool as it was, except that the entry is now the first of
    the list: every record, the matched one included, is as before. *)
Theorem X6_lookup_then_release B pszFileName eAccess papszOpenOptions bShared
  pszOwner0 p t r p' t' :
  NoDup (addresses (entries p)) ->
  _RefDataset B pszFileName eAccess papszOpenOptions bShared false pszOwner0 p t
  = Some (r, p', t') ->
  t' = t
  /\ match r with
     | None => p' = p
     | Some a =>
         exists l1 e l2,
           entries p = l1 ++ e :: l2
           /\ self e = a
           /\ entry_matches (GetFilenameAndOpenOptions pszFileName papszOpenOptions)
                            bShared (curResponsiblePID t) pszOwner0 e = true
           /\ p' = set_entries (incr_refCount e :: l1 ++ l2) p
           /\ UnrefDataset a p' = set_entries (e :: l1 ++ l2) p
     end.
Proof. apply RefDataset_lookup. Qed.

Lemma X6_witness :
  NoDup (addresses (entries Ex.pool_BA))
  /\ Ex.thread8 = Ex.thread8
  /\ exists l1 e l2,
       entries Ex.pool_BA = l1 ++ e :: l2
       /\ self e = 1%nat
       /\ entry_matches (GetFilenameAndOpenOptions "A" []) false
                        (curResponsiblePID Ex.thread8) None e = true
       /\ mkPool false 1 2 2 100 120 [Ex.eA_busy; Ex.eB]
          = set_entries (incr_refCount e :: l1 ++ l2) Ex.pool_BA
       /\ UnrefDataset 1 (mkPool false 1 2 2 100 120 [Ex.eA_busy; Ex.eB])
          = set_entries (e :: l1 ++ l2) Ex.pool_BA.
Proof.
  split; [exact (ok_addresses _ pool_BA_ok)|].
  apply (X6_lookup_then_release Ex.backend "A" GA_ReadOnly [] false None
           Ex.pool_BA Ex.thread8 (Some 1%nat) _ Ex.thread8
           (ok_addresses _ pool_BA_ok)).
  reflexivity.
Defined.

(** X7.  In every state that the pool reaches from its construction with a
    capacity [maxSize >= 0], [currentSize] is the number of records of the
    list (the last assertion of [CheckLinks]) and is not more than
    [maxSize]; so never more than [maxSize] datasets are open in the pool. *)
Theorem X7_pool_never_exceeds_maxSize m :
  reachable m ->
  0 <= maxSize (pool m) ->
  currentSize (pool m) = Z.of_nat (List.length (entries (pool m)))
  /\ currentSize (pool m) <= maxSize (pool m)
  /\ Z.of_nat (List.length (filter has_dataset (entries (pool m))))
     <= maxSize (pool m).
Proof.
  intros Hr Hpos. destruct (reachable_sized m Hr Hpos) as [Hs Hle].
  split; [exact Hs|]. split; [exact Hle|].
  pose proof (filter_length_le _ has_dataset (entries (pool m))). lia.
Qed.

Lemma X7_witness :
  reachable (mkMachine Ex.pool_A_opening [1%nat])
  /\ 0 <= maxSize (pool (mkMachine Ex.pool_A_opening [1%nat]))
  /\ currentSize Ex.pool_A_opening
     = Z.of_nat (List.length (entries Ex.pool_A_opening))
  /\ currentSize Ex.pool_A_opening <= maxSize Ex.pool_A_opening
  /\ Z.of_nat (List.length (filter has_dataset (entries Ex.pool_A_opening)))
     <= maxSize Ex.pool_A_opening.
Proof.
  assert (Hr : reachable (mkMachine Ex.pool_A_opening [1%nat])).
  { apply (reachable_step (mkMachine (new_GDALDatasetPool 2 100) [])).
    - apply reachable_new.
    - apply (step_acquire_open "A" [] false true None (new_GDALDatasetPool 2 100)
               Ex.thread7 1%nat Ex.pool_A_opening (incr_disabled Ex.thread7) []).
      reflexivity. }
  split; [exact Hr|]. split; [cbn; lia|].
  apply (X7_pool_never_exceeds_maxSize (mkMachine Ex.pool_A_opening [1%nat]) Hr).
  cbn. lia.
Defined.

(** X8.  [_CloseDatasetIfZeroRefCount] changes nothing, neither the pool nor
    the thread, exactly when the pool is being destroyed or no entry is idle
    with the key and the owner of the request and a dataset: it never closes
    a dataset that is in use, nor one of another owner. *)
Theorem X8_close_if_idle_does_nothing_iff pszFileName papszOpenOptions pszOwner0
  p t :
  _CloseDatasetIfZeroRefCount pszFileName papszOpenOptions pszOwner0 p t = (p, t)
  <-> (bInDestruction p = true
       \/ forall e, In e (entries p) ->
            ~ (refCount e = 0
               /\ pszFileNameAndOpenOptions e
                  = Some (GetFilenameAndOpenOptions pszFileName papszOpenOptions)
               /\ pszOwner e = pszOwner0
               /\ poDS e <> None)).
Proof. apply close_nothing_iff. Qed.

(** X9.  When [_CloseDatasetIfZeroRefCount] finds such an entry, it takes
    the first one from the head: its dataset is closed under the PID of its
    opener, its RAM is taken off the RAM of the pool, and its key, owner and
    dataset are cleared.  The record stays where it is in the list, the
    others are not touched; left without a key, it matches no later lookup
    and no later [_CloseDatasetIfZeroRefCount], and it can be recycled. *)
Theorem X9_close_if_idle_first_match pszFileName papszOpenOptions pszOwner0 p t
  l1 c l2 ds :
  bInDestruction p = false ->
  NoDup (addresses (entries p)) ->
  entries p = l1 ++ c :: l2 ->
  close_rule (GetFilenameAndOpenOptions pszFileName papszOpenOptions) pszOwner0 c ->
  (forall x, In x l1 ->
     ~ close_rule (GetFilenameAndOpenOptions pszFileName papszOpenOptions)
                  pszOwner0 x) ->
  poDS c = Some ds ->
  _CloseDatasetIfZeroRefCount pszFileName papszOpenOptions pszOwner0 p t
  = (set_entries (l1 ++ emptied c :: l2)
       (set_pool_nRAMUsage (pool_nRAMUsage p - nRAMUsage c) p),
     mkThread (curResponsiblePID t) (refCountOfDisabledRefCount t)
       (EvClose ds (responsiblePID c) (refCountOfDisabledRefCount t + 1) :: log t))
  /\ (forall key bShared pid o, entry_matches key bShared pid o (emptied c) = false)
  /\ (forall key o, close_matches key o (emptied c) = false)
  /\ evictable false (emptied c) = true.
Proof.
  intros Hd Hnd He Hc Hl1 Hds.
  split; [|split; [|split]].
  - rewrite (close_first pszFileName papszOpenOptions pszOwner0 p t l1 c l2 ds
               Hd Hnd He Hc Hl1 Hds).
    now rewrite close_as_opener_eq.
  - intros. apply emptied_never_matches.
  - intros. apply emptied_never_closed.
  - destruct Hc as (Hz & _). apply evictable_true. cbn. split; [exact Hz|discriminate].
Qed.

Lemma X9_witness :
  bInDestruction Ex.pool_BA = false
  /\ NoDup (addresses (entries Ex.pool_BA))
  /\ entries Ex.pool_BA = [Ex.eB] ++ Ex.eA :: []
  /\ close_rule (GetFilenameAndOpenOptions "A" []) None Ex.eA
  /\ (forall x, In x [Ex.eB] -> ~ close_rule (GetFilenameAndOpenOptions "A" []) None x)
  /\ poDS Ex.eA = Some Ex.dsA
  /\ (_CloseDatasetIfZeroRefCount "A" [] None Ex.pool_BA Ex.thread8
      = (set_entries ([Ex.eB] ++ emptied Ex.eA :: [])
           (set_pool_nRAMUsage (pool_nRAMUsage Ex.pool_BA - nRAMUsage Ex.eA)
                               Ex.pool_BA),
         mkThread (curResponsiblePID Ex.thread8)
           (refCountOfDisabledRefCount Ex.thread8)
           (EvClose Ex.dsA (responsiblePID Ex.eA)
                    (refCountOfDisabledRefCount Ex.thread8 + 1) :: log Ex.thread8))
      /\ (forall key bShared pid o,
            entry_matches key bShared pid o (emptied Ex.eA) = false)
      /\ (forall key o, close_matches key o (emptied Ex.eA) = false)
      /\ evictable false (emptied Ex.eA) = true).
Proof.
  assert (H4 : close_rule (GetFilenameAndOpenOptions "A" []) None Ex.eA).
  { repeat split; discriminate. }
  assert (H5 : forall x, In x [Ex.eB] ->
                 ~ close_rule (GetFilenameAndOpenOptions "A" []) None x).
  { intros x [<-|[]] (_ & Hk & _). discriminate. }
  split; [reflexivity|]. split; [exact (ok_addresses _ pool_BA_ok)|].
  split; [reflexivity|]. split; [exact H4|]. split; [exact H5|].
  split; [reflexivity|].
  exact (X9_close_if_idle_first_match "A" [] None Ex.pool_BA Ex.thread8
           [Ex.eB] Ex.eA [] Ex.dsA eq_refl (ok_addresses _ pool_BA_ok) eq_refl
           H4 H5 eq_refl).
Defined.

(** X10.  [~GDALDatasetPool] closes every dataset that the pool still
    holds, each under the PID recorded in its entry and each exactly once:
    the closes it logs are as many as the entries with a dataset.  It does
    not raise [refCountOfDisabledRefCount] around them.  The assertion on
    the refcounts fails exactly when some entry is still referenced. *)
Theorem X10_destructor_closes_every_dataset p t :
  (forall e ds, In e (entries p) -> poDS e = Some ds ->
     In (EvClose ds (responsiblePID e) (refCountOfDisabledRefCount t))
        (log (delete_GDALDatasetPool p t)))
  /\ List.length (filter is_EvClose (log (delete_GDALDatasetPool p t)))
     = (List.length (filter has_dataset (entries p))
        + List.length (filter is_EvClose (log t)))%nat
  /\ (In EvAssertFailed (log (delete_GDALDatasetPool p t))
      <-> In EvAssertFailed (log t)
          \/ exists e, In e (entries p) /\ refCount e <> 0)
  /\ refCountOfDisabledRefCount (delete_GDALDatasetPool p t)
     = refCountOfDisabledRefCount t.
Proof.
  split; [|split; [|split]].
  - intros e ds. apply delete_closes_all.
  - rewrite delete_log, filter_app, length_app, closes_destroy_events. reflexivity.
  - apply delete_assert_iff.
  - apply delete_counter.
Qed.

(** X11.  [GDALGetMaxDatasetPoolSize] is the configured size brought into
    [2 .. 1000]: a size in that range is taken as it is, a smaller one gives
    [2], a larger one [1000].  The pool that [Ref] constructs when there is
    none is a new pool of exactly that capacity, with the RAM budget of the
    configuration, no entry and no RAM; its refcount is [1], or [0] when
    [refCountOfDisabledRefCount] is not [0]. *)
Theorem X11_pool_size_within_bounds cfg w :
  2 <= GDALGetMaxDatasetPoolSize cfg <= 1000
  /\ (2 <= atoi_GDAL_MAX_DATASET_POOL_SIZE cfg <= 1000 ->
      GDALGetMaxDatasetPoolSize cfg = atoi_GDAL_MAX_DATASET_POOL_SIZE cfg)
  /\ (atoi_GDAL_MAX_DATASET_POOL_SIZE cfg < 2 -> GDALGetMaxDatasetPoolSize cfg = 2)
  /\ (1000 < atoi_GDAL_MAX_DATASET_POOL_SIZE cfg ->
      GDALGetMaxDatasetPoolSize cfg = 1000)
  /\ (singleton w = None ->
      exists s, singleton (Ref cfg w) = Some s
                /\ maxSize s = GDALGetMaxDatasetPoolSize cfg
                /\ 2 <= maxSize s <= 1000
                /\ nMaxRAMUsage s = l_nMaxRAMUsage cfg
                /\ entries s = []
                /\ currentSize s = 0
                /\ pool_nRAMUsage s = 0
                /\ bInDestruction s = false
                /\ pool_refCount s
                   = (if refCountOfDisabledRefCount (thread w) =? 0 then 1 else 0)).
Proof.
  assert (Hb : 2 <= GDALGetMaxDatasetPoolSize cfg <= 1000).
  { unfold GDALGetMaxDatasetPoolSize.
    destruct (Z.ltb_spec (atoi_GDAL_MAX_DATASET_POOL_SIZE cfg) 2); [lia|].
    destruct (Z.ltb_spec 1000 (atoi_GDAL_MAX_DATASET_POOL_SIZE cfg)); lia. }
  split; [exact Hb|].
  split.
  { intros H. unfold GDALGetMaxDatasetPoolSize.
    destruct (Z.ltb_spec (atoi_GDAL_MAX_DATASET_POOL_SIZE cfg) 2); [lia|].
    destruct (Z.ltb_spec 1000 (atoi_GDAL_MAX_DATASET_POOL_SIZE cfg)); lia. }
  split.
  { intros H. unfold GDALGetMaxDatasetPoolSize.
    destruct (Z.ltb_spec (atoi_GDAL_MAX_DATASET_POOL_SIZE cfg) 2); lia. }
  split.
  { intros H. unfold GDALGetMaxDatasetPoolSize.
    destruct (Z.ltb_spec (atoi_GDAL_MAX_DATASET_POOL_SIZE cfg) 2); [lia|].
    destruct (Z.ltb_spec 1000 (atoi_GDAL_MAX_DATASET_POOL_SIZE cfg)); lia. }
  intros Hw. unfold Ref. rewrite Hw. cbn [singleton].
  destruct (refCountOfDisabledRefCount (thread w) =? 0);
    eexists; (split; [reflexivity|]); cbn [maxSize set_pool_refCount
      new_GDALDatasetPool nMaxRAMUsage entries currentSize pool_nRAMUsage
      bInDestruction pool_refCount]; repeat split; try apply Hb; lia.
Qed.

Lemma X11_witness :
  2 <= GDALGetMaxDatasetPoolSize Ex.config <= 1000
  /\ GDALGetMaxDatasetPoolSize Ex.config = 100
  /\ exists s, singleton (Ref Ex.config Ex.world_suppressed) = Some s
               /\ maxSize s = GDALGetMaxDatasetPoolSize Ex.config
               /\ 2 <= maxSize s <= 1000
               /\ nMaxRAMUsage s = l_nMaxRAMUsage Ex.config
               /\ entries s = []
               /\ currentSize s = 0
               /\ pool_nRAMUsage s = 0
               /\ bInDestruction s = false
               /\ pool_refCount s
                  = (if refCountOfDisabledRefCount (thread Ex.world_suppressed) =? 0
                     then 1 else 0).
Proof.
  destruct (X11_pool_size_within_bounds Ex.config Ex.world_suppressed)
    as (H1 & H2 & _ & _ & H5).
  split; [exact H1|]. split; [apply H2; cbn; lia|]. apply H5. reflexivity.
Defined.

(** X12.  With [refCountOfDisabledRefCount] at [0], [Unref] undoes [Ref]:
    when there was no pool, the pool that [Ref] made is destroyed again, and
    when there was one with a refcount other than [0], it is left with the
    refcount it had; the thread is untouched.  A pool that was left with
    refcount [0] (made while the counter was raised) is destroyed by the
    pair. *)
Theorem X12_Unref_undoes_Ref cfg w :
  refCountOfDisabledRefCount (thread w) = 0 ->
  ((forall s, singleton w = Some s -> pool_refCount s <> 0) ->
   Unref (Ref cfg w) = w)
  /\ (forall s, singleton w = Some s -> pool_refCount s = 0 ->
        Unref (Ref cfg w) = mkWorld None (delete_GDALDatasetPool s (thread w))).
Proof.
  intros Hz. unfold Ref, Unref. cbn [singleton thread]. rewrite Hz. cbn [Z.eqb].
  split.
  - intros Hs. destruct w as [[s|] t]; cbn [singleton thread] in *.
    + specialize (Hs s eq_refl).
      cbn [pool_refCount set_pool_refCount].
      destruct (Z.eqb_spec (pool_refCount s + 1 - 1) 0) as [E|_]; [lia|].
      f_equal. f_equal. destruct s; unfold set_pool_refCount; cbn. f_equal. lia.
    + cbn. unfold delete_GDALDatasetPool. cbn. now rewrite set_PID_back.
  - intros s Hw Hrc. rewrite Hw. cbn [pool_refCount set_pool_refCount].
    destruct (Z.eqb_spec (pool_refCount s + 1 - 1) 0) as [_|E]; [|lia].
    reflexivity.
Qed.

Lemma X12_witness :
  refCountOfDisabledRefCount (thread Ex.world_BA) = 0
  /\ ((forall s, singleton Ex.world_BA = Some s -> pool_refCount s <> 0) ->
      Unref (Ref Ex.config Ex.world_BA) = Ex.world_BA)
  /\ (forall s, singleton Ex.world_BA = Some s -> pool_refCount s = 0 ->
        Unref (Ref Ex.config Ex.world_BA)
        = mkWorld None (delete_GDALDatasetPool s (thread Ex.world_BA))).
Proof.
  split; [reflexivity|].
  apply (X12_Unref_undoes_Ref Ex.config Ex.world_BA). reflexivity.
Defined.

(** X13.  [PreventDestroy] and [ForceDestroy] do nothing without a pool.
    With a pool, [PreventDestroy] raises [refCountOfDisabledRefCount], and
    from then on no number of [Unref] destroys the pool; [ForceDestroy]
    brings the counter back and destroys the pool whatever its refcount,
    closing every dataset it holds; its own assertion fails exactly when
    the counter was not [0] before the pair. *)
Theorem X13_prevent_then_force_destroy w :
  (singleton w = None -> PreventDestroy w = w /\ ForceDestroy w = w)
  /\ (forall s, singleton w = Some s ->
        (refCountOfDisabledRefCount (thread w) + 1 <> 0 ->
         forall n, Nat.iter n Unref (PreventDestroy w) = PreventDestroy w)
        /\ singleton (ForceDestroy (PreventDestroy w)) = None
        /\ refCountOfDisabledRefCount (thread (ForceDestroy (PreventDestroy w)))
           = refCountOfDisabledRefCount (thread w)
        /\ curResponsiblePID (thread (ForceDestroy (PreventDestroy w)))
           = curResponsiblePID (thread w)
        /\ (forall e ds, In e (entries s) -> poDS e = Some ds ->
              In (EvClose ds (responsiblePID e)
                          (refCountOfDisabledRefCount (thread w)))
                 (log (thread (ForceDestroy (PreventDestroy w)))))
        /\ (In EvAssertFailed (log (thread (ForceDestroy (PreventDestroy w))))
            <-> In EvAssertFailed (log (thread w))
                \/ refCountOfDisabledRefCount (thread w) <> 0
                \/ exists e, In e (entries s) /\ refCount e <> 0)).
Proof.
  split.
  - intros Hw. unfold PreventDestroy, ForceDestroy. now rewrite Hw.
  - intros s Hs. split.
    { intros Hne n. apply (iter_Unref_prevented n _ s).
      - unfold PreventDestroy. now rewrite Hs.
      - unfold PreventDestroy. rewrite Hs. exact Hne. }
    rewrite (ForceDestroy_prevented w s Hs). cbn [singleton thread].
    set (t1 := CPLAssert (refCountOfDisabledRefCount (thread w) =? 0) (thread w)).
    destruct (CPLAssert_thread (refCountOfDisabledRefCount (thread w) =? 0) (thread w))
      as [Hpid Hcnt]. fold t1 in Hpid, Hcnt.
    pose proof (delete_assert_iff (set_pool_refCount 0 s) t1) as Hassert.
    pose proof (delete_counter (set_pool_refCount 0 s) t1) as Hc.
    split; [reflexivity|]. split; [congruence|].
    split.
    { rewrite <- Hpid. apply delete_thread. }
    split.
    { intros e ds Hin Hds. rewrite <- Hcnt.
      now apply (delete_closes_all (set_pool_refCount 0 s) t1). }
    rewrite Hassert. unfold t1 at 1. rewrite CPLAssert_log, in_app_iff.
    cbn [entries set_pool_refCount].
    destruct (Z.eqb_spec (refCountOfDisabledRefCount (thread w)) 0) as [E|E].
    + cbn [In]. tauto.
    + cbn [In]. tauto.
Qed.

Lemma X13_witness :
  singleton Ex.world_BA = Some Ex.pool_BA
  /\ (forall n, Nat.iter n Unref (PreventDestroy Ex.world_BA)
                = PreventDestroy Ex.world_BA)
  /\ singleton (ForceDestroy (PreventDestroy Ex.world_BA)) = None
  /\ In (EvClose Ex.dsA 7 0) (log (thread (ForceDestroy (PreventDestroy Ex.world_BA)))).
Proof.
  split; [reflexivity|].
  destruct (X13_prevent_then_force_destroy Ex.world_BA) as [_ H].
  destruct (H Ex.pool_BA eq_refl) as (H1 & H2 & _ & _ & H5 & _).
  split; [apply H1; cbn; lia|]. split; [exact H2|].
  apply (H5 Ex.eA Ex.dsA); [cbn; auto|reflexivity].
Defined.

(** X14.  On a chain that is well formed (the list [l] through [prev] and
    [next], with [firstEntry] and [lastEntry] at its ends), the walk of
    [CheckLinks] dereferences no null pointer and ends; the three
    assertions on the links hold at every record, and the last one,
    [i == currentSize], holds exactly when [currentSize] is the number of
    records. *)
Theorem X14_CheckLinks_on_well_formed_chain c l fuel currentSize0 :
  Links.repr c l ->
  (List.length l <= fuel)%nat ->
  LinksCheck.CheckLinks fuel currentSize0 c
  = Some (Z.of_nat (List.length l) =? currentSize0).
Proof. apply LinksCheckFacts.CheckLinks_repr. Qed.

Lemma X14_witness :
  Links.repr Ex2.chain_BA (addresses (entries Ex.pool_BA))
  /\ (List.length (addresses (entries Ex.pool_BA)) <= 2)%nat
  /\ LinksCheck.CheckLinks 2 (currentSize Ex.pool_BA) Ex2.chain_BA
     = Some (Z.of_nat (List.length (addresses (entries Ex.pool_BA)))
             =? currentSize Ex.pool_BA).
Proof.
  split; [exact chain_BA_repr|]. split; [cbn; lia|].
  apply (X14_CheckLinks_on_well_formed_chain Ex2.chain_BA
           (addresses (entries Ex.pool_BA)) 2 (currentSize Ex.pool_BA) chain_BA_repr).
  cbn. lia.
Defined.

(** X15.  The "move to begin" of the lookup (lines 336-347), run on a well
    formed chain for a record [a] other than the first: no null pointer is
    dereferenced, and the chain afterwards is well formed again, with [a]
    first and the other records in the order they had.  It is the list that
    [move_to_begin] gives, and [CheckLinks] passes on it. *)
Theorem X15_lookup_move_to_begin_pointers c l a :
  NoDup (addresses l) ->
  Links.repr c (addresses l) ->
  In a (addresses l) ->
  is_firstEntry a l = false ->
  exists c',
    Links.lookup_move_to_begin a c = Some c'
    /\ Links.repr c' (addresses (move_to_begin a l))
    /\ addresses (move_to_begin a l) = a :: remove Nat.eq_dec a (addresses l)
    /\ LinksCheck.CheckLinks (List.length l) (Z.of_nat (List.length l)) c' = Some true.
Proof.
  intros Hnd Hr Hin Hf.
  destruct (move_to_begin_links c l a Hnd Hr Hin Hf) as [(c' & Hrun & Hr') _].
  exists c'. split; [exact Hrun|]. split; [exact Hr'|].
  pose proof (addresses_move_to_begin a l Hnd Hin) as Ha.
  split; [exact Ha|].
  pose proof (length_move_to_begin a l Hnd Hin) as Hlen.
  rewrite (LinksCheckFacts.CheckLinks_repr c' _ (List.length l) _ Hr') by lia.
  now rewrite Hlen, Z.eqb_refl.
Qed.

Lemma X15_witness :
  NoDup (addresses (entries Ex.pool_BA))
  /\ Links.repr Ex2.chain_BA (addresses (entries Ex.pool_BA))
  /\ In 1%nat (addresses (entries Ex.pool_BA))
  /\ is_firstEntry 1 (entries Ex.pool_BA) = false
  /\ exists c',
       Links.lookup_move_to_begin 1 Ex2.chain_BA = Some c'
       /\ Links.repr c' (addresses (move_to_begin 1 (entries Ex.pool_BA)))
       /\ addresses (move_to_begin 1 (entries Ex.pool_BA))
          = 1%nat :: remove Nat.eq_dec 1%nat (addresses (entries Ex.pool_BA))
       /\ LinksCheck.CheckLinks (List.length (entries Ex.pool_BA))
            (Z.of_nat (List.length (entries Ex.pool_BA))) c' = Some true.
Proof.
  split; [exact (ok_addresses _ pool_BA_ok)|]. split; [exact chain_BA_repr|].
  split; [cbn; auto|]. split; [reflexivity|].
  apply (X15_lookup_move_to_begin_pointers Ex2.chain_BA (entries Ex.pool_BA) 1%nat
           (ok_addresses _ pool_BA_ok) chain_BA_repr).
  - cbn. auto.
  - reflexivity.
Defined.

(** X16.  The same for the statements that move a recycled record to the
    top (lines 295-309): run for a record other than the first, they leave a
    well-formed chain with that record first and the others in their order. *)
Theorem X16_recycle_move_to_top_pointers c l candidate :
  NoDup (addresses l) ->
  Links.repr c (addresses l) ->
  In candidate (addresses l) ->
  is_firstEntry candidate l = false ->
  exists c',
    Links.recycle_move_to_top candidate c = Some c'
    /\ Links.repr c' (addresses (move_to_begin candidate l))
    /\ addresses (move_to_begin candidate l)
       = candidate :: remove Nat.eq_dec candidate (addresses l)
    /\ LinksCheck.CheckLinks (List.length l) (Z.of_nat (List.length l)) c' = Some true.
Proof.
  intros Hnd Hr Hin Hf.
  destruct (move_to_begin_links c l candidate Hnd Hr Hin Hf) as [_ (c' & Hrun & Hr')].
  exists c'. split; [exact Hrun|]. split; [exact Hr'|].
  pose proof (addresses_move_to_begin candidate l Hnd Hin) as Ha.
  split; [exact Ha|].
  pose proof (length_move_to_begin candidate l Hnd Hin) as Hlen.
  rewrite (LinksCheckFacts.CheckLinks_repr c' _ (List.length l) _ Hr') by lia.
  now rewrite Hlen, Z.eqb_refl.
Qed.

Lemma X16_witness :
  NoDup (addresses (entries Ex.pool_BA))
  /\ Links.repr Ex2.chain_BA (addresses (entries Ex.pool_BA))
  /\ In 1%nat (addresses (entries Ex.pool_BA))
  /\ is_firstEntry 1 (entries Ex.pool_BA) = false
  /\ exists c',
       Links.recycle_move_to_top 1 Ex2.chain_BA = Some c'
       /\ Links.repr c' (addresses (move_to_begin 1 (entries Ex.pool_BA)))
       /\ addresses (move_to_begin 1 (entries Ex.pool_BA))
          = 1%nat :: remove Nat.eq_dec 1%nat (addresses (entries Ex.pool_BA))
       /\ LinksCheck.CheckLinks (List.length (entries Ex.pool_BA))
            (Z.of_nat (List.length (entries Ex.pool_BA))) c' = Some true.
Proof.
  split; [exact (ok_addresses _ pool_BA_ok)|]. split; [exact chain_BA_repr|].
  split; [cbn; auto|]. split; [reflexivity|].
  apply (X16_recycle_move_to_top_pointers Ex2.chain_BA (entries Ex.pool_BA) 1%nat
           (ok_addresses _ pool_BA_ok) chain_BA_repr).
  - cbn. auto.
  - reflexivity.
Defined.

(** X17.  The statements that link in the record that [CPLCalloc] returned
    (lines 384-392) leave a well-formed chain with the new record first, on
    an empty chain too, where it becomes [lastEntry] as well; [CheckLinks]
    passes with [currentSize] one higher. *)
Theorem X17_prepend_pointers c l n :
  Links.repr c (addresses l) ->
  Links.node c (CPLCalloc l) = Some n ->
  exists c',
    Links.prepend (CPLCalloc l) c = Some c'
    /\ Links.repr c' (CPLCalloc l :: addresses l)
    /\ Links.firstEntry c' = Some (CPLCalloc l)
    /\ (l = [] -> Links.lastEntry c' = Some (CPLCalloc l))
    /\ LinksCheck.CheckLinks (S (List.length l)) (Z.of_nat (List.length l) + 1) c'
       = Some true.
Proof.
  intros Hr Hn.
  destruct (prepend_links c l n Hr Hn) as (c' & Hrun & Hr').
  exists c'. split; [exact Hrun|]. split; [exact Hr'|].
  pose proof Hr' as (_ & Hf & Hl & _). cbn in Hf.
  split; [exact Hf|]. split.
  { intros ->. exact Hl. }
  rewrite (LinksCheckFacts.CheckLinks_repr c' _ (S (List.length l)) _ Hr').
  - f_equal. cbn [addresses map List.length]. rewrite length_map.
    apply Z.eqb_eq. lia.
  - cbn [addresses map List.length]. rewrite length_map. lia.
Qed.

Lemma X17_witness :
  Links.repr Ex2.chain_BA (addresses (entries Ex.pool_BA))
  /\ Links.node Ex2.chain_BA (CPLCalloc (entries Ex.pool_BA))
     = Some (Links.mkNode None None)
  /\ exists c',
       Links.prepend (CPLCalloc (entries Ex.pool_BA)) Ex2.chain_BA = Some c'
       /\ Links.repr c' (CPLCalloc (entries Ex.pool_BA)
                         :: addresses (entries Ex.pool_BA))
       /\ Links.firstEntry c' = Some (CPLCalloc (entries Ex.pool_BA))
       /\ (entries Ex.pool_BA = [] ->
           Links.lastEntry c' = Some (CPLCalloc (entries Ex.pool_BA)))
       /\ LinksCheck.CheckLinks (S (List.length (entries Ex.pool_BA)))
            (Z.of_nat (List.length (entries Ex.pool_BA)) + 1) c' = Some true.
Proof.
  split; [exact chain_BA_repr|]. split; [reflexivity|].
  apply (X17_prepend_pointers Ex2.chain_BA (entries Ex.pool_BA)
           (Links.mkNode None None) chain_BA_repr).
  reflexivity.
Defined.

(** X18.  [RefUnderlyingDataset] makes the request "as if it was done by
    the creating thread": whatever thread calls, the dataset is opened for
    the description, access mode and open options of the proxy under the
    responsible PID recorded in the proxy, with
    [refCountOfDisabledRefCount] raised by one.  At most one open is made,
    and none unless the open is forced; besides it the pool only logs closes
    and the error of a full pool.  The calling thread has its own
    responsible PID and counter back afterwards. *)
Theorem X18_open_under_creator_PID B MD MDI bForceOpen
  (d : GDALProxyPoolDataset MD MDI) w p r d' w' :
  singleton w = Some p ->
  pool_ok p ->
  RefUnderlyingDataset B bForceOpen d w = Some (r, d', w') ->
  curResponsiblePID (thread w') = curResponsiblePID (thread w)
  /\ refCountOfDisabledRefCount (thread w') = refCountOfDisabledRefCount (thread w)
  /\ exists after opens before,
       log (thread w') = after ++ opens ++ before ++ log (thread w)
       /\ Forall pool_event after
       /\ Forall pool_event before
       /\ (opens = []
           \/ exists res,
                bForceOpen = true
                /\ opens = [EvOpen (GetDescription d) (nFlag B (eAccess d))
                                   (papszOpenOptions d) (proxy_responsiblePID d)
                                   (refCountOfDisabledRefCount (thread w) + 1)
                                   res]).
Proof.
  intros Hw Hok Hrun.
  destruct (RefUnderlying_run B MD MDI bForceOpen d w p r d' w' Hw Hok Hrun)
    as (c & p' & t' & -> & -> & _ & _ & Hpid & Hcnt & _ & Hlog).
  cbn [thread]. auto.
Qed.

Lemma X18_witness :
  singleton (mkWorld (Some Ex.pool_BA) Ex.thread8) = Some Ex.pool_BA
  /\ pool_ok Ex.pool_BA
  /\ exists r d' w',
       RefUnderlyingDataset Ex.backend true Ex.proxy_X
         (mkWorld (Some Ex.pool_BA) Ex.thread8) = Some (r, d', w')
       /\ curResponsiblePID (thread w') = 8
       /\ refCountOfDisabledRefCount (thread w') = 0
       /\ exists after opens before,
            log (thread w') = after ++ opens ++ before ++ []
            /\ Forall pool_event after
            /\ Forall pool_event before
            /\ (opens = []
                \/ exists res,
                     true = true
                     /\ opens = [EvOpen "X" (nFlag Ex.backend GA_ReadOnly) [] 7
                                        (0 + 1) res]).
Proof.
  split; [reflexivity|]. split; [exact pool_BA_ok|].
  destruct (RefUnderlyingDataset Ex.backend true Ex.proxy_X
              (mkWorld (Some Ex.pool_BA) Ex.thread8)) as [[[r d'] w']|] eqn:E;
    [|vm_compute in E; discriminate].
  exists r, d', w'. split; [reflexivity|].
  exact (X18_open_under_creator_PID Ex.backend Ex.md_set Ex.mdi_set true Ex.proxy_X
           (mkWorld (Some Ex.pool_BA) Ex.thread8) Ex.pool_BA r d' w'
           eq_refl pool_BA_ok E).
Defined.

(** X19.  [RefUnderlyingDataset] always returns in a well-formed pool.
    When it returns a dataset, the proxy holds exactly one reference: its
    cache entry holds that dataset and has one reference more than that
    address had; [UnrefUnderlyingDataset] then gives the reference back
    without a failed assertion.  When it returns null, on a miss or after an
    open that failed, no refcount has changed: the reference taken for the
    open has been given back. *)
Theorem X19_proxy_reference_balance B MD MDI bForceOpen
  (d : GDALProxyPoolDataset MD MDI) w p :
  singleton w = Some p ->
  pool_ok p ->
  exists r d' p' t',
    RefUnderlyingDataset B bForceOpen d w = Some (r, d', mkWorld (Some p') t')
    /\ pool_ok p'
    /\ match r with
       | None => forall x, refCount_at x p' = refCount_at x p
       | Some ds =>
           exists a e,
             cacheEntry d' = Some a
             /\ entry_at a (entries p') = Some e /\ poDS e = Some ds
             /\ (forall x, refCount_at x p'
                           = refCount_at x p + if Nat.eqb x a then 1 else 0)
             /\ UnrefUnderlyingDataset ds d' (mkWorld (Some p') t')
                = Some (mkWorld (Some (UnrefDataset a p')) t')
             /\ forall x, refCount_at x (UnrefDataset a p') = refCount_at x p
       end.
Proof.
  intros Hw Hok.
  destruct (RefUnderlying_effect B MD MDI bForceOpen d w p Hw Hok)
    as (r & c & p' & t' & Hrun & Hok' & _ & _ & _ & Hr & _).
  exists r, (set_cacheEntry c d), p', t'. split; [exact Hrun|]. split; [exact Hok'|].
  destruct r as [ds|]; [|exact Hr].
  destruct Hr as (a & e & rest & -> & He & Hs & Hds & Hge & Hrc).
  assert (Hat : entry_at a (entries p') = Some e).
  { rewrite He, <- Hs. apply head_entry_at. }
  exists a, e. split; [reflexivity|].
  split; [exact Hat|]. split; [exact Hds|]. split; [exact Hrc|].
  split.
  - rewrite (UnrefUnderlying_held MD MDI (set_cacheEntry (Some a) d) ds p' t' a e ds
               eq_refl Hat Hds).
    now rewrite GDALDataset_eqb_refl.
  - apply (release_balance p p' a e rest Hok' He Hs Hrc).
Qed.

Lemma X19_witness :
  singleton Ex.world_BA = Some Ex.pool_BA
  /\ pool_ok Ex.pool_BA
  /\ exists r d' p' t',
       RefUnderlyingDataset Ex.backend true Ex.proxy_A Ex.world_BA
       = Some (r, d', mkWorld (Some p') t')
       /\ pool_ok p'
       /\ match r with
          | None => forall x, refCount_at x p' = refCount_at x Ex.pool_BA
          | Some ds =>
              exists a e,
                cacheEntry d' = Some a
                /\ entry_at a (entries p') = Some e /\ poDS e = Some ds
                /\ (forall x, refCount_at x p'
                              = refCount_at x Ex.pool_BA
                                + if Nat.eqb x a then 1 else 0)
                /\ UnrefUnderlyingDataset ds d' (mkWorld (Some p') t')
                   = Some (mkWorld (Some (UnrefDataset a p')) t')
                /\ forall x, refCount_at x (UnrefDataset a p')
                             = refCount_at x Ex.pool_BA
          end.
Proof.
  split; [reflexivity|]. split; [exact pool_BA_ok|].
  exact (X19_proxy_reference_balance Ex.backend Ex.md_set Ex.mdi_set true Ex.proxy_A
           Ex.world_BA Ex.pool_BA eq_refl pool_BA_ok).
Defined.

(** X20.  [GetMetadata] and [GetMetadataItem] return in a well-formed pool
    and leave no reference behind: whether the underlying dataset was
    obtained or not, every refcount of the pool is afterwards what it was
    before the call; the thread has its responsible PID and its counter
    back, and no assertion has failed on the way. *)
Theorem X20_metadata_getters_release B MD MDI pszName pszDomain
  (d : GDALProxyPoolDataset MD MDI) w p :
  singleton w = Some p ->
  pool_ok p ->
  (exists r d' p' t',
     GetMetadata B pszDomain d w = Some (r, d', mkWorld (Some p') t')
     /\ pool_ok p'
     /\ (forall x, refCount_at x p' = refCount_at x p)
     /\ curResponsiblePID t' = curResponsiblePID (thread w)
     /\ refCountOfDisabledRefCount t' = refCountOfDisabledRefCount (thread w)
     /\ (In EvAssertFailed (log t') -> In EvAssertFailed (log (thread w))))
  /\ (exists r d' p' t',
        GetMetadataItem B pszName pszDomain d w = Some (r, d', mkWorld (Some p') t')
        /\ pool_ok p'
        /\ (forall x, refCount_at x p' = refCount_at x p)
        /\ curResponsiblePID t' = curResponsiblePID (thread w)
        /\ refCountOfDisabledRefCount t' = refCountOfDisabledRefCount (thread w)
        /\ (In EvAssertFailed (log t') -> In EvAssertFailed (log (thread w)))).
Proof.
  intros Hw Hok. split.
  - now apply GetMetadata_effect.
  - now apply GetMetadataItem_effect.
Qed.

Lemma X20_witness :
  singleton Ex.world_BA = Some Ex.pool_BA
  /\ pool_ok Ex.pool_BA
  /\ (exists r d' p' t',
        GetMetadata Ex.backend_late None Ex.proxy_A Ex.world_BA
        = Some (r, d', mkWorld (Some p') t')
        /\ pool_ok p'
        /\ (forall x, refCount_at x p' = refCount_at x Ex.pool_BA)
        /\ curResponsiblePID t' = curResponsiblePID (thread Ex.world_BA)
        /\ refCountOfDisabledRefCount t'
           = refCountOfDisabledRefCount (thread Ex.world_BA)
        /\ (In EvAssertFailed (log t')
            -> In EvAssertFailed (log (thread Ex.world_BA))))
  /\ (exists r d' p' t',
        GetMetadataItem Ex.backend_late (Some "AREA_OR_POINT") None Ex.proxy_A
          Ex.world_BA
        = Some (r, d', mkWorld (Some p') t')
        /\ pool_ok p'
        /\ (forall x, refCount_at x p' = refCount_at x Ex.pool_BA)
        /\ curResponsiblePID t' = curResponsiblePID (thread Ex.world_BA)
        /\ refCountOfDisabledRefCount t'
           = refCountOfDisabledRefCount (thread Ex.world_BA)
        /\ (In EvAssertFailed (log t')
            -> In EvAssertFailed (log (thread Ex.world_BA)))).
Proof.
  split; [reflexivity|]. split; [exact pool_BA_ok|].
  exact (X20_metadata_getters_release Ex.backend_late Ex.md_set Ex.mdi_set
           (Some "AREA_OR_POINT") None Ex.proxy_A Ex.world_BA Ex.pool_BA
           eq_refl pool_BA_ok).
Defined.

(** X21.  [FlushCache], of the proxy dataset and of a proxy band, never
    opens the underlying dataset.  It returns, and it leaves the thread with
    its log, and every record of the pool, as they were: nothing is opened,
    closed or evicted, and no reference is left.  The underlying dataset (or
    band) is flushed only if an entry that matches the request of the proxy
    holds the dataset; otherwise the result is [CE_None].  For the band this
    is stated for underlying datasets whose bands name them as their
    dataset, as [UnrefUnderlyingDataset] asserts. *)
Theorem X21_FlushCache_never_opens B MD MDI U bAtClosing b
  (d : GDALProxyPoolDataset MD MDI) w p :
  singleton w = Some p ->
  pool_ok p ->
  (exists eErr d' p',
     FlushCache B U bAtClosing d w = Some (eErr, d', mkWorld (Some p') (thread w))
     /\ (forall x, entry_at x (entries p') = entry_at x (entries p))
     /\ (eErr = CE_None
         \/ exists e0 ds,
              In e0 (entries p)
              /\ entry_matches
                   (GetFilenameAndOpenOptions (GetDescription d) (papszOpenOptions d))
                   (GetShared d) (proxy_responsiblePID d) (m_pszOwner d) e0 = true
              /\ poDS e0 = Some ds
              /\ eErr = ds_FlushCache U (log (thread w)) ds bAtClosing))
  /\ ((forall ds n poBand,
         ds_GetRasterBand U ds n = Some poBand -> GetDataset poBand = ds) ->
      exists eErr b' d' p',
        Band_FlushCache B U bAtClosing b d w
        = Some (eErr, b', d', mkWorld (Some p') (thread w))
        /\ (forall x, entry_at x (entries p') = entry_at x (entries p))
        /\ (eErr = CE_None
            \/ exists e0 ds poBand,
                 In e0 (entries p)
                 /\ entry_matches
                      (GetFilenameAndOpenOptions (GetDescription d)
                                                 (papszOpenOptions d))
                      (GetShared d) (proxy_responsiblePID d) (m_pszOwner d) e0
                    = true
                 /\ poDS e0 = Some ds
                 /\ ds_GetRasterBand U ds (nBand b) = Some poBand
                 /\ eErr = band_FlushCache U (log (thread w)) poBand bAtClosing)).
Proof.
  intros Hw Hok. split.
  - now apply FlushCache_effect.
  - intros Hcons. now apply Band_FlushCache_effect.
Qed.

Lemma X21_witness :
  singleton Ex.world_BA = Some Ex.pool_BA
  /\ pool_ok Ex.pool_BA
  /\ (exists eErr d' p',
        FlushCache Ex.backend Ex2.underlying false Ex.proxy_A Ex.world_BA
        = Some (eErr, d', mkWorld (Some p') (thread Ex.world_BA))
        /\ (forall x, entry_at x (entries p') = entry_at x (entries Ex.pool_BA))
        /\ (eErr = CE_None
            \/ exists e0 ds,
                 In e0 (entries Ex.pool_BA)
                 /\ entry_matches
                      (GetFilenameAndOpenOptions (GetDescription Ex.proxy_A)
                                                 (papszOpenOptions Ex.proxy_A))
                      (GetShared Ex.proxy_A) (proxy_responsiblePID Ex.proxy_A)
                      (m_pszOwner Ex.proxy_A) e0 = true
                 /\ poDS e0 = Some ds
                 /\ eErr = ds_FlushCache Ex2.underlying (log (thread Ex.world_BA))
                             ds false))
  /\ (forall ds n poBand,
        ds_GetRasterBand Ex2.underlying ds n = Some poBand -> GetDataset poBand = ds)
  /\ exists eErr b' d' p',
       Band_FlushCache Ex.backend Ex2.underlying false Ex2.band1 Ex.proxy_A
         Ex.world_BA
       = Some (eErr, b', d', mkWorld (Some p') (thread Ex.world_BA))
       /\ (forall x, entry_at x (entries p') = entry_at x (entries Ex.pool_BA))
       /\ (eErr = CE_None
           \/ exists e0 ds poBand,
                In e0 (entries Ex.pool_BA)
                /\ entry_matches
                     (GetFilenameAndOpenOptions (GetDescription Ex.proxy_A)
                                                (papszOpenOptions Ex.proxy_A))
                     (GetShared Ex.proxy_A) (proxy_responsiblePID Ex.proxy_A)
                     (m_pszOwner Ex.proxy_A) e0 = true
                /\ poDS e0 = Some ds
                /\ ds_GetRasterBand Ex2.underlying ds (nBand Ex2.band1) = Some poBand
                /\ eErr = band_FlushCache Ex2.underlying (log (thread Ex.world_BA))
                            poBand false).
Proof.
  assert (Hcons : forall ds n poBand,
            ds_GetRasterBand Ex2.underlying ds n = Some poBand ->
            GetDataset poBand = ds).
  { intros ds n poBand. cbn. destruct (n =? 1); [|discriminate].
    intros E. injection E as <-. reflexivity. }
  split; [reflexivity|]. split; [exact pool_BA_ok|].
  destruct (X21_FlushCache_never_opens Ex.backend Ex.md_set Ex.mdi_set Ex2.underlying
              false Ex2.band1 Ex.proxy_A Ex.world_BA Ex.pool_BA eq_refl pool_BA_ok)
    as [H1 H2].
  split; [exact H1|]. split; [exact Hcons|]. exact (H2 Hcons).
Defined.

(** X22.  The life of a top-level proxy made when there is no pool, with
    [refCountOfDisabledRefCount] at [0]: the constructor makes the pool and
    takes the one reference on it; [RefUnderlyingDataset] opens the dataset
    under the PID of the creating thread and returns what the open returned;
    after [UnrefUnderlyingDataset], the destructor closes the dataset (under
    that PID, with the counter raised) and destroys the pool.  Nothing is
    left: no pool, and for every open in the log its close.  When the open
    fails, the destructor finds nothing to close and destroys the pool. *)
Theorem X22_proxy_lifecycle B MD MDI cfg pszSourceDatasetDescription eAccessIn
  bSharedIn pszOwner0 papszOpenOptionsIn w :
  singleton w = None ->
  refCountOfDisabledRefCount (thread w) = 0 ->
  let pid := curResponsiblePID (thread w) in
  let made := new_GDALProxyPoolDataset MD MDI cfg pszSourceDatasetDescription
                eAccessIn bSharedIn pszOwner0 w in
  let d := SetOpenOptions papszOpenOptionsIn (fst made) (snd made) in
  let res := GDALDataset_Open B (log (thread w)) pszSourceDatasetDescription
               (nFlag B eAccessIn) papszOpenOptionsIn in
  let ev := EvOpen pszSourceDatasetDescription (nFlag B eAccessIn)
              papszOpenOptionsIn pid 1 res in
  exists d' w',
    RefUnderlyingDataset B true (fst d) (snd d) = Some (res, d', w')
    /\ option_map pool_refCount (singleton w') = Some 1
    /\ thread w' = mkThread pid 0 (ev :: log (thread w))
    /\ match res with
       | Some ds =>
           exists w'',
             UnrefUnderlyingDataset ds d' w' = Some w''
             /\ delete_GDALProxyPoolDataset d' w''
                = Some (mkWorld None
                          (mkThread pid 0 (EvClose ds pid 1 :: ev :: log (thread w))))
       | None =>
           delete_GDALProxyPoolDataset d' w'
           = Some (mkWorld None (mkThread pid 0 (ev :: log (thread w))))
       end.
Proof.
  intros Hw Hz. destruct w as [s t]. cbn [singleton thread] in *. subst s.
  destruct t as [pid cnt lg]. cbn [refCountOfDisabledRefCount] in Hz. subst cnt.
  cbn [curResponsiblePID log].
  unfold new_GDALProxyPoolDataset, SetOpenOptions, Ref.
  cbn [fst snd singleton thread refCountOfDisabledRefCount Z.eqb papszOpenOptions
       GetDescription eAccess GetShared proxy_responsiblePID m_pszOwner metadataSet
       metadataItemSet cacheEntry set_thread CPLAssert
       GDALGetResponsiblePIDForCurrentThread curResponsiblePID].
  set (d := mkProxy MD MDI pszSourceDatasetDescription papszOpenOptionsIn eAccessIn
              (CPL_TO_BOOL bSharedIn) pid pszOwner0 None None None).
  set (M := GDALGetMaxDatasetPoolSize cfg). set (R := l_nMaxRAMUsage cfg).
  assert (HM : 0 < M).
  { unfold M, GDALGetMaxDatasetPoolSize.
    destruct (Z.ltb_spec (atoi_GDAL_MAX_DATASET_POOL_SIZE cfg) 2); [lia|].
    destruct (Z.ltb_spec 1000 (atoi_GDAL_MAX_DATASET_POOL_SIZE cfg)); lia. }
  pose proof (first_open B pszSourceDatasetDescription eAccessIn papszOpenOptionsIn
                (CPL_TO_BOOL bSharedIn) pszOwner0 M R 1 (mkThread pid 0 lg) HM) as Hrun.
  cbn zeta in Hrun. cbn [curResponsiblePID refCountOfDisabledRefCount log Z.add] in Hrun.
  remember (GDALDataset_Open B lg pszSourceDatasetDescription (nFlag B eAccessIn)
              papszOpenOptionsIn) as res eqn:Hres.
  remember (GetFilenameAndOpenOptions pszSourceDatasetDescription papszOpenOptionsIn)
    as key eqn:Hkeydef.
  set (ev := EvOpen pszSourceDatasetDescription (nFlag B eAccessIn)
               papszOpenOptionsIn pid 1 res) in *.
  set (w1 := mkWorld (Some (set_pool_refCount (pool_refCount (new_GDALDatasetPool M R) + 1)
                              (new_GDALDatasetPool M R)))
                     (mkThread pid 0 lg)).
  pose proof (RefUnderlying_unfold B MD MDI true d w1 _ (Some 1%nat) _
                (mkThread pid 0 (ev :: lg)) eq_refl Hrun) as Hun.
  cbn zeta in Hun. cbn [entries entry_at find is_entry self Nat.eqb poDS] in Hun.
  change (GDALSetResponsiblePIDForCurrentThread
            (curResponsiblePID (thread w1)) (mkThread pid 0 (ev :: lg)))
    with (mkThread pid 0 (ev :: lg)) in Hun.
  assert (Hkey : String.eqb key key = true) by apply String.eqb_refl.
  assert (Hown : owner_equal pszOwner0 pszOwner0 = true) by now apply owner_equal_true.
  assert (Hclose : forall rc ds ram t0,
            _CloseDatasetIfZeroRefCount pszSourceDatasetDescription papszOpenOptionsIn
              pszOwner0
              (mkPool false rc M 1 R ram [mkEntry 1 pid (Some key) pszOwner0 (Some ds) ram 0])
              t0
            = (mkPool false rc M 1 R (ram - ram) [mkEntry 1 pid None None None 0 0],
               close_as_opener (curResponsiblePID t0) pid ds t0)).
  { intros rc ds ram t0. unfold _CloseDatasetIfZeroRefCount.
    cbn [bInDestruction entries find]. rewrite <- Hkeydef.
    unfold close_matches.
    cbn [refCount pszFileNameAndOpenOptions pszOwner poDS Z.eqb].
    rewrite Hkey, Hown. reflexivity. }
  destruct res as [ds|].
  - eexists _, _. split; [exact Hun|]. split; [reflexivity|]. split; [reflexivity|].
    eexists. split; [reflexivity|].
    unfold delete_GDALProxyPoolDataset, CloseDatasetIfZeroRefCount.
    cbn [singleton thread set_cacheEntry GetDescription papszOpenOptions m_pszOwner d].
    rewrite GDALDataset_eqb_refl. cbn [CPLAssert].
    change (UnrefDataset 1 _)
      with (mkPool false 1 M 1 R (Z.max 0 (GetEstimatedRAMUsage ds))
              [mkEntry 1 pid (Some key) pszOwner0 (Some ds)
                       (Z.max 0 (GetEstimatedRAMUsage ds)) 0]).
    rewrite Hclose. reflexivity.
  - eexists _, _. split; [exact Hun|]. split; [reflexivity|]. split; [reflexivity|].
    unfold delete_GDALProxyPoolDataset, CloseDatasetIfZeroRefCount.
    cbn [singleton thread set_cacheEntry GetDescription papszOpenOptions m_pszOwner d].
    rewrite (proj2 (close_nothing_iff pszSourceDatasetDescription papszOpenOptionsIn
                      pszOwner0 _ _)).
    + reflexivity.
    + right. intros e [<-|[]] (_ & _ & _ & Hds). now apply Hds.
Qed.

Lemma X22_witness :
  singleton Ex2.world_none = None
  /\ refCountOfDisabledRefCount (thread Ex2.world_none) = 0
  /\ exists d' w',
       RefUnderlyingDataset Ex.backend true
         (mkProxy Ex.md_set Ex.mdi_set "A" [] GA_ReadOnly false 7 None None None None)
         (mkWorld (Some (mkPool false 1 100 0 1900 0 [])) Ex.thread7)
       = Some (Some Ex.dsA, d', w')
       /\ option_map pool_refCount (singleton w') = Some 1
       /\ thread w' = mkThread 7 0 [EvOpen "A" 66 [] 7 1 (Some Ex.dsA)]
       /\ exists w'',
            UnrefUnderlyingDataset Ex.dsA d' w' = Some w''
            /\ delete_GDALProxyPoolDataset d' w''
               = Some (mkWorld None
                         (mkThread 7 0 [EvClose Ex.dsA 7 1;
                                        EvOpen "A" 66 [] 7 1 (Some Ex.dsA)])).
Proof.
  split; [reflexivity|]. split; [reflexivity|].
  exact (X22_proxy_lifecycle Ex.backend Ex.md_set Ex.mdi_set Ex.config "A"
           GA_ReadOnly 0 None [] Ex2.world_none eq_refl eq_refl).
Defined.

(** X23.  [GDALProxyPoolRasterBand::RefUnderlyingRasterBand] returns in a
    well-formed pool.  When it returns null, no refcount of the pool has
    changed: if the dataset was obtained and has no such band, the reference
    taken on it has been given back.  When it returns a band, it is the band
    [nBand] of the dataset that the proxy's entry holds, and that entry has
    one reference more; a block size that was not known ([<= 0]) has been
    loaded from the band; and [UnrefUnderlyingRasterBand] gives the reference
    back. *)
Theorem X23_band_reference_balance B MD MDI U bForceOpen b
  (d : GDALProxyPoolDataset MD MDI) w p :
  singleton w = Some p ->
  pool_ok p ->
  exists r b' d' p' t',
    RefUnderlyingRasterBand B U bForceOpen b d w
    = Some (r, b', d', mkWorld (Some p') t')
    /\ pool_ok p'
    /\ curResponsiblePID t' = curResponsiblePID (thread w)
    /\ match r with
       | None => b' = b /\ forall x, refCount_at x p' = refCount_at x p
       | Some poBand =>
           exists ds a e,
             ds_GetRasterBand U ds (nBand b) = Some poBand
             /\ cacheEntry d' = Some a
             /\ entry_at a (entries p') = Some e /\ poDS e = Some ds
             /\ (forall x, refCount_at x p'
                           = refCount_at x p + if Nat.eqb x a then 1 else 0)
             /\ b' = (if (nBlockXSize b <=? 0) || (nBlockYSize b <=? 0)
                      then mkProxyBand (nBand b) (fst (GetBlockSize poBand))
                                       (snd (GetBlockSize poBand))
                      else b)
             /\ UnrefUnderlyingRasterBand (Some poBand) d' (mkWorld (Some p') t')
                = Some (mkWorld (Some (UnrefDataset a p'))
                          (CPLAssert (GDALDataset_eqb ds (GetDataset poBand)) t'))
             /\ forall x, refCount_at x (UnrefDataset a p') = refCount_at x p
       end.
Proof.
  intros Hw Hok.
  destruct (RefUnderlyingRasterBand_effect B MD MDI U bForceOpen b d w p Hw Hok)
    as (r & b' & d' & p' & t' & Hrun & Hok' & Hpid & Hr).
  exists r, b', d', p', t'. split; [exact Hrun|]. split; [exact Hok'|].
  split; [exact Hpid|].
  destruct r as [poBand|]; [|exact Hr].
  destruct Hr as (ds & a & e & rest & H1 & H2 & H3 & H4 & H5 & H6 & H7 & H8 & _ & H9).
  exists ds, a, e. split; [exact H1|]. split; [exact H2|].
  split; [rewrite H3, <- H4; apply head_entry_at|].
  repeat split; auto.
Qed.

Lemma X23_witness :
  singleton Ex.world_BA = Some Ex.pool_BA
  /\ pool_ok Ex.pool_BA
  /\ exists r b' d' p' t',
       RefUnderlyingRasterBand Ex.backend Ex2.underlying true Ex2.band1 Ex.proxy_A
         Ex.world_BA
       = Some (r, b', d', mkWorld (Some p') t')
       /\ pool_ok p'
       /\ curResponsiblePID t' = curResponsiblePID (thread Ex.world_BA)
       /\ match r with
          | None => b' = Ex2.band1
                    /\ forall x, refCount_at x p' = refCount_at x Ex.pool_BA
          | Some poBand =>
              exists ds a e,
                ds_GetRasterBand Ex2.underlying ds (nBand Ex2.band1) = Some poBand
                /\ cacheEntry d' = Some a
                /\ entry_at a (entries p') = Some e /\ poDS e = Some ds
                /\ (forall x, refCount_at x p'
                              = refCount_at x Ex.pool_BA
                                + if Nat.eqb x a then 1 else 0)
                /\ b' = (if (nBlockXSize Ex2.band1 <=? 0)
                            || (nBlockYSize Ex2.band1 <=? 0)
                         then mkProxyBand (nBand Ex2.band1)
                                (fst (GetBlockSize poBand))
                                (snd (GetBlockSize poBand))
                         else Ex2.band1)
                /\ UnrefUnderlyingRasterBand (Some poBand) d'
                     (mkWorld (Some p') t')
                   = Some (mkWorld (Some (UnrefDataset a p'))
                             (CPLAssert (GDALDataset_eqb ds (GetDataset poBand)) t'))
                /\ forall x, refCount_at x (UnrefDataset a p')
                             = refCount_at x Ex.pool_BA
          end.
Proof.
  split; [reflexivity|]. split; [exact pool_BA_ok|].
  exact (X23_band_reference_balance Ex.backend Ex.md_set Ex.mdi_set Ex2.underlying
           true Ex2.band1 Ex.proxy_A Ex.world_BA Ex.pool_BA eq_refl pool_BA_ok).
Defined.

(** X24.  [GDALProxyPoolOverviewRasterBand::RefUnderlyingRasterBand] and
    [GDALProxyPoolMaskBand::RefUnderlyingRasterBand] return what
    [GetOverview] and [GetMaskBand] of the main band return, after taking the
    main band: whenever the main band was obtained,
    [nRefCountUnderlyingMainRasterBand] is one higher and the entry of the
    proxy has one reference more, also when the overview (or the mask) does
    not exist and null is returned.  Their [UnrefUnderlyingRasterBand] brings
    both back.  When the main band was not obtained, null is returned and
    neither has changed. *)
Theorem X24_overview_and_mask_references B MD MDI U bForceOpen o m poMainBand
  (d : GDALProxyPoolDataset MD MDI) w p :
  singleton w = Some p ->
  pool_ok p ->
  (exists r o' b' d' p' t',
     Overview_RefUnderlyingRasterBand B U bForceOpen o poMainBand d w
     = Some (r, o', b', d', mkWorld (Some p') t')
     /\ nOverviewBand o' = nOverviewBand o
     /\ match ovr_poUnderlyingMainRasterBand o' with
        | None =>
            r = None
            /\ ovr_nRefCountUnderlyingMainRasterBand o'
               = ovr_nRefCountUnderlyingMainRasterBand o
            /\ forall x, refCount_at x p' = refCount_at x p
        | Some main =>
            r = band_GetOverview U main (nOverviewBand o)
            /\ ovr_nRefCountUnderlyingMainRasterBand o'
               = ovr_nRefCountUnderlyingMainRasterBand o + 1
            /\ exists a,
                 cacheEntry d' = Some a
                 /\ (forall x, refCount_at x p'
                               = refCount_at x p + if Nat.eqb x a then 1 else 0)
                 /\ exists o'' t'',
                      Overview_UnrefUnderlyingRasterBand o' d' (mkWorld (Some p') t')
                      = Some (o'', mkWorld (Some (UnrefDataset a p')) t'')
                      /\ ovr_nRefCountUnderlyingMainRasterBand o''
                         = ovr_nRefCountUnderlyingMainRasterBand o
                      /\ forall x, refCount_at x (UnrefDataset a p')
                                   = refCount_at x p
        end)
  /\ (exists r m' b' d' p' t',
        Mask_RefUnderlyingRasterBand B U bForceOpen m poMainBand d w
        = Some (r, m', b', d', mkWorld (Some p') t')
        /\ match mask_poUnderlyingMainRasterBand m' with
           | None =>
               r = None
               /\ mask_nRefCountUnderlyingMainRasterBand m'
                  = mask_nRefCountUnderlyingMainRasterBand m
               /\ forall x, refCount_at x p' = refCount_at x p
           | Some main =>
               r = band_GetMaskBand U main
               /\ mask_nRefCountUnderlyingMainRasterBand m'
                  = mask_nRefCountUnderlyingMainRasterBand m + 1
               /\ exists a,
                    cacheEntry d' = Some a
                    /\ (forall x, refCount_at x p'
                                  = refCount_at x p + if Nat.eqb x a then 1 else 0)
                    /\ exists m'' t'',
                         Mask_UnrefUnderlyingRasterBand m' d' (mkWorld (Some p') t')
                         = Some (m'', mkWorld (Some (UnrefDataset a p')) t'')
                         /\ mask_nRefCountUnderlyingMainRasterBand m''
                            = mask_nRefCountUnderlyingMainRasterBand m
                         /\ forall x, refCount_at x (UnrefDataset a p')
                                      = refCount_at x p
           end).
Proof.
  intros Hw Hok.
  destruct (RefUnderlyingRasterBand_effect B MD MDI U bForceOpen poMainBand d w p
              Hw Hok)
    as (r & b' & d' & p' & t' & Hrun & Hok' & Hpid & Hr).
  split.
  - unfold Overview_RefUnderlyingRasterBand. rewrite Hrun.
    destruct r as [main|].
    + destruct Hr as (ds & a & e & rest & _ & Hc & _ & _ & _ & Hrc & _ & Hun & _ & Hbal).
      eexists _, _, _, _, _, _. split; [reflexivity|]. split; [reflexivity|].
      cbn [ovr_poUnderlyingMainRasterBand ovr_nRefCountUnderlyingMainRasterBand
           nOverviewBand].
      split; [reflexivity|]. split; [reflexivity|].
      exists a. split; [exact Hc|]. split; [exact Hrc|].
      unfold Overview_UnrefUnderlyingRasterBand.
      cbn [ovr_poUnderlyingMainRasterBand ovr_nRefCountUnderlyingMainRasterBand
           nOverviewBand].
      rewrite Hun.
      eexists _, _. split; [reflexivity|]. split; [cbn; lia|exact Hbal].
    + destruct Hr as [_ Hrc].
      eexists _, _, _, _, _, _. split; [reflexivity|]. split; [reflexivity|].
      cbn. auto.
  - unfold Mask_RefUnderlyingRasterBand. rewrite Hrun.
    destruct r as [main|].
    + destruct Hr as (ds & a & e & rest & _ & Hc & _ & _ & _ & Hrc & _ & Hun & _ & Hbal).
      eexists _, _, _, _, _, _. split; [reflexivity|].
      cbn [mask_poUnderlyingMainRasterBand mask_nRefCountUnderlyingMainRasterBand].
      split; [reflexivity|]. split; [reflexivity|].
      exists a. split; [exact Hc|]. split; [exact Hrc|].
      unfold Mask_UnrefUnderlyingRasterBand.
      cbn [mask_poUnderlyingMainRasterBand mask_nRefCountUnderlyingMainRasterBand].
      rewrite Hun.
      eexists _, _. split; [reflexivity|]. split; [cbn; lia|exact Hbal].
    + destruct Hr as [_ Hrc].
      eexists _, _, _, _, _, _. split; [reflexivity|]. cbn. auto.
Qed.

Lemma X24_witness :
  singleton Ex.world_BA = Some Ex.pool_BA
  /\ pool_ok Ex.pool_BA
  /\ exists r o' b' d' p' t',
       Overview_RefUnderlyingRasterBand Ex.backend Ex2.underlying true Ex2.overview5
         Ex2.band1 Ex.proxy_A Ex.world_BA
       = Some (r, o', b', d', mkWorld (Some p') t')
       /\ nOverviewBand o' = nOverviewBand Ex2.overview5
       /\ match ovr_poUnderlyingMainRasterBand o' with
          | None =>
              r = None
              /\ ovr_nRefCountUnderlyingMainRasterBand o'
                 = ovr_nRefCountUnderlyingMainRasterBand Ex2.overview5
              /\ forall x, refCount_at x p' = refCount_at x Ex.pool_BA
          | Some main =>
              r = band_GetOverview Ex2.underlying main (nOverviewBand Ex2.overview5)
              /\ ovr_nRefCountUnderlyingMainRasterBand o'
                 = ovr_nRefCountUnderlyingMainRasterBand Ex2.overview5 + 1
              /\ exists a,
                   cacheEntry d' = Some a
                   /\ (forall x, refCount_at x p'
                                 = refCount_at x Ex.pool_BA
                                   + if Nat.eqb x a then 1 else 0)
                   /\ exists o'' t'',
                        Overview_UnrefUnderlyingRasterBand o' d'
                          (mkWorld (Some p') t')
                        = Some (o'', mkWorld (Some (UnrefDataset a p')) t'')
                        /\ ovr_nRefCountUnderlyingMainRasterBand o''
                           = ovr_nRefCountUnderlyingMainRasterBand Ex2.overview5
                        /\ forall x, refCount_at x (UnrefDataset a p')
                                     = refCount_at x Ex.pool_BA
          end.
Proof.
  split; [reflexivity|]. split; [exact pool_BA_ok|].
  exact (proj1 (X24_overview_and_mask_references Ex.backend Ex.md_set Ex.mdi_set
                  Ex2.underlying true Ex2.overview5 Ex2.mask Ex2.band1 Ex.proxy_A
                  Ex.world_BA Ex.pool_BA eq_refl pool_BA_ok)).
Defined.

(** X25.  The eviction for RAM is not entered when the pool has no positive
    RAM budget ([nMaxRAMUsage <= 0]), when the open failed, or when the
    estimate of the new dataset is not positive: the second half of
    [_RefDataset] then only stores the result of the open in the entry and
    lowers [refCountOfDisabledRefCount]; no dataset is closed, whatever the
    RAM of the pool.  A negative estimate is recorded as [0]. *)
Theorem X25_no_eviction_without_budget responsiblePID0 cur res p t c0 :
  entry_at cur (entries p) = Some c0 ->
  nRAMUsage c0 = 0 ->
  nMaxRAMUsage p <= 0
  \/ res = None
  \/ (exists ds, res = Some ds /\ GetEstimatedRAMUsage ds <= 0) ->
  _RefDataset_complete responsiblePID0 cur res p t
  = Some (stored cur res c0 p, decr_disabled t)
  /\ log (decr_disabled t) = log t
  /\ (forall ds, res = Some ds -> GetEstimatedRAMUsage ds <= 0 ->
        nRAMUsage (opened res c0) = 0
        /\ pool_nRAMUsage (stored cur res c0 p) = pool_nRAMUsage p).
Proof.
  intros Hc Hz Hwhy. split; [|split; [reflexivity|]].
  - rewrite (complete_unfold _ _ _ _ _ _ Hc).
    replace ((0 <? nMaxRAMUsage p) && (0 <? nRAMUsage (opened res c0))) with false;
      [reflexivity|].
    symmetry. apply andb_false_iff.
    destruct Hwhy as [H|[->|(ds & -> & H)]].
    + left. apply Z.ltb_ge. exact H.
    + right. cbn. apply Z.ltb_ge. lia.
    + right. cbn. apply Z.ltb_ge. lia.
  - intros ds -> Hle. unfold stored. cbn. lia.
Qed.

Lemma X25_witness :
  entry_at 1 (entries (mkPool false 0 2 1 0 0 [Ex.eA_opening])) = Some Ex.eA_opening
  /\ nRAMUsage Ex.eA_opening = 0
  /\ _RefDataset_complete 7 1 (Some Ex.dsA) (mkPool false 0 2 1 0 0 [Ex.eA_opening])
       Ex.thread7_opening
     = Some (stored 1 (Some Ex.dsA) Ex.eA_opening
               (mkPool false 0 2 1 0 0 [Ex.eA_opening]),
             decr_disabled Ex.thread7_opening)
  /\ log (decr_disabled Ex.thread7_opening) = log Ex.thread7_opening
  /\ (forall ds, Some Ex.dsA = Some ds -> GetEstimatedRAMUsage ds <= 0 ->
        nRAMUsage (opened (Some Ex.dsA) Ex.eA_opening) = 0
        /\ pool_nRAMUsage (stored 1 (Some Ex.dsA) Ex.eA_opening
                             (mkPool false 0 2 1 0 0 [Ex.eA_opening]))
           = pool_nRAMUsage (mkPool false 0 2 1 0 0 [Ex.eA_opening])).
Proof.
  split; [reflexivity|]. split; [reflexivity|].
  apply (X25_no_eviction_without_budget 7 1%nat (Some Ex.dsA)
           (mkPool false 0 2 1 0 0 [Ex.eA_opening]) Ex.thread7_opening Ex.eA_opening).
  - reflexivity.
  - reflexivity.
  - left. cbn. lia.
Defined.

(** X26.  [_RefDataset] returns null in three situations only: the pool is
    being destroyed; no entry matches and the open is not forced; or no entry
    matches, the pool is at capacity and every entry is referenced.  In all
    three the pool is left as it was.  So it never returns null because of
    the RAM budget, nor because the open itself failed: it then returns the
    entry, which holds no dataset. *)
Theorem X26_when_RefDataset_returns_null B pszFileName eAccess papszOpenOptions
  bShared bForceOpen pszOwner0 p t r p' t' :
  pool_ok p ->
  _RefDataset B pszFileName eAccess papszOpenOptions bShared bForceOpen
              pszOwner0 p t = Some (r, p', t') ->
  let key := GetFilenameAndOpenOptions pszFileName papszOpenOptions in
  let pid := curResponsiblePID t in
  (r = None
   <-> bInDestruction p = true
       \/ ((forall x, In x (entries p) -> ~ matching_rule key bShared pid pszOwner0 x)
           /\ (bForceOpen = false
               \/ (currentSize p = maxSize p
                   /\ forall x, In x (entries p) -> refCount x <> 0))))
  /\ (r = None -> p' = p).
Proof.
  intros Hok Hrun key pid.
  unfold _RefDataset in Hrun.
  destruct (_RefDataset_prepare pszFileName papszOpenOptions bShared bForceOpen
              pszOwner0 p t) as [[pr p1] t1] eqn:Hprep.
  destruct (prepare_null_iff _ _ _ _ _ _ _ _ _ _ (ok_addresses _ Hok) Hprep)
    as [Hiff Hsame].
  fold key pid in Hiff.
  split.
  - destruct pr as [r0|cur].
    + injection Hrun as Hr _ _. subst r0. split.
      * intros ->. now apply Hiff.
      * intros H. apply Hiff in H. congruence.
    + unfold do_Open in Hrun.
      destruct (_RefDataset_complete _ cur _ p1 _) as [[p2 t2]|]; [|discriminate].
      injection Hrun as Hr _ _. subst r. split; [discriminate|].
      intros H. apply Hiff in H. discriminate.
  - intros ->. destruct pr as [r0|cur].
    + injection Hrun as -> <- _. now apply Hsame.
    + unfold do_Open in Hrun.
      destruct (_RefDataset_complete _ cur _ p1 _) as [[p2 t2]|]; discriminate.
Qed.

Lemma X26_witness :
  pool_ok Ex.pool_busy
  /\ ((None : option nat) = None
      <-> bInDestruction Ex.pool_busy = true
          \/ ((forall x, In x (entries Ex.pool_busy) ->
                 ~ matching_rule (GetFilenameAndOpenOptions "C" []) false
                     (curResponsiblePID Ex.thread7) None x)
              /\ (true = false
                  \/ (currentSize Ex.pool_busy = maxSize Ex.pool_busy
                      /\ forall x, In x (entries Ex.pool_busy) -> refCount x <> 0))))
  /\ ((None : option nat) = None -> Ex.pool_busy = Ex.pool_busy).
Proof.
  split; [exact pool_busy_ok|].
  apply (X26_when_RefDataset_returns_null Ex.backend "C" GA_ReadOnly [] false true
           None Ex.pool_busy Ex.thread7 None Ex.pool_busy
           (emit (EvCPLError 2) Ex.thread7) pool_busy_ok).
  reflexivity.
Defined.

(** X27.  [GDALProxyPoolRasterBand::GetOverview] (for an index [>= 0])
    returns in a well-formed pool and leaves every refcount of the pool as it
    was.  The proxy that it returns for an overview is kept in
    [papoProxyOverviewRasterBand] at that index, the array being grown to
    hold it and its other elements kept; asked again for the same index,
    [GetOverview] returns that same proxy without going to the pool or to the
    underlying band.  When it returns null, the array is unchanged. *)
Theorem X27_GetOverview_keeps_its_proxies B MD MDI U nOverviewBand0 c b
  (d : GDALProxyPoolDataset MD MDI) w p :
  singleton w = Some p ->
  pool_ok p ->
  0 <= nOverviewBand0 ->
  exists r c' b' d' p' t',
    GetOverview B U nOverviewBand0 c b d w
    = Some (r, c', b', d', mkWorld (Some p') t')
    /\ pool_ok p'
    /\ (forall x, refCount_at x p' = refCount_at x p)
    /\ match r with
       | None => c' = c
       | Some o =>
           nth_error (papoProxyOverviewRasterBand c') (Z.to_nat nOverviewBand0)
           = Some (Some o)
           /\ (forall b2 (d2 : GDALProxyPoolDataset MD MDI) w2,
                 GetOverview B U nOverviewBand0 c' b2 d2 w2
                 = Some (Some o, c', b2, d2, w2))
           /\ poProxyMaskBand c' = poProxyMaskBand c
           /\ List.length (papoProxyOverviewRasterBand c')
              = Nat.max (List.length (papoProxyOverviewRasterBand c))
                        (S (Z.to_nat nOverviewBand0))
           /\ (forall i x, i <> Z.to_nat nOverviewBand0 ->
                 nth_error (papoProxyOverviewRasterBand c) i = Some x ->
                 nth_error (papoProxyOverviewRasterBand c') i = Some x)
       end.
Proof.
  intros Hw Hok Hpos.
  destruct (GetOverview_effect B MD MDI U nOverviewBand0 c b d w p Hw Hok Hpos)
    as (r & c' & b' & d' & p' & t' & Hrun & Hok' & Hbal & Hr).
  exists r, c', b', d', p', t'. split; [exact Hrun|]. split; [exact Hok'|].
  split; [exact Hbal|].
  destruct r as [o|]; [|exact Hr].
  destruct Hr as (H1 & H2 & H3 & H4).
  split; [exact H1|]. split; [|auto].
  intros b2 d2 w2. now apply GetOverview_cached.
Qed.

Lemma X27_witness :
  singleton Ex.world_BA = Some Ex.pool_BA
  /\ pool_ok Ex.pool_BA
  /\ 0 <= 0
  /\ exists r c' b' d' p' t',
       GetOverview Ex.backend Ex2.underlying 0 Ex2.caches Ex2.band1 Ex.proxy_A
         Ex.world_BA
       = Some (r, c', b', d', mkWorld (Some p') t')
       /\ pool_ok p'
       /\ (forall x, refCount_at x p' = refCount_at x Ex.pool_BA)
       /\ match r with
          | None => c' = Ex2.caches
          | Some o =>
              nth_error (papoProxyOverviewRasterBand c') (Z.to_nat 0)
              = Some (Some o)
              /\ (forall b2 (d2 : GDALProxyPoolDataset Ex.md_set Ex.mdi_set) w2,
                    GetOverview Ex.backend Ex2.underlying 0 c' b2 d2 w2
                    = Some (Some o, c', b2, d2, w2))
              /\ poProxyMaskBand c' = poProxyMaskBand Ex2.caches
              /\ List.length (papoProxyOverviewRasterBand c')
                 = Nat.max (List.length (papoProxyOverviewRasterBand Ex2.caches))
                           (S (Z.to_nat 0))
              /\ (forall i x, i <> Z.to_nat 0 ->
                    nth_error (papoProxyOverviewRasterBand Ex2.caches) i = Some x ->
                    nth_error (papoProxyOverviewRasterBand c') i = Some x)
          end.
Proof.
  split; [reflexivity|]. split; [exact pool_BA_ok|]. split; [lia|].
  apply (X27_GetOverview_keeps_its_proxies Ex.backend Ex.md_set Ex.mdi_set
           Ex2.underlying 0 Ex2.caches Ex2.band1 Ex.proxy_A Ex.world_BA Ex.pool_BA
           eq_refl pool_BA_ok).
  lia.
Defined.

(** X28.  [GetMaskBand] and [AddSrcMaskBandDescriptionFromUnderlying] do
    nothing when the band has its mask proxy already: [GetMaskBand] returns
    it, and neither the pool nor the underlying band is touched.  When there
    is none yet, and the underlying bands do have a mask band, both return
    and leave every refcount as it was; the proxy they make is kept in
    [poProxyMaskBand], with the band number of the underlying mask band
    ([1] for the description) and its block size.  They do not test the mask
    band of the underlying band for null: if it is null, it is
    dereferenced. *)
Theorem X28_mask_proxy_made_once B MD MDI U c b
  (d : GDALProxyPoolDataset MD MDI) w p :
  singleton w = Some p ->
  pool_ok p ->
  (forall m, poProxyMaskBand c = Some m ->
     GetMaskBand B U c b d w = Some (Some m, c, b, d, w)
     /\ AddSrcMaskBandDescriptionFromUnderlying B U c b d w = Some (c, b, d, w))
  /\ (poProxyMaskBand c = None ->
      (forall poBand, band_GetMaskBand U poBand <> None) ->
      (exists r c' b' d' p' t',
         GetMaskBand B U c b d w = Some (r, c', b', d', mkWorld (Some p') t')
         /\ pool_ok p'
         /\ (forall x, refCount_at x p' = refCount_at x p)
         /\ match r with
            | None => c' = c
            | Some m =>
                poProxyMaskBand c' = Some m
                /\ papoProxyOverviewRasterBand c' = papoProxyOverviewRasterBand c
                /\ exists poBand poMaskBand,
                     band_GetMaskBand U poBand = Some poMaskBand
                     /\ mask_base m = band_of_underlying poMaskBand
            end)
      /\ (exists c' b' d' p' t',
            AddSrcMaskBandDescriptionFromUnderlying B U c b d w
            = Some (c', b', d', mkWorld (Some p') t')
            /\ pool_ok p'
            /\ (forall x, refCount_at x p' = refCount_at x p)
            /\ papoProxyOverviewRasterBand c' = papoProxyOverviewRasterBand c
            /\ (c' = c
                \/ exists poBand poSrcMaskBand,
                     band_GetMaskBand U poBand = Some poSrcMaskBand
                     /\ poProxyMaskBand c'
                        = Some (mkMaskBandObject
                                  (mkProxyBand 1 (fst (GetBlockSize poSrcMaskBand))
                                               (snd (GetBlockSize poSrcMaskBand)))
                                  (mkMaskBand None 0)))))
  /\ (poProxyMaskBand c = None ->
      forall poBand b' d' w',
        RefUnderlyingRasterBand B U true b d w = Some (Some poBand, b', d', w') ->
        band_GetMaskBand U poBand = None ->
        GetMaskBand B U c b d w = None
        /\ AddSrcMaskBandDescriptionFromUnderlying B U c b d w = None).
Proof.
  intros Hw Hok. split; [|split].
  - intros m Hm. unfold GetMaskBand, AddSrcMaskBandDescriptionFromUnderlying.
    now rewrite Hm.
  - intros Hnone Hmask. now apply GetMaskBand_effect.
  - intros Hnone poBand b' d' w' Hrun Hm.
    unfold GetMaskBand, AddSrcMaskBandDescriptionFromUnderlying.
    now rewrite Hnone, Hrun, Hm.
Qed.

Lemma X28_witness :
  singleton Ex.world_BA = Some Ex.pool_BA
  /\ pool_ok Ex.pool_BA
  /\ poProxyMaskBand Ex2.caches = None
  /\ (forall poBand, band_GetMaskBand Ex2.underlying poBand <> None)
  /\ exists r c' b' d' p' t',
       GetMaskBand Ex.backend Ex2.underlying Ex2.caches Ex2.band1 Ex.proxy_A
         Ex.world_BA
       = Some (r, c', b', d', mkWorld (Some p') t')
       /\ pool_ok p'
       /\ (forall x, refCount_at x p' = refCount_at x Ex.pool_BA)
       /\ match r with
          | None => c' = Ex2.caches
          | Some m =>
              poProxyMaskBand c' = Some m
              /\ papoProxyOverviewRasterBand c'
                 = papoProxyOverviewRasterBand Ex2.caches
              /\ exists poBand poMaskBand,
                   band_GetMaskBand Ex2.underlying poBand = Some poMaskBand
                   /\ mask_base m = band_of_underlying poMaskBand
          end.
Proof.
  assert (Hmask : forall poBand, band_GetMaskBand Ex2.underlying poBand <> None)
    by discriminate.
  split; [reflexivity|]. split; [exact pool_BA_ok|]. split; [reflexivity|].
  split; [exact Hmask|].
  destruct (X28_mask_proxy_made_once Ex.backend Ex.md_set Ex.mdi_set Ex2.underlying
              Ex2.caches Ex2.band1 Ex.proxy_A Ex.world_BA Ex.pool_BA
              eq_refl pool_BA_ok) as (_ & H & _).
  exact (proj1 (H eq_refl Hmask)).
Defined.
